(** * Wizard rules engine: cards, hands, tricks, rounds and the game

    A shallow embedding of [src/game_logic] (card.py, deck.py,
    apprentice.py, trick.py, round.py, game.py) and the properties of
    the trick/round core that the specification states about it,
    followed by what the code itself shows of the round and the game.

    Python integers are [Z]; Python lists are [list]; the insertion
    ordered dict of a trick is an association list whose keys are kept
    unique by [Trick.play_card]; [Apprentice] objects are shared between
    the round, the tricks and the caller, so they live in a store indexed
    by object identity ([ref]). *)

From Stdlib Require Import ZArith List Bool String Lia Permutation.
Import ListNotations.
Local Open Scope Z_scope.

(** ** Python-level plumbing: exceptions, mutation, indexing *)

Inductive exn : Set :=
| ValueError
| IndexError
| TypeError
| ZeroDivisionError.

(** A computation that reads but does not mutate: it returns or raises. *)
Inductive result (A : Type) : Type :=
| Ok (a : A)
| Err (e : exn).
Arguments Ok {A} a.
Arguments Err {A} e.

(** A method that may mutate: the state it leaves behind is part of the
    outcome on both paths, since a Python exception does not roll back
    the assignments made before it was raised. *)
Inductive outcome (S A : Type) : Type :=
| Returns (s : S) (a : A)
| Raises (s : S) (e : exn).
Arguments Returns {S A} s a.
Arguments Raises {S A} s e.

Definition M (S A : Type) : Type := S -> outcome S A.

Definition ret {S A} (a : A) : M S A := fun s => Returns s a.

Definition raise {S A} (e : exn) : M S A := fun s => Raises s e.

Definition bind {S A B} (m : M S A) (k : A -> M S B) : M S B :=
  fun s => match m s with
           | Returns s' a => k a s'
           | Raises s' e => Raises s' e
           end.

Definition get {S} : M S S := fun s => Returns s s.

Definition put {S} (s : S) : M S unit := fun _ => Returns s tt.

Definition modify {S} (f : S -> S) : M S unit := fun s => Returns (f s) tt.

Definition lift {S A} (r : result A) : M S A :=
  fun s => match r with
           | Ok a => Returns s a
           | Err e => Raises s e
           end.

(** Run a method of a sub-object (an attribute, a stored object) inside
    a method of its owner. *)
Definition zoom {S T A} (proj : S -> T) (upd : T -> S -> S) (m : M T A) : M S A :=
  fun s => match m (proj s) with
           | Returns t a => Returns (upd t s) a
           | Raises t e => Raises (upd t s) e
           end.

Definition final_state {S A} (o : outcome S A) : S :=
  match o with
  | Returns s _ => s
  | Raises s _ => s
  end.

Declare Scope py_scope.
Delimit Scope py_scope with py.
Notation "x <- m ;; k" := (bind m (fun x => k))
  (at level 61, m at next level, right associativity) : py_scope.
Notation "m ;;; k" := (bind m (fun _ => k))
  (at level 61, right associativity) : py_scope.
Local Open Scope py_scope.

(** [for x in xs: body(x)] *)
Fixpoint for_each {S A} (xs : list A) (body : A -> M S unit) : M S unit :=
  match xs with
  | [] => ret tt
  | x :: xs' => body x ;;; for_each xs' body
  end.

(** [len(l)] as a Python int. *)
Definition len {A} (l : list A) : Z := Z.of_nat (List.length l).

(** [l[i]]: negative indices count from the end, anything else out of
    range raises IndexError. *)
Definition py_getitem {A} (l : list A) (i : Z) : result A :=
  let j := if i <? 0 then i + len l else i in
  if (j <? 0) || (len l <=? j) then Err IndexError
  else match nth_error l (Z.to_nat j) with
       | Some x => Ok x
       | None => Err IndexError
       end.

(** The clamped bound of a slice index. *)
Definition slice_bound {A} (l : list A) (n : Z) : nat :=
  if n <? 0 then Z.to_nat (Z.max 0 (len l + n)) else Z.to_nat n.

(** [l[:n]] and [l[n:]]. *)
Definition slice_to {A} (l : list A) (n : Z) : list A := firstn (slice_bound l n) l.

Definition slice_from {A} (l : list A) (n : Z) : list A := skipn (slice_bound l n) l.

(** [range(n)] *)
Definition range (n : Z) : list Z := map Z.of_nat (seq 0 (Z.to_nat n)).

(** [i in l] for a list of ints. *)
Definition mem (i : Z) (l : list Z) : bool := existsb (Z.eqb i) l.

(** [l.pop(i)] for an index already known to be in [0, len l). *)
Fixpoint remove_nth {A} (n : nat) (l : list A) : list A :=
  match l, n with
  | [], _ => []
  | _ :: l', O => l'
  | x :: l', S n' => x :: remove_nth n' l'
  end.

(** Identity of an [Apprentice] object.  The class defines neither
    [__eq__] nor [__hash__], so [==], [!=], [in] on dict keys and
    [list.index] all compare identities. *)
Definition ref : Set := nat.

Definition ref_eqb : ref -> ref -> bool := Nat.eqb.

(** [d[k] = v] on an insertion-ordered dict: an existing key keeps its
    place, a new one goes last. *)
Fixpoint dict_set {V} (d : list (ref * V)) (k : ref) (v : V) : list (ref * V) :=
  match d with
  | [] => [(k, v)]
  | (k', v') :: d' => if ref_eqb k k' then (k', v) :: d' else (k', v') :: dict_set d' k v
  end.

(** [k in d] *)
Definition dict_mem {V} (d : list (ref * V)) (k : ref) : bool :=
  existsb (fun kv => ref_eqb k (fst kv)) d.

(** ** card.py *)

Inductive CardType : Set := REGULAR | WIZARD | FOOL.

Inductive CardColor : Set := HUMANS | ELVES | DWARVES | GIANTS | NONE.

Definition CardType_eq_dec (a b : CardType) : {a = b} + {a <> b}.
Proof. decide equality. Defined.

Definition CardColor_eq_dec (a b : CardColor) : {a = b} + {a <> b}.
Proof. decide equality. Defined.

Definition CardType_eqb (a b : CardType) : bool :=
  if CardType_eq_dec a b then true else false.

Definition CardColor_eqb (a b : CardColor) : bool :=
  if CardColor_eq_dec a b then true else false.

(** [color == c] where [c] is an [Optional[CardColor]]: the Python value
    [None] is not the enum member [CardColor.NONE] and equals no member. *)
Definition color_is (c : CardColor) (o : option CardColor) : bool :=
  match o with
  | Some d => CardColor_eqb c d
  | None => false
  end.

(** [a > b] on two [Optional[int]] attributes: Python 3 refuses to order
    [None]. *)
Definition py_gt (a b : option Z) : result bool :=
  match a, b with
  | Some x, Some y => Ok (y <? x)
  | _, _ => Err TypeError
  end.

Module Card.

Record t : Set := mk {
  card_type : CardType;
  color : CardColor;
  value : option Z
}.

(** [Card.__init__] *)
Definition init (card_type : CardType) (color : option CardColor) (value : option Z)
  : result t :=
  match card_type with
  | REGULAR =>
      match color with
      | None => Err ValueError
      | Some NONE => Err ValueError
      | Some c =>
          match value with
          | None => Err ValueError
          | Some v =>
              if negb ((1 <=? v) && (v <=? 13)) then Err ValueError
              else Ok (mk REGULAR c (Some v))
          end
      end
  | WIZARD => Ok (mk WIZARD NONE None)
  | FOOL => Ok (mk FOOL NONE None)
  end.

(** [Card.is_higher_than] *)
Definition is_higher_than (self other : t) (trump_color led_color : option CardColor)
  : result bool :=
  if CardType_eqb (card_type self) WIZARD then Ok true
  else if CardType_eqb (card_type other) WIZARD then Ok false
  else if CardType_eqb (card_type self) FOOL then Ok false
  else if CardType_eqb (card_type other) FOOL then Ok true
  else if color_is (color self) trump_color && negb (color_is (color other) trump_color)
  then Ok true
  else if negb (color_is (color self) trump_color) && color_is (color other) trump_color
  then Ok false
  else if CardColor_eqb (color self) (color other)
  then py_gt (value self) (value other)
  else if color_is (color self) led_color && negb (color_is (color other) led_color)
  then Ok true
  else Ok false.

(** The cards that exist: those some call of the constructor returns. *)
Definition wf (c : t) : Prop :=
  exists ty co va, init ty co va = Ok c.

Definition eq_dec (a b : t) : {a = b} + {a <> b}.
Proof.
  decide equality.
  - decide equality. apply Z.eq_dec.
  - apply CardColor_eq_dec.
  - apply CardType_eq_dec.
Defined.

End Card.

(** Shorthands for the three ways of building a card. *)
Definition Regular (c : CardColor) (v : Z) : Card.t := Card.mk REGULAR c (Some v).

Definition Wizard : Card.t := Card.mk WIZARD NONE None.

Definition Fool : Card.t := Card.mk FOOL NONE None.

(** ** apprentice.py *)

Module Apprentice.

Record t : Type := mk {
  name : string;
  hand : list Card.t;
  prediction : option Z;
  tricks_won : Z;
  experience_points : Z;
  is_dealer : bool;
  is_confidant : bool
}.

Definition set_hand (h : list Card.t) (a : t) : t :=
  mk (name a) h (prediction a) (tricks_won a) (experience_points a)
     (is_dealer a) (is_confidant a).

Definition set_prediction (p : option Z) (a : t) : t :=
  mk (name a) (hand a) p (tricks_won a) (experience_points a)
     (is_dealer a) (is_confidant a).

Definition set_tricks_won (n : Z) (a : t) : t :=
  mk (name a) (hand a) (prediction a) n (experience_points a)
     (is_dealer a) (is_confidant a).

Definition set_experience_points (n : Z) (a : t) : t :=
  mk (name a) (hand a) (prediction a) (tricks_won a) n
     (is_dealer a) (is_confidant a).

Definition set_is_dealer (b : bool) (a : t) : t :=
  mk (name a) (hand a) (prediction a) (tricks_won a) (experience_points a)
     b (is_confidant a).

Definition set_is_confidant (b : bool) (a : t) : t :=
  mk (name a) (hand a) (prediction a) (tricks_won a) (experience_points a)
     (is_dealer a) b.

(** [Apprentice.__init__] *)
Definition init (name : string) : t := mk name [] None 0 0 false false.

(** [Apprentice.receive_cards] *)
Definition receive_cards (cards : list Card.t) : M t unit :=
  modify (fun self => set_hand (hand self ++ cards) self).

(** [Apprentice.make_prediction] *)
Definition make_prediction (prediction : Z) : M t unit :=
  if prediction <? 0 then raise ValueError
  else modify (set_prediction (Some prediction)).

(** [Apprentice.play_card] *)
Definition play_card (card_index : Z) : M t Card.t :=
  self <- get ;;
  if (card_index <? 0) || (len (hand self) <=? card_index) then raise IndexError
  else match nth_error (hand self) (Z.to_nat card_index) with
       | None => raise IndexError
       | Some card =>
           put (set_hand (remove_nth (Z.to_nat card_index) (hand self)) self) ;;;
           ret card
       end.

(** [Apprentice.can_follow_color] *)
Definition can_follow_color (self : t) (color : CardColor) : bool :=
  existsb (fun card => CardColor_eqb (Card.color card) color) (hand self).

(** The loop of [get_playable_cards] over [enumerate(self.hand)],
    started at index [i]. *)
Fixpoint playable_from (i : Z) (hand : list Card.t) (led_color : CardColor) : list Z :=
  match hand with
  | [] => []
  | card :: rest =>
      if CardColor_eqb (Card.color card) led_color || CardColor_eqb (Card.color card) NONE
      then i :: playable_from (i + 1) rest led_color
      else playable_from (i + 1) rest led_color
  end.

(** [Apprentice.get_playable_cards] *)
Definition get_playable_cards (self : t) (led_color : option CardColor) : list Z :=
  match led_color with
  | None => range (len (hand self))
  | Some lc =>
      if negb (can_follow_color self lc) then range (len (hand self))
      else playable_from 0 (hand self) lc
  end.

(** [Apprentice.win_trick] *)
Definition win_trick : M t unit :=
  modify (fun self => set_tricks_won (tricks_won self + 1) self).

(** [Apprentice.calculate_round_points] *)
Definition calculate_round_points (self : t) : result Z :=
  match prediction self with
  | None => Err ValueError
  | Some p =>
      if p =? tricks_won self then Ok (20 + 10 * tricks_won self)
      else let difference := Z.abs (p - tricks_won self) in
           Ok (-10 * difference)
  end.

(** [Apprentice.add_experience_points] *)
Definition add_experience_points (points : Z) : M t unit :=
  modify (fun self => set_experience_points (experience_points self + points) self).

(** [Apprentice.reset_for_new_round] *)
Definition reset_for_new_round : M t unit :=
  modify (fun self => set_tricks_won 0 (set_prediction None (set_hand [] self))).

End Apprentice.

(** The object store: every [Apprentice] reference denotes an object. *)
Definition heap : Type := ref -> Apprentice.t.

Definition heap_set (r : ref) (a : Apprentice.t) (h : heap) : heap :=
  fun r' => if ref_eqb r' r then a else h r'.

(** Call a method on the stored object [r]. *)
Definition at_ref {A} (r : ref) (m : M Apprentice.t A) : M heap A :=
  zoom (fun h => h r) (heap_set r) m.

(** [a % b] on Python ints: the sign of the divisor, as [Z.modulo]. *)
Definition py_mod (a b : Z) : result Z :=
  if b =? 0 then Err ZeroDivisionError else Ok (a mod b).

(** [l.index(x)] *)
Fixpoint index_from (i : Z) (l : list ref) (x : ref) : result Z :=
  match l with
  | [] => Err ValueError
  | y :: l' => if ref_eqb y x then Ok i else index_from (i + 1) l' x
  end.

Definition py_index (l : list ref) (x : ref) : result Z := index_from 0 l x.

(** ** deck.py *)

Module Deck.

Record t : Set := mk { cards : list Card.t }.

(** [Deck._initialize_cards], on the empty list [Deck.__init__] starts
    from.  Every call of the [Card] constructor in it succeeds. *)
Definition _initialize_cards : list Card.t :=
  flat_map (fun color => map (fun value => Regular color value) (map (Z.add 1) (range 13)))
           [HUMANS; ELVES; DWARVES; GIANTS]
  ++ repeat Wizard 4
  ++ repeat Fool 4.

(** [Deck.__init__] *)
Definition init : t := mk _initialize_cards.

(** [Deck.shuffle]: [random.shuffle] rearranges [self.cards] in place;
    [arrangement] is the order the generator picked, a permutation of the
    cards for every real call. *)
Definition shuffle (arrangement : list Card.t) : M t unit :=
  put (mk arrangement).

(** [Deck.deal] *)
Definition deal (num_cards : Z) : M t (list Card.t) :=
  self <- get ;;
  if len (cards self) <? num_cards then raise ValueError
  else
    let dealt_cards := slice_to (cards self) num_cards in
    put (mk (slice_from (cards self) num_cards)) ;;;
    ret dealt_cards.

(** The loop [for _ in range(num_players): hands.append(self.deal(...))]. *)
Fixpoint deal_hands (n : nat) (cards_per_player : Z) (hands : list (list Card.t))
  : M t (list (list Card.t)) :=
  match n with
  | O => ret hands
  | S n' =>
      h <- deal cards_per_player ;;
      deal_hands n' cards_per_player (hands ++ [h])
  end.

(** [Deck.deal_to_players] *)
Definition deal_to_players (num_players cards_per_player : Z)
  : M t (list (list Card.t) * list Card.t) :=
  self <- get ;;
  let total_cards_needed := num_players * cards_per_player in
  if len (cards self) <? total_cards_needed then raise ValueError
  else
    hands <- deal_hands (Z.to_nat num_players) cards_per_player [] ;;
    self' <- get ;;
    ret (hands, cards self').

(** [Deck.draw_trump_card] *)
Definition draw_trump_card : M t (option Card.t) :=
  self <- get ;;
  match cards self with
  | [] => ret None
  | trump_card :: rest => put (mk rest) ;;; ret (Some trump_card)
  end.

End Deck.

(** ** trick.py *)

Module Trick.

(** [leading_apprentice] and [winner] hold a reference or [None]. *)
Record t : Set := mk {
  leading_apprentice : option ref;
  trump_color : option CardColor;
  cards_played : list (ref * Card.t);
  leading_color : option CardColor;
  winner : option ref;
  is_complete : bool
}.

Definition set_cards_played (d : list (ref * Card.t)) (s : t) : t :=
  mk (leading_apprentice s) (trump_color s) d (leading_color s) (winner s) (is_complete s).

Definition set_leading_color (c : option CardColor) (s : t) : t :=
  mk (leading_apprentice s) (trump_color s) (cards_played s) c (winner s) (is_complete s).

Definition set_winner (w : option ref) (s : t) : t :=
  mk (leading_apprentice s) (trump_color s) (cards_played s) (leading_color s) w (is_complete s).

Definition set_is_complete (b : bool) (s : t) : t :=
  mk (leading_apprentice s) (trump_color s) (cards_played s) (leading_color s) (winner s) b.

(** [Trick.__init__] *)
Definition init (leading_apprentice : option ref) (trump_color : option CardColor) : t :=
  mk leading_apprentice trump_color [] None None false.

Definition is_none {A} (o : option A) : bool :=
  match o with
  | None => true
  | Some _ => false
  end.

(** [Trick.play_card] *)
Definition play_card (apprentice : ref) (card : Card.t) : M t bool :=
  self <- get ;;
  if is_complete self then raise ValueError
  else if dict_mem (cards_played self) apprentice then raise ValueError
  else
    (match cards_played self with
     | [] =>
         if CardType_eqb (Card.card_type card) REGULAR
         then modify (set_leading_color (Some (Card.color card)))
         else ret tt
     | _ :: _ =>
         if is_none (leading_color self) && (len (cards_played self) =? 1)
         then if CardType_eqb (Card.card_type card) REGULAR
              then modify (set_leading_color (Some (Card.color card)))
              else ret tt
         else ret tt
     end) ;;;
    modify (fun s => set_cards_played (dict_set (cards_played s) apprentice card) s) ;;;
    ret true.

(** The first loop of [determine_winner]: the holder of the first Wizard
    in play order. *)
Fixpoint first_wizard (items : list (ref * Card.t)) : option ref :=
  match items with
  | [] => None
  | (apprentice, card) :: rest =>
      if CardType_eqb (Card.card_type card) WIZARD then Some apprentice
      else first_wizard rest
  end.

(** The second loop of [determine_winner], with its two local variables
    [highest_card] and [highest_apprentice]. *)
Fixpoint highest (items : list (ref * Card.t)) (trump_color led_color : option CardColor)
    (highest_card : option Card.t) (highest_apprentice : option ref)
  : result (option Card.t * option ref) :=
  match items with
  | [] => Ok (highest_card, highest_apprentice)
  | (apprentice, card) :: rest =>
      if CardType_eqb (Card.card_type card) FOOL
      then highest rest trump_color led_color highest_card highest_apprentice
      else match highest_card with
           | None => highest rest trump_color led_color (Some card) (Some apprentice)
           | Some hc =>
               match Card.is_higher_than card hc trump_color led_color with
               | Err e => Err e
               | Ok true => highest rest trump_color led_color (Some card) (Some apprentice)
               | Ok false => highest rest trump_color led_color highest_card highest_apprentice
               end
           end
  end.

(** [Trick.determine_winner] *)
Definition determine_winner : M t (option ref) :=
  self <- get ;;
  match cards_played self with
  | [] => ret None
  | (first, _) :: _ =>
      if forallb (fun kv => CardType_eqb (Card.card_type (snd kv)) FOOL) (cards_played self)
      then ret (Some first)
      else match first_wizard (cards_played self) with
           | Some apprentice =>
               modify (set_winner (Some apprentice)) ;;;
               ret (Some apprentice)
           | None =>
               best <- lift (highest (cards_played self) (trump_color self)
                                     (leading_color self) None None) ;;
               modify (set_winner (snd best)) ;;;
               ret (snd best)
           end
  end.

(** [Trick.get_played_cards] *)
Definition get_played_cards (self : t) : list (ref * Card.t) := cards_played self.

(** [Trick.is_valid_play]; [apprentice] is the object the reference
    passed in denotes, read for its hand only. *)
Definition is_valid_play (self : t) (apprentice : Apprentice.t) (card : Card.t) : bool :=
  match leading_color self with
  | None => true
  | Some lc =>
      if CardType_eqb (Card.card_type card) WIZARD || CardType_eqb (Card.card_type card) FOOL
      then true
      else
        let first_card := match cards_played self with
                          | [] => None
                          | (_, c) :: _ => Some c
                          end in
        if match first_card with
           | Some c => CardType_eqb (Card.card_type c) WIZARD
           | None => false
           end
        then true
        else if negb (CardColor_eqb (Card.color card) lc)
                && Apprentice.can_follow_color apprentice lc
        then false
        else true
  end.

(** [Trick.complete_trick]: mutates the trick and, through
    [winner.win_trick()], the winning apprentice. *)
Definition complete_trick : M (heap * t) (option ref) :=
  zoom snd (fun s hs => (fst hs, s)) (modify (set_is_complete true)) ;;;
  winner <- zoom snd (fun s hs => (fst hs, s)) determine_winner ;;
  match winner with
  | Some w => zoom fst (fun h hs => (h, snd hs)) (at_ref w Apprentice.win_trick)
  | None => ret tt
  end ;;;
  ret winner.

End Trick.

(** ** round.py *)

Inductive RoundPhase : Set := DEALING | PREDICTING | PLAYING | SCORING | COMPLETE.

Definition RoundPhase_eq_dec (a b : RoundPhase) : {a = b} + {a <> b}.
Proof. decide equality. Defined.

Definition RoundPhase_eqb (a b : RoundPhase) : bool :=
  if RoundPhase_eq_dec a b then true else false.

Module Round.

Record t : Set := mk {
  round_number : Z;
  apprentices : list ref;
  dealer_index : Z;
  cards_per_apprentice : Z;
  deck : Deck.t;
  trump_card : option Card.t;
  trump_color : option CardColor;
  current_trick : option Trick.t;
  tricks_played : list Trick.t;
  current_apprentice_index : Z;
  phase : RoundPhase
}.

Definition set_deck (d : Deck.t) (r : t) : t :=
  mk (round_number r) (apprentices r) (dealer_index r) (cards_per_apprentice r)
     d (trump_card r) (trump_color r) (current_trick r) (tricks_played r)
     (current_apprentice_index r) (phase r).

Definition set_trump_card (c : option Card.t) (r : t) : t :=
  mk (round_number r) (apprentices r) (dealer_index r) (cards_per_apprentice r)
     (deck r) c (trump_color r) (current_trick r) (tricks_played r)
     (current_apprentice_index r) (phase r).

Definition set_trump_color (c : option CardColor) (r : t) : t :=
  mk (round_number r) (apprentices r) (dealer_index r) (cards_per_apprentice r)
     (deck r) (trump_card r) c (current_trick r) (tricks_played r)
     (current_apprentice_index r) (phase r).

Definition set_current_trick (k : option Trick.t) (r : t) : t :=
  mk (round_number r) (apprentices r) (dealer_index r) (cards_per_apprentice r)
     (deck r) (trump_card r) (trump_color r) k (tricks_played r)
     (current_apprentice_index r) (phase r).

Definition set_tricks_played (l : list Trick.t) (r : t) : t :=
  mk (round_number r) (apprentices r) (dealer_index r) (cards_per_apprentice r)
     (deck r) (trump_card r) (trump_color r) (current_trick r) l
     (current_apprentice_index r) (phase r).

Definition set_current_apprentice_index (i : Z) (r : t) : t :=
  mk (round_number r) (apprentices r) (dealer_index r) (cards_per_apprentice r)
     (deck r) (trump_card r) (trump_color r) (current_trick r) (tricks_played r)
     i (phase r).

Definition set_phase (p : RoundPhase) (r : t) : t :=
  mk (round_number r) (apprentices r) (dealer_index r) (cards_per_apprentice r)
     (deck r) (trump_card r) (trump_color r) (current_trick r) (tricks_played r)
     (current_apprentice_index r) p.

(** What a method of [Round] can reach: the apprentices it was given and
    its own attributes. *)
Definition world : Type := (heap * t)%type.

Definition self_ : M world t := fun w => Returns w (snd w).

Definition update (f : t -> t) : M world unit := modify (fun w => (fst w, f (snd w))).

Definition the_heap : M world heap := fun w => Returns w (fst w).

Definition on_apprentice {A} (r : ref) (m : M Apprentice.t A) : M world A :=
  zoom fst (fun h w => (h, snd w)) (at_ref r m).

Definition on_deck {A} (m : M Deck.t A) : M world A :=
  zoom (fun w => deck (snd w)) (fun d w => (fst w, set_deck d (snd w))) m.

(** A method of [self.current_trick], already known not to be [None];
    [Trick.complete_trick] also reaches the apprentices. *)
Definition on_trick {A} (trick : Trick.t) (m : M (heap * Trick.t) A) : M world A :=
  zoom (fun w => (fst w, trick))
       (fun hk w => (fst hk, set_current_trick (Some (snd hk)) (snd w))) m.

Definition trick_only {A} (m : M Trick.t A) : M (heap * Trick.t) A :=
  zoom snd (fun k hk => (fst hk, k)) m.

(** [Round.__init__] *)
Definition init (round_number : Z) (apprentices : list ref) (dealer_index : Z) : result t :=
  match py_mod (dealer_index + 1) (len apprentices) with
  | Err e => Err e
  | Ok first =>
      Ok (mk round_number apprentices dealer_index round_number
             Deck.init None None None [] first DEALING)
  end.

(** The loop [for i, apprentice in enumerate(self.apprentices)] of
    [deal_cards]. *)
Fixpoint receive_all (i : Z) (apprentices : list ref) (hands : list (list Card.t))
  : M world unit :=
  match apprentices with
  | [] => ret tt
  | apprentice :: rest =>
      h <- lift (py_getitem hands i) ;;
      on_apprentice apprentice (Apprentice.receive_cards h) ;;;
      receive_all (i + 1) rest hands
  end.

(** [Round.deal_cards]; [arrangement] is the outcome of the shuffle. *)
Definition deal_cards (arrangement : list Card.t) : M world (option Card.t) :=
  self <- self_ ;;
  if negb (RoundPhase_eqb (phase self) DEALING) then raise ValueError
  else
    on_deck (Deck.shuffle arrangement) ;;;
    dealt <- on_deck (Deck.deal_to_players (len (apprentices self))
                                           (cards_per_apprentice self)) ;;
    let hands := fst dealt in
    let remaining_cards := snd dealt in
    receive_all 0 (apprentices self) hands ;;;
    (match remaining_cards with
     | _ :: _ =>
         drawn <- on_deck Deck.draw_trump_card ;;
         update (set_trump_card drawn) ;;;
         match drawn with
         | Some card =>
             if CardType_eqb (Card.card_type card) WIZARD then update (set_trump_color None)
             else if CardType_eqb (Card.card_type card) FOOL then update (set_trump_color None)
             else update (set_trump_color (Some (Card.color card)))
         | None => ret tt
         end
     | [] =>
         update (set_trump_card None) ;;;
         update (set_trump_color None)
     end) ;;;
    update (set_phase PREDICTING) ;;;
    self' <- self_ ;;
    ret (trump_card self').

(** [Round.set_dealer_chosen_trump] *)
Definition set_dealer_chosen_trump (color : CardColor) : M world unit :=
  self <- self_ ;;
  if negb (RoundPhase_eqb (phase self) PREDICTING) then raise ValueError
  else match trump_card self with
       | None => raise ValueError
       | Some card =>
           if negb (CardType_eqb (Card.card_type card) WIZARD) then raise ValueError
           else update (set_trump_color (Some color))
       end.

(** [Round._start_first_trick] *)
Definition _start_first_trick : M world unit :=
  self <- self_ ;;
  first_apprentice_index <- lift (py_mod (dealer_index self + 1) (len (apprentices self))) ;;
  first_apprentice <- lift (py_getitem (apprentices self) first_apprentice_index) ;;
  update (set_current_trick (Some (Trick.init (Some first_apprentice) (trump_color self)))) ;;;
  update (set_current_apprentice_index first_apprentice_index).

(** [Round._start_next_trick]; the caller passes what
    [Trick.complete_trick] returned, a reference or [None]. *)
Definition _start_next_trick (leading_apprentice : option ref) : M world unit :=
  self <- self_ ;;
  update (set_current_trick (Some (Trick.init leading_apprentice (trump_color self)))) ;;;
  match leading_apprentice with
  | None => raise ValueError
  | Some a =>
      i <- lift (py_index (apprentices self) a) ;;
      update (set_current_apprentice_index i)
  end.

(** [Round.make_prediction] *)
Definition make_prediction (apprentice : ref) (prediction : Z) : M world bool :=
  self <- self_ ;;
  if negb (RoundPhase_eqb (phase self) PREDICTING) then raise ValueError
  else if (prediction <? 0) || (cards_per_apprentice self <? prediction) then ret false
  else
    on_apprentice apprentice (Apprentice.make_prediction prediction) ;;;
    h <- the_heap ;;
    (if forallb (fun a => negb (Trick.is_none (Apprentice.prediction (h a))))
                (apprentices self)
     then update (set_phase PLAYING) ;;; _start_first_trick
     else ret tt) ;;;
    ret true.

(** [Round.play_card] *)
Definition play_card (apprentice : ref) (card_index : Z) : M world bool :=
  self <- self_ ;;
  if negb (RoundPhase_eqb (phase self) PLAYING) then raise ValueError
  else
    current <- lift (py_getitem (apprentices self) (current_apprentice_index self)) ;;
    if negb (ref_eqb apprentice current) then raise ValueError
    else match current_trick self with
         | None => raise ValueError
         | Some trick =>
             h <- the_heap ;;
             let playable_indices :=
               Apprentice.get_playable_cards (h apprentice) (Trick.leading_color trick) in
             if negb (mem card_index playable_indices) then ret false
             else
               card <- on_apprentice apprentice (Apprentice.play_card card_index) ;;
               on_trick trick (trick_only (Trick.play_card apprentice card)) ;;;
               next <- lift (py_mod (current_apprentice_index self + 1)
                                    (len (apprentices self))) ;;
               update (set_current_apprentice_index next) ;;;
               self1 <- self_ ;;
               match current_trick self1 with
               | None => raise ValueError
               | Some trick1 =>
                   (if len (Trick.cards_played trick1) =? len (apprentices self1)
                    then
                      winner <- on_trick trick1 Trick.complete_trick ;;
                      self2 <- self_ ;;
                      match current_trick self2 with
                      | None => raise ValueError
                      | Some trick2 =>
                          update (set_tricks_played (tricks_played self2 ++ [trick2])) ;;;
                          if len (tricks_played self2 ++ [trick2]) =? cards_per_apprentice self2
                          then update (set_phase SCORING)
                          else _start_next_trick winner
                      end
                    else ret tt) ;;;
                   ret true
               end
         end.

(** The loop of [score_round], building the dict [round_points]. *)
Fixpoint score_each (apprentices : list ref) (round_points : list (ref * Z))
  : M world (list (ref * Z)) :=
  match apprentices with
  | [] => ret round_points
  | apprentice :: rest =>
      h <- the_heap ;;
      points <- lift (Apprentice.calculate_round_points (h apprentice)) ;;
      on_apprentice apprentice (Apprentice.add_experience_points points) ;;;
      score_each rest (dict_set round_points apprentice points)
  end.

(** [Round.score_round] *)
Definition score_round : M world (list (ref * Z)) :=
  self <- self_ ;;
  if negb (RoundPhase_eqb (phase self) SCORING) then raise ValueError
  else
    round_points <- score_each (apprentices self) [] ;;
    update (set_phase COMPLETE) ;;;
    ret round_points.

(** [Round.get_next_dealer_index] *)
Definition get_next_dealer_index (self : t) : result Z :=
  py_mod (dealer_index self + 1) (len (apprentices self)).

(** [Round.get_current_apprentice] *)
Definition get_current_apprentice (self : t) : result (option ref) :=
  if negb (RoundPhase_eqb (phase self) PLAYING) then Ok None
  else match py_getitem (apprentices self) (current_apprentice_index self) with
       | Ok a => Ok (Some a)
       | Err e => Err e
       end.

(** [Round.get_trick_count] *)
Definition get_trick_count (self : t) : Z := len (tricks_played self).

(** [Round.get_tricks_remaining] *)
Definition get_tricks_remaining (self : t) : Z :=
  cards_per_apprentice self - len (tricks_played self).

(** What the orchestrator hands to a round: apprentices reset for it
    (empty hand, no prediction, no trick won). *)
Definition fresh (h : heap) (apprentices : list ref) : Prop :=
  forall a, In a apprentices ->
    Apprentice.hand (h a) = [] /\
    Apprentice.prediction (h a) = None /\
    Apprentice.tricks_won (h a) = 0.

(** The states a round goes through: from its construction, by any of
    its operations, whether the call returns or raises. *)
Inductive reachable : world -> Prop :=
| reach_init h n apprentices dealer r :
    fresh h apprentices ->
    init n apprentices dealer = Ok r ->
    reachable (h, r)
| reach_deal w arrangement :
    reachable w ->
    Permutation (Deck.cards (deck (snd w))) arrangement ->
    reachable (final_state (deal_cards arrangement w))
| reach_trump w color :
    reachable w ->
    reachable (final_state (set_dealer_chosen_trump color w))
| reach_predict w a p :
    reachable w ->
    reachable (final_state (make_prediction a p w))
| reach_play w a i :
    reachable w ->
    reachable (final_state (play_card a i w))
| reach_score w :
    reachable w ->
    reachable (final_state (score_round w)).

End Round.

(** ** game.py *)

Inductive GamePhase : Set := SETUP | ROUND_IN_PROGRESS | GAME_OVER.

Definition GamePhase_eq_dec (a b : GamePhase) : {a = b} + {a <> b}.
Proof. decide equality. Defined.

Definition GamePhase_eqb (a b : GamePhase) : bool :=
  if GamePhase_eq_dec a b then true else false.

(** What a method of [Game] can raise: the exceptions of the rules
    engine, and [StopIteration] from the [next(...)] that looks for the
    dealer. *)
Inductive game_exn : Set :=
| Builtin (e : exn)
| StopIteration.

(** [a // b] on Python ints: rounded down, as [Z.div]. *)
Definition py_floordiv (a b : Z) : result Z :=
  if b =? 0 then Err ZeroDivisionError else Ok (a / b).

(** [next(i for i, a in enumerate(apprentices) if a.is_dealer)], the
    enumeration started at [i]; [None] stands for the exhausted
    generator. *)
Fixpoint find_dealer (h : heap) (i : Z) (apprentices : list ref) : option Z :=
  match apprentices with
  | [] => None
  | a :: rest =>
      if Apprentice.is_dealer (h a) then Some i else find_dealer h (i + 1) rest
  end.

(** [max(l, key=key)] on the non-empty list [best :: l]: the first
    element whose key no other exceeds. *)
Fixpoint max_by (key : ref -> Z) (best : ref) (l : list ref) : ref :=
  match l with
  | [] => best
  | x :: l' => if key best <? key x then max_by key x l' else max_by key best l'
  end.

Module Game.

(** [round_history] holds what [current_round] was when it was
    appended, a round or [None].  A round on file has been through
    [score_round], and no operation of a round changes it after that,
    so an entry is the state the round had when it was appended. *)
Record t : Type := mk {
  apprentices : list ref;
  max_rounds : Z;
  current_round_number : Z;
  current_round : option Round.t;
  round_history : list (option Round.t);
  phase : GamePhase;
  experience_points_history : list (list (ref * Z))
}.

Definition set_current_round_number (n : Z) (g : t) : t :=
  mk (apprentices g) (max_rounds g) n (current_round g) (round_history g) (phase g)
     (experience_points_history g).

Definition set_current_round (r : option Round.t) (g : t) : t :=
  mk (apprentices g) (max_rounds g) (current_round_number g) r (round_history g) (phase g)
     (experience_points_history g).

Definition set_round_history (l : list (option Round.t)) (g : t) : t :=
  mk (apprentices g) (max_rounds g) (current_round_number g) (current_round g) l (phase g)
     (experience_points_history g).

Definition set_phase (p : GamePhase) (g : t) : t :=
  mk (apprentices g) (max_rounds g) (current_round_number g) (current_round g)
     (round_history g) p (experience_points_history g).

Definition set_experience_points_history (l : list (list (ref * Z))) (g : t) : t :=
  mk (apprentices g) (max_rounds g) (current_round_number g) (current_round g)
     (round_history g) (phase g) l.

(** What a method of [Game] can reach: the apprentices and its own
    attributes, the current round among them. *)
Definition world : Type := (heap * t)%type.

(** A method of [Game] returns or raises; as everywhere, the state it
    leaves behind is part of the outcome on both paths. *)
Inductive run (A : Type) : Type :=
| Done (w : world) (a : A)
| Failed (w : world) (e : game_exn).
Arguments Done {A} w a.
Arguments Failed {A} w e.

Definition G (A : Type) : Type := world -> run A.

Definition ret {A} (a : A) : G A := fun w => Done w a.

Definition fail {A} (e : game_exn) : G A := fun w => Failed w e.

Definition bind {A B} (m : G A) (k : A -> G B) : G B :=
  fun w => match m w with
           | Done w' a => k a w'
           | Failed w' e => Failed w' e
           end.

Definition state_after {A} (o : run A) : world :=
  match o with
  | Done w _ => w
  | Failed w _ => w
  end.

Definition self_ : G t := fun w => Done w (snd w).

Definition the_heap : G heap := fun w => Done w (fst w).

Definition update (f : t -> t) : G unit := fun w => Done (fst w, f (snd w)) tt.

Definition lift {A} (r : result A) : G A :=
  fun w => match r with
           | Ok a => Done w a
           | Err e => Failed w (Builtin e)
           end.

(** A method of one of the apprentices. *)
Definition on_apprentice {A} (r : ref) (m : M Apprentice.t A) : G A :=
  fun w => match at_ref r m (fst w) with
           | Returns h a => Done (h, snd w) a
           | Raises h e => Failed (h, snd w) (Builtin e)
           end.

(** A method of [self.current_round], already known not to be [None];
    the round reaches the apprentices too. *)
Definition on_round {A} (r : Round.t) (m : M Round.world A) : G A :=
  fun w => match m (fst w, r) with
           | Returns w' a => Done (fst w', set_current_round (Some (snd w')) (snd w)) a
           | Raises w' e =>
               Failed (fst w', set_current_round (Some (snd w')) (snd w)) (Builtin e)
           end.

(** [for apprentice in apprentices: apprentice.reset_for_new_round()] *)
Fixpoint reset_all (apprentices : list ref) : G unit :=
  match apprentices with
  | [] => ret tt
  | a :: rest =>
      bind (on_apprentice a Apprentice.reset_for_new_round) (fun _ => reset_all rest)
  end.

(** [Game._calculate_max_rounds] *)
Definition _calculate_max_rounds (num_apprentices : Z) : result Z :=
  py_floordiv 60 num_apprentices.

(** [[Apprentice(name) for name in apprentice_names]]: the objects
    created, stored under the identities [refs] they get. *)
Fixpoint create (refs : list ref) (names : list string) (h : heap) : heap :=
  match refs, names with
  | r :: refs', n :: names' => create refs' names' (heap_set r (Apprentice.init n) h)
  | _, _ => h
  end.

(** [Game.__init__]; [refs] are the identities of the new [Apprentice]
    objects, one per name and pairwise distinct for every real call,
    and [dealer_index] is what [random.randint(0, n - 1)] returned. *)
Definition init (apprentice_names : list string) (refs : list ref) (dealer_index : Z)
    (h : heap) : result world :=
  if (len apprentice_names <? 3) || (6 <? len apprentice_names) then Err ValueError
  else
    let apprentices := map fst (combine refs apprentice_names) in
    let h := create refs apprentice_names h in
    match py_getitem apprentices dealer_index with
    | Err e => Err e
    | Ok dealer =>
        let h := heap_set dealer (Apprentice.set_is_dealer true (h dealer)) h in
        match py_mod (dealer_index + 1) (len apprentices) with
        | Err e => Err e
        | Ok confidant_index =>
            match py_getitem apprentices confidant_index with
            | Err e => Err e
            | Ok confidant =>
                let h := heap_set confidant
                                  (Apprentice.set_is_confidant true (h confidant)) h in
                match _calculate_max_rounds (len apprentices) with
                | Err e => Err e
                | Ok max_rounds => Ok (h, mk apprentices max_rounds 0 None [] SETUP [])
                end
            end
        end
    end.

(** [Game._start_next_round]; [arrangement] is the outcome of the
    shuffle in [deal_cards]. *)
Definition _start_next_round (arrangement : list Card.t) : G unit :=
  bind (update (fun g => set_current_round_number (current_round_number g + 1) g)) (fun _ =>
  bind self_ (fun self =>
  bind the_heap (fun h =>
  match find_dealer h 0 (apprentices self) with
  | None => fail StopIteration
  | Some dealer_index =>
      bind (lift (Round.init (current_round_number self) (apprentices self) dealer_index))
           (fun r =>
      bind (update (set_current_round (Some r))) (fun _ =>
      bind (on_round r (Round.deal_cards arrangement)) (fun _ =>
      update (set_phase ROUND_IN_PROGRESS))))
  end))).

(** [Game.start_game] *)
Definition start_game (arrangement : list Card.t) : G unit :=
  bind self_ (fun self =>
  if negb (GamePhase_eqb (phase self) SETUP) then fail (Builtin ValueError)
  else _start_next_round arrangement).

(** [Game.make_prediction] *)
Definition make_prediction (apprentice : ref) (prediction : Z) : G bool :=
  bind self_ (fun self =>
  if negb (GamePhase_eqb (phase self) ROUND_IN_PROGRESS) then fail (Builtin ValueError)
  else match current_round self with
       | None => fail (Builtin ValueError)
       | Some r => on_round r (Round.make_prediction apprentice prediction)
       end).

(** [Game.play_card] *)
Definition play_card (apprentice : ref) (card_index : Z) : G bool :=
  bind self_ (fun self =>
  if negb (GamePhase_eqb (phase self) ROUND_IN_PROGRESS) then fail (Builtin ValueError)
  else match current_round self with
       | None => fail (Builtin ValueError)
       | Some r => on_round r (Round.play_card apprentice card_index)
       end).

(** [Game.set_dealer_chosen_trump] *)
Definition set_dealer_chosen_trump (color : CardColor) : G unit :=
  bind self_ (fun self =>
  if negb (GamePhase_eqb (phase self) ROUND_IN_PROGRESS) then fail (Builtin ValueError)
  else match current_round self with
       | None => fail (Builtin ValueError)
       | Some r => on_round r (Round.set_dealer_chosen_trump color)
       end).

(** [Game._rotate_dealer] *)
Definition _rotate_dealer : G unit :=
  bind self_ (fun self =>
  bind the_heap (fun h =>
  match find_dealer h 0 (apprentices self) with
  | None => fail StopIteration
  | Some current_dealer_index =>
      bind (lift (py_getitem (apprentices self) current_dealer_index)) (fun dealer =>
      bind (on_apprentice dealer (modify (Apprentice.set_is_dealer false))) (fun _ =>
      bind (lift (py_mod (current_dealer_index + 1) (len (apprentices self))))
           (fun next_dealer_index =>
      bind (lift (py_getitem (apprentices self) next_dealer_index)) (fun next_dealer =>
      on_apprentice next_dealer (modify (Apprentice.set_is_dealer true))))))
  end)).

(** [Game.end_round]; [arrangement] is the outcome of the shuffle if a
    next round is dealt. *)
Definition end_round (arrangement : list Card.t) : G (list (ref * Z)) :=
  bind self_ (fun self =>
  match current_round self with
  | None => fail (Builtin ValueError)
  | Some r =>
      if negb (RoundPhase_eqb (Round.phase r) SCORING) then fail (Builtin ValueError)
      else
        bind (on_round r Round.score_round) (fun round_points =>
        bind (update (fun g => set_experience_points_history
                                 (experience_points_history g ++ [round_points]) g))
             (fun _ =>
        bind (update (fun g => set_round_history (round_history g ++ [current_round g]) g))
             (fun _ =>
        bind _rotate_dealer (fun _ =>
        bind (reset_all (apprentices self)) (fun _ =>
        bind self_ (fun self' =>
        bind (if max_rounds self' <=? current_round_number self'
              then update (set_phase GAME_OVER)
              else _start_next_round arrangement) (fun _ =>
        ret round_points)))))))
  end).

(** [Game.get_winner] *)
Definition get_winner (h : heap) (self : t) : result (option ref) :=
  if negb (GamePhase_eqb (phase self) GAME_OVER) then Ok None
  else match apprentices self with
       | [] => Err ValueError
       | a :: rest =>
           Ok (Some (max_by (fun b => Apprentice.experience_points (h b)) a rest))
       end.

(** [Game.get_current_apprentice] *)
Definition get_current_apprentice (self : t) : result (option ref) :=
  match current_round self with
  | None => Ok None
  | Some r =>
      if negb (GamePhase_eqb (phase self) ROUND_IN_PROGRESS) then Ok None
      else Round.get_current_apprentice r
  end.

End Game.

(** ** Specification-side definitions *)

(** A sequence of recorded plays on one trick:
    [for a, c in plays: trick.play_card(a, c)]. *)
Definition record_plays (plays : list (ref * Card.t)) : M Trick.t unit :=
  for_each plays (fun p => Trick.play_card (fst p) (snd p) ;;; ret tt).

(** The leading-color policy in the words of the specification: the
    first card sets it only if Regular; otherwise the second card sets it
    only if Regular; no later card does. *)
Definition spec_leading_color (cards : list Card.t) : option CardColor :=
  match cards with
  | [] => None
  | c1 :: rest =>
      if CardType_eqb (Card.card_type c1) REGULAR then Some (Card.color c1)
      else match rest with
           | [] => None
           | c2 :: _ =>
               if CardType_eqb (Card.card_type c2) REGULAR then Some (Card.color c2)
               else None
           end
  end.







(** Position [i] of a hand holds card [c]. *)
Definition holds (hand : list Card.t) (i : Z) (c : Card.t) : Prop :=
  0 <= i /\ nth_error hand (Z.to_nat i) = Some c.

(** An operation of the round that leaves the seating, the list of
    apprentices, as it found it, whether it returns or raises. *)
Definition keeps_seating {A} (m : M Round.world A) : Prop :=
  forall w, Round.apprentices (snd (final_state (m w))) = Round.apprentices (snd w).

(** The phases in the order a round goes through them. *)
Definition phase_rank (p : RoundPhase) : Z :=
  match p with
  | DEALING => 0
  | PREDICTING => 1
  | PLAYING => 2
  | SCORING => 3
  | COMPLETE => 4
  end.

(** What the constructor fixes for a round. *)
Definition setup (r : Round.t) : Z * list ref * Z * Z :=
  (Round.round_number r, Round.apprentices r, Round.dealer_index r,
   Round.cards_per_apprentice r).

(** One call of an operation of the round, with any arguments,
    whichever way it ends. *)
Inductive step : Round.world -> Round.world -> Prop :=
| step_deal w arrangement : step w (final_state (Round.deal_cards arrangement w))
| step_trump w color : step w (final_state (Round.set_dealer_chosen_trump color w))
| step_predict w a p : step w (final_state (Round.make_prediction a p w))
| step_play w a i : step w (final_state (Round.play_card a i w))
| step_score w : step w (final_state (Round.score_round w)).

(** An operation that leaves the setup and the completed tricks alone
    and either keeps the phase or moves it to [p]. *)
Definition quiet (p : RoundPhase) {A} (m : M Round.world A) : Prop :=
  forall w,
    setup (snd (final_state (m w))) = setup (snd w) /\
    Round.tricks_played (snd (final_state (m w))) = Round.tricks_played (snd w) /\
    (Round.phase (snd (final_state (m w))) = Round.phase (snd w) \/
     Round.phase (snd (final_state (m w))) = p).

(** The bound on the completed tricks, phase by phase. *)
Definition tricks_in_step (r : Round.t) : Prop :=
  match Round.phase r with
  | DEALING | PREDICTING => Round.tricks_played r = []
  | PLAYING => len (Round.tricks_played r) < Round.cards_per_apprentice r
  | SCORING | COMPLETE => len (Round.tricks_played r) = Round.cards_per_apprentice r
  end.

(** An operation that leaves an observation [f] of the round as it
    found it, whether it returns or raises. *)
Definition keeps {X A} (f : Round.t -> X) (m : M Round.world A) : Prop :=
  forall w, f (snd (final_state (m w))) = f (snd w).

(** Whose turn it is, and on which trick. *)
Definition turn (r : Round.t) : Z * option Trick.t :=
  (Round.current_apprentice_index r, Round.current_trick r).

(** The turn index designates a seat, and the Playing phase has a
    current trick. *)
Definition turn_ok (r : Round.t) : Prop :=
  0 <= Round.current_apprentice_index r < len (Round.apprentices r) /\
  (Round.phase r = PLAYING -> Round.current_trick r <> None).

(** The seating turned so that the seat at position [k] comes first. *)
Definition rotate {A} (k : nat) (l : list A) : list A := skipn k l ++ firstn k l.

(** The seating as the play goes round from the apprentice whose turn
    it is. *)
Definition from_turn (r : Round.t) : list ref :=
  rotate (Z.to_nat (Round.current_apprentice_index r)) (Round.apprentices r).

(** The cards an apprentice must still hold in the Playing phase: one
    per trick to come, the current one included unless the apprentice
    has played in it. *)
Definition cards_left (r : Round.t) (trick : Trick.t) (b : ref) : Z :=
  Round.get_tricks_remaining r
  - (if dict_mem (Trick.cards_played trick) b then 1 else 0).

(** The hands of the seated apprentices. *)
Definition hands_are (w : Round.world) (P : list Card.t -> Prop) : Prop :=
  forall b, In b (Round.apprentices (snd w)) -> P (Apprentice.hand (fst w b)).

(** Where the cards are, phase by phase. *)
Definition table_ok (w : Round.world) : Prop :=
  match Round.phase (snd w) with
  | DEALING =>
      Forall Card.wf (Deck.cards (Round.deck (snd w))) /\
      hands_are w (fun hand => hand = [])
  | PREDICTING =>
      hands_are w (fun hand => Forall Card.wf hand /\
                               len hand = Round.cards_per_apprentice (snd w))
  | PLAYING =>
      exists trick waiting,
        Round.current_trick (snd w) = Some trick /\
        Trick.is_complete trick = false /\
        waiting <> [] /\
        waiting ++ map fst (Trick.cards_played trick) = from_turn (snd w) /\
        Forall Card.wf (map snd (Trick.cards_played trick)) /\
        forall b, In b (Round.apprentices (snd w)) ->
                  Forall Card.wf (Apprentice.hand (fst w b)) /\
                  len (Apprentice.hand (fst w b)) = cards_left (snd w) trick b
  | SCORING | COMPLETE => hands_are w (fun hand => hand = [])
  end.

(** The cards of a trick, in the order they were played. *)
Definition cards_of (trick : Trick.t) : list Card.t := map snd (Trick.cards_played trick).

(** Every card the round holds: the hands in seating order, the trump
    card, the rest of the deck, the trick in progress and the completed
    tricks.  The current trick counts as in progress in the Playing
    phase only: [Round.play_card] files the last trick of the round in
    [tricks_played] and leaves [current_trick] pointing to it. *)
Definition all_cards (w : Round.world) : list Card.t :=
  List.concat (map (fun b => Apprentice.hand (fst w b)) (Round.apprentices (snd w)))
  ++ match Round.trump_card (snd w) with
     | Some card => [card]
     | None => []
     end
  ++ Deck.cards (Round.deck (snd w))
  ++ match Round.phase (snd w), Round.current_trick (snd w) with
     | PLAYING, Some trick => cards_of trick
     | _, _ => []
     end
  ++ List.concat (map cards_of (Round.tricks_played (snd w))).

(** The tricks the seated apprentices have won between them. *)
Definition tricks_won_total (w : Round.world) : Z :=
  fold_right Z.add 0
    (map (fun b => Apprentice.tricks_won (fst w b)) (Round.apprentices (snd w))).

(** A completed trick as the round files it: marked complete, with one
    card from every seated apprentice. *)
Definition trick_done (r : Round.t) (trick : Trick.t) : Prop :=
  Trick.is_complete trick = true /\
  Permutation (map fst (Trick.cards_played trick)) (Round.apprentices r).

(** From the Playing phase on, every seated apprentice has a
    prediction. *)
Definition predicted (w : Round.world) : Prop :=
  match Round.phase (snd w) with
  | DEALING | PREDICTING => True
  | PLAYING | SCORING | COMPLETE =>
      forall b, In b (Round.apprentices (snd w)) ->
                Apprentice.prediction (fst w b) <> None
  end.

(** The books of the round: tricks won against tricks filed, and no
    trump card before the deal. *)
Definition ledger_ok (w : Round.world) : Prop :=
  tricks_won_total w = Round.get_trick_count (snd w) /\
  Forall (trick_done (snd w)) (Round.tricks_played (snd w)) /\
  (Round.phase (snd w) = DEALING -> Round.trump_card (snd w) = None) /\
  Permutation (all_cards w) (Deck.cards Deck.init).

(** Calls that go through: the round driven from one state to another
    by operations that return (a deal, accepted predictions, accepted
    plays, the scoring). *)
Inductive proceeds : Round.world -> Round.world -> Prop :=
| proceeds_here w : proceeds w w
| proceeds_deal w arrangement trump w' w'' :
    Permutation (Deck.cards (Round.deck (snd w))) arrangement ->
    Round.deal_cards arrangement w = Returns w' trump ->
    proceeds w' w'' -> proceeds w w''
| proceeds_predict w a p w' w'' :
    Round.make_prediction a p w = Returns w' true ->
    proceeds w' w'' -> proceeds w w''
| proceeds_play w a i w' w'' :
    Round.play_card a i w = Returns w' true ->
    proceeds w' w'' -> proceeds w w''
| proceeds_score w points w' w'' :
    Round.score_round w = Returns w' points ->
    proceeds w' w'' -> proceeds w w''.

(** The cards still to be played in the round. *)
Definition plays_left (r : Round.t) : Z :=
  Round.get_tricks_remaining r * len (Round.apprentices r)
  - match Round.current_trick r with
    | Some trick => len (Trick.cards_played trick)
    | None => 0
    end.

(** What [Round] never touches of an apprentice: who it is and the
    roles the game gave it. *)
Definition badge (a : Apprentice.t) : string * bool * bool :=
  (Apprentice.name a, Apprentice.is_dealer a, Apprentice.is_confidant a).

(** An operation of the round that leaves an observation [f] of every
    apprentice as it found it, whether it returns or raises. *)
Definition spares {X A} (f : Apprentice.t -> X) (m : M Round.world A) : Prop :=
  forall w b, f (fst (final_state (m w)) b) = f (fst w b).

(** Exactly the apprentice at seat [d] is flagged as dealer. *)
Definition one_dealer (h : heap) (apprentices : list ref) (d : Z) : Prop :=
  0 <= d < len apprentices /\
  forall k b, nth_error apprentices k = Some b ->
              (Apprentice.is_dealer (h b) = true <-> Z.of_nat k = d).

(** The rounds on file: numbered from 1 and complete. *)
Definition filed (history : list (option Round.t)) : Prop :=
  forall k, (k < List.length history)%nat ->
            exists r, nth_error history k = Some (Some r) /\
                      Round.round_number r = Z.of_nat k + 1 /\
                      Round.phase r = COMPLETE.

(** What holds of a game between two calls of its methods. *)
Definition game_ok (w : Game.world) : Prop :=
  NoDup (Game.apprentices (snd w)) /\
  3 <= len (Game.apprentices (snd w)) <= 6 /\
  Game._calculate_max_rounds (len (Game.apprentices (snd w))) = Ok (Game.max_rounds (snd w)) /\
  filed (Game.round_history (snd w)) /\
  List.length (Game.experience_points_history (snd w))
  = List.length (Game.round_history (snd w)) /\
  match Game.phase (snd w) with
  | SETUP =>
      Game.current_round_number (snd w) = 0 /\
      Game.current_round (snd w) = None /\
      Game.round_history (snd w) = [] /\
      Round.fresh (fst w) (Game.apprentices (snd w)) /\
      exists d, one_dealer (fst w) (Game.apprentices (snd w)) d
  | ROUND_IN_PROGRESS =>
      exists r,
        Game.current_round (snd w) = Some r /\
        Round.reachable (fst w, r) /\
        Round.phase r <> DEALING /\
        Round.apprentices r = Game.apprentices (snd w) /\
        Round.round_number r = Game.current_round_number (snd w) /\
        1 <= Game.current_round_number (snd w) <= Game.max_rounds (snd w) /\
        len (Game.round_history (snd w)) = Game.current_round_number (snd w) - 1 /\
        one_dealer (fst w) (Game.apprentices (snd w)) (Round.dealer_index r)
  | GAME_OVER =>
      exists r,
        Game.current_round (snd w) = Some r /\
        Round.phase r = COMPLETE /\
        Game.current_round_number (snd w) = Game.max_rounds (snd w) /\
        len (Game.round_history (snd w)) = Game.max_rounds (snd w)
  end.

(** The states of a game driven through its own methods, whether the
    calls return or raise: the identities of the apprentices created
    are distinct, [random.randint] keeps to its bounds and every
    shuffle rearranges the deck. *)
Inductive game_reachable : Game.world -> Prop :=
| game_created names refs dealer_index h w :
    NoDup refs -> List.length refs = List.length names ->
    0 <= dealer_index <= len names - 1 ->
    Game.init names refs dealer_index h = Ok w ->
    game_reachable w
| game_started w arrangement :
    game_reachable w ->
    Permutation (Deck.cards Deck.init) arrangement ->
    game_reachable (Game.state_after (Game.start_game arrangement w))
| game_predicted w a p :
    game_reachable w ->
    game_reachable (Game.state_after (Game.make_prediction a p w))
| game_trump_chosen w color :
    game_reachable w ->
    game_reachable (Game.state_after (Game.set_dealer_chosen_trump color w))
| game_played w a i :
    game_reachable w ->
    game_reachable (Game.state_after (Game.play_card a i w))
| game_round_ended w arrangement :
    game_reachable w ->
    Permutation (Deck.cards Deck.init) arrangement ->
    game_reachable (Game.state_after (Game.end_round arrangement w)).

(** A call that returns, or refuses with ValueError. *)
Definition returns_or_refuses {A} (o : Game.run A) : Prop :=
  match o with
  | Game.Done _ _ => True
  | Game.Failed _ e => e = Builtin ValueError
  end.

(** ** Scenarios *)

(** Three apprentices as the orchestrator creates them. *)
Definition players : heap :=
  fun r => Apprentice.init (match r with
                            | O => "Ada"
                            | S O => "Bob"
                            | _ => "Cleo"
                            end).

(** Round [n] constructed for them with the given dealer. *)
Definition seated (n dealer : Z) : Round.world :=
  (players,
   Round.mk n [0%nat; 1%nat; 2%nat] dealer n Deck.init None None None []
            ((dealer + 1) mod 3) DEALING).

(** ... and dealt, the shuffle leaving the deck in its initial order. *)
Definition dealt (n dealer : Z) : Round.world :=
  final_state (Round.deal_cards (Deck.cards Deck.init) (seated n dealer)).

(** Round 1: the first apprentice has predicted one trick. *)
Definition predicted_once : Round.world :=
  final_state (Round.make_prediction 0%nat 1 (dealt 1 0)).

(** Round 20 (the whole deck dealt): everybody has predicted. *)
Definition all_predicted : Round.world :=
  final_state (Round.make_prediction 2%nat 0
    (final_state (Round.make_prediction 1%nat 0
      (final_state (Round.make_prediction 0%nat 0 (dealt 20 1)))))).

(** The third apprentice has led a Wizard and the first has followed
    with the 1 of ELVES; it is the second apprentice's turn. *)
Definition wizard_led : Round.world :=
  final_state (Round.play_card 0%nat 13
    (final_state (Round.play_card 2%nat 12 all_predicted))).

(** Round 1 played to its end: the predictions are 1, 0 and 0, each
    apprentice has played its only card, and the round awaits scoring. *)
Definition round_one_played : Round.world :=
  final_state (Round.play_card 0%nat 0
    (final_state (Round.play_card 2%nat 0
      (final_state (Round.play_card 1%nat 0
        (final_state (Round.make_prediction 2%nat 0
          (final_state (Round.make_prediction 1%nat 0 predicted_once))))))))).

(** The same state after the caller has cleared the second
    apprentice's prediction ([apprentice.prediction = None]). *)
Definition round_one_unpredicted : Round.world :=
  (heap_set 1%nat (Apprentice.set_prediction None (fst round_one_played 1%nat))
            (fst round_one_played),
   snd round_one_played).

(** A game of three created on them, the first apprentice dealing. *)
Definition game_of_three : Game.world :=
  match Game.init ["Ada"; "Bob"; "Cleo"]%string [0%nat; 1%nat; 2%nat] 0 players with
  | Ok w => w
  | Err _ => (players, Game.mk [] 0 0 None [] SETUP [])
  end.

(** ... with its first round played to the end: the predictions are
    1, 0 and 0, each apprentice has played its only card, and the game
    awaits [end_round]. *)
Definition game_round_one : Game.world :=
  Game.state_after (Game.play_card 0%nat 0
    (Game.state_after (Game.play_card 2%nat 0
      (Game.state_after (Game.play_card 1%nat 0
        (Game.state_after (Game.make_prediction 2%nat 0
          (Game.state_after (Game.make_prediction 1%nat 0
            (Game.state_after (Game.make_prediction 0%nat 1
              (Game.state_after (Game.start_game (Deck.cards Deck.init)
                                                 game_of_three))))))))))))).

(** ** Lemmas on the plumbing *)

Lemma CardType_eqb_eq (a b : CardType) : CardType_eqb a b = true <-> a = b.
Proof.
  unfold CardType_eqb. destruct (CardType_eq_dec a b); split; congruence.
Qed.

Lemma CardType_eqb_neq (a b : CardType) : CardType_eqb a b = false <-> a <> b.
Proof.
  unfold CardType_eqb. destruct (CardType_eq_dec a b); split; congruence.
Qed.

Lemma CardColor_eqb_eq (a b : CardColor) : CardColor_eqb a b = true <-> a = b.
Proof.
  unfold CardColor_eqb. destruct (CardColor_eq_dec a b); split; congruence.
Qed.

Lemma CardColor_eqb_neq (a b : CardColor) : CardColor_eqb a b = false <-> a <> b.
Proof.
  unfold CardColor_eqb. destruct (CardColor_eq_dec a b); split; congruence.
Qed.

Lemma color_is_Some (c d : CardColor) : color_is c (Some d) = true <-> c = d.
Proof. apply CardColor_eqb_eq. Qed.

Lemma len_nonneg {A} (l : list A) : 0 <= len l.
Proof. unfold len. lia. Qed.

Lemma len_cons {A} (x : A) (l : list A) : len (x :: l) = len l + 1.
Proof. unfold len. simpl List.length. lia. Qed.

Lemma In_range (n i : Z) : In i (range n) <-> 0 <= i < n.
Proof.
  unfold range. rewrite in_map_iff. split.
  - intros [k [<- Hk]]. apply in_seq in Hk. lia.
  - intros H. exists (Z.to_nat i). split; [lia|]. apply in_seq. lia.
Qed.

Lemma range_nil_iff (n : Z) : range n = [] <-> n <= 0.
Proof.
  unfold range. split.
  - intros H. apply map_eq_nil in H.
    destruct (Z.to_nat n) eqn:E; [lia | discriminate].
  - intros H. replace (Z.to_nat n) with O by lia. reflexivity.
Qed.

Lemma mem_In (i : Z) (l : list Z) : mem i l = true <-> In i l.
Proof.
  unfold mem. rewrite existsb_exists. split.
  - intros [x [Hx E]]. apply Z.eqb_eq in E. now subst.
  - intros H. exists i. split; [assumption | apply Z.eqb_refl].
Qed.

(** ** The cards of the constructor *)

Lemma wf_cases (c : Card.t) :
  Card.wf c <->
  (exists co v, c = Regular co v /\ co <> NONE /\ 1 <= v <= 13) \/ c = Wizard \/ c = Fool.
Proof.
  split.
  - intros [ty [co [va H]]]. destruct ty; simpl in H.
    + destruct co as [co|]; [|discriminate].
      destruct va as [v|]; [|destruct co; discriminate].
      destruct (negb ((1 <=? v) && (v <=? 13))) eqn:E;
        [destruct co; discriminate|].
      apply negb_false_iff, andb_true_iff in E. destruct E as [E1 E2].
      left. exists co, v. repeat split; try lia.
      * destruct co; inversion H; reflexivity.
      * intros ->. discriminate.
    + right; left. now inversion H.
    + right; right. now inversion H.
  - intros [[co [v [-> [Hco Hv]]]] | [-> | ->]].
    + exists REGULAR, (Some co), (Some v). simpl.
      replace (negb ((1 <=? v) && (v <=? 13))) with false
        by (symmetry; apply negb_false_iff, andb_true_iff; lia).
      destruct co; try reflexivity. contradiction.
    + now exists WIZARD, None, None.
    + now exists FOOL, None, None.
Qed.

Lemma deck_cards_wf : Forall Card.wf (Deck.cards Deck.init).
Proof.
  apply Forall_forall. intros c Hc. apply wf_cases.
  vm_compute in Hc.
  repeat (destruct Hc as [<- | Hc];
          [ first [ right; left; reflexivity
                  | right; right; reflexivity
                  | left; eexists; eexists; split; [reflexivity | split; [discriminate | lia]] ]
          | ]).
  contradiction.
Qed.

Lemma deck_has_60_cards : len (Deck.cards Deck.init) = 60.
Proof. reflexivity. Qed.

(** ** Scoring *)

(** C10: with a recorded prediction [p] and [t] tricks won the round
    point delta is [20 + 10 * t] when [p = t] and [-10 * |p - t|]
    otherwise (3/3 gives 50, 2/4 gives -20, 5/2 gives -30); with no
    recorded prediction the computation fails with an error. *)
Theorem calculate_round_points_spec (a : Apprentice.t) :
  (forall p, Apprentice.prediction a = Some p -> p = Apprentice.tricks_won a ->
     Apprentice.calculate_round_points a = Ok (20 + 10 * Apprentice.tricks_won a)) /\
  (forall p, Apprentice.prediction a = Some p -> p <> Apprentice.tricks_won a ->
     Apprentice.calculate_round_points a
     = Ok (- 10 * Z.abs (p - Apprentice.tricks_won a))) /\
  (Apprentice.prediction a = None ->
     Apprentice.calculate_round_points a = Err ValueError) /\
  Apprentice.calculate_round_points
    (Apprentice.set_tricks_won 3 (Apprentice.set_prediction (Some 3) a)) = Ok 50 /\
  Apprentice.calculate_round_points
    (Apprentice.set_tricks_won 4 (Apprentice.set_prediction (Some 2) a)) = Ok (-20) /\
  Apprentice.calculate_round_points
    (Apprentice.set_tricks_won 2 (Apprentice.set_prediction (Some 5) a)) = Ok (-30).
Proof.
  unfold Apprentice.calculate_round_points.
  repeat split.
  - intros p -> ->. now rewrite Z.eqb_refl.
  - intros p -> Hne. apply Z.eqb_neq in Hne. now rewrite Hne.
  - now intros ->.
Qed.

Lemma calculate_round_points_spec_witness :
  Apprentice.calculate_round_points
    (Apprentice.mk "Ada" [] (Some 1) 1 0 false false) = Ok 30 /\
  Apprentice.calculate_round_points
    (Apprentice.mk "Ada" [] (Some 4) 1 0 false false) = Ok (-30) /\
  Apprentice.calculate_round_points
    (Apprentice.mk "Ada" [] None 1 0 false false) = Err ValueError.
Proof.
  split; [|split].
  - apply (proj1 (calculate_round_points_spec
                    (Apprentice.mk "Ada" [] (Some 1) 1 0 false false)) 1);
      reflexivity.
  - apply (proj1 (proj2 (calculate_round_points_spec
                           (Apprentice.mk "Ada" [] (Some 4) 1 0 false false))) 4);
      [reflexivity | discriminate].
  - apply (proj1 (proj2 (proj2 (calculate_round_points_spec
                           (Apprentice.mk "Ada" [] None 1 0 false false)))));
      reflexivity.
Defined.

(** ** Hand legality *)

Lemma can_follow_color_iff (a : Apprentice.t) (lc : CardColor) :
  Apprentice.can_follow_color a lc = true <->
  exists c, In c (Apprentice.hand a) /\ Card.color c = lc.
Proof.
  unfold Apprentice.can_follow_color. rewrite existsb_exists.
  split; intros [c [H1 H2]]; exists c; split; try assumption;
    now apply CardColor_eqb_eq.
Qed.

Lemma playable_from_In (hand : list Card.t) (lc : CardColor) :
  forall i j,
    In j (Apprentice.playable_from i hand lc) <->
    exists c, i <= j /\ nth_error hand (Z.to_nat (j - i)) = Some c /\
              (Card.color c = lc \/ Card.color c = NONE).
Proof.
  induction hand as [|card rest IH]; intros i j; simpl.
  - split; [contradiction|]. intros [c [_ [H _]]].
    destruct (Z.to_nat (j - i)); discriminate.
  - assert (Hstep : In j (Apprentice.playable_from (i + 1) rest lc) <->
              exists c, i < j /\ nth_error (card :: rest) (Z.to_nat (j - i)) = Some c /\
                        (Card.color c = lc \/ Card.color c = NONE)).
    { rewrite IH. split; intros [c [H1 [H2 H3]]]; exists c; (split; [lia|]);
        (split; [|assumption]).
      - replace (Z.to_nat (j - i)) with (S (Z.to_nat (j - (i + 1)))) by lia.
        exact H2.
      - replace (Z.to_nat (j - i)) with (S (Z.to_nat (j - (i + 1)))) in H2 by lia.
        exact H2. }
    destruct (CardColor_eqb (Card.color card) lc || CardColor_eqb (Card.color card) NONE)
      eqn:E.
    + simpl. rewrite Hstep. split.
      * intros [<- | [c [H1 [H2 H3]]]].
        -- exists card. split; [lia|]. rewrite Z.sub_diag. split; [reflexivity|].
           apply orb_true_iff in E. now rewrite <- !CardColor_eqb_eq.
        -- exists c. split; [lia|]. now split.
      * intros [c [H1 [H2 H3]]].
        destruct (Z.eq_dec i j) as [->|Hne]; [now left|].
        right. exists c. split; [lia|]. now split.
    + rewrite Hstep. split.
      * intros [c [H1 [H2 H3]]]. exists c. split; [lia|]. now split.
      * intros [c [H1 [H2 H3]]]. exists c. split; [|now split].
        destruct (Z.eq_dec i j) as [->|Hne]; [|lia].
        rewrite Z.sub_diag in H2. simpl in H2. inversion H2; subst c.
        rewrite <- !CardColor_eqb_eq, <- orb_true_iff in H3. congruence.
Qed.

Lemma playable_from_lower (hand : list Card.t) (lc : CardColor) :
  forall i j, In j (Apprentice.playable_from i hand lc) -> i <= j.
Proof.
  intros i j H. apply playable_from_In in H. destruct H as [c [H _]]. exact H.
Qed.

Lemma playable_from_NoDup (hand : list Card.t) (lc : CardColor) :
  forall i, NoDup (Apprentice.playable_from i hand lc).
Proof.
  induction hand as [|card rest IH]; intros i; simpl; [constructor|].
  destruct (_ || _); [|apply IH].
  constructor; [|apply IH].
  intros H. apply playable_from_lower in H. lia.
Qed.

Lemma playable_in_range (a : Apprentice.t) (led : option CardColor) (i : Z) :
  In i (Apprentice.get_playable_cards a led) -> 0 <= i < len (Apprentice.hand a).
Proof.
  unfold Apprentice.get_playable_cards.
  destruct led as [lc|]; [destruct (negb _)|]; try apply In_range.
  intros H. apply playable_from_In in H. destruct H as [c [H1 [H2 _]]].
  split; [lia|]. rewrite Z.sub_0_r in H2.
  assert (Hlt : (Z.to_nat i < List.length (Apprentice.hand a))%nat)
    by (apply nth_error_Some; congruence).
  unfold len. lia.
Qed.

(** C9: when the led color is undefined or the hand holds no card of
    it, the playable positions are all the positions of the hand;
    otherwise they are exactly the positions holding a card of the led
    color or a colorless card; the result is non-empty for a non-empty
    hand and empty for an empty one. *)
Theorem get_playable_cards_spec (a : Apprentice.t) (led : option CardColor) :
  let hand := Apprentice.hand a in
  let playable := Apprentice.get_playable_cards a led in
  (led = None -> playable = range (len hand)) /\
  (forall lc, led = Some lc -> (forall c, In c hand -> Card.color c <> lc) ->
     playable = range (len hand)) /\
  (forall i, In i (range (len hand)) <-> exists c, holds hand i c) /\
  (forall lc, led = Some lc -> (exists c, In c hand /\ Card.color c = lc) ->
     NoDup playable /\
     forall i, In i playable <->
               exists c, holds hand i c /\ (Card.color c = lc \/ Card.color c = NONE)) /\
  (hand <> [] -> playable <> []) /\
  (hand = [] -> playable = []).
Proof.
  intros hand playable. subst hand playable.
  unfold Apprentice.get_playable_cards.
  split; [|split; [|split; [|split; [|split]]]].
  - now intros ->.
  - intros lc -> Hno.
    destruct (Apprentice.can_follow_color a lc) eqn:E; [|reflexivity].
    apply can_follow_color_iff in E. destruct E as [c [Hin Hc]].
    now apply Hno in Hin.
  - intros i. rewrite In_range. unfold holds, len. split.
    + intros [H0 H1].
      destruct (nth_error (Apprentice.hand a) (Z.to_nat i)) as [c|] eqn:E.
      * now exists c.
      * apply nth_error_None in E. lia.
    + intros [c [H0 H1]]. split; [assumption|].
      assert ((Z.to_nat i < List.length (Apprentice.hand a))%nat)
        by (apply nth_error_Some; congruence).
      lia.
  - intros lc -> Hex. apply can_follow_color_iff in Hex. rewrite Hex. simpl.
    split; [apply playable_from_NoDup|].
    intros i. rewrite playable_from_In. unfold holds.
    split.
    + intros [c [H1 [H2 H3]]]. exists c. rewrite Z.sub_0_r in H2. auto.
    + intros [c [[H1 H2] H3]]. exists c. rewrite Z.sub_0_r. auto.
  - intros Hne.
    destruct led as [lc|].
    + destruct (Apprentice.can_follow_color a lc) eqn:E; simpl.
      * apply can_follow_color_iff in E. destruct E as [c [Hin Hc]].
        apply In_nth_error in Hin. destruct Hin as [n Hn].
        intros Hnil.
        assert (Hi : In (Z.of_nat n) (Apprentice.playable_from 0 (Apprentice.hand a) lc)).
        { apply playable_from_In. exists c. split; [lia|].
          rewrite Z.sub_0_r, Nat2Z.id. auto. }
        rewrite Hnil in Hi. contradiction.
      * rewrite range_nil_iff. unfold len.
        destruct (Apprentice.hand a); [contradiction | simpl List.length; lia].
    + rewrite range_nil_iff. unfold len.
      destruct (Apprentice.hand a); [contradiction | simpl List.length; lia].
  - intros H. unfold Apprentice.can_follow_color. rewrite H.
    destruct led as [lc|]; reflexivity.
Qed.

Lemma get_playable_cards_spec_witness :
  let a := Apprentice.mk "Ada" [Regular HUMANS 3; Regular DWARVES 7; Fool] None 0 0
                         false false in
  Apprentice.get_playable_cards a None = [0; 1; 2] /\
  Apprentice.get_playable_cards a (Some ELVES) = [0; 1; 2] /\
  (In 2 (Apprentice.get_playable_cards a (Some DWARVES)) <->
   exists c, holds (Apprentice.hand a) 2 c /\
             (Card.color c = DWARVES \/ Card.color c = NONE)) /\
  Apprentice.get_playable_cards a (Some DWARVES) <> [].
Proof.
  intros a.
  pose proof (get_playable_cards_spec a None) as [H1 _].
  pose proof (get_playable_cards_spec a (Some ELVES)) as [_ [H2 _]].
  pose proof (get_playable_cards_spec a (Some DWARVES)) as [_ [_ [_ [H3 [H4 _]]]]].
  split; [|split; [|split]].
  - apply H1. reflexivity.
  - apply (H2 ELVES); [reflexivity|].
    intros c [<- | [<- | [<- | []]]]; discriminate.
  - apply (H3 DWARVES); [reflexivity|].
    exists (Regular DWARVES 7). split; [right; left; reflexivity | reflexivity].
  - apply H4. discriminate.
Defined.

(** ** Card comparison *)

Lemma CardColor_eqb_sym (a b : CardColor) : CardColor_eqb a b = CardColor_eqb b a.
Proof.
  unfold CardColor_eqb.
  destruct (CardColor_eq_dec a b), (CardColor_eq_dec b a); congruence.
Qed.

Lemma py_gt_asym (x y : option Z) : ~ (py_gt x y = Ok true /\ py_gt y x = Ok true).
Proof.
  destruct x as [x|], y as [y|]; simpl; intros [H1 H2]; try discriminate.
  inversion H1. inversion H2. lia.
Qed.

Lemma is_higher_than_wizard (a b : Card.t) (tc lc : option CardColor) :
  Card.card_type a = WIZARD -> Card.is_higher_than a b tc lc = Ok true.
Proof.
  intros H. unfold Card.is_higher_than. now rewrite H.
Qed.

Lemma is_higher_than_asym (a b : Card.t) (tc lc : option CardColor) :
  ~ (Card.card_type a = WIZARD /\ Card.card_type b = WIZARD) ->
  ~ (Card.is_higher_than a b tc lc = Ok true /\ Card.is_higher_than b a tc lc = Ok true).
Proof.
  intros Hw [H1 H2].
  unfold Card.is_higher_than in H1, H2.
  destruct (Card.card_type a) eqn:Ta, (Card.card_type b) eqn:Tb; simpl in H1, H2;
    try discriminate; try (apply Hw; now split).
  rewrite (CardColor_eqb_sym (Card.color b) (Card.color a)) in H2.
  destruct (color_is (Card.color a) tc), (color_is (Card.color b) tc);
    simpl in H1, H2; try discriminate;
    (destruct (CardColor_eqb (Card.color a) (Card.color b));
     [ now apply (py_gt_asym (Card.value a) (Card.value b))
     | destruct (color_is (Card.color a) lc), (color_is (Card.color b) lc);
       simpl in H1, H2; discriminate ]).
Qed.

(** C5, as the code has it: [is_higher_than] is asymmetric on every two
    cards that are not both SpecialHigh, and never true of a
    non-SpecialHigh card against itself (it is false there for every
    card the constructor builds); a SpecialHigh card ranks higher than
    every card, itself and the other SpecialHigh cards included. *)
Theorem is_higher_than_strict_except_wizards
    (a b : Card.t) (tc lc : option CardColor) :
  (~ (Card.card_type a = WIZARD /\ Card.card_type b = WIZARD) ->
   ~ (Card.is_higher_than a b tc lc = Ok true /\
      Card.is_higher_than b a tc lc = Ok true)) /\
  (Card.card_type a <> WIZARD -> Card.is_higher_than a a tc lc <> Ok true) /\
  (Card.wf a -> Card.card_type a <> WIZARD -> Card.is_higher_than a a tc lc = Ok false) /\
  (Card.card_type a = WIZARD -> Card.is_higher_than a b tc lc = Ok true).
Proof.
  split; [|split; [|split]].
  - apply is_higher_than_asym.
  - intros Hw H. apply (is_higher_than_asym a a tc lc); tauto.
  - intros Hwf Hw. apply wf_cases in Hwf.
    destruct Hwf as [[co [v [-> _]]] | [-> | ->]].
    + unfold Card.is_higher_than, Regular. simpl.
      destruct (color_is co tc); simpl;
        (replace (CardColor_eqb co co) with true
           by (symmetry; now apply CardColor_eqb_eq));
        simpl; now rewrite Z.ltb_irrefl.
    + now contradiction Hw.
    + reflexivity.
  - apply is_higher_than_wizard.
Qed.

Lemma is_higher_than_strict_except_wizards_witness :
  ~ (Card.is_higher_than Wizard (Regular DWARVES 13) (Some DWARVES) (Some HUMANS) = Ok true /\
     Card.is_higher_than (Regular DWARVES 13) Wizard (Some DWARVES) (Some HUMANS) = Ok true) /\
  Card.is_higher_than (Regular ELVES 4) (Regular ELVES 4) (Some DWARVES) (Some ELVES)
  = Ok false /\
  Card.is_higher_than Wizard Fool None None = Ok true.
Proof.
  split; [|split].
  - apply (proj1 (is_higher_than_strict_except_wizards
                    Wizard (Regular DWARVES 13) (Some DWARVES) (Some HUMANS))).
    intros [_ H]. discriminate H.
  - apply (proj1 (proj2 (proj2 (is_higher_than_strict_except_wizards
                    (Regular ELVES 4) Fool (Some DWARVES) (Some ELVES))))).
    + apply wf_cases. left. exists ELVES, 4. repeat split; [discriminate | lia | lia].
    + discriminate.
  - apply (proj2 (proj2 (proj2 (is_higher_than_strict_except_wizards
                    Wizard Fool None None)))).
    reflexivity.
Defined.

(** C5 as stated fails: a SpecialHigh card ranks higher than itself, so
    the comparison is neither irreflexive nor asymmetric. *)
Lemma is_higher_than_wizard_wizard :
  Card.wf Wizard /\
  Card.is_higher_than Wizard Wizard None None = Ok true /\
  ~ (forall (a b : Card.t) (tc lc : option CardColor),
       ~ (Card.is_higher_than a b tc lc = Ok true /\
          Card.is_higher_than b a tc lc = Ok true)).
Proof.
  split; [|split].
  - now exists WIZARD, None, None.
  - reflexivity.
  - intros H. apply (H Wizard Wizard None None). split; reflexivity.
Qed.

(** ** Recording plays and the leading color *)

Lemma dict_mem_false {V} (d : list (ref * V)) (k : ref) :
  dict_mem d k = false <-> ~ In k (map fst d).
Proof.
  unfold dict_mem. induction d as [|[k' v'] d IH]; simpl.
  - tauto.
  - rewrite orb_false_iff, IH. unfold ref_eqb. rewrite Nat.eqb_neq.
    split; [intros [H1 H2] [H|H]; congruence | intros H; split; intros H'; apply H; auto].
Qed.

Lemma dict_set_fresh {V} (d : list (ref * V)) (k : ref) (v : V) :
  ~ In k (map fst d) -> dict_set d k v = d ++ [(k, v)].
Proof.
  induction d as [|[k' v'] d IH]; simpl; intros H; [reflexivity|].
  destruct (ref_eqb k k') eqn:E.
  - apply Nat.eqb_eq in E. subst. exfalso. apply H. now left.
  - rewrite IH; [reflexivity|]. intros H'. apply H. now right.
Qed.

Lemma spec_leading_color_snoc (pre : list Card.t) (c : Card.t) :
  spec_leading_color (pre ++ [c]) =
  match pre with
  | [] => if CardType_eqb (Card.card_type c) REGULAR then Some (Card.color c) else None
  | [_] => match spec_leading_color pre with
           | Some l => Some l
           | None => if CardType_eqb (Card.card_type c) REGULAR
                     then Some (Card.color c) else None
           end
  | _ => spec_leading_color pre
  end.
Proof.
  destruct pre as [|c1 [|c2 pre]]; simpl; try reflexivity.
  destruct (CardType_eqb (Card.card_type c1) REGULAR); reflexivity.
Qed.

Ltac trick_fields :=
  cbn [Trick.set_leading_color Trick.set_cards_played Trick.set_winner
       Trick.set_is_complete Trick.is_complete Trick.cards_played
       Trick.leading_color Trick.leading_apprentice Trick.trump_color Trick.winner].

Lemma play_card_records (la : option ref) (tc : option CardColor) (w : option ref)
    (pre : list (ref * Card.t)) (a : ref) (c : Card.t) :
  ~ In a (map fst pre) ->
  Trick.play_card a c (Trick.mk la tc pre (spec_leading_color (map snd pre)) w false)
  = Returns (Trick.mk la tc (pre ++ [(a, c)])
                      (spec_leading_color (map snd (pre ++ [(a, c)]))) w false) true.
Proof.
  intros Hfresh.
  unfold Trick.play_card, bind, get. trick_fields.
  rewrite (proj2 (dict_mem_false pre a) Hfresh).
  rewrite map_app. simpl map. rewrite spec_leading_color_snoc.
  destruct pre as [|[a1 c1] [|[a2 c2] pre]].
  - cbn [map spec_leading_color].
    destruct (CardType_eqb (Card.card_type c) REGULAR);
      unfold modify, ret; trick_fields;
      rewrite (dict_set_fresh _ a c Hfresh); reflexivity.
  - change (len [(a1, c1)] =? 1) with true. rewrite andb_true_r.
    cbn [map snd].
    destruct (spec_leading_color [c1]) eqn:E; cbn [Trick.is_none].
    + unfold modify, ret; trick_fields.
      rewrite (dict_set_fresh _ a c Hfresh); reflexivity.
    + destruct (CardType_eqb (Card.card_type c) REGULAR);
        unfold modify, ret; trick_fields;
        rewrite (dict_set_fresh _ a c Hfresh); reflexivity.
  - replace (len ((a1, c1) :: (a2, c2) :: pre) =? 1) with false
      by (symmetry; apply Z.eqb_neq; unfold len; simpl List.length; lia).
    rewrite andb_false_r.
    unfold modify, ret; trick_fields.
    rewrite (dict_set_fresh _ a c Hfresh); reflexivity.
Qed.

Lemma record_plays_from (la : option ref) (tc : option CardColor) (w : option ref)
    (plays : list (ref * Card.t)) :
  forall pre,
    NoDup (map fst (pre ++ plays)) ->
    record_plays plays (Trick.mk la tc pre (spec_leading_color (map snd pre)) w false)
    = Returns (Trick.mk la tc (pre ++ plays)
                        (spec_leading_color (map snd (pre ++ plays))) w false) tt.
Proof.
  induction plays as [|[a c] plays IH]; intros pre Hnd.
  - rewrite app_nil_r. reflexivity.
  - assert (Hfresh : ~ In a (map fst pre)).
    { rewrite map_app in Hnd. simpl in Hnd. apply NoDup_remove_2 in Hnd.
      intros H. apply Hnd. apply in_or_app. now left. }
    unfold record_plays. simpl for_each. unfold bind at 1 2. simpl fst. simpl snd.
    rewrite (play_card_records la tc w pre a c Hfresh). unfold ret at 1.
    fold (record_plays plays).
    replace (pre ++ (a, c) :: plays) with ((pre ++ [(a, c)]) ++ plays)
      by (rewrite <- app_assoc; reflexivity).
    apply IH. rewrite <- app_assoc. exact Hnd.
Qed.

Lemma record_plays_init (la : option ref) (tc : option CardColor)
    (plays : list (ref * Card.t)) :
  NoDup (map fst plays) ->
  record_plays plays (Trick.init la tc)
  = Returns (Trick.mk la tc plays (spec_leading_color (map snd plays)) None false) tt.
Proof.
  intros H. exact (record_plays_from la tc None plays [] H).
Qed.

Lemma play_card_third_or_later (s : Trick.t) (a : ref) (c : Card.t) :
  2 <= len (Trick.cards_played s) ->
  Trick.leading_color (final_state (Trick.play_card a c s)) = Trick.leading_color s.
Proof.
  intros Hlen. unfold Trick.play_card, bind, get.
  destruct (Trick.is_complete s); [reflexivity|].
  destruct (dict_mem (Trick.cards_played s) a); [reflexivity|].
  destruct (Trick.cards_played s) as [|p l] eqn:E.
  - unfold len in Hlen. simpl in Hlen. lia.
  - replace (len (p :: l) =? 1) with false
      by (symmetry; apply Z.eqb_neq; lia).
    rewrite andb_false_r. reflexivity.
Qed.

(** C2: on a fresh trick, for every sequence of plays by distinct
    players, every play is recorded and the leading color is the first
    card's color exactly when the first card is Regular, else the second
    card's color exactly when the second card is Regular, else undefined;
    a card played third or later never changes it. *)
Theorem leading_color_policy (la : option ref) (tc : option CardColor)
    (plays : list (ref * Card.t)) :
  NoDup (map fst plays) ->
  (exists t,
     record_plays plays (Trick.init la tc) = Returns t tt /\
     Trick.cards_played t = plays /\
     Trick.leading_color t = spec_leading_color (map snd plays) /\
     (forall a1 c1 rest, plays = (a1, c1) :: rest ->
        (Card.card_type c1 = REGULAR -> Trick.leading_color t = Some (Card.color c1)) /\
        (rest = [] ->
           (Trick.leading_color t = Some (Card.color c1)
            <-> Card.card_type c1 = REGULAR) /\
           (Card.card_type c1 <> REGULAR -> Trick.leading_color t = None))) /\
     (forall a1 c1 a2 c2 rest, plays = (a1, c1) :: (a2, c2) :: rest ->
        Card.card_type c1 <> REGULAR ->
        (Trick.leading_color t = Some (Card.color c2) <-> Card.card_type c2 = REGULAR) /\
        (Card.card_type c2 <> REGULAR -> Trick.leading_color t = None))) /\
  (forall s a c, 2 <= len (Trick.cards_played s) ->
     Trick.leading_color (final_state (Trick.play_card a c s)) = Trick.leading_color s).
Proof.
  intros Hnd. split; [|apply play_card_third_or_later].
  eexists. split; [apply record_plays_init; exact Hnd|].
  simpl. split; [reflexivity|]. split; [reflexivity|]. split.
  - intros a1 c1 rest ->. simpl. split.
    + intros H. apply CardType_eqb_eq in H. now rewrite H.
    + intros ->. simpl.
      destruct (CardType_eqb (Card.card_type c1) REGULAR) eqn:E.
      * apply CardType_eqb_eq in E. split; [tauto | congruence].
      * apply CardType_eqb_neq in E. split; [split; [discriminate | tauto] | reflexivity].
  - intros a1 c1 a2 c2 rest -> H1. simpl.
    apply CardType_eqb_neq in H1. rewrite H1.
    destruct (CardType_eqb (Card.card_type c2) REGULAR) eqn:E.
    + apply CardType_eqb_eq in E. split; [tauto | congruence].
    + apply CardType_eqb_neq in E. split; [split; [discriminate | tauto] | reflexivity].
Qed.

Lemma leading_color_policy_witness :
  (exists t, record_plays [(0%nat, Fool); (1%nat, Regular ELVES 10)]
                          (Trick.init (Some 0%nat) (Some DWARVES)) = Returns t tt /\
             Trick.leading_color t = Some ELVES) /\
  (exists t, record_plays [(0%nat, Wizard); (1%nat, Fool)]
                          (Trick.init (Some 0%nat) (Some DWARVES)) = Returns t tt /\
             Trick.leading_color t = None) /\
  (exists t, record_plays [(0%nat, Fool); (1%nat, Wizard); (2%nat, Regular ELVES 10)]
                          (Trick.init (Some 0%nat) (Some DWARVES)) = Returns t tt /\
             Trick.leading_color t = None).
Proof.
  assert (N2 : NoDup [0%nat; 1%nat])
    by (repeat constructor; simpl; intuition discriminate).
  assert (N3 : NoDup [0%nat; 1%nat; 2%nat])
    by (repeat constructor; simpl; intuition discriminate).
  split; [|split].
  - destruct (proj1 (leading_color_policy (Some 0%nat) (Some DWARVES)
                       [(0%nat, Fool); (1%nat, Regular ELVES 10)] N2))
      as [t [H1 [_ [H2 _]]]].
    exists t. split; [exact H1 | exact H2].
  - destruct (proj1 (leading_color_policy (Some 0%nat) (Some DWARVES)
                       [(0%nat, Wizard); (1%nat, Fool)] N2))
      as [t [H1 [_ [H2 _]]]].
    exists t. split; [exact H1 | exact H2].
  - destruct (proj1 (leading_color_policy (Some 0%nat) (Some DWARVES)
                       [(0%nat, Fool); (1%nat, Wizard); (2%nat, Regular ELVES 10)] N3))
      as [t [H1 [_ [H2 _]]]].
    exists t. split; [exact H1 | exact H2].
Defined.

(** ** Resolving a trick: SpecialLow-only tricks and the first SpecialHigh *)

Lemma first_wizard_split (pre post : list (ref * Card.t)) (a : ref) (c : Card.t) :
  (forall kv, In kv pre -> Card.card_type (snd kv) <> WIZARD) ->
  Card.card_type c = WIZARD ->
  Trick.first_wizard (pre ++ (a, c) :: post) = Some a.
Proof.
  intros Hpre Hc. induction pre as [|[a' c'] pre IH]; simpl.
  - now rewrite Hc.
  - assert (H : Card.card_type c' <> WIZARD) by (apply (Hpre (a', c')); now left).
    apply CardType_eqb_neq in H. rewrite H.
    apply IH. intros kv Hin. apply Hpre. now right.
Qed.


Lemma all_fools_iff (items : list (ref * Card.t)) :
  forallb (fun kv => CardType_eqb (Card.card_type (snd kv)) FOOL) items = true <->
  forall kv, In kv items -> Card.card_type (snd kv) = FOOL.
Proof.
  rewrite forallb_forall. split; intros H kv Hin; apply CardType_eqb_eq; auto.
Qed.

Lemma determine_winner_all_fools (s : Trick.t) (first : ref) (c0 : Card.t)
    (rest : list (ref * Card.t)) :
  Trick.cards_played s = (first, c0) :: rest ->
  (forall kv, In kv (Trick.cards_played s) -> Card.card_type (snd kv) = FOOL) ->
  Trick.determine_winner s = Returns s (Some first).
Proof.
  intros Hc Hall. unfold Trick.determine_winner, bind, get.
  apply all_fools_iff in Hall. rewrite Hc in *. now rewrite Hall.
Qed.

Lemma determine_winner_first_wizard (s : Trick.t) (pre post : list (ref * Card.t))
    (a : ref) (c : Card.t) :
  Trick.cards_played s = pre ++ (a, c) :: post ->
  (forall kv, In kv pre -> Card.card_type (snd kv) <> WIZARD) ->
  Card.card_type c = WIZARD ->
  Trick.determine_winner s = Returns (Trick.set_winner (Some a) s) (Some a).
Proof.
  intros Hc Hpre Hw. unfold Trick.determine_winner, bind, get.
  destruct (Trick.cards_played s) as [|[f c0] rest] eqn:E.
  - destruct pre; discriminate.
  - replace (forallb _ ((f, c0) :: rest)) with false.
    + rewrite Hc, (first_wizard_split pre post a c Hpre Hw). reflexivity.
    + symmetry. apply not_true_is_false. intros H.
      rewrite all_fools_iff in H.
      assert (Hin : In (a, c) ((f, c0) :: rest))
        by (rewrite Hc; apply in_or_app; right; now left).
      apply H in Hin. simpl in Hin. congruence.
Qed.

(** C3: a trick in which every card is SpecialLow resolves to the first
    player in play order; a trick in which a SpecialHigh card was played
    resolves to the player of the first SpecialHigh card in play order,
    whatever the other cards, the trump color and the leading color. *)
Theorem determine_winner_fools_then_wizards (s : Trick.t) :
  (forall first c0 rest,
     Trick.cards_played s = (first, c0) :: rest ->
     (forall kv, In kv (Trick.cards_played s) -> Card.card_type (snd kv) = FOOL) ->
     Trick.determine_winner s = Returns s (Some first)) /\
  (forall pre a c post,
     Trick.cards_played s = pre ++ (a, c) :: post ->
     (forall kv, In kv pre -> Card.card_type (snd kv) <> WIZARD) ->
     Card.card_type c = WIZARD ->
     Trick.determine_winner s = Returns (Trick.set_winner (Some a) s) (Some a)).
Proof.
  split.
  - apply determine_winner_all_fools.
  - intros pre a c post. apply determine_winner_first_wizard.
Qed.

Lemma determine_winner_fools_then_wizards_witness :
  Trick.determine_winner
    (Trick.mk (Some 0%nat) (Some DWARVES)
              [(0%nat, Fool); (1%nat, Fool); (2%nat, Fool)] None None false)
  = Returns (Trick.mk (Some 0%nat) (Some DWARVES)
                      [(0%nat, Fool); (1%nat, Fool); (2%nat, Fool)] None None false)
            (Some 0%nat) /\
  Trick.determine_winner
    (Trick.mk (Some 0%nat) (Some DWARVES)
              [(0%nat, Regular DWARVES 13); (1%nat, Wizard); (2%nat, Regular HUMANS 10)]
              (Some DWARVES) None false)
  = Returns (Trick.mk (Some 0%nat) (Some DWARVES)
              [(0%nat, Regular DWARVES 13); (1%nat, Wizard); (2%nat, Regular HUMANS 10)]
              (Some DWARVES) (Some 1%nat) false)
            (Some 1%nat).
Proof.
  split.
  - apply (proj1 (determine_winner_fools_then_wizards _) 0%nat Fool
                 [(1%nat, Fool); (2%nat, Fool)]).
    + reflexivity.
    + simpl. intros kv [<- | [<- | [<- | []]]]; reflexivity.
  - apply (proj2 (determine_winner_fools_then_wizards
                    (Trick.mk (Some 0%nat) (Some DWARVES)
                       [(0%nat, Regular DWARVES 13); (1%nat, Wizard);
                        (2%nat, Regular HUMANS 10)]
                       (Some DWARVES) None false))
                 [(0%nat, Regular DWARVES 13)] 1%nat Wizard [(2%nat, Regular HUMANS 10)]).
    + reflexivity.
    + simpl. intros kv [<- | []]. discriminate.
    + reflexivity.
Defined.

(** ** The winner attribute *)

Lemma complete_trick_all_fools (h : heap) (s : Trick.t) (first : ref) (c0 : Card.t)
    (rest : list (ref * Card.t)) :
  Trick.cards_played s = (first, c0) :: rest ->
  (forall kv, In kv (Trick.cards_played s) -> Card.card_type (snd kv) = FOOL) ->
  exists h',
    Trick.complete_trick (h, s)
    = Returns (h', Trick.set_is_complete true s) (Some first).
Proof.
  intros Hc Hall.
  unfold Trick.complete_trick, bind, zoom, modify. simpl fst. simpl snd.
  rewrite (determine_winner_all_fools (Trick.set_is_complete true s) first c0 rest);
    [|exact Hc|exact Hall].
  simpl. unfold at_ref, zoom, Apprentice.win_trick, modify, ret. simpl.
  eexists. reflexivity.
Qed.

(** C7 fails on the code: resolving a trick of SpecialLow cards only
    returns the first player but leaves the [winner] attribute unset,
    while the two other branches of [determine_winner] assign it. *)
Theorem complete_trick_all_fools_winner_unset :
  forall (h : heap),
  exists t h' t',
    record_plays [(0%nat, Fool); (1%nat, Fool); (2%nat, Fool)]
                 (Trick.init (Some 0%nat) (Some DWARVES)) = Returns t tt /\
    Trick.complete_trick (h, t) = Returns (h', t') (Some 0%nat) /\
    Trick.winner t' = None /\
    Trick.is_complete t' = true /\
    Apprentice.tricks_won (h' 0%nat) = Apprentice.tricks_won (h 0%nat) + 1.
Proof.
  intros h. eexists. eexists. eexists.
  split; [reflexivity|]. split; [reflexivity|].
  repeat split.
Qed.

(** ** Resolving a trick: the highest candidate *)















Lemma wf_is_higher_than_total (c d : Card.t) (tc lc : option CardColor) :
  Card.wf c -> Card.wf d -> exists b, Card.is_higher_than c d tc lc = Ok b.
Proof.
  intros Hc Hd. apply wf_cases in Hc, Hd.
  destruct Hc as [[co [v [-> _]]] | [-> | ->]];
    destruct Hd as [[co' [v' [-> _]]] | [-> | ->]];
    try (eexists; reflexivity).
  unfold Card.is_higher_than, Regular. cbn [Card.card_type Card.color Card.value].
  change (CardType_eqb REGULAR WIZARD) with false.
  change (CardType_eqb REGULAR FOOL) with false. cbv iota.
  destruct (color_is co tc && negb (color_is co' tc)); [eexists; reflexivity|].
  destruct (negb (color_is co tc) && color_is co' tc); [eexists; reflexivity|].
  destruct (CardColor_eqb co co'); [eexists; reflexivity|].
  destruct (color_is co lc && negb (color_is co' lc)); eexists; reflexivity.
Qed.








(** ** The round: rejected plays *)

Lemma RoundPhase_eqb_refl (p : RoundPhase) : RoundPhase_eqb p p = true.
Proof.
  unfold RoundPhase_eqb. destruct (RoundPhase_eq_dec p p); congruence.
Qed.

Lemma play_card_rejected (w : Round.world) (a : ref) (i : Z) (trick : Trick.t) :
  Round.phase (snd w) = PLAYING ->
  py_getitem (Round.apprentices (snd w)) (Round.current_apprentice_index (snd w)) = Ok a ->
  Round.current_trick (snd w) = Some trick ->
  mem i (Apprentice.get_playable_cards (fst w a) (Trick.leading_color trick)) = false ->
  Round.play_card a i w = Returns w false.
Proof.
  intros Hph Hturn Htrick Hmem.
  unfold Round.play_card, bind, Round.self_, lift, Round.the_heap.
  rewrite Hph, Hturn, RoundPhase_eqb_refl.
  unfold ref_eqb. rewrite Nat.eqb_refl, Htrick.
  cbv beta iota zeta delta [negb]. rewrite Hmem. reflexivity.
Qed.

Lemma mem_out_of_range (a : Apprentice.t) (led : option CardColor) (i : Z) :
  i < 0 \/ len (Apprentice.hand a) <= i ->
  mem i (Apprentice.get_playable_cards a led) = false.
Proof.
  intros H. apply not_true_is_false. intros Hm.
  apply mem_In, playable_in_range in Hm. lia.
Qed.

Lemma apprentice_play_card_out_of_range (a : Apprentice.t) (i : Z) :
  i < 0 \/ len (Apprentice.hand a) <= i ->
  Apprentice.play_card i a = Raises a IndexError.
Proof.
  intros H. unfold Apprentice.play_card, bind, get.
  replace ((i <? 0) || (len (Apprentice.hand a) <=? i)) with true; [reflexivity|].
  symmetry. apply orb_true_iff. destruct H; [left; lia | right; lia].
Qed.

(** C6, as the code has it: in the Playing phase, on the acting
    player's turn, a hand position out of range is an ordinary rejection
    -- [Round.play_card] returns [False] and mutates nothing -- because
    the legality check comes first; the IndexError is what
    [Apprentice.play_card] raises, also without mutation, when it is
    called with such a position directly. *)
Theorem play_card_out_of_range_rejected
    (w : Round.world) (a : ref) (i : Z) (trick : Trick.t) :
  Round.phase (snd w) = PLAYING ->
  py_getitem (Round.apprentices (snd w)) (Round.current_apprentice_index (snd w)) = Ok a ->
  Round.current_trick (snd w) = Some trick ->
  i < 0 \/ len (Apprentice.hand (fst w a)) <= i ->
  Round.play_card a i w = Returns w false /\
  Apprentice.play_card i (fst w a) = Raises (fst w a) IndexError.
Proof.
  intros Hph Hturn Htrick Hi. split.
  - apply (play_card_rejected w a i trick Hph Hturn Htrick).
    now apply mem_out_of_range.
  - now apply apprentice_play_card_out_of_range.
Qed.

Lemma wizard_led_facts :
  Round.phase (snd wizard_led) = PLAYING /\
  py_getitem (Round.apprentices (snd wizard_led))
             (Round.current_apprentice_index (snd wizard_led)) = Ok 1%nat /\
  Round.current_trick (snd wizard_led)
  = Some (Trick.mk (Some 2%nat) None [(2%nat, Wizard); (0%nat, Regular ELVES 1)]
                   (Some ELVES) None false) /\
  len (Apprentice.hand (fst wizard_led 1%nat)) = 20 /\
  holds (Apprentice.hand (fst wizard_led 1%nat)) 6 (Regular DWARVES 1).
Proof.
  repeat split; vm_compute; congruence.
Qed.

Lemma play_card_out_of_range_rejected_witness :
  Round.play_card 1%nat 20 wizard_led = Returns wizard_led false /\
  Apprentice.play_card 20 (fst wizard_led 1%nat)
  = Raises (fst wizard_led 1%nat) IndexError.
Proof.
  destruct wizard_led_facts as [H1 [H2 [H3 [H4 _]]]].
  apply (play_card_out_of_range_rejected wizard_led 1%nat 20 _ H1 H2 H3).
  right. rewrite H4. lia.
Defined.

Lemma players_fresh : Round.fresh players [0%nat; 1%nat; 2%nat].
Proof.
  intros a _. repeat split.
Qed.

Lemma seated_reachable (n dealer : Z) : Round.reachable (seated n dealer).
Proof.
  apply (Round.reach_init players n [0%nat; 1%nat; 2%nat] dealer).
  - apply players_fresh.
  - reflexivity.
Qed.

Lemma dealt_reachable (n dealer : Z) : Round.reachable (dealt n dealer).
Proof.
  unfold dealt. apply Round.reach_deal.
  - apply seated_reachable.
  - apply Permutation_refl.
Qed.

Lemma wizard_led_reachable : Round.reachable wizard_led.
Proof.
  unfold wizard_led, all_predicted.
  do 2 apply Round.reach_play. do 3 apply Round.reach_predict.
  apply dealt_reachable.
Qed.

(** C6 as stated fails: on the acting player's turn a position beyond
    the hand, or a negative one, makes [Round.play_card] return [False];
    no error is signalled. *)
Lemma play_card_out_of_range_no_error :
  Round.reachable wizard_led /\
  Round.phase (snd wizard_led) = PLAYING /\
  py_getitem (Round.apprentices (snd wizard_led))
             (Round.current_apprentice_index (snd wizard_led)) = Ok 1%nat /\
  len (Apprentice.hand (fst wizard_led 1%nat)) = 20 /\
  Round.play_card 1%nat 99 wizard_led = Returns wizard_led false /\
  Round.play_card 1%nat (-1) wizard_led = Returns wizard_led false /\
  ~ (exists w' e, Round.play_card 1%nat 99 wizard_led = Raises w' e).
Proof.
  destruct wizard_led_facts as [H1 [H2 [H3 [H4 _]]]].
  assert (H99 : Round.play_card 1%nat 99 wizard_led = Returns wizard_led false).
  { apply (play_card_rejected wizard_led 1%nat 99 _ H1 H2 H3). now vm_compute. }
  split; [apply wizard_led_reachable|].
  split; [exact H1|]. split; [exact H2|]. split; [exact H4|].
  split; [exact H99|]. split.
  - apply (play_card_rejected wizard_led 1%nat (-1) _ H1 H2 H3). now vm_compute.
  - intros [w' [e H]]. rewrite H99 in H. discriminate H.
Qed.

(** ** The round: the Wizard-led trick *)

Lemma is_valid_play_wizard_lead (trick : Trick.t) (first : ref) (c0 : Card.t)
    (rest : list (ref * Card.t)) (apprentice : Apprentice.t) (card : Card.t) :
  Trick.cards_played trick = (first, c0) :: rest ->
  Card.card_type c0 = WIZARD ->
  Trick.is_valid_play trick apprentice card = true.
Proof.
  intros Hc Hw. unfold Trick.is_valid_play. rewrite Hc, Hw.
  destruct (Trick.leading_color trick); [|reflexivity].
  destruct (_ || _); reflexivity.
Qed.

(** C4 fails on the code: after a Wizard lead and a Regular second card
    the leading color is set, and [Round.play_card] checks the position
    against [Apprentice.get_playable_cards] alone, so the third player,
    who holds cards of the leading color, is refused an off-color card;
    [Trick.is_valid_play], which has the first-card-was-a-Wizard rule,
    accepts the same card but is never consulted. *)
Theorem play_card_ignores_wizard_lead :
  Round.reachable wizard_led /\
  Round.phase (snd wizard_led) = PLAYING /\
  py_getitem (Round.apprentices (snd wizard_led))
             (Round.current_apprentice_index (snd wizard_led)) = Ok 1%nat /\
  exists trick,
    Round.current_trick (snd wizard_led) = Some trick /\
    Trick.cards_played trick = [(2%nat, Wizard); (0%nat, Regular ELVES 1)] /\
    Trick.leading_color trick = Some ELVES /\
    holds (Apprentice.hand (fst wizard_led 1%nat)) 6 (Regular DWARVES 1) /\
    Round.play_card 1%nat 6 wizard_led = Returns wizard_led false /\
    Trick.is_valid_play trick (fst wizard_led 1%nat) (Regular DWARVES 1) = true.
Proof.
  destruct wizard_led_facts as [H1 [H2 [H3 [H4 H5]]]].
  split; [apply wizard_led_reachable|].
  split; [exact H1|]. split; [exact H2|].
  eexists. split; [exact H3|].
  split; [reflexivity|]. split; [reflexivity|]. split; [exact H5|]. split.
  - apply (play_card_rejected wizard_led 1%nat 6 _ H1 H2 H3). now vm_compute.
  - now vm_compute.
Qed.

(** ** The round: the seating is never changed *)

Lemma ks_ret {A} (a : A) : keeps_seating (ret a).
Proof. intros w. reflexivity. Qed.

Lemma ks_raise {A} (e : exn) : keeps_seating (@raise Round.world A e).
Proof. intros w. reflexivity. Qed.

Lemma ks_lift {A} (r : result A) : keeps_seating (lift r).
Proof. intros w. unfold lift. destruct r; reflexivity. Qed.

Lemma ks_self : keeps_seating Round.self_.
Proof. intros w. reflexivity. Qed.

Lemma ks_heap : keeps_seating Round.the_heap.
Proof. intros w. reflexivity. Qed.

Lemma ks_bind {A B} (m : M Round.world A) (k : A -> M Round.world B) :
  keeps_seating m -> (forall x, keeps_seating (k x)) -> keeps_seating (bind m k).
Proof.
  intros Hm Hk w. unfold bind. specialize (Hm w).
  destruct (m w) as [s x|s e]; simpl in Hm |- *.
  - now rewrite Hk.
  - exact Hm.
Qed.

Lemma ks_update (f : Round.t -> Round.t) :
  (forall r, Round.apprentices (f r) = Round.apprentices r) ->
  keeps_seating (Round.update f).
Proof. intros Hf w. unfold Round.update, modify. simpl. apply Hf. Qed.

Lemma ks_on_apprentice {A} (r : ref) (m : M Apprentice.t A) :
  keeps_seating (Round.on_apprentice r m).
Proof.
  intros w. unfold Round.on_apprentice, zoom, at_ref, zoom.
  destruct (m (fst w r)); reflexivity.
Qed.

Lemma ks_on_deck {A} (m : M Deck.t A) : keeps_seating (Round.on_deck m).
Proof.
  intros w. unfold Round.on_deck, zoom.
  destruct (m (Round.deck (snd w))); reflexivity.
Qed.

Lemma ks_on_trick {A} (trick : Trick.t) (m : M (heap * Trick.t) A) :
  keeps_seating (Round.on_trick trick m).
Proof.
  intros w. unfold Round.on_trick, zoom.
  destruct (m (fst w, trick)); reflexivity.
Qed.

Create HintDb seating.

#[export] Hint Resolve ks_ret ks_raise ks_lift ks_self ks_heap ks_on_apprentice
  ks_on_deck ks_on_trick : seating.

Ltac seating :=
  repeat first
    [ apply ks_bind; [| intros ?]
    | apply ks_update; intros ?; reflexivity
    | solve [auto with seating]
    | match goal with
      | |- keeps_seating (if ?b then _ else _) => destruct b
      | |- keeps_seating (match ?x with _ => _ end) => destruct x
      end ].

Lemma ks_receive_all (hands : list (list Card.t)) (apprentices : list ref) :
  forall i, keeps_seating (Round.receive_all i apprentices hands).
Proof.
  induction apprentices as [|a rest IH]; intros i; simpl; seating.
Qed.

Lemma ks_deal_cards (arrangement : list Card.t) :
  keeps_seating (Round.deal_cards arrangement).
Proof.
  unfold Round.deal_cards. seating. apply ks_receive_all.
Qed.

Lemma ks_set_dealer_chosen_trump (color : CardColor) :
  keeps_seating (Round.set_dealer_chosen_trump color).
Proof. unfold Round.set_dealer_chosen_trump. seating. Qed.

Lemma ks_start_first_trick : keeps_seating Round._start_first_trick.
Proof. unfold Round._start_first_trick. seating. Qed.

Lemma ks_start_next_trick (leading : option ref) :
  keeps_seating (Round._start_next_trick leading).
Proof. unfold Round._start_next_trick. seating. Qed.

Lemma ks_make_prediction (a : ref) (p : Z) : keeps_seating (Round.make_prediction a p).
Proof.
  unfold Round.make_prediction. seating.
Qed.

Lemma ks_play_card (a : ref) (i : Z) : keeps_seating (Round.play_card a i).
Proof.
  unfold Round.play_card. seating.
Qed.

Lemma ks_score_each (apprentices : list ref) :
  forall round_points, keeps_seating (Round.score_each apprentices round_points).
Proof.
  induction apprentices as [|a rest IH]; intros rp; simpl; seating.
Qed.

Lemma ks_score_round : keeps_seating Round.score_round.
Proof.
  unfold Round.score_round. seating. apply ks_score_each.
Qed.

Lemma reachable_seated (w : Round.world) :
  Round.reachable w -> Round.apprentices (snd w) <> [].
Proof.
  induction 1 as [h n apprentices dealer r _ Hinit | w arr _ IH _ | w c _ IH
                 | w a p _ IH | w a i _ IH | w _ IH].
  - unfold Round.init, py_mod in Hinit. simpl.
    destruct apprentices; [discriminate|].
    destruct (len (r0 :: apprentices) =? 0); [discriminate|].
    inversion Hinit. simpl. discriminate.
  - now rewrite ks_deal_cards.
  - now rewrite ks_set_dealer_chosen_trump.
  - now rewrite ks_make_prediction.
  - now rewrite ks_play_card.
  - now rewrite ks_score_round.
Qed.

(** ** The round: predictions *)

Lemma py_getitem_in_range {A} (l : list A) (i : Z) :
  0 <= i < len l -> exists x, py_getitem l i = Ok x.
Proof.
  intros H. unfold py_getitem. cbv zeta.
  replace (i <? 0) with false by (symmetry; apply Z.ltb_ge; lia).
  cbv iota.
  replace (i <? 0) with false by (symmetry; apply Z.ltb_ge; lia).
  replace (len l <=? i) with false by (symmetry; apply Z.leb_gt; lia).
  simpl.
  destruct (nth_error l (Z.to_nat i)) as [x|] eqn:E; [now exists x|].
  apply nth_error_None in E. unfold len in H. lia.
Qed.

Lemma start_first_trick_returns (w : Round.world) :
  Round.apprentices (snd w) <> [] ->
  exists r', Round._start_first_trick w = Returns (fst w, r') tt.
Proof.
  intros Hne. unfold Round._start_first_trick, bind, Round.self_, lift, py_mod.
  assert (Hlen : 0 < len (Round.apprentices (snd w))).
  { unfold len. destruct (Round.apprentices (snd w)); [contradiction|].
    simpl List.length. lia. }
  replace (len (Round.apprentices (snd w)) =? 0) with false
    by (symmetry; apply Z.eqb_neq; lia).
  destruct (py_getitem_in_range (Round.apprentices (snd w))
              ((Round.dealer_index (snd w) + 1) mod len (Round.apprentices (snd w))))
    as [x Hx].
  { apply Z.mod_pos_bound. exact Hlen. }
  rewrite Hx. unfold Round.update, modify. simpl. eexists. reflexivity.
Qed.

Lemma make_prediction_accepted (w : Round.world) (a : ref) (p : Z) :
  Round.phase (snd w) = PREDICTING ->
  Round.apprentices (snd w) <> [] ->
  0 <= p <= Round.cards_per_apprentice (snd w) ->
  exists r',
    Round.make_prediction a p w
    = Returns (heap_set a (Apprentice.set_prediction (Some p) (fst w a)) (fst w), r') true.
Proof.
  intros Hph Hne Hp.
  unfold Round.make_prediction, bind, Round.self_.
  rewrite Hph. change (RoundPhase_eqb PREDICTING PREDICTING) with true.
  replace ((p <? 0) || (Round.cards_per_apprentice (snd w) <? p)) with false
    by (symmetry; apply orb_false_iff; split; apply Z.ltb_ge; lia).
  cbv beta iota delta [negb].
  unfold Round.on_apprentice, zoom, at_ref, zoom, Apprentice.make_prediction.
  replace (p <? 0) with false by (symmetry; apply Z.ltb_ge; lia).
  unfold modify, Round.the_heap. cbn [fst snd].
  match goal with
  | |- context [forallb ?f ?l] => destruct (forallb f l)
  end.
  - unfold Round.update, modify. cbn [fst snd].
    match goal with
    | |- context [Round._start_first_trick ?w'] =>
        destruct (start_first_trick_returns w') as [r' Hr'];
        [exact Hne | rewrite Hr']
    end.
    exists r'. reflexivity.
  - eexists. reflexivity.
Qed.

(** C8, as the code has it: a prediction can be set more than once per
    round.  In every reachable Predicting-phase state in which a player
    already has a recorded prediction, [Round.make_prediction] accepts a
    further in-range prediction from that player: it returns [True] and
    the new value replaces the recorded one. *)
Theorem make_prediction_replaces (w : Round.world) (a : ref) (q p : Z) :
  Round.reachable w ->
  Round.phase (snd w) = PREDICTING ->
  Apprentice.prediction (fst w a) = Some q ->
  0 <= p <= Round.cards_per_apprentice (snd w) ->
  exists w',
    Round.make_prediction a p w = Returns w' true /\
    Apprentice.prediction (fst w' a) = Some p /\
    (p <> q -> Apprentice.prediction (fst w' a) <> Apprentice.prediction (fst w a)).
Proof.
  intros Hreach Hph Hq Hp.
  destruct (make_prediction_accepted w a p Hph (reachable_seated w Hreach) Hp)
    as [r' Hr'].
  eexists. split; [exact Hr'|].
  cbn [fst]. unfold heap_set, ref_eqb. rewrite Nat.eqb_refl.
  split; [reflexivity|].
  intros Hne. rewrite Hq. simpl. congruence.
Qed.

Lemma predicted_once_facts :
  Round.phase (snd predicted_once) = PREDICTING /\
  Apprentice.prediction (fst predicted_once 0%nat) = Some 1 /\
  Round.cards_per_apprentice (snd predicted_once) = 1.
Proof.
  repeat split.
Qed.

Lemma predicted_once_reachable : Round.reachable predicted_once.
Proof.
  unfold predicted_once. apply Round.reach_predict, dealt_reachable.
Qed.

Lemma make_prediction_replaces_witness :
  exists w',
    Round.make_prediction 0%nat 0 predicted_once = Returns w' true /\
    Apprentice.prediction (fst w' 0%nat) = Some 0 /\
    (0 <> 1 -> Apprentice.prediction (fst w' 0%nat)
               <> Apprentice.prediction (fst predicted_once 0%nat)).
Proof.
  destruct predicted_once_facts as [H1 [H2 H3]].
  apply (make_prediction_replaces predicted_once 0%nat 1 0
           predicted_once_reachable H1 H2).
  rewrite H3. lia.
Defined.

(** C8 as stated fails: in round 1, after the deal, the first
    apprentice predicts 1 and then predicts 0; the round accepts the
    second prediction and the recorded value becomes 0. *)
Lemma make_prediction_twice :
  Round.reachable predicted_once /\
  Round.phase (snd predicted_once) = PREDICTING /\
  Apprentice.prediction (fst predicted_once 0%nat) = Some 1 /\
  exists w',
    Round.make_prediction 0%nat 0 predicted_once = Returns w' true /\
    Round.phase (snd w') = PREDICTING /\
    Apprentice.prediction (fst w' 0%nat) = Some 0.
Proof.
  split; [apply predicted_once_reachable|].
  split; [reflexivity|]. split; [reflexivity|].
  eexists. split; [reflexivity|]. split; reflexivity.
Qed.

(** ** The deck: dealing *)

Lemma slice_to_from {A} (l : list A) (n : Z) : slice_to l n ++ slice_from l n = l.
Proof. unfold slice_to, slice_from. apply firstn_skipn. Qed.

Lemma len_app {A} (l1 l2 : list A) : len (l1 ++ l2) = len l1 + len l2.
Proof. unfold len. rewrite length_app. lia. Qed.

Lemma len_slice_to {A} (l : list A) (n : Z) :
  0 <= n <= len l -> len (slice_to l n) = n.
Proof.
  intros H. unfold slice_to, slice_bound, len in *.
  replace (n <? 0) with false by (symmetry; apply Z.ltb_ge; lia).
  rewrite firstn_length_le; lia.
Qed.

Lemma deal_returns (d : Deck.t) (n : Z) :
  n <= len (Deck.cards d) ->
  Deck.deal n d
  = Returns (Deck.mk (slice_from (Deck.cards d) n)) (slice_to (Deck.cards d) n).
Proof.
  intros H. unfold Deck.deal, bind, get.
  replace (len (Deck.cards d) <? n) with false by (symmetry; apply Z.ltb_ge; lia).
  reflexivity.
Qed.

(** [Deck.deal] splits the deck at the requested size: the dealt cards
    followed by the cards left are the deck as it was, and exactly
    [num_cards] cards are dealt; asking for more cards than the deck
    holds raises ValueError and leaves the deck as it was. *)
Theorem deal_splits (d : Deck.t) (n : Z) :
  (0 <= n <= len (Deck.cards d) ->
   exists dealt rest,
     Deck.deal n d = Returns (Deck.mk rest) dealt /\
     dealt ++ rest = Deck.cards d /\
     len dealt = n /\
     len rest = len (Deck.cards d) - n) /\
  (len (Deck.cards d) < n -> Deck.deal n d = Raises d ValueError).
Proof.
  split.
  - intros H. eexists. eexists. split; [apply deal_returns; lia|].
    pose proof (slice_to_from (Deck.cards d) n) as Hs.
    pose proof (len_slice_to (Deck.cards d) n H) as Hl.
    split; [exact Hs|]. split; [exact Hl|].
    rewrite <- Hs at 2. rewrite len_app. lia.
  - intros H. unfold Deck.deal, bind, get.
    replace (len (Deck.cards d) <? n) with true by (symmetry; apply Z.ltb_lt; lia).
    reflexivity.
Qed.

Lemma deal_splits_witness :
  (exists dealt rest,
     Deck.deal 2 (Deck.mk [Wizard; Fool; Regular ELVES 3]) = Returns (Deck.mk rest) dealt /\
     dealt ++ rest = [Wizard; Fool; Regular ELVES 3] /\
     len dealt = 2 /\
     len rest = len [Wizard; Fool; Regular ELVES 3] - 2) /\
  Deck.deal 4 (Deck.mk [Wizard; Fool; Regular ELVES 3])
  = Raises (Deck.mk [Wizard; Fool; Regular ELVES 3]) ValueError.
Proof.
  split.
  - apply (proj1 (deal_splits (Deck.mk [Wizard; Fool; Regular ELVES 3]) 2)).
    vm_compute. split; discriminate.
  - apply (proj2 (deal_splits (Deck.mk [Wizard; Fool; Regular ELVES 3]) 4)).
    reflexivity.
Defined.

Lemma deal_hands_partitions (k : nat) (cpp : Z) :
  forall cs acc,
    0 <= cpp ->
    Z.of_nat k * cpp <= len cs ->
    exists hands rest,
      Deck.deal_hands k cpp acc (Deck.mk cs) = Returns (Deck.mk rest) (acc ++ hands) /\
      List.length hands = k /\
      Forall (fun h => len h = cpp) hands /\
      List.concat hands ++ rest = cs.
Proof.
  induction k as [|k IH]; intros cs acc Hcpp Hlen.
  - exists [], cs. rewrite app_nil_r. repeat split. constructor.
  - assert (Hfit : 0 <= cpp <= len cs) by nia.
    simpl Deck.deal_hands. unfold bind at 1.
    rewrite (deal_returns (Deck.mk cs) cpp) by (simpl; lia).
    cbn [Deck.cards].
    pose proof (slice_to_from cs cpp) as Hs.
    pose proof (len_slice_to cs cpp Hfit) as Hl.
    destruct (IH (slice_from cs cpp) (acc ++ [slice_to cs cpp]) Hcpp)
      as [hands [rest [H1 [H2 [H3 H4]]]]].
    { assert (len (slice_from cs cpp) = len cs - cpp)
        by (rewrite <- Hs at 2; rewrite len_app; lia).
      nia. }
    exists (slice_to cs cpp :: hands), rest.
    split; [rewrite H1, <- app_assoc; reflexivity|].
    split; [simpl; now rewrite H2|].
    split; [constructor; assumption|].
    simpl. rewrite <- app_assoc, H4. exact Hs.
Qed.

Lemma deal_to_players_returns (d : Deck.t) (num_players cards_per_player : Z) :
  0 <= num_players -> 0 <= cards_per_player ->
  num_players * cards_per_player <= len (Deck.cards d) ->
  exists hands rest,
    Deck.deal_to_players num_players cards_per_player d
    = Returns (Deck.mk rest) (hands, rest) /\
    len hands = num_players /\
    Forall (fun h => len h = cards_per_player) hands /\
    List.concat hands ++ rest = Deck.cards d.
Proof.
  intros Hn Hc Hfit. destruct d as [cs]. cbn [Deck.cards] in *.
  destruct (deal_hands_partitions (Z.to_nat num_players) cards_per_player cs [] Hc)
    as [hands [rest [H1 [H2 [H3 H4]]]]].
  { rewrite Z2Nat.id; assumption. }
  exists hands, rest. split.
  - unfold Deck.deal_to_players, bind, get. cbn [Deck.cards].
    replace (len cs <? num_players * cards_per_player) with false
      by (symmetry; apply Z.ltb_ge; lia).
    rewrite H1. reflexivity.
  - split; [unfold len; lia|]. split; assumption.
Qed.

(** [Deck.deal_to_players] hands out the top of the deck without
    overlap: it returns one hand per player, each of [cards_per_player]
    cards, and the hands in order followed by the remaining cards are the
    deck as it was; when the deck holds too few cards it raises
    ValueError and leaves the deck as it was. *)
Theorem deal_to_players_partitions (d : Deck.t) (num_players cards_per_player : Z) :
  (0 <= num_players -> 0 <= cards_per_player ->
   num_players * cards_per_player <= len (Deck.cards d) ->
   exists hands rest,
     Deck.deal_to_players num_players cards_per_player d
     = Returns (Deck.mk rest) (hands, rest) /\
     len hands = num_players /\
     Forall (fun h => len h = cards_per_player) hands /\
     List.concat hands ++ rest = Deck.cards d) /\
  (len (Deck.cards d) < num_players * cards_per_player ->
   Deck.deal_to_players num_players cards_per_player d = Raises d ValueError).
Proof.
  split.
  - apply deal_to_players_returns.
  - intros H. unfold Deck.deal_to_players, bind, get.
    replace (len (Deck.cards d) <? num_players * cards_per_player) with true
      by (symmetry; apply Z.ltb_lt; lia).
    reflexivity.
Qed.

Lemma deal_to_players_partitions_witness :
  (exists hands rest,
     Deck.deal_to_players 3 2 Deck.init = Returns (Deck.mk rest) (hands, rest) /\
     len hands = 3 /\
     Forall (fun h => len h = 2) hands /\
     List.concat hands ++ rest = Deck.cards Deck.init) /\
  Deck.deal_to_players 7 9 Deck.init = Raises Deck.init ValueError.
Proof.
  split.
  - apply (proj1 (deal_to_players_partitions Deck.init 3 2)).
    + lia.
    + lia.
    + vm_compute. discriminate.
  - apply (proj2 (deal_to_players_partitions Deck.init 7 9)). reflexivity.
Defined.

(** ** The hand: playing a card *)

Lemma remove_nth_reinsert {A} (l : list A) :
  forall n x,
    nth_error l n = Some x ->
    firstn n (remove_nth n l) ++ x :: skipn n (remove_nth n l) = l /\
    S (List.length (remove_nth n l)) = List.length l.
Proof.
  induction l as [|y l IH]; intros [|n] x H; simpl in H; try discriminate.
  - inversion H. subst. simpl. split; reflexivity.
  - destruct (IH n x H) as [H1 H2]. simpl. split.
    + now rewrite H1.
    + destruct l; [destruct n; discriminate|]. simpl in *. now rewrite H2.
Qed.

Lemma apprentice_play_card_in_range (a : Apprentice.t) (i : Z) :
  0 <= i < len (Apprentice.hand a) ->
  exists card,
    nth_error (Apprentice.hand a) (Z.to_nat i) = Some card /\
    Apprentice.play_card i a
    = Returns (Apprentice.set_hand (remove_nth (Z.to_nat i) (Apprentice.hand a)) a) card.
Proof.
  intros H. unfold Apprentice.play_card, bind, get.
  replace ((i <? 0) || (len (Apprentice.hand a) <=? i)) with false
    by (symmetry; apply orb_false_iff; split; [apply Z.ltb_ge | apply Z.leb_gt]; lia).
  destruct (nth_error (Apprentice.hand a) (Z.to_nat i)) as [card|] eqn:E.
  - exists card. split; reflexivity.
  - apply nth_error_None in E. unfold len in H. lia.
Qed.

(** [Apprentice.play_card] with a position inside the hand returns the
    card at that position and removes exactly that card: the hand is one
    card shorter, putting the card back at the position restores it, and
    nothing else of the apprentice changes. *)
Theorem apprentice_play_card_removes (a : Apprentice.t) (i : Z) :
  0 <= i < len (Apprentice.hand a) ->
  exists card a',
    Apprentice.play_card i a = Returns a' card /\
    holds (Apprentice.hand a) i card /\
    len (Apprentice.hand a') = len (Apprentice.hand a) - 1 /\
    firstn (Z.to_nat i) (Apprentice.hand a') ++ card :: skipn (Z.to_nat i) (Apprentice.hand a')
    = Apprentice.hand a /\
    a' = Apprentice.set_hand (Apprentice.hand a') a.
Proof.
  intros H. destruct (apprentice_play_card_in_range a i H) as [card [Hn Hp]].
  destruct (remove_nth_reinsert (Apprentice.hand a) (Z.to_nat i) card Hn) as [H1 H2].
  exists card. eexists. split; [exact Hp|].
  cbn [Apprentice.hand Apprentice.set_hand].
  split; [split; [lia | exact Hn]|].
  split; [unfold len; lia|]. split; [exact H1 | reflexivity].
Qed.

Lemma apprentice_play_card_removes_witness :
  exists card a',
    Apprentice.play_card 1 (Apprentice.mk "Ada" [Wizard; Regular ELVES 3; Fool] None 0 0
                                          false false) = Returns a' card /\
    holds [Wizard; Regular ELVES 3; Fool] 1 card /\
    len (Apprentice.hand a') = len [Wizard; Regular ELVES 3; Fool] - 1 /\
    firstn (Z.to_nat 1) (Apprentice.hand a') ++ card :: skipn (Z.to_nat 1) (Apprentice.hand a')
    = [Wizard; Regular ELVES 3; Fool] /\
    a' = Apprentice.set_hand (Apprentice.hand a')
           (Apprentice.mk "Ada" [Wizard; Regular ELVES 3; Fool] None 0 0 false false).
Proof.
  apply (apprentice_play_card_removes
           (Apprentice.mk "Ada" [Wizard; Regular ELVES 3; Fool] None 0 0 false false) 1).
  vm_compute. split; [discriminate | reflexivity].
Defined.

(** ** The trick: one play per player, completion *)

Lemma trick_play_card_refused (s : Trick.t) (a : ref) (c : Card.t) :
  Trick.is_complete s = true \/ In a (map fst (Trick.cards_played s)) ->
  Trick.play_card a c s = Raises s ValueError.
Proof.
  intros H. unfold Trick.play_card, bind, get.
  destruct (Trick.is_complete s); [reflexivity|].
  destruct H as [H|H]; [discriminate|].
  destruct (dict_mem (Trick.cards_played s) a) eqn:E; [reflexivity|].
  apply dict_mem_false in E. contradiction.
Qed.

Lemma trick_play_card_appends (s : Trick.t) (a : ref) (c : Card.t) :
  Trick.is_complete s = false ->
  ~ In a (map fst (Trick.cards_played s)) ->
  exists l,
    Trick.play_card a c s
    = Returns (Trick.mk (Trick.leading_apprentice s) (Trick.trump_color s)
                        (Trick.cards_played s ++ [(a, c)]) l (Trick.winner s) false)
              true.
Proof.
  intros Hc Hfresh. unfold Trick.play_card, bind, get. rewrite Hc.
  rewrite (proj2 (dict_mem_false _ a) Hfresh).
  destruct s as [la tc cards lc w ic]. simpl in Hc. subst ic.
  cbn [Trick.cards_played Trick.leading_color] in *.
  destruct cards as [|p cards].
  - destruct (CardType_eqb (Card.card_type c) REGULAR); unfold modify, ret; trick_fields;
      rewrite (dict_set_fresh _ a c Hfresh); eexists; reflexivity.
  - destruct (Trick.is_none lc && (len (p :: cards) =? 1));
      [destruct (CardType_eqb (Card.card_type c) REGULAR)|];
      unfold modify, ret; trick_fields;
      rewrite (dict_set_fresh _ a c Hfresh); eexists; reflexivity.
Qed.

(** A player appears at most once in a trick: [Trick.play_card] keeps
    the players of [cards_played] distinct whatever its outcome.  It
    raises ValueError and changes nothing when the trick is complete or
    the player has already played; otherwise it returns [True] and adds
    the play at the end, changing at most the leading color besides. *)
Theorem trick_play_card_once_per_player (s : Trick.t) (a : ref) (c : Card.t) :
  (NoDup (map fst (Trick.cards_played s)) ->
   NoDup (map fst (Trick.cards_played (final_state (Trick.play_card a c s))))) /\
  (Trick.is_complete s = true \/ In a (map fst (Trick.cards_played s)) ->
   Trick.play_card a c s = Raises s ValueError) /\
  (Trick.is_complete s = false -> ~ In a (map fst (Trick.cards_played s)) ->
   exists s',
     Trick.play_card a c s = Returns s' true /\
     Trick.cards_played s' = Trick.cards_played s ++ [(a, c)] /\
     Trick.is_complete s' = false /\
     Trick.winner s' = Trick.winner s /\
     Trick.trump_color s' = Trick.trump_color s /\
     Trick.leading_apprentice s' = Trick.leading_apprentice s).
Proof.
  split; [|split].
  - intros Hnd.
    destruct (Trick.is_complete s) eqn:Hc.
    + rewrite trick_play_card_refused by now left. exact Hnd.
    + destruct (in_dec Nat.eq_dec a (map fst (Trick.cards_played s))) as [Hin|Hnin].
      * rewrite trick_play_card_refused by now right. exact Hnd.
      * destruct (trick_play_card_appends s a c Hc Hnin) as [l Hl]. rewrite Hl.
        simpl. rewrite map_app. simpl.
        apply NoDup_app_remove_l with (l := []). simpl.
        apply Permutation_NoDup with (l := a :: map fst (Trick.cards_played s)).
        -- apply Permutation_cons_append.
        -- now constructor.
  - apply trick_play_card_refused.
  - intros Hc Hnin. destruct (trick_play_card_appends s a c Hc Hnin) as [l Hl].
    eexists. split; [exact Hl|]. repeat split.
Qed.

Lemma trick_play_card_once_per_player_witness :
  NoDup (map fst (Trick.cards_played
                    (final_state (Trick.play_card 1%nat Fool
                       (Trick.mk (Some 0%nat) None [(0%nat, Wizard)] None None false))))) /\
  Trick.play_card 0%nat Fool (Trick.mk (Some 0%nat) None [(0%nat, Wizard)] None None false)
  = Raises (Trick.mk (Some 0%nat) None [(0%nat, Wizard)] None None false) ValueError /\
  exists s',
    Trick.play_card 1%nat Fool (Trick.mk (Some 0%nat) None [(0%nat, Wizard)] None None false)
    = Returns s' true /\
    Trick.cards_played s' = [(0%nat, Wizard)] ++ [(1%nat, Fool)] /\
    Trick.is_complete s' = false /\
    Trick.winner s' = None /\
    Trick.trump_color s' = None /\
    Trick.leading_apprentice s' = Some 0%nat.
Proof.
  pose proof (trick_play_card_once_per_player
                (Trick.mk (Some 0%nat) None [(0%nat, Wizard)] None None false)
                1%nat Fool) as [H1 [_ H3]].
  pose proof (trick_play_card_once_per_player
                (Trick.mk (Some 0%nat) None [(0%nat, Wizard)] None None false)
                0%nat Fool) as [_ [H2 _]].
  split; [|split].
  - apply H1. simpl. repeat constructor. simpl. tauto.
  - apply H2. right. simpl. now left.
  - apply H3; [reflexivity|]. simpl. intros [H|[]]. discriminate H.
Defined.

(** ** The trick: the winner is one of the players *)

Lemma highest_from_best (tc lc : option CardColor) (items : list (ref * Card.t)) :
  forall hc ha,
    Forall Card.wf (map snd items) -> Card.wf hc -> Card.card_type hc <> FOOL ->
    exists c a,
      Trick.highest items tc lc (Some hc) (Some ha) = Ok (Some c, Some a) /\
      ((a, c) = (ha, hc) \/ In (a, c) items) /\
      Card.card_type c <> FOOL.
Proof.
  induction items as [|[a1 c1] items IH]; intros hc ha Hwf Hhc Hnf.
  - exists hc, ha. simpl. auto.
  - simpl in Hwf. inversion Hwf as [|? ? Hc1 Hwf']; subst.
    simpl Trick.highest.
    destruct (CardType_eqb (Card.card_type c1) FOOL) eqn:E.
    + destruct (IH hc ha Hwf' Hhc Hnf) as [c [a [H1 [H2 H3]]]].
      exists c, a. split; [exact H1|]. split; [|exact H3].
      destruct H2; [now left | right; now right].
    + apply CardType_eqb_neq in E.
      destruct (wf_is_higher_than_total c1 hc tc lc Hc1 Hhc) as [[|] Hb]; rewrite Hb.
      * destruct (IH c1 a1 Hwf' Hc1 E) as [c [a [H1 [H2 H3]]]].
        exists c, a. split; [exact H1|]. split; [|exact H3].
        destruct H2 as [H2|H2]; right; [left; now symmetry | now right].
      * destruct (IH hc ha Hwf' Hhc Hnf) as [c [a [H1 [H2 H3]]]].
        exists c, a. split; [exact H1|]. split; [|exact H3].
        destruct H2; [now left | right; now right].
Qed.

Lemma highest_from_none (tc lc : option CardColor) (items : list (ref * Card.t)) :
  Forall Card.wf (map snd items) ->
  (exists kv, In kv items /\ Card.card_type (snd kv) <> FOOL) ->
  exists c a,
    Trick.highest items tc lc None None = Ok (Some c, Some a) /\
    In (a, c) items /\
    Card.card_type c <> FOOL.
Proof.
  induction items as [|[a1 c1] items IH]; intros Hwf [kv [Hin Hnf]]; [contradiction|].
  simpl in Hwf. inversion Hwf as [|? ? Hc1 Hwf']; subst.
  simpl Trick.highest.
  destruct (CardType_eqb (Card.card_type c1) FOOL) eqn:E.
  - apply CardType_eqb_eq in E.
    destruct Hin as [<- | Hin]; [simpl in Hnf; contradiction|].
    destruct (IH Hwf') as [c [a [H1 [H2 H3]]]]; [now exists kv|].
    exists c, a. split; [exact H1|]. split; [now right | exact H3].
  - apply CardType_eqb_neq in E.
    destruct (highest_from_best tc lc items c1 a1 Hwf' Hc1 E) as [c [a [H1 [H2 H3]]]].
    exists c, a. split; [exact H1|]. split; [|exact H3].
    destruct H2 as [H2|H2]; [left; now symmetry | now right].
Qed.

Lemma first_wizard_In (items : list (ref * Card.t)) (a : ref) :
  Trick.first_wizard items = Some a ->
  exists c, In (a, c) items /\ Card.card_type c = WIZARD.
Proof.
  induction items as [|[a1 c1] items IH]; simpl; [discriminate|].
  destruct (CardType_eqb (Card.card_type c1) WIZARD) eqn:E.
  - intros H. inversion H; subst. exists c1. split; [now left|].
    now apply CardType_eqb_eq.
  - intros H. destruct (IH H) as [c [H1 H2]]. exists c. split; [now right | exact H2].
Qed.

Lemma forallb_false_ex {A} (f : A -> bool) (l : list A) :
  forallb f l = false -> exists x, In x l /\ f x = false.
Proof.
  induction l as [|y l IH]; simpl; [discriminate|].
  destruct (f y) eqn:E; simpl.
  - intros H. destruct (IH H) as [x [H1 H2]]. exists x. split; [now right | exact H2].
  - intros _. exists y. split; [now left | exact E].
Qed.

Lemma determine_winner_returns (s : Trick.t) :
  Trick.cards_played s <> [] ->
  Forall Card.wf (map snd (Trick.cards_played s)) ->
  exists w c,
    In (w, c) (Trick.cards_played s) /\
    ((exists kv, In kv (Trick.cards_played s) /\ Card.card_type (snd kv) <> FOOL) ->
     Card.card_type c <> FOOL) /\
    (Trick.determine_winner s = Returns s (Some w) \/
     Trick.determine_winner s = Returns (Trick.set_winner (Some w) s) (Some w)).
Proof.
  intros Hne Hwf. unfold Trick.determine_winner, bind, get.
  destruct (Trick.cards_played s) as [|[f c0] rest] eqn:Ec; [contradiction|].
  destruct (forallb _ ((f, c0) :: rest)) eqn:Ea.
  - exists f, c0. split; [now left|]. split; [|now left].
    intros [kv [Hin Hnf]]. rewrite all_fools_iff in Ea. now apply Ea in Hin.
  - assert (Hex : exists kv, In kv ((f, c0) :: rest) /\ Card.card_type (snd kv) <> FOOL).
    { destruct (forallb_false_ex _ _ Ea) as [kv [Hin Hf]].
      exists kv. split; [exact Hin | now apply CardType_eqb_neq]. }
    destruct (Trick.first_wizard ((f, c0) :: rest)) as [a|] eqn:Ew.
    + destruct (first_wizard_In _ a Ew) as [c [Hin Hc]].
      exists a, c. split; [exact Hin|]. split; [intros _; congruence | now right].
    + destruct (highest_from_none (Trick.trump_color s) (Trick.leading_color s)
                  ((f, c0) :: rest) Hwf Hex) as [c [a [H1 [H2 H3]]]].
      exists a, c. split; [exact H2|]. split; [intros _; exact H3|].
      right. rewrite H1. reflexivity.
Qed.

Lemma determine_winner_cases (s : Trick.t) :
  Trick.cards_played s <> [] ->
  Forall Card.wf (map snd (Trick.cards_played s)) ->
  exists w c,
    In (w, c) (Trick.cards_played s) /\
    ((exists kv, In kv (Trick.cards_played s) /\ Card.card_type (snd kv) <> FOOL) ->
     Card.card_type c <> FOOL) /\
    ((Trick.determine_winner s = Returns s (Some w) /\
      forall kv, In kv (Trick.cards_played s) -> Card.card_type (snd kv) = FOOL) \/
     (Trick.determine_winner s = Returns (Trick.set_winner (Some w) s) (Some w) /\
      exists kv, In kv (Trick.cards_played s) /\ Card.card_type (snd kv) <> FOOL)).
Proof.
  intros Hne Hwf. unfold Trick.determine_winner, bind, get.
  destruct (Trick.cards_played s) as [|[f c0] rest] eqn:Ec; [contradiction|].
  destruct (forallb _ ((f, c0) :: rest)) eqn:Ea.
  - exists f, c0. split; [now left|].
    rewrite all_fools_iff in Ea. split; [|left; split; [reflexivity | exact Ea]].
    intros [kv [Hin Hnf]]. now apply Ea in Hin.
  - assert (Hex : exists kv, In kv ((f, c0) :: rest) /\ Card.card_type (snd kv) <> FOOL).
    { destruct (forallb_false_ex _ _ Ea) as [kv [Hin Hf]].
      exists kv. split; [exact Hin | now apply CardType_eqb_neq]. }
    destruct (Trick.first_wizard ((f, c0) :: rest)) as [a|] eqn:Ew.
    + destruct (first_wizard_In _ a Ew) as [c [Hin Hc]].
      exists a, c. split; [exact Hin|]. split; [intros _; congruence|].
      right. split; [reflexivity | exact Hex].
    + destruct (highest_from_none (Trick.trump_color s) (Trick.leading_color s)
                  ((f, c0) :: rest) Hwf Hex) as [c [a [H1 [H2 H3]]]].
      exists a, c. split; [exact H2|]. split; [intros _; exact H3|].
      right. rewrite H1. split; [reflexivity | exact Hex].
Qed.

(** [Trick.determine_winner] on a trick with at least one play, all of
    cards the constructor builds, returns one of the players who played;
    if any card played is not SpecialLow, the winner's card is not
    SpecialLow.  It changes nothing of the trick but [winner]: the trick
    is left as it was when every card is SpecialLow, and otherwise it is
    the same trick with the winner recorded.  On a trick with no play it
    returns [None] and changes nothing. *)
Theorem determine_winner_is_a_player (s : Trick.t) :
  (Trick.cards_played s = [] -> Trick.determine_winner s = Returns s None) /\
  (Trick.cards_played s <> [] ->
   Forall Card.wf (map snd (Trick.cards_played s)) ->
   exists s' w c,
     Trick.determine_winner s = Returns s' (Some w) /\
     In (w, c) (Trick.cards_played s) /\
     ((exists kv, In kv (Trick.cards_played s) /\ Card.card_type (snd kv) <> FOOL) ->
      Card.card_type c <> FOOL /\ s' = Trick.set_winner (Some w) s) /\
     ((forall kv, In kv (Trick.cards_played s) -> Card.card_type (snd kv) = FOOL) ->
      s' = s) /\
     Trick.leading_apprentice s' = Trick.leading_apprentice s /\
     Trick.trump_color s' = Trick.trump_color s /\
     Trick.cards_played s' = Trick.cards_played s /\
     Trick.leading_color s' = Trick.leading_color s /\
     Trick.is_complete s' = Trick.is_complete s /\
     (Trick.winner s' = Trick.winner s \/ Trick.winner s' = Some w)).
Proof.
  split.
  - intros H. unfold Trick.determine_winner, bind, get. now rewrite H.
  - intros Hne Hwf.
    destruct (determine_winner_cases s Hne Hwf) as [w [c [H1 [H2 H3]]]].
    exists (final_state (Trick.determine_winner s)), w, c.
    destruct H3 as [[H3 Hall] | [H3 Hsome]]; rewrite H3; cbn [final_state].
    + split; [reflexivity|]. split; [exact H1|]. split.
      { intros [kv [Hin Hnf]]. exfalso. apply Hnf. now apply Hall. }
      split; [reflexivity|]. repeat split. now left.
    + split; [reflexivity|]. split; [exact H1|]. split.
      { intros Hex. split; [now apply H2 | reflexivity]. }
      split.
      { intros Hall. destruct Hsome as [kv [Hin Hnf]]. exfalso. apply Hnf. now apply Hall. }
      repeat split. now right.
Qed.

Lemma determine_winner_is_a_player_witness :
  (exists w c,
     Trick.determine_winner
       (Trick.mk (Some 0%nat) None [(0%nat, Fool); (1%nat, Regular ELVES 2)]
                 (Some ELVES) None false)
     = Returns (Trick.mk (Some 0%nat) None [(0%nat, Fool); (1%nat, Regular ELVES 2)]
                         (Some ELVES) (Some w) false) (Some w) /\
     In (w, c) [(0%nat, Fool); (1%nat, Regular ELVES 2)] /\
     Card.card_type c <> FOOL) /\
  Trick.determine_winner (Trick.init (Some 0%nat) None)
  = Returns (Trick.init (Some 0%nat) None) None.
Proof.
  split.
  - destruct (proj2 (determine_winner_is_a_player
                (Trick.mk (Some 0%nat) None [(0%nat, Fool); (1%nat, Regular ELVES 2)]
                          (Some ELVES) None false)))
      as [s' [w [c [H1 [H2 [H3 _]]]]]].
    + discriminate.
    + simpl. repeat constructor; apply wf_cases;
        first [ now (right; right)
              | left; eexists; eexists; split; [reflexivity | split; [discriminate | lia]] ].
    + destruct H3 as [H3 H4].
      { exists (1%nat, Regular ELVES 2). split; [right; now left | discriminate]. }
      exists w, c. rewrite H1, H4. split; [reflexivity|]. split; [exact H2 | exact H3].
  - apply (proj1 (determine_winner_is_a_player (Trick.init (Some 0%nat) None))).
    reflexivity.
Defined.

(** ** The trick: the two legality checks *)

Lemma wf_colorless (c : Card.t) :
  Card.wf c ->
  (Card.card_type c = REGULAR /\ Card.color c <> NONE) \/
  (Card.card_type c <> REGULAR /\ Card.color c = NONE).
Proof.
  intros H. apply wf_cases in H.
  destruct H as [[co [v [-> [Hco _]]]] | [-> | ->]].
  - left. now split.
  - right. split; [discriminate | reflexivity].
  - right. split; [discriminate | reflexivity].
Qed.

Lemma CardColor_eqb_neq_none (c : CardColor) : c <> NONE -> CardColor_eqb c NONE = false.
Proof.
  intros H. unfold CardColor_eqb. destruct (CardColor_eq_dec c NONE); congruence.
Qed.

Lemma mem_playable_from (hand : list Card.t) (lc : CardColor) (i : Z) (card : Card.t) :
  holds hand i card ->
  mem i (Apprentice.playable_from 0 hand lc)
  = CardColor_eqb (Card.color card) lc || CardColor_eqb (Card.color card) NONE.
Proof.
  intros [H0 Hn].
  destruct (CardColor_eqb (Card.color card) lc || CardColor_eqb (Card.color card) NONE)
    eqn:E.
  - apply mem_In, playable_from_In. exists card. split; [lia|].
    rewrite Z.sub_0_r. split; [exact Hn|].
    apply orb_true_iff in E. now rewrite <- !CardColor_eqb_eq.
  - apply not_true_is_false. intros Hm. apply mem_In, playable_from_In in Hm.
    destruct Hm as [c [_ [Hc Hcol]]]. rewrite Z.sub_0_r, Hn in Hc.
    inversion Hc; subst c.
    rewrite <- !CardColor_eqb_eq, <- orb_true_iff in Hcol. congruence.
Qed.

(** The trick's own legality check and the hand's agree on every card
    of the hand unless a Wizard was led: when the first card of the trick
    is not a Wizard (or no card has been played), [Trick.is_valid_play]
    accepts a card the constructor built, held at position [i], exactly
    when [i] is among [Apprentice.get_playable_cards] for the trick's
    leading color. *)
Theorem is_valid_play_agrees_with_playable
    (trick : Trick.t) (a : Apprentice.t) (i : Z) (card : Card.t) :
  holds (Apprentice.hand a) i card ->
  Card.wf card ->
  (forall first c0 rest, Trick.cards_played trick = (first, c0) :: rest ->
                         Card.card_type c0 <> WIZARD) ->
  Trick.is_valid_play trick a card
  = mem i (Apprentice.get_playable_cards a (Trick.leading_color trick)).
Proof.
  intros Hh Hwf Hfirst.
  assert (Hr : mem i (range (len (Apprentice.hand a))) = true).
  { apply mem_In, In_range. destruct Hh as [H0 Hn]. split; [exact H0|].
    assert ((Z.to_nat i < List.length (Apprentice.hand a))%nat)
      by (apply nth_error_Some; congruence).
    unfold len. lia. }
  unfold Trick.is_valid_play, Apprentice.get_playable_cards.
  destruct (Trick.leading_color trick) as [lc|]; [|now rewrite Hr].
  assert (Hnw : match match Trick.cards_played trick with
                      | [] => None
                      | (_, c) :: _ => Some c
                      end with
                | Some c => CardType_eqb (Card.card_type c) WIZARD
                | None => false
                end = false).
  { destruct (Trick.cards_played trick) as [|[f c0] rest] eqn:Ec; [reflexivity|].
    apply CardType_eqb_neq. now apply (Hfirst f c0 rest). }
  cbv zeta. rewrite Hnw.
  destruct (Apprentice.can_follow_color a lc) eqn:Ef; simpl negb; cbv iota.
  - rewrite (mem_playable_from _ lc i card Hh).
    destruct (wf_colorless card Hwf) as [[Ht Hc] | [Ht Hc]].
    + rewrite Ht. change (CardType_eqb REGULAR WIZARD || CardType_eqb REGULAR FOOL)
        with false. cbv iota.
      apply CardColor_eqb_neq_none in Hc. rewrite Hc, orb_false_r, andb_true_r.
      now destruct (CardColor_eqb (Card.color card) lc).
    + rewrite Hc. change (CardColor_eqb NONE NONE) with true. rewrite orb_true_r.
      destruct (Card.card_type card); [contradiction | reflexivity | reflexivity].
  - rewrite Hr, andb_false_r. now destruct (_ || _).
Qed.

Lemma is_valid_play_agrees_with_playable_witness :
  Trick.is_valid_play
    (Trick.mk (Some 0%nat) None [(0%nat, Regular ELVES 9)] (Some ELVES) None false)
    (Apprentice.mk "Bob" [Regular ELVES 3; Regular DWARVES 7; Fool] None 0 0 false false)
    (Regular DWARVES 7)
  = mem 1 (Apprentice.get_playable_cards
             (Apprentice.mk "Bob" [Regular ELVES 3; Regular DWARVES 7; Fool] None 0 0
                            false false)
             (Some ELVES)).
Proof.
  apply (is_valid_play_agrees_with_playable
           (Trick.mk (Some 0%nat) None [(0%nat, Regular ELVES 9)] (Some ELVES) None false)
           (Apprentice.mk "Bob" [Regular ELVES 3; Regular DWARVES 7; Fool] None 0 0
                          false false)
           1 (Regular DWARVES 7)).
  - split; [lia | reflexivity].
  - apply wf_cases. left. exists DWARVES, 7. repeat split; [discriminate | lia | lia].
  - intros first c0 rest H. inversion H. discriminate.
Defined.

(** ** The trick: completion *)

Lemma determine_winner_value (s1 s2 : Trick.t) :
  Trick.cards_played s1 = Trick.cards_played s2 ->
  Trick.trump_color s1 = Trick.trump_color s2 ->
  Trick.leading_color s1 = Trick.leading_color s2 ->
  forall s1' v, Trick.determine_winner s1 = Returns s1' v ->
                exists s2', Trick.determine_winner s2 = Returns s2' v.
Proof.
  intros Hc Ht Hl s1' v. unfold Trick.determine_winner, bind, get.
  rewrite Hc, Ht, Hl.
  destruct (Trick.cards_played s2) as [|[f c0] rest].
  - unfold ret. intros H. inversion H. eexists. reflexivity.
  - destruct (forallb _ _).
    + unfold ret. intros H. inversion H. eexists. reflexivity.
    + destruct (Trick.first_wizard _).
      * unfold modify, ret. intros H. inversion H. eexists. reflexivity.
      * destruct (Trick.highest _ _ _ _ _); unfold lift, modify, ret; intros H;
          inversion H. eexists. reflexivity.
Qed.

Lemma complete_trick_returns (h : heap) (s : Trick.t) :
  Trick.cards_played s <> [] ->
  Forall Card.wf (map snd (Trick.cards_played s)) ->
  exists w s0 s',
    Trick.determine_winner (Trick.set_is_complete true s) = Returns s0 (Some w) /\
    Trick.complete_trick (h, s)
    = Returns (heap_set w (Apprentice.set_tricks_won (Apprentice.tricks_won (h w) + 1) (h w)) h,
               s') (Some w) /\
    In w (map fst (Trick.cards_played s)) /\
    Trick.is_complete s' = true /\
    Trick.cards_played s' = Trick.cards_played s /\
    Trick.trump_color s' = Trick.trump_color s /\
    Trick.leading_color s' = Trick.leading_color s.
Proof.
  intros Hne Hwf.
  destruct (determine_winner_returns (Trick.set_is_complete true s) Hne Hwf)
    as [w [c [H1 [_ H3]]]].
  assert (Hin : In w (map fst (Trick.cards_played s)))
    by (change w with (fst (w, c)); apply in_map; exact H1).
  unfold Trick.complete_trick, bind, zoom, modify. cbn [fst snd].
  destruct H3 as [H3|H3]; rewrite H3; cbn [fst snd];
    unfold at_ref, zoom, Apprentice.win_trick, modify, ret; cbn [fst snd];
    exists w; eexists; eexists; (split; [reflexivity|]); (split; [reflexivity|]);
    repeat split; exact Hin.
Qed.

(** [Trick.complete_trick] on a trick with plays of constructor-built
    cards marks it complete, returns one of its players and adds one to
    that player's [tricks_won], touching no other apprentice and no other
    field; afterwards every [Trick.play_card] raises ValueError and
    changes nothing.  There is no guard against a second call: it
    returns the same winner and credits the trick again.  On a trick
    with no play it returns [None] and credits nobody. *)
Theorem complete_trick_credits_winner (h : heap) (s : Trick.t) :
  (Trick.cards_played s = [] ->
   Trick.complete_trick (h, s) = Returns (h, Trick.set_is_complete true s) None) /\
  (Trick.cards_played s <> [] ->
   Forall Card.wf (map snd (Trick.cards_played s)) ->
   exists w h' s',
     Trick.complete_trick (h, s) = Returns (h', s') (Some w) /\
     In w (map fst (Trick.cards_played s)) /\
     h' w = Apprentice.set_tricks_won (Apprentice.tricks_won (h w) + 1) (h w) /\
     (forall b, b <> w -> h' b = h b) /\
     Trick.is_complete s' = true /\
     Trick.cards_played s' = Trick.cards_played s /\
     (forall a c, Trick.play_card a c s' = Raises s' ValueError) /\
     exists h'' s'',
       Trick.complete_trick (h', s') = Returns (h'', s'') (Some w) /\
       Apprentice.tricks_won (h'' w) = Apprentice.tricks_won (h w) + 2).
Proof.
  split.
  - intros He. unfold Trick.complete_trick, bind, zoom, modify. cbn [fst snd].
    unfold Trick.determine_winner, bind, get. cbn [Trick.cards_played Trick.set_is_complete].
    rewrite He. reflexivity.
  - intros Hne Hwf.
    destruct (complete_trick_returns h s Hne Hwf)
      as [w [s0 [s' [Hd [Hc [Hin [H1 [H2 [H3 H4]]]]]]]]].
    exists w. eexists. exists s'. split; [exact Hc|]. split; [exact Hin|].
    assert (Hw : heap_set w (Apprentice.set_tricks_won (Apprentice.tricks_won (h w) + 1) (h w))
                          h w
                 = Apprentice.set_tricks_won (Apprentice.tricks_won (h w) + 1) (h w))
      by (unfold heap_set, ref_eqb; now rewrite Nat.eqb_refl).
    split; [exact Hw|]. split.
    { intros b Hb. unfold heap_set, ref_eqb.
      destruct (b =? w)%nat eqn:E; [apply Nat.eqb_eq in E; contradiction | reflexivity]. }
    split; [exact H1|]. split; [exact H2|]. split.
    { intros a c. apply trick_play_card_refused. now left. }
    destruct (complete_trick_returns
                (heap_set w (Apprentice.set_tricks_won (Apprentice.tricks_won (h w) + 1)
                                                       (h w)) h) s')
      as [w2 [s02 [s2 [Hd2 [Hc2 _]]]]].
    { now rewrite H2. }
    { now rewrite H2. }
    assert (Hsame : w2 = w).
    { destruct (determine_winner_value (Trick.set_is_complete true s)
                  (Trick.set_is_complete true s')) with (s1' := s0) (v := Some w)
        as [sx Hx]; try exact Hd; simpl; congruence. }
    subst w2. eexists. exists s2. split; [exact Hc2|].
    unfold heap_set at 1. unfold ref_eqb. rewrite Nat.eqb_refl.
    rewrite Hw. simpl. lia.
Qed.

Lemma complete_trick_credits_winner_witness :
  exists w h' s',
    Trick.complete_trick
      (players, Trick.mk (Some 0%nat) None [(0%nat, Fool); (1%nat, Regular ELVES 2)]
                         (Some ELVES) None false) = Returns (h', s') (Some w) /\
    In w (map fst [(0%nat, Fool); (1%nat, Regular ELVES 2)]) /\
    h' w = Apprentice.set_tricks_won (Apprentice.tricks_won (players w) + 1) (players w) /\
    (forall b, b <> w -> h' b = players b) /\
    Trick.is_complete s' = true /\
    Trick.cards_played s' = [(0%nat, Fool); (1%nat, Regular ELVES 2)] /\
    (forall a c, Trick.play_card a c s' = Raises s' ValueError) /\
    exists h'' s'',
      Trick.complete_trick (h', s') = Returns (h'', s'') (Some w) /\
      Apprentice.tricks_won (h'' w) = Apprentice.tricks_won (players w) + 2.
Proof.
  apply (proj2 (complete_trick_credits_winner players
                  (Trick.mk (Some 0%nat) None [(0%nat, Fool); (1%nat, Regular ELVES 2)]
                            (Some ELVES) None false))).
  - discriminate.
  - simpl. repeat constructor; apply wf_cases;
      first [ now (right; right)
            | left; eexists; eexists; split; [reflexivity | split; [discriminate | lia]] ].
Defined.

(** ** The round: guards *)

Lemma RoundPhase_eqb_neq (p q : RoundPhase) : p <> q -> RoundPhase_eqb p q = false.
Proof.
  intros H. unfold RoundPhase_eqb. destruct (RoundPhase_eq_dec p q); congruence.
Qed.

Lemma wrong_phase_raises (w : Round.world) :
  (Round.phase (snd w) <> DEALING ->
   forall arrangement, Round.deal_cards arrangement w = Raises w ValueError) /\
  (Round.phase (snd w) <> PREDICTING ->
   (forall color, Round.set_dealer_chosen_trump color w = Raises w ValueError) /\
   (forall a p, Round.make_prediction a p w = Raises w ValueError)) /\
  (Round.phase (snd w) <> PLAYING ->
   forall a i, Round.play_card a i w = Raises w ValueError) /\
  (Round.phase (snd w) <> SCORING -> Round.score_round w = Raises w ValueError).
Proof.
  split; [|split; [|split]].
  - intros H arr. unfold Round.deal_cards, bind, Round.self_.
    now rewrite (RoundPhase_eqb_neq _ _ H).
  - intros H. split.
    + intros color. unfold Round.set_dealer_chosen_trump, bind, Round.self_.
      now rewrite (RoundPhase_eqb_neq _ _ H).
    + intros a p. unfold Round.make_prediction, bind, Round.self_.
      now rewrite (RoundPhase_eqb_neq _ _ H).
  - intros H a i. unfold Round.play_card, bind, Round.self_.
    now rewrite (RoundPhase_eqb_neq _ _ H).
  - intros H. unfold Round.score_round, bind, Round.self_.
    now rewrite (RoundPhase_eqb_neq _ _ H).
Qed.

(** Every operation of the round called outside its phase raises
    ValueError and changes nothing, neither of the round nor of any
    apprentice. *)
Theorem round_operations_need_their_phase (w : Round.world) :
  (Round.phase (snd w) <> DEALING ->
   forall arrangement, Round.deal_cards arrangement w = Raises w ValueError) /\
  (Round.phase (snd w) <> PREDICTING ->
   (forall color, Round.set_dealer_chosen_trump color w = Raises w ValueError) /\
   (forall a p, Round.make_prediction a p w = Raises w ValueError)) /\
  (Round.phase (snd w) <> PLAYING ->
   forall a i, Round.play_card a i w = Raises w ValueError) /\
  (Round.phase (snd w) <> SCORING -> Round.score_round w = Raises w ValueError).
Proof. exact (wrong_phase_raises w). Qed.

Lemma round_operations_need_their_phase_witness :
  Round.deal_cards (Deck.cards Deck.init) predicted_once = Raises predicted_once ValueError /\
  Round.make_prediction 0%nat 0 wizard_led = Raises wizard_led ValueError /\
  Round.play_card 0%nat 0 predicted_once = Raises predicted_once ValueError /\
  Round.score_round wizard_led = Raises wizard_led ValueError.
Proof.
  pose proof (round_operations_need_their_phase predicted_once) as [H1 [_ [H3 _]]].
  pose proof (round_operations_need_their_phase wizard_led) as [_ [H2 [_ H4]]].
  split; [|split; [|split]].
  - apply H1. vm_compute. discriminate.
  - apply H2. vm_compute. discriminate.
  - apply H3. vm_compute. discriminate.
  - apply H4. vm_compute. discriminate.
Defined.

(** Within the right phase the round still refuses without changing
    anything: a prediction below 0 or above [cards_per_apprentice] is
    reported as [False]; a play by an apprentice other than the one whose
    turn it is raises ValueError; choosing the trump raises ValueError
    unless the trump card is a Wizard. *)
Theorem round_refusals_change_nothing (w : Round.world) :
  (Round.phase (snd w) = PREDICTING ->
   forall a p, p < 0 \/ Round.cards_per_apprentice (snd w) < p ->
               Round.make_prediction a p w = Returns w false) /\
  (Round.phase (snd w) = PLAYING ->
   forall a b i,
     py_getitem (Round.apprentices (snd w)) (Round.current_apprentice_index (snd w)) = Ok b ->
     a <> b ->
     Round.play_card a i w = Raises w ValueError) /\
  (Round.phase (snd w) = PREDICTING ->
   (forall c, Round.trump_card (snd w) = Some c -> Card.card_type c <> WIZARD) ->
   forall color, Round.set_dealer_chosen_trump color w = Raises w ValueError).
Proof.
  split; [|split].
  - intros Hph a p Hp. unfold Round.make_prediction, bind, Round.self_.
    rewrite Hph, RoundPhase_eqb_refl.
    replace ((p <? 0) || (Round.cards_per_apprentice (snd w) <? p)) with true;
      [reflexivity|].
    symmetry. apply orb_true_iff. destruct Hp; [left | right]; apply Z.ltb_lt; lia.
  - intros Hph a b i Hb Hne. unfold Round.play_card, bind, Round.self_, lift.
    rewrite Hph, RoundPhase_eqb_refl, Hb.
    replace (ref_eqb a b) with false; [reflexivity|].
    symmetry. apply Nat.eqb_neq. exact Hne.
  - intros Hph Hnw color. unfold Round.set_dealer_chosen_trump, bind, Round.self_.
    rewrite Hph, RoundPhase_eqb_refl. simpl negb. cbv iota.
    destruct (Round.trump_card (snd w)) as [c|]; [|reflexivity].
    now rewrite (proj2 (CardType_eqb_neq _ _) (Hnw c eq_refl)).
Qed.

Lemma round_refusals_change_nothing_witness :
  Round.make_prediction 1%nat 2 predicted_once = Returns predicted_once false /\
  Round.play_card 0%nat 0 wizard_led = Raises wizard_led ValueError /\
  Round.set_dealer_chosen_trump ELVES predicted_once = Raises predicted_once ValueError.
Proof.
  pose proof (round_refusals_change_nothing predicted_once) as [H1 [_ H3]].
  pose proof (round_refusals_change_nothing wizard_led) as [_ [H2 _]].
  split; [|split].
  - apply H1; [reflexivity|]. right. vm_compute. reflexivity.
  - apply (H2 (proj1 wizard_led_facts) 0%nat 1%nat 0).
    + exact (proj1 (proj2 wizard_led_facts)).
    + discriminate.
  - apply H3; [reflexivity|]. intros c Hc. vm_compute in Hc. inversion Hc. discriminate.
Defined.

(** ** The round: from predictions to the first trick *)

Lemma all_predicted_after (h : heap) (a : ref) (p : Z) (apprentices : list ref) :
  forallb (fun b => negb (Trick.is_none
                            (Apprentice.prediction
                               (heap_set a (Apprentice.set_prediction (Some p) (h a)) h b))))
          apprentices = true <->
  forall b, In b apprentices -> b = a \/ Apprentice.prediction (h b) <> None.
Proof.
  rewrite forallb_forall. unfold heap_set, ref_eqb.
  split; intros H b Hin; specialize (H b Hin).
  - destruct (b =? a)%nat eqn:E; [left; now apply Nat.eqb_eq|].
    right. intros Hn. rewrite Hn in H. discriminate.
  - destruct (b =? a)%nat eqn:E; [reflexivity|].
    apply Nat.eqb_neq in E. destruct H as [H|H]; [contradiction|].
    destruct (Apprentice.prediction (h b)); [reflexivity | contradiction].
Qed.

Lemma make_prediction_unfolded (w : Round.world) (a : ref) (p : Z) :
  Round.phase (snd w) = PREDICTING ->
  0 <= p <= Round.cards_per_apprentice (snd w) ->
  Round.make_prediction a p w
  = let h' := heap_set a (Apprentice.set_prediction (Some p) (fst w a)) (fst w) in
    if forallb (fun b => negb (Trick.is_none (Apprentice.prediction (h' b))))
               (Round.apprentices (snd w))
    then match Round._start_first_trick (h', Round.set_phase PLAYING (snd w)) with
         | Returns w' _ => Returns w' true
         | Raises w' e => Raises w' e
         end
    else Returns (h', snd w) true.
Proof.
  intros Hph Hp.
  unfold Round.make_prediction, bind, Round.self_.
  rewrite Hph, RoundPhase_eqb_refl.
  replace ((p <? 0) || (Round.cards_per_apprentice (snd w) <? p)) with false
    by (symmetry; apply orb_false_iff; split; apply Z.ltb_ge; lia).
  cbv beta iota zeta delta [negb].
  unfold Round.on_apprentice, zoom, at_ref, zoom, Apprentice.make_prediction.
  replace (p <? 0) with false by (symmetry; apply Z.ltb_ge; lia).
  unfold modify, Round.the_heap, Round.update, modify, ret. cbn [fst snd].
  destruct (forallb _ _); reflexivity.
Qed.

Lemma py_getitem_nil {A} (i : Z) : py_getitem (@nil A) i = Err IndexError.
Proof.
  unfold py_getitem. cbv zeta.
  destruct ((_ <? 0) || _); [reflexivity|].
  destruct (Z.to_nat _); reflexivity.
Qed.

Lemma start_first_trick_unfolded (h : heap) (r : Round.t) (first : ref) :
  py_getitem (Round.apprentices r)
             ((Round.dealer_index r + 1) mod len (Round.apprentices r)) = Ok first ->
  Round._start_first_trick (h, r)
  = Returns (h, Round.set_current_apprentice_index
                  ((Round.dealer_index r + 1) mod len (Round.apprentices r))
                  (Round.set_current_trick
                     (Some (Trick.init (Some first) (Round.trump_color r))) r)) tt.
Proof.
  intros Hfirst.
  assert (Hne : (len (Round.apprentices r) =? 0) = false).
  { destruct (Round.apprentices r); [now rewrite py_getitem_nil in Hfirst|].
    apply Z.eqb_neq. unfold len. simpl List.length. lia. }
  unfold Round._start_first_trick, bind, Round.self_, lift, py_mod. cbn [fst snd].
  rewrite Hne, Hfirst. reflexivity.
Qed.

(** An accepted prediction is recorded on the apprentice and on nothing
    else.  While some other seated apprentice has no prediction the
    round itself is unchanged; when the prediction is the last one
    missing, the round moves to Playing and starts the first trick, led
    by the apprentice after the dealer, with the round's trump color,
    and it is that apprentice's turn. *)
Theorem make_prediction_starts_play (w : Round.world) (a : ref) (p : Z) :
  Round.phase (snd w) = PREDICTING ->
  0 <= p <= Round.cards_per_apprentice (snd w) ->
  let h' := heap_set a (Apprentice.set_prediction (Some p) (fst w a)) (fst w) in
  ((exists b, In b (Round.apprentices (snd w)) /\ b <> a /\
              Apprentice.prediction (fst w b) = None) ->
   Round.make_prediction a p w = Returns (h', snd w) true) /\
  ((forall b, In b (Round.apprentices (snd w)) ->
              b = a \/ Apprentice.prediction (fst w b) <> None) ->
   forall first,
     py_getitem (Round.apprentices (snd w))
                ((Round.dealer_index (snd w) + 1) mod len (Round.apprentices (snd w)))
     = Ok first ->
     Round.make_prediction a p w
     = Returns (h', Round.set_current_apprentice_index
                      ((Round.dealer_index (snd w) + 1) mod len (Round.apprentices (snd w)))
                      (Round.set_current_trick
                         (Some (Trick.init (Some first) (Round.trump_color (snd w))))
                         (Round.set_phase PLAYING (snd w)))) true).
Proof.
  intros Hph Hp h'. subst h'.
  rewrite (make_prediction_unfolded w a p Hph Hp). cbv zeta. split.
  - intros [b [Hin [Hne Hnone]]].
    destruct (forallb _ _) eqn:E; [|reflexivity].
    pose proof (proj1 (all_predicted_after (fst w) a p _) E) as E'.
    destruct (E' b Hin); contradiction.
  - intros Hall first Hfirst.
    rewrite (proj2 (all_predicted_after (fst w) a p _) Hall).
    rewrite (start_first_trick_unfolded _ (Round.set_phase PLAYING (snd w)) first Hfirst).
    reflexivity.
Qed.

Lemma make_prediction_starts_play_witness :
  let w := final_state (Round.make_prediction 1%nat 0 predicted_once) in
  let h' := heap_set 2%nat (Apprentice.set_prediction (Some 1) (fst w 2%nat)) (fst w) in
  Round.make_prediction 1%nat 0 predicted_once
  = Returns (heap_set 1%nat (Apprentice.set_prediction (Some 0) (fst predicted_once 1%nat))
                      (fst predicted_once), snd predicted_once) true /\
  Round.make_prediction 2%nat 1 w
  = Returns (h', Round.set_current_apprentice_index 1
                   (Round.set_current_trick
                      (Some (Trick.init (Some 1%nat) (Some HUMANS)))
                      (Round.set_phase PLAYING (snd w)))) true.
Proof.
  intros w h'. split.
  - apply (proj1 (make_prediction_starts_play predicted_once 1%nat 0 eq_refl
                    ltac:(vm_compute; split; discriminate))).
    exists 2%nat. split; [simpl; tauto|]. split; [discriminate | reflexivity].
  - apply (proj2 (make_prediction_starts_play w 2%nat 1 eq_refl
                    ltac:(vm_compute; split; discriminate))).
    + intros b [<- | [<- | [<- | []]]]; [right | right | left]; try reflexivity;
        vm_compute; discriminate.
    + reflexivity.
Defined.

(** ** The round: an accepted play *)

Lemma index_from_In (l : list ref) (x : ref) :
  In x l ->
  forall i, exists k,
    index_from i l x = Ok (i + Z.of_nat k) /\ nth_error l k = Some x.
Proof.
  induction l as [|y l IH]; intros Hin i; [contradiction|].
  simpl. destruct (ref_eqb y x) eqn:E.
  - apply Nat.eqb_eq in E. subst. exists O. split; [f_equal; lia | reflexivity].
  - destruct Hin as [->|Hin]; [unfold ref_eqb in E; now rewrite Nat.eqb_refl in E|].
    destruct (IH Hin (i + 1)) as [k [H1 H2]].
    exists (S k). split; [rewrite H1; f_equal; lia | exact H2].
Qed.

Lemma py_index_In (l : list ref) (x : ref) :
  In x l -> exists j, py_index l x = Ok j /\ py_getitem l j = Ok x.
Proof.
  intros Hin. destruct (index_from_In l x Hin 0) as [k [H1 H2]].
  exists (Z.of_nat k). split; [exact H1|].
  assert (Hk : (k < List.length l)%nat) by (apply nth_error_Some; congruence).
  unfold py_getitem. cbv zeta.
  replace (Z.of_nat k <? 0) with false by (symmetry; apply Z.ltb_ge; lia).
  cbv iota.
  replace (Z.of_nat k <? 0) with false by (symmetry; apply Z.ltb_ge; lia).
  replace (len l <=? Z.of_nat k) with false
    by (symmetry; apply Z.leb_gt; unfold len; lia).
  simpl. now rewrite Nat2Z.id, H2.
Qed.

Ltac round_fields :=
  cbn [fst snd Round.round_number Round.apprentices Round.dealer_index
       Round.cards_per_apprentice Round.deck Round.trump_card Round.trump_color
       Round.current_trick Round.tricks_played Round.current_apprentice_index Round.phase
       Round.set_deck Round.set_trump_card Round.set_trump_color Round.set_current_trick
       Round.set_tricks_played Round.set_current_apprentice_index Round.set_phase].

(** The steps of [Round.play_card] up to the completion test, for a
    play that passes every check. *)
Ltac play_card_prefix Hph Hturn Htrick Hmem Hp Hl Hne :=
  unfold Round.play_card, bind, Round.self_, lift, Round.the_heap;
  rewrite Hph, Hturn, RoundPhase_eqb_refl;
  unfold ref_eqb; rewrite Nat.eqb_refl, Htrick;
  cbv beta iota zeta delta [negb]; rewrite Hmem; cbv iota;
  unfold Round.on_apprentice, zoom at 1; unfold at_ref, zoom at 1; cbn [fst snd];
  rewrite Hp;
  unfold Round.on_trick at 1, Round.trick_only, zoom at 1; unfold zoom at 1;
  cbn [fst snd]; rewrite Hl; cbn [fst snd]; unfold py_mod; rewrite Hne;
  unfold Round.update at 1, modify; round_fields; trick_fields.

Lemma seated_nonempty (l : list ref) (i : Z) (a : ref) :
  py_getitem l i = Ok a -> (len l =? 0) = false /\ In a l.
Proof.
  intros H. split.
  - destruct l; [now rewrite py_getitem_nil in H|].
    apply Z.eqb_neq. unfold len. simpl List.length. lia.
  - unfold py_getitem in H. cbv zeta in H.
    destruct ((_ <? 0) || _); [discriminate|].
    destruct (nth_error l _) eqn:E; [|discriminate].
    inversion H; subst. eapply nth_error_In. exact E.
Qed.

Lemma play_card_mid_unfolded (w : Round.world) (a : ref) (i : Z) (trick : Trick.t) :
  Round.phase (snd w) = PLAYING ->
  py_getitem (Round.apprentices (snd w)) (Round.current_apprentice_index (snd w)) = Ok a ->
  Round.current_trick (snd w) = Some trick ->
  Trick.is_complete trick = false ->
  ~ In a (map fst (Trick.cards_played trick)) ->
  mem i (Apprentice.get_playable_cards (fst w a) (Trick.leading_color trick)) = true ->
  len (Trick.cards_played trick) + 1 <> len (Round.apprentices (snd w)) ->
  exists card l,
    nth_error (Apprentice.hand (fst w a)) (Z.to_nat i) = Some card /\
    Trick.play_card a card trick
    = Returns (Trick.mk (Trick.leading_apprentice trick) (Trick.trump_color trick)
                        (Trick.cards_played trick ++ [(a, card)]) l
                        (Trick.winner trick) false) true /\
    Round.play_card a i w
    = Returns (heap_set a (Apprentice.set_hand
                             (remove_nth (Z.to_nat i) (Apprentice.hand (fst w a)))
                             (fst w a)) (fst w),
               Round.set_current_apprentice_index
                 ((Round.current_apprentice_index (snd w) + 1)
                  mod len (Round.apprentices (snd w)))
                 (Round.set_current_trick
                    (Some (Trick.mk (Trick.leading_apprentice trick)
                                    (Trick.trump_color trick)
                                    (Trick.cards_played trick ++ [(a, card)]) l
                                    (Trick.winner trick) false))
                    (snd w))) true.
Proof.
  intros Hph Hturn Htrick Hc Hfresh Hmem Hlen.
  assert (Hi : 0 <= i < len (Apprentice.hand (fst w a)))
    by (apply mem_In, playable_in_range in Hmem; exact Hmem).
  destruct (apprentice_play_card_in_range (fst w a) i Hi) as [card [Hn Hp]].
  destruct (trick_play_card_appends trick a card Hc Hfresh) as [l Hl].
  destruct (seated_nonempty _ _ _ Hturn) as [Hne _].
  exists card, l. split; [exact Hn|]. split; [exact Hl|].
  play_card_prefix Hph Hturn Htrick Hmem Hp Hl Hne.
  replace (len (Trick.cards_played trick ++ [(a, card)])
           =? len (Round.apprentices (snd w))) with false; [reflexivity|].
  symmetry. apply Z.eqb_neq. rewrite len_app. unfold len at 2. simpl List.length. lia.
Qed.

(** A play that passes the checks and does not complete the trick moves
    one card: the card at the chosen position leaves the hand, the trick
    records it as [Trick.play_card] does, the turn passes to the next
    seat (wrapping), and nothing else of the round or of any apprentice
    changes. *)
Theorem play_card_moves_card (w : Round.world) (a : ref) (i : Z) (trick : Trick.t) :
  Round.phase (snd w) = PLAYING ->
  py_getitem (Round.apprentices (snd w)) (Round.current_apprentice_index (snd w)) = Ok a ->
  Round.current_trick (snd w) = Some trick ->
  Trick.is_complete trick = false ->
  ~ In a (map fst (Trick.cards_played trick)) ->
  mem i (Apprentice.get_playable_cards (fst w a) (Trick.leading_color trick)) = true ->
  len (Trick.cards_played trick) + 1 <> len (Round.apprentices (snd w)) ->
  exists card trick',
    holds (Apprentice.hand (fst w a)) i card /\
    Trick.play_card a card trick = Returns trick' true /\
    Trick.cards_played trick' = Trick.cards_played trick ++ [(a, card)] /\
    Round.play_card a i w
    = Returns (heap_set a (Apprentice.set_hand
                             (remove_nth (Z.to_nat i) (Apprentice.hand (fst w a)))
                             (fst w a)) (fst w),
               Round.set_current_apprentice_index
                 ((Round.current_apprentice_index (snd w) + 1)
                  mod len (Round.apprentices (snd w)))
                 (Round.set_current_trick (Some trick') (snd w))) true.
Proof.
  intros Hph Hturn Htrick Hc Hfresh Hmem Hlen.
  destruct (play_card_mid_unfolded w a i trick Hph Hturn Htrick Hc Hfresh Hmem Hlen)
    as [card [l [Hn [Hl Hplay]]]].
  assert (Hi : 0 <= i) by (apply mem_In, playable_in_range in Hmem; lia).
  exists card. eexists. split; [split; [exact Hi | exact Hn]|].
  split; [exact Hl|]. split; [reflexivity | exact Hplay].
Qed.

Lemma play_card_moves_card_witness :
  exists card trick',
    holds (Apprentice.hand (fst all_predicted 2%nat)) 12 card /\
    Trick.play_card 2%nat card (Trick.init (Some 2%nat) None) = Returns trick' true /\
    Trick.cards_played trick'
    = Trick.cards_played (Trick.init (Some 2%nat) None) ++ [(2%nat, card)] /\
    Round.play_card 2%nat 12 all_predicted
    = Returns (heap_set 2%nat
                 (Apprentice.set_hand
                    (remove_nth (Z.to_nat 12) (Apprentice.hand (fst all_predicted 2%nat)))
                    (fst all_predicted 2%nat)) (fst all_predicted),
               Round.set_current_apprentice_index
                 ((Round.current_apprentice_index (snd all_predicted) + 1)
                  mod len (Round.apprentices (snd all_predicted)))
                 (Round.set_current_trick (Some trick') (snd all_predicted))) true.
Proof.
  apply (play_card_moves_card all_predicted 2%nat 12 (Trick.init (Some 2%nat) None)).
  - reflexivity.
  - reflexivity.
  - reflexivity.
  - reflexivity.
  - simpl. tauto.
  - now vm_compute.
  - vm_compute. discriminate.
Defined.

Lemma heap_set_same (r : ref) (a : Apprentice.t) (h : heap) : heap_set r a h r = a.
Proof. unfold heap_set, ref_eqb. now rewrite Nat.eqb_refl. Qed.

Lemma heap_set_other (r r' : ref) (a : Apprentice.t) (h : heap) :
  r' <> r -> heap_set r a h r' = h r'.
Proof.
  intros H. unfold heap_set, ref_eqb.
  destruct (r' =? r)%nat eqn:E; [apply Nat.eqb_eq in E; contradiction | reflexivity].
Qed.

Lemma play_card_last_unfolded (w : Round.world) (a : ref) (i : Z) (trick : Trick.t) :
  Round.phase (snd w) = PLAYING ->
  py_getitem (Round.apprentices (snd w)) (Round.current_apprentice_index (snd w)) = Ok a ->
  Round.current_trick (snd w) = Some trick ->
  Trick.is_complete trick = false ->
  ~ In a (map fst (Trick.cards_played trick)) ->
  mem i (Apprentice.get_playable_cards (fst w a) (Trick.leading_color trick)) = true ->
  len (Trick.cards_played trick) + 1 = len (Round.apprentices (snd w)) ->
  Forall Card.wf (map snd (Trick.cards_played trick)) ->
  Forall Card.wf (Apprentice.hand (fst w a)) ->
  (forall b, In b (map fst (Trick.cards_played trick)) ->
             In b (Round.apprentices (snd w))) ->
  exists card l done win j,
    nth_error (Apprentice.hand (fst w a)) (Z.to_nat i) = Some card /\
    Trick.is_complete done = true /\
    Trick.cards_played done = Trick.cards_played trick ++ [(a, card)] /\
    In win (map fst (Trick.cards_played trick ++ [(a, card)])) /\
    py_index (Round.apprentices (snd w)) win = Ok j /\
    py_getitem (Round.apprentices (snd w)) j = Ok win /\
    Round.play_card a i w
    = Returns
        (let h1 := heap_set a (Apprentice.set_hand
                                 (remove_nth (Z.to_nat i) (Apprentice.hand (fst w a)))
                                 (fst w a)) (fst w) in
         let played :=
           Round.set_tricks_played (Round.tricks_played (snd w) ++ [done])
             (Round.set_current_trick (Some done)
                (Round.set_current_apprentice_index
                   ((Round.current_apprentice_index (snd w) + 1)
                    mod len (Round.apprentices (snd w)))
                   (Round.set_current_trick
                      (Some (Trick.mk (Trick.leading_apprentice trick)
                                      (Trick.trump_color trick)
                                      (Trick.cards_played trick ++ [(a, card)]) l
                                      (Trick.winner trick) false))
                      (snd w)))) in
         (heap_set win (Apprentice.set_tricks_won (Apprentice.tricks_won (h1 win) + 1)
                                                  (h1 win)) h1,
          if len (Round.tricks_played (snd w) ++ [done])
             =? Round.cards_per_apprentice (snd w)
          then Round.set_phase SCORING played
          else Round.set_current_apprentice_index j
                 (Round.set_current_trick
                    (Some (Trick.init (Some win) (Round.trump_color (snd w)))) played)))
        true.
Proof.
  intros Hph Hturn Htrick Hc Hfresh Hmem Hlen Hwf Hhand Hsub.
  assert (Hi : 0 <= i < len (Apprentice.hand (fst w a)))
    by (apply mem_In, playable_in_range in Hmem; exact Hmem).
  destruct (apprentice_play_card_in_range (fst w a) i Hi) as [card [Hn Hp]].
  destruct (trick_play_card_appends trick a card Hc Hfresh) as [l Hl].
  destruct (seated_nonempty _ _ _ Hturn) as [Hne Hseat].
  set (h1 := heap_set a (Apprentice.set_hand
                           (remove_nth (Z.to_nat i) (Apprentice.hand (fst w a)))
                           (fst w a)) (fst w)).
  set (trick1 := Trick.mk (Trick.leading_apprentice trick) (Trick.trump_color trick)
                          (Trick.cards_played trick ++ [(a, card)]) l
                          (Trick.winner trick) false) in *.
  destruct (complete_trick_returns h1 trick1)
    as [win [s0 [done [_ [Hdone [Hin [D1 [D2 _]]]]]]]].
  { subst trick1. simpl. now destruct (Trick.cards_played trick). }
  { subst trick1. simpl. rewrite map_app. apply Forall_app. split; [exact Hwf|].
    simpl. constructor; [|constructor].
    rewrite Forall_forall in Hhand. apply Hhand. eapply nth_error_In. exact Hn. }
  assert (Hwin : In win (Round.apprentices (snd w))).
  { subst trick1. simpl in Hin. rewrite map_app in Hin. apply in_app_or in Hin.
    destruct Hin as [Hin | [<- | []]]; [now apply Hsub | exact Hseat]. }
  destruct (py_index_In _ _ Hwin) as [j [Hj1 Hj2]].
  exists card, l, done, win, j.
  split; [exact Hn|]. split; [exact D1|]. split; [exact D2|]. split; [exact Hin|].
  split; [exact Hj1|]. split; [exact Hj2|].
  cbv zeta. fold h1. fold trick1.
  play_card_prefix Hph Hturn Htrick Hmem Hp Hl Hne.
  replace (len (Trick.cards_played trick1) =? len (Round.apprentices (snd w)))
    with true
    by (symmetry; apply Z.eqb_eq; unfold trick1; cbn [Trick.cards_played];
        rewrite len_app; unfold len at 2; simpl List.length; lia).
  cbv iota beta. unfold Round.on_trick, zoom. round_fields.
  fold h1. rewrite Hdone. round_fields.
  unfold Round.update, modify. round_fields.
  destruct (len (Round.tricks_played (snd w) ++ [done])
            =? Round.cards_per_apprentice (snd w)).
  - reflexivity.
  - unfold Round._start_next_trick, bind, Round.self_, Round.update, modify, lift.
    round_fields. rewrite Hj1. reflexivity.
Qed.

(** The play that completes a trick resolves it at once: the card
    moves from the hand to the trick, the trick is marked complete and
    appended to [tricks_played], one of its players wins and that
    player's [tricks_won] grows by one while nobody else's changes.  If
    the round now has [cards_per_apprentice] tricks it moves to Scoring;
    otherwise it stays in Playing with a fresh trick led by the winner,
    with the round's trump color, and it is the winner's turn. *)
Theorem play_card_completes_trick (w : Round.world) (a : ref) (i : Z) (trick : Trick.t) :
  Round.phase (snd w) = PLAYING ->
  py_getitem (Round.apprentices (snd w)) (Round.current_apprentice_index (snd w)) = Ok a ->
  Round.current_trick (snd w) = Some trick ->
  Trick.is_complete trick = false ->
  ~ In a (map fst (Trick.cards_played trick)) ->
  mem i (Apprentice.get_playable_cards (fst w a) (Trick.leading_color trick)) = true ->
  len (Trick.cards_played trick) + 1 = len (Round.apprentices (snd w)) ->
  Forall Card.wf (map snd (Trick.cards_played trick)) ->
  Forall Card.wf (Apprentice.hand (fst w a)) ->
  (forall b, In b (map fst (Trick.cards_played trick)) ->
             In b (Round.apprentices (snd w))) ->
  exists card done winner w',
    Round.play_card a i w = Returns w' true /\
    holds (Apprentice.hand (fst w a)) i card /\
    Apprentice.hand (fst w' a) = remove_nth (Z.to_nat i) (Apprentice.hand (fst w a)) /\
    Trick.cards_played done = Trick.cards_played trick ++ [(a, card)] /\
    Trick.is_complete done = true /\
    In winner (map fst (Trick.cards_played done)) /\
    Round.tricks_played (snd w') = Round.tricks_played (snd w) ++ [done] /\
    Apprentice.tricks_won (fst w' winner) = Apprentice.tricks_won (fst w winner) + 1 /\
    (forall b, b <> winner ->
               Apprentice.tricks_won (fst w' b) = Apprentice.tricks_won (fst w b)) /\
    (len (Round.tricks_played (snd w)) + 1 = Round.cards_per_apprentice (snd w) ->
     Round.phase (snd w') = SCORING) /\
    (len (Round.tricks_played (snd w)) + 1 <> Round.cards_per_apprentice (snd w) ->
     Round.phase (snd w') = PLAYING /\
     Round.current_trick (snd w')
     = Some (Trick.init (Some winner) (Round.trump_color (snd w))) /\
     py_getitem (Round.apprentices (snd w')) (Round.current_apprentice_index (snd w'))
     = Ok winner).
Proof.
  intros Hph Hturn Htrick Hc Hfresh Hmem Hlen Hwf Hhand Hsub.
  assert (Hi : 0 <= i < len (Apprentice.hand (fst w a)))
    by (apply mem_In, playable_in_range in Hmem; exact Hmem).
  destruct (play_card_last_unfolded w a i trick Hph Hturn Htrick Hc Hfresh Hmem Hlen Hwf
                                    Hhand Hsub)
    as [card [l [done [win [j [Hn [D1 [D2 [Hin [Hj1 [Hj2 Hplay]]]]]]]]]]].
  cbv zeta in Hplay.
  set (h1 := heap_set a (Apprentice.set_hand
                           (remove_nth (Z.to_nat i) (Apprentice.hand (fst w a)))
                           (fst w a)) (fst w)) in *.
  exists card, done, win. eexists. split; [exact Hplay|].
  split; [split; [lia | exact Hn]|].
  assert (Hlen1 : len (Round.tricks_played (snd w) ++ [done])
                  = len (Round.tricks_played (snd w)) + 1)
    by (rewrite len_app; unfold len at 2; simpl List.length; lia).
  cbn [fst snd].
  split.
  { destruct (Nat.eq_dec a win) as [->|Hne'].
    - rewrite heap_set_same. simpl. unfold h1. now rewrite heap_set_same.
    - rewrite heap_set_other by exact Hne'. unfold h1. now rewrite heap_set_same. }
  split; [exact D2|]. split; [exact D1|]. split; [rewrite D2; exact Hin|].
  assert (Hwon : Apprentice.tricks_won (h1 win) = Apprentice.tricks_won (fst w win)).
  { unfold h1. destruct (Nat.eq_dec win a) as [->|Hne'].
    - now rewrite heap_set_same.
    - now rewrite heap_set_other. }
  assert (Hothers : forall b, b <> win ->
            Apprentice.tricks_won
              (heap_set win (Apprentice.set_tricks_won (Apprentice.tricks_won (h1 win) + 1)
                                                       (h1 win)) h1 b)
            = Apprentice.tricks_won (fst w b)).
  { intros b Hb. rewrite heap_set_other by exact Hb. unfold h1.
    destruct (Nat.eq_dec b a) as [->|Hne'].
    - now rewrite heap_set_same.
    - now rewrite heap_set_other. }
  rewrite heap_set_same. cbn [Apprentice.tricks_won Apprentice.set_tricks_won].
  rewrite Hwon in Hothers |- *.
  destruct (Z.eqb_spec (len (Round.tricks_played (snd w) ++ [done]))
                       (Round.cards_per_apprentice (snd w))) as [He|He];
    round_fields.
  - split; [reflexivity|]. split; [reflexivity|]. split; [exact Hothers|].
    split; [reflexivity|]. intros H. lia.
  - split; [reflexivity|]. split; [reflexivity|]. split; [exact Hothers|].
    split; [intros H; lia|]. intros _.
    split; [exact Hph|]. split; [reflexivity | exact Hj2].
Qed.

Ltac wf_members H :=
  vm_compute in H;
  repeat (destruct H as [<- | H];
          [ first [ right; left; reflexivity
                  | right; right; reflexivity
                  | left; eexists; eexists; split; [reflexivity | split; [discriminate | lia]] ]
          | ]);
  contradiction.

Lemma wizard_led_round :
  Round.apprentices (snd wizard_led) = [0%nat; 1%nat; 2%nat] /\
  Round.tricks_played (snd wizard_led) = [] /\
  Round.trump_color (snd wizard_led) = None /\
  Round.cards_per_apprentice (snd wizard_led) = 20.
Proof.
  repeat split; vm_compute; reflexivity.
Qed.

Lemma play_card_completes_trick_witness :
  exists done winner w',
    Round.play_card 1%nat 0 wizard_led = Returns w' true /\
    Trick.is_complete done = true /\
    List.length (Trick.cards_played done) = 3%nat /\
    In winner (map fst (Trick.cards_played done)) /\
    Round.tricks_played (snd w') = [done] /\
    Apprentice.tricks_won (fst w' winner) = Apprentice.tricks_won (fst wizard_led winner) + 1 /\
    Round.phase (snd w') = PLAYING /\
    Round.current_trick (snd w') = Some (Trick.init (Some winner) None).
Proof.
  destruct wizard_led_facts as [H1 [H2 [H3 [H4 _]]]].
  destruct wizard_led_round as [R1 [R2 [R3 R4]]].
  destruct (play_card_completes_trick wizard_led 1%nat 0 _ H1 H2 H3)
    as [card [done [winner [w' [P1 [_ [_ [P4 [P5 [P6 [P7 [P8 [_ [_ P11]]]]]]]]]]]]]].
  - reflexivity.
  - cbn [Trick.cards_played map fst]. intros [H|[H|[]]]; discriminate H.
  - now vm_compute.
  - rewrite R1. reflexivity.
  - apply Forall_forall. intros c Hc. apply wf_cases. wf_members Hc.
  - apply Forall_forall. intros c Hc. apply wf_cases. wf_members Hc.
  - rewrite R1. cbn [Trick.cards_played map fst]. intros b [<-|[<-|[]]]; simpl; tauto.
  - rewrite R2 in P7, P11. rewrite R3, R4 in P11.
    exists done, winner, w'. split; [exact P1|]. split; [exact P5|].
    split; [rewrite P4; reflexivity|]. split; [exact P6|]. split; [exact P7|].
    split; [exact P8|].
    destruct P11 as [Q1 [Q2 _]]; [discriminate|].
    split; [exact Q1 | exact Q2].
Defined.

(** ** The round: scoring *)

Lemma calculate_round_points_some (a : Apprentice.t) :
  Apprentice.prediction a <> None ->
  exists p, Apprentice.calculate_round_points a = Ok p.
Proof.
  intros H. unfold Apprentice.calculate_round_points.
  destruct (Apprentice.prediction a) as [q|]; [|contradiction].
  destruct (q =? Apprentice.tricks_won a); eexists; reflexivity.
Qed.

Lemma score_each_step (a : ref) (rest : list ref) (acc : list (ref * Z))
    (h : heap) (r : Round.t) (p : Z) :
  Apprentice.calculate_round_points (h a) = Ok p ->
  Round.score_each (a :: rest) acc (h, r)
  = Round.score_each rest (dict_set acc a p)
      (heap_set a (Apprentice.set_experience_points
                     (Apprentice.experience_points (h a) + p) (h a)) h, r).
Proof.
  intros Hp. simpl Round.score_each.
  unfold bind, Round.the_heap, lift. cbn [fst snd]. rewrite Hp.
  unfold Round.on_apprentice, zoom, at_ref, zoom, Apprentice.add_experience_points, modify.
  reflexivity.
Qed.

Lemma score_each_returns (r : Round.t) (apprentices : list ref) :
  forall (h : heap) acc,
    NoDup apprentices ->
    (forall a, In a apprentices -> ~ In a (map fst acc)) ->
    (forall a, In a apprentices -> Apprentice.prediction (h a) <> None) ->
    exists h' pts,
      Round.score_each apprentices acc (h, r) = Returns (h', r) (acc ++ pts) /\
      map fst pts = apprentices /\
      (forall a, In a apprentices ->
         exists p, Apprentice.calculate_round_points (h a) = Ok p /\
                   In (a, p) pts /\
                   h' a = Apprentice.set_experience_points
                            (Apprentice.experience_points (h a) + p) (h a)) /\
      (forall b, ~ In b apprentices -> h' b = h b).
Proof.
  induction apprentices as [|a rest IH]; intros h acc Hnd Hfresh Hpred.
  - exists h, []. rewrite app_nil_r. repeat split; intros; contradiction.
  - inversion Hnd as [|? ? Hnotin Hnd']; subst.
    destruct (calculate_round_points_some (h a)) as [p Hp];
      [apply Hpred; now left|].
    set (h1 := heap_set a (Apprentice.set_experience_points
                             (Apprentice.experience_points (h a) + p) (h a)) h).
    destruct (IH h1 (acc ++ [(a, p)]) Hnd') as [h' [pts [H1 [H2 [H3 H4]]]]].
    + intros b Hb. rewrite map_app. simpl. intros Hin. apply in_app_or in Hin.
      destruct Hin as [Hin | [<- | []]].
      * revert Hin. apply Hfresh. now right.
      * contradiction.
    + intros b Hb. unfold h1. rewrite heap_set_other by (intros ->; contradiction).
      apply Hpred. now right.
    + exists h', ((a, p) :: pts). split.
      { rewrite (score_each_step a rest acc h r p Hp).
        rewrite dict_set_fresh by (apply Hfresh; now left).
        fold h1. rewrite H1, <- app_assoc. reflexivity. }
      split; [simpl; now rewrite H2|]. split.
      * intros b [<- | Hb].
        -- exists p. split; [exact Hp|]. split; [now left|].
           rewrite (H4 a Hnotin). unfold h1. now rewrite heap_set_same.
        -- destruct (H3 b Hb) as [q [Q1 [Q2 Q3]]].
           assert (Hne : b <> a) by (intros ->; contradiction).
           unfold h1 in Q1, Q3. rewrite heap_set_other in Q1, Q3 by exact Hne.
           exists q. split; [exact Q1|]. split; [now right | exact Q3].
      * intros b Hb. rewrite H4 by (intros Hin; apply Hb; now right).
        unfold h1. apply heap_set_other. intros ->. apply Hb. now left.
Qed.

Lemma score_each_raises (r : Round.t) (b : ref) (post : list ref) (pre : list ref) :
  forall (h : heap) acc,
    NoDup pre -> ~ In b pre ->
    (forall a, In a pre -> Apprentice.prediction (h a) <> None) ->
    Apprentice.prediction (h b) = None ->
    exists h',
      Round.score_each (pre ++ b :: post) acc (h, r) = Raises (h', r) ValueError /\
      (forall a, In a pre ->
         exists p, Apprentice.calculate_round_points (h a) = Ok p /\
                   h' a = Apprentice.set_experience_points
                            (Apprentice.experience_points (h a) + p) (h a)) /\
      (forall c, ~ In c pre -> h' c = h c).
Proof.
  induction pre as [|a pre IH]; intros h acc Hnd Hb Hpred Hnone.
  - exists h. split; [|split; [intros a []| reflexivity]].
    simpl. unfold bind, Round.the_heap, lift, Apprentice.calculate_round_points.
    cbn [fst snd]. now rewrite Hnone.
  - inversion Hnd as [|? ? Hnotin Hnd']; subst.
    destruct (calculate_round_points_some (h a)) as [p Hp];
      [apply Hpred; now left|].
    set (h1 := heap_set a (Apprentice.set_experience_points
                             (Apprentice.experience_points (h a) + p) (h a)) h).
    assert (Hba : b <> a) by (intros ->; apply Hb; now left).
    destruct (IH h1 (dict_set acc a p) Hnd') as [h' [H1 [H2 H3]]].
    + intros Hin. apply Hb. now right.
    + intros c Hc. unfold h1. rewrite heap_set_other by (intros ->; contradiction).
      apply Hpred. now right.
    + unfold h1. now rewrite heap_set_other.
    + exists h'. split.
      { simpl app. rewrite (score_each_step a _ acc h r p Hp). exact H1. }
      split.
      * intros c [<- | Hc].
        -- exists p. split; [exact Hp|].
           rewrite (H3 a Hnotin). unfold h1. now rewrite heap_set_same.
        -- destruct (H2 c Hc) as [q [Q1 Q2]].
           assert (Hne : c <> a) by (intros ->; contradiction).
           unfold h1 in Q1, Q2. rewrite heap_set_other in Q1, Q2 by exact Hne.
           exists q. split; [exact Q1 | exact Q2].
      * intros c Hc. rewrite H3 by (intros Hin; apply Hc; now right).
        unfold h1. apply heap_set_other. intros ->. apply Hc. now left.
Qed.

(** [Round.score_round] in the Scoring phase, when the seated
    apprentices are distinct and each has a prediction, returns one
    entry per apprentice in seating order holding its
    [calculate_round_points], adds exactly those points to each
    apprentice's [experience_points], touches nothing else, and moves the
    round to Complete, where a second call raises ValueError and changes
    nothing. *)
Theorem score_round_credits_once (w : Round.world) :
  Round.phase (snd w) = SCORING ->
  NoDup (Round.apprentices (snd w)) ->
  (forall a, In a (Round.apprentices (snd w)) ->
             Apprentice.prediction (fst w a) <> None) ->
  exists h' pts,
    Round.score_round w = Returns (h', Round.set_phase COMPLETE (snd w)) pts /\
    map fst pts = Round.apprentices (snd w) /\
    (forall a, In a (Round.apprentices (snd w)) ->
       exists p, Apprentice.calculate_round_points (fst w a) = Ok p /\
                 In (a, p) pts /\
                 h' a = Apprentice.set_experience_points
                          (Apprentice.experience_points (fst w a) + p) (fst w a)) /\
    (forall b, ~ In b (Round.apprentices (snd w)) -> h' b = fst w b) /\
    Round.score_round (h', Round.set_phase COMPLETE (snd w))
    = Raises (h', Round.set_phase COMPLETE (snd w)) ValueError.
Proof.
  intros Hph Hnd Hpred. destruct w as [h r]. cbn [fst snd] in *.
  destruct (score_each_returns r (Round.apprentices r) h [] Hnd)
    as [h' [pts [H1 [H2 [H3 H4]]]]].
  { intros a _ []. }
  { exact Hpred. }
  exists h', pts. split.
  - unfold Round.score_round, bind, Round.self_. cbn [fst snd].
    rewrite Hph, RoundPhase_eqb_refl. cbv beta iota delta [negb].
    rewrite H1. reflexivity.
  - split; [exact H2|]. split; [exact H3|]. split; [exact H4|]. reflexivity.
Qed.

(** [Round.score_round] does not check the predictions before it
    starts: when the first seated apprentice without a prediction comes
    after others, it raises ValueError with the round still in Scoring
    and the apprentices seated before already credited with their
    points. *)
Theorem score_round_raises_midway (w : Round.world)
    (pre : list ref) (b : ref) (post : list ref) :
  Round.phase (snd w) = SCORING ->
  Round.apprentices (snd w) = pre ++ b :: post ->
  NoDup pre -> ~ In b pre ->
  (forall a, In a pre -> Apprentice.prediction (fst w a) <> None) ->
  Apprentice.prediction (fst w b) = None ->
  exists h',
    Round.score_round w = Raises (h', snd w) ValueError /\
    (forall a, In a pre ->
       exists p, Apprentice.calculate_round_points (fst w a) = Ok p /\
                 h' a = Apprentice.set_experience_points
                          (Apprentice.experience_points (fst w a) + p) (fst w a)) /\
    (forall c, ~ In c pre -> h' c = fst w c).
Proof.
  intros Hph Happ Hnd Hb Hpred Hnone. destruct w as [h r]. cbn [fst snd] in *.
  destruct (score_each_raises r b post pre h [] Hnd Hb Hpred Hnone) as [h' [H1 [H2 H3]]].
  exists h'. split; [|split; [exact H2 | exact H3]].
  unfold Round.score_round, bind, Round.self_. cbn [fst snd].
  rewrite Hph, RoundPhase_eqb_refl, Happ. cbv beta iota delta [negb].
  rewrite H1. reflexivity.
Qed.

Lemma round_one_played_facts :
  Round.phase (snd round_one_played) = SCORING /\
  Round.apprentices (snd round_one_played) = [0%nat; 1%nat; 2%nat] /\
  Apprentice.prediction (fst round_one_played 0%nat) = Some 1 /\
  Apprentice.prediction (fst round_one_played 1%nat) = Some 0 /\
  Apprentice.prediction (fst round_one_played 2%nat) = Some 0.
Proof.
  repeat split; vm_compute; reflexivity.
Qed.

Lemma three_seats_distinct : NoDup [0%nat; 1%nat; 2%nat].
Proof.
  repeat constructor; simpl; intuition discriminate.
Qed.

Lemma score_round_credits_once_witness :
  exists h' pts,
    Round.score_round round_one_played
    = Returns (h', Round.set_phase COMPLETE (snd round_one_played)) pts /\
    map fst pts = Round.apprentices (snd round_one_played) /\
    Round.score_round (h', Round.set_phase COMPLETE (snd round_one_played))
    = Raises (h', Round.set_phase COMPLETE (snd round_one_played)) ValueError.
Proof.
  destruct round_one_played_facts as [F1 [F2 [F3 [F4 F5]]]].
  destruct (score_round_credits_once round_one_played F1) as [h' [pts [H1 [H2 [_ [_ H5]]]]]].
  - rewrite F2. apply three_seats_distinct.
  - rewrite F2. intros a [<- | [<- | [<- | []]]]; congruence.
  - exists h', pts. split; [exact H1|]. split; [exact H2 | exact H5].
Defined.

Lemma round_one_unpredicted_facts :
  Round.phase (snd round_one_unpredicted) = SCORING /\
  Round.apprentices (snd round_one_unpredicted) = [0%nat] ++ 1%nat :: [2%nat] /\
  Apprentice.prediction (fst round_one_unpredicted 0%nat) = Some 1 /\
  Apprentice.prediction (fst round_one_unpredicted 1%nat) = None.
Proof.
  repeat split; vm_compute; reflexivity.
Qed.

Lemma score_round_raises_midway_witness :
  exists h',
    Round.score_round round_one_unpredicted
    = Raises (h', snd round_one_unpredicted) ValueError /\
    (forall a, In a [0%nat] ->
       exists p, Apprentice.calculate_round_points (fst round_one_unpredicted a) = Ok p /\
                 h' a = Apprentice.set_experience_points
                          (Apprentice.experience_points (fst round_one_unpredicted a) + p)
                          (fst round_one_unpredicted a)) /\
    (forall c, ~ In c [0%nat] -> h' c = fst round_one_unpredicted c).
Proof.
  destruct round_one_unpredicted_facts as [F1 [F2 [F3 F4]]].
  apply (score_round_raises_midway round_one_unpredicted [0%nat] 1%nat [2%nat]).
  - exact F1.
  - exact F2.
  - repeat constructor. intros [].
  - intros [H|[]]. discriminate H.
  - intros a [<- | []]. rewrite F3. discriminate.
  - exact F4.
Defined.

(** ** The round: dealing *)

Lemma py_getitem_nth {A} (l : list A) (i : Z) (x : A) :
  0 <= i ->
  nth_error l (Z.to_nat i) = Some x ->
  py_getitem l i = Ok x.
Proof.
  intros H0 Hn.
  assert (Hlt : (Z.to_nat i < List.length l)%nat) by (apply nth_error_Some; congruence).
  unfold py_getitem. cbv zeta.
  replace (i <? 0) with false by (symmetry; apply Z.ltb_ge; lia).
  cbv iota.
  replace (i <? 0) with false by (symmetry; apply Z.ltb_ge; lia).
  replace (len l <=? i) with false by (symmetry; apply Z.leb_gt; unfold len; lia).
  simpl. now rewrite Hn.
Qed.

Lemma receive_all_returns (r : Round.t) (hands : list (list Card.t))
    (apprentices : list ref) :
  forall (i : nat) (h : heap),
    NoDup apprentices ->
    (i + List.length apprentices <= List.length hands)%nat ->
    exists h',
      Round.receive_all (Z.of_nat i) apprentices hands (h, r) = Returns (h', r) tt /\
      (forall k a, nth_error apprentices k = Some a ->
         exists hd, nth_error hands (i + k) = Some hd /\
                    h' a = Apprentice.set_hand (Apprentice.hand (h a) ++ hd) (h a)) /\
      (forall b, ~ In b apprentices -> h' b = h b).
Proof.
  induction apprentices as [|a rest IH]; intros i h Hnd Hlen.
  - exists h. split; [reflexivity|]. split; [|reflexivity].
    intros [|k] b Hk; discriminate Hk.
  - inversion Hnd as [|? ? Hnotin Hnd']; subst. simpl in Hlen.
    destruct (nth_error hands i) as [hd|] eqn:Ehd;
      [|apply nth_error_None in Ehd; lia].
    set (h1 := heap_set a (Apprentice.set_hand (Apprentice.hand (h a) ++ hd) (h a)) h).
    destruct (IH (S i) h1 Hnd') as [h' [H1 [H2 H3]]]; [lia|].
    exists h'. split; [|split].
    + simpl Round.receive_all. unfold bind at 1 2, lift.
      rewrite (py_getitem_nth hands (Z.of_nat i) hd) by (try lia; now rewrite Nat2Z.id).
      unfold Round.on_apprentice, zoom, at_ref, zoom, Apprentice.receive_cards, modify.
      cbn [fst snd]. fold h1.
      replace (Z.of_nat i + 1) with (Z.of_nat (S i)) by lia. exact H1.
    + intros [|k] b Hk; simpl in Hk.
      * inversion Hk; subst b. exists hd. rewrite Nat.add_0_r. split; [exact Ehd|].
        rewrite (H3 a Hnotin). unfold h1. now rewrite heap_set_same.
      * destruct (H2 k b Hk) as [hd' [Q1 Q2]].
        assert (Hne : b <> a).
        { intros ->. apply Hnotin. eapply nth_error_In. exact Hk. }
        exists hd'. split; [now rewrite Nat.add_succ_r|].
        rewrite Q2. unfold h1. now rewrite heap_set_other.
    + intros b Hb. rewrite H3 by (intros Hin; apply Hb; now right).
      unfold h1. apply heap_set_other. intros ->. apply Hb. now left.
Qed.

Lemma deal_cards_returns (h : heap) (r : Round.t) (arrangement : list Card.t) :
  Round.phase r = DEALING ->
  NoDup (Round.apprentices r) ->
  0 <= Round.cards_per_apprentice r ->
  len (Round.apprentices r) * Round.cards_per_apprentice r <= len arrangement ->
  exists hands rest h',
    len hands = len (Round.apprentices r) /\
    Forall (fun hd => len hd = Round.cards_per_apprentice r) hands /\
    List.concat hands ++ rest = arrangement /\
    (forall k a, nth_error (Round.apprentices r) k = Some a ->
       exists hd, nth_error hands k = Some hd /\
                  h' a = Apprentice.set_hand (Apprentice.hand (h a) ++ hd) (h a)) /\
    (forall b, ~ In b (Round.apprentices r) -> h' b = h b) /\
    Round.deal_cards arrangement (h, r)
    = match rest with
      | [] =>
          Returns (h', Round.set_phase PREDICTING
                         (Round.set_trump_color None
                            (Round.set_trump_card None
                               (Round.set_deck (Deck.mk []) r)))) None
      | card :: rest' =>
          Returns (h', Round.set_phase PREDICTING
                         (Round.set_trump_color
                            (if CardType_eqb (Card.card_type card) REGULAR
                             then Some (Card.color card) else None)
                            (Round.set_trump_card (Some card)
                               (Round.set_deck (Deck.mk rest') r)))) (Some card)
      end.
Proof.
  intros Hph Hnd Hcpa Hfit.
  destruct (deal_to_players_returns (Deck.mk arrangement) (len (Round.apprentices r))
              (Round.cards_per_apprentice r))
    as [hands [rest [Hd [L1 [L2 L3]]]]];
    [unfold len; lia | exact Hcpa | exact Hfit |].
  cbn [Deck.cards] in L3.
  destruct (receive_all_returns (Round.set_deck (Deck.mk rest)
                                   (Round.set_deck (Deck.mk arrangement) r))
              hands (Round.apprentices r) O h Hnd)
    as [h' [Hr [R1 R2]]].
  { unfold len in L1. lia. }
  exists hands, rest, h'.
  split; [exact L1|]. split; [exact L2|]. split; [exact L3|].
  split; [exact R1|]. split; [exact R2|].
  unfold Round.deal_cards, bind, Round.self_. cbn [fst snd].
  rewrite Hph. change (RoundPhase_eqb DEALING DEALING) with true.
  cbv beta iota delta [negb].
  unfold Round.on_deck at 1, zoom, Deck.shuffle, put. round_fields.
  unfold Round.on_deck at 1, zoom. round_fields. rewrite Hd. round_fields.
  change (Z.of_nat 0) with 0 in Hr. rewrite Hr.
  destruct rest as [|card rest'].
  - unfold Round.update, modify. round_fields. reflexivity.
  - unfold Round.on_deck, zoom, Deck.draw_trump_card, bind, get, put, ret.
    round_fields. cbn [Deck.cards]. unfold Round.update, modify. round_fields.
    destruct (Card.card_type card); reflexivity.
Qed.

Lemma len_concat_fixed {A} (c : Z) (hands : list (list A)) :
  Forall (fun hd => len hd = c) hands ->
  len (List.concat hands) = len hands * c.
Proof.
  induction 1 as [|hd hands Hhd _ IH]; [reflexivity|].
  simpl List.concat. rewrite len_app, len_cons, IH, Hhd. lia.
Qed.

(** What is left over once the hands are dealt from the top. *)
Lemma leftover_determined {A} (c : Z) (hands : list (list A)) (rest l : list A) :
  Forall (fun hd => len hd = c) hands ->
  List.concat hands ++ rest = l ->
  rest = skipn (Z.to_nat (len hands * c)) l.
Proof.
  intros Hf <-. rewrite <- (len_concat_fixed c hands Hf).
  unfold len. rewrite Nat2Z.id.
  induction (List.concat hands) as [|x pre IH]; [reflexivity | exact IH].
Qed.

(** [Round.deal_cards] in the Dealing phase, with distinct seated
    apprentices and enough cards, splits the shuffled deck into one hand
    per seat and the cards left over: each apprentice receives
    [cards_per_apprentice] cards appended to its hand, in seating order
    from the top; the first card left over, if there is one, is drawn as
    the trump card and returned, and the deck keeps the cards after it;
    with no card left over there is no trump card and the deck is empty.
    The trump color is the color of a Regular trump card and undefined
    for a Wizard, a Fool or no trump card.  The round moves to
    Predicting and nothing else changes. *)
Theorem deal_cards_distributes (w : Round.world) (arrangement : list Card.t) :
  Round.phase (snd w) = DEALING ->
  NoDup (Round.apprentices (snd w)) ->
  0 <= Round.cards_per_apprentice (snd w) ->
  len (Round.apprentices (snd w)) * Round.cards_per_apprentice (snd w) <= len arrangement ->
  exists hands rest h' r',
    Round.deal_cards arrangement w = Returns (h', r') (hd_error rest) /\
    len hands = len (Round.apprentices (snd w)) /\
    Forall (fun hd => len hd = Round.cards_per_apprentice (snd w)) hands /\
    List.concat hands ++ rest = arrangement /\
    Round.trump_card r' = hd_error rest /\
    Deck.cards (Round.deck r') = tl rest /\
    (forall k a, nth_error (Round.apprentices (snd w)) k = Some a ->
       exists hd, nth_error hands k = Some hd /\
                  h' a = Apprentice.set_hand (Apprentice.hand (fst w a) ++ hd) (fst w a)) /\
    (forall b, ~ In b (Round.apprentices (snd w)) -> h' b = fst w b) /\
    Round.trump_color r'
    = match hd_error rest with
      | Some card => if CardType_eqb (Card.card_type card) REGULAR
                     then Some (Card.color card) else None
      | None => None
      end /\
    r' = Round.mk (Round.round_number (snd w)) (Round.apprentices (snd w))
                  (Round.dealer_index (snd w)) (Round.cards_per_apprentice (snd w))
                  (Deck.mk (tl rest)) (hd_error rest) (Round.trump_color r')
                  (Round.current_trick (snd w)) (Round.tricks_played (snd w))
                  (Round.current_apprentice_index (snd w)) PREDICTING.
Proof.
  intros Hph Hnd Hcpa Hfit. destruct w as [h r]. cbn [fst snd] in *.
  destruct (deal_cards_returns h r arrangement Hph Hnd Hcpa Hfit)
    as [hands [rest [h' [L1 [L2 [L3 [R1 [R2 Hd]]]]]]]].
  exists hands, rest, h'. destruct rest as [|card rest']; eexists;
    (split; [exact Hd|]); round_fields; cbn [hd_error tl];
    (split; [exact L1|]); (split; [exact L2|]); (split; [exact L3|]);
    (split; [reflexivity|]); (split; [reflexivity|]);
    (split; [exact R1|]); (split; [exact R2|]); split; reflexivity.
Qed.

Lemma deal_cards_distributes_witness :
  exists hands h' r',
    Round.deal_cards (Deck.cards Deck.init) (seated 2 0)
    = Returns (h', r') (Some (Regular HUMANS 7)) /\
    len hands = 3 /\
    Forall (fun hd => len hd = 2) hands /\
    List.concat hands ++ Regular HUMANS 7 :: Deck.cards (Round.deck r')
    = Deck.cards Deck.init /\
    Round.trump_card r' = Some (Regular HUMANS 7) /\
    Round.trump_color r' = Some HUMANS /\
    len (Deck.cards (Round.deck r')) = 53 /\
    Round.phase r' = PREDICTING.
Proof.
  destruct (deal_cards_distributes (seated 2 0) (Deck.cards Deck.init))
    as [hands [rest [h' [r' [H1 [H2 [H3 [H4 [H5 [H6 [_ [_ [H9 H10]]]]]]]]]]]]].
  - reflexivity.
  - apply three_seats_distinct.
  - cbn. lia.
  - vm_compute. discriminate.
  - pose proof (leftover_determined _ hands rest _ H3 H4) as Hrest.
    rewrite H2 in Hrest. vm_compute in Hrest. subst rest.
    cbn [hd_error tl] in H1, H5, H6, H9, H10.
    exists hands, h', r'.
    split; [exact H1|]. split; [exact H2|]. split; [exact H3|].
    split; [rewrite H6; exact H4|]. split; [exact H5|]. split; [exact H9|].
    split; [rewrite H6; reflexivity|]. rewrite H10. reflexivity.
Defined.

(** ** The round: phases only move forward *)

Lemma q_ret (p : RoundPhase) {A} (a : A) : quiet p (ret a).
Proof. intros w. simpl. auto. Qed.

Lemma q_raise (p : RoundPhase) {A} (e : exn) : quiet p (@raise Round.world A e).
Proof. intros w. simpl. auto. Qed.

Lemma q_lift (p : RoundPhase) {A} (r : result A) : quiet p (lift r).
Proof. intros w. unfold lift. destruct r; simpl; auto. Qed.

Lemma q_self (p : RoundPhase) : quiet p Round.self_.
Proof. intros w. simpl. auto. Qed.

Lemma q_heap (p : RoundPhase) : quiet p Round.the_heap.
Proof. intros w. simpl. auto. Qed.

Lemma q_bind (p : RoundPhase) {A B} (m : M Round.world A) (k : A -> M Round.world B) :
  quiet p m -> (forall x, quiet p (k x)) -> quiet p (bind m k).
Proof.
  intros Hm Hk w. unfold bind. specialize (Hm w).
  destruct (m w) as [s x|s e]; simpl in Hm |- *; [|exact Hm].
  destruct Hm as [M1 [M2 M3]]. destruct (Hk x s) as [K1 [K2 K3]].
  split; [congruence|]. split; [congruence|].
  destruct K3 as [K3|K3]; [|now right].
  rewrite K3. exact M3.
Qed.

Lemma q_update (p : RoundPhase) (f : Round.t -> Round.t) :
  (forall r, setup (f r) = setup r /\
             Round.tricks_played (f r) = Round.tricks_played r /\
             (Round.phase (f r) = Round.phase r \/ Round.phase (f r) = p)) ->
  quiet p (Round.update f).
Proof. intros Hf w. unfold Round.update, modify. simpl. apply Hf. Qed.

Lemma q_on_apprentice (p : RoundPhase) {A} (r : ref) (m : M Apprentice.t A) :
  quiet p (Round.on_apprentice r m).
Proof.
  intros w. unfold Round.on_apprentice, zoom, at_ref, zoom.
  destruct (m (fst w r)); simpl; auto.
Qed.

Lemma q_on_deck (p : RoundPhase) {A} (m : M Deck.t A) : quiet p (Round.on_deck m).
Proof.
  intros w. unfold Round.on_deck, zoom.
  destruct (m (Round.deck (snd w))); simpl; auto.
Qed.

Create HintDb quiet.

#[export] Hint Resolve q_ret q_raise q_lift q_self q_heap q_on_apprentice q_on_deck : quiet.

Ltac quiet_steps :=
  repeat first
    [ apply q_bind; [| intros ?]
    | apply q_update; intros ?; split; [reflexivity | split; [reflexivity | auto]]
    | solve [auto with quiet]
    | match goal with
      | |- quiet _ (if ?b then _ else _) => destruct b
      | |- quiet _ (match ?x with _ => _ end) => destruct x
      end ].

Lemma q_receive_all (p : RoundPhase) (hands : list (list Card.t)) (apprentices : list ref) :
  forall i, quiet p (Round.receive_all i apprentices hands).
Proof.
  induction apprentices as [|a rest IH]; intros i; simpl; quiet_steps.
Qed.

Lemma q_deal_cards (arrangement : list Card.t) :
  quiet PREDICTING (Round.deal_cards arrangement).
Proof.
  unfold Round.deal_cards. quiet_steps. apply q_receive_all.
Qed.

Lemma q_set_dealer_chosen_trump (color : CardColor) :
  quiet PREDICTING (Round.set_dealer_chosen_trump color).
Proof. unfold Round.set_dealer_chosen_trump. quiet_steps. Qed.

Lemma q_make_prediction (a : ref) (p : Z) : quiet PLAYING (Round.make_prediction a p).
Proof. unfold Round.make_prediction. quiet_steps. Qed.

Lemma q_score_each (apprentices : list ref) :
  forall round_points, quiet COMPLETE (Round.score_each apprentices round_points).
Proof.
  induction apprentices as [|a rest IH]; intros rp; simpl; quiet_steps.
Qed.

Lemma q_score_round : quiet COMPLETE Round.score_round.
Proof.
  unfold Round.score_round. quiet_steps. apply q_score_each.
Qed.

Lemma RoundPhase_eqb_true (p q : RoundPhase) : RoundPhase_eqb p q = true -> p = q.
Proof.
  unfold RoundPhase_eqb. destruct (RoundPhase_eq_dec p q); [auto | discriminate].
Qed.

(** Case analysis on the next call whose result decides how a method
    goes on. *)
Ltac exec_step :=
  match goal with
  | |- context [match ?x with _ => _ end] =>
      lazymatch x with
      | context [match _ with _ => _ end] => fail
      | _ => destruct x eqn:?
      end
  end.

Lemma play_card_progress (w : Round.world) (a : ref) (i : Z) :
  setup (snd (final_state (Round.play_card a i w))) = setup (snd w) /\
  ((Round.phase (snd (final_state (Round.play_card a i w))) = Round.phase (snd w) /\
    Round.tricks_played (snd (final_state (Round.play_card a i w)))
    = Round.tricks_played (snd w)) \/
   (Round.phase (snd w) = PLAYING /\
    exists t,
      Round.tricks_played (snd (final_state (Round.play_card a i w)))
      = Round.tricks_played (snd w) ++ [t] /\
      ((len (Round.tricks_played (snd w) ++ [t]) = Round.cards_per_apprentice (snd w) /\
        Round.phase (snd (final_state (Round.play_card a i w))) = SCORING) \/
       (len (Round.tricks_played (snd w) ++ [t]) <> Round.cards_per_apprentice (snd w) /\
        Round.phase (snd (final_state (Round.play_card a i w))) = PLAYING)))).
Proof.
  destruct w as [h r].
  unfold Round.play_card, bind, Round.self_, lift, Round.the_heap, Round.on_apprentice,
    Round.on_trick, Round.trick_only, Round._start_next_trick, Round.update, zoom, at_ref,
    zoom, modify, ret, raise, bind, Round.self_, lift.
  cbn [fst snd].
  repeat (exec_step; cbn [fst snd final_state]; round_fields);
    try (split; [reflexivity | left; split; reflexivity]);
    match goal with
    | H : negb (RoundPhase_eqb (Round.phase r) PLAYING) = false |- _ =>
        apply negb_false_iff, RoundPhase_eqb_true in H
    end;
    (split; [reflexivity|]); right; (split; [assumption|]);
    eexists; (split; [reflexivity|]);
    first [ left; split; [apply Z.eqb_eq; assumption | reflexivity]
          | right; split; [apply Z.eqb_neq; assumption | assumption] ].
Qed.

Lemma step_summary (w w' : Round.world) :
  step w w' ->
  setup (snd w') = setup (snd w) /\
  ((Round.phase (snd w') = Round.phase (snd w) /\
    Round.tricks_played (snd w') = Round.tricks_played (snd w)) \/
   (Round.phase (snd w) = DEALING /\ Round.phase (snd w') = PREDICTING /\
    Round.tricks_played (snd w') = Round.tricks_played (snd w)) \/
   (Round.phase (snd w) = PREDICTING /\ Round.phase (snd w') = PLAYING /\
    Round.tricks_played (snd w') = Round.tricks_played (snd w)) \/
   (Round.phase (snd w) = SCORING /\ Round.phase (snd w') = COMPLETE /\
    Round.tricks_played (snd w') = Round.tricks_played (snd w)) \/
   (Round.phase (snd w) = PLAYING /\
    exists t,
      Round.tricks_played (snd w') = Round.tricks_played (snd w) ++ [t] /\
      ((len (Round.tricks_played (snd w) ++ [t]) = Round.cards_per_apprentice (snd w) /\
        Round.phase (snd w') = SCORING) \/
       (len (Round.tricks_played (snd w) ++ [t]) <> Round.cards_per_apprentice (snd w) /\
        Round.phase (snd w') = PLAYING)))).
Proof.
  intros Hs. destruct Hs as [w arr | w c | w a p | w a i | w];
    destruct (wrong_phase_raises w) as [G1 [G2 [_ G4]]].
  - destruct (q_deal_cards arr w) as [Q1 [Q2 Q3]]. split; [exact Q1|].
    destruct (RoundPhase_eq_dec (Round.phase (snd w)) DEALING) as [E|E].
    + destruct Q3 as [Q3|Q3]; [left; now split | right; left; now repeat split].
    + rewrite (G1 E arr). left. now split.
  - destruct (q_set_dealer_chosen_trump c w) as [Q1 [Q2 Q3]]. split; [exact Q1|].
    destruct (RoundPhase_eq_dec (Round.phase (snd w)) PREDICTING) as [E|E].
    + left. split; [|exact Q2]. destruct Q3 as [Q3|Q3]; congruence.
    + rewrite (proj1 (G2 E) c). left. now split.
  - destruct (q_make_prediction a p w) as [Q1 [Q2 Q3]]. split; [exact Q1|].
    destruct (RoundPhase_eq_dec (Round.phase (snd w)) PREDICTING) as [E|E].
    + destruct Q3 as [Q3|Q3]; [left; now split | right; right; left; now repeat split].
    + rewrite (proj2 (G2 E) a p). left. now split.
  - destruct (play_card_progress w a i) as [P1 P2]. split; [exact P1|].
    destruct P2 as [P2|P2]; [now left | now do 4 right].
  - destruct (q_score_round w) as [Q1 [Q2 Q3]]. split; [exact Q1|].
    destruct (RoundPhase_eq_dec (Round.phase (snd w)) SCORING) as [E|E].
    + destruct Q3 as [Q3|Q3]; [left; now split | do 3 right; left; now repeat split].
    + rewrite (G4 E). left. now split.
Qed.

(** Whatever operation of the round is called, with whatever arguments
    and whether it returns or raises: the round number, the seating, the
    dealer and the cards per apprentice stay as constructed; the phase
    stays or moves to the next one in the order Dealing, Predicting,
    Playing, Scoring, Complete, never back; and the list of completed
    tricks stays or gains one trick at its end, which happens only in
    the Playing phase. *)
Theorem phases_move_forward (w w' : Round.world) :
  step w w' ->
  setup (snd w') = setup (snd w) /\
  (Round.phase (snd w') = Round.phase (snd w) \/
   phase_rank (Round.phase (snd w')) = phase_rank (Round.phase (snd w)) + 1) /\
  (Round.tricks_played (snd w') = Round.tricks_played (snd w) \/
   Round.phase (snd w) = PLAYING /\
   exists t, Round.tricks_played (snd w') = Round.tricks_played (snd w) ++ [t]).
Proof.
  intros Hs. destruct (step_summary w w' Hs) as [S1 S2]. split; [exact S1|].
  destruct S2 as [[P T] | [[P [P' T]] | [[P [P' T]] | [[P [P' T]] | [P [t [T P']]]]]]].
  - split; now left.
  - split; [right; now rewrite P, P' | now left].
  - split; [right; now rewrite P, P' | now left].
  - split; [right; now rewrite P, P' | now left].
  - split.
    + destruct P' as [[_ P'] | [_ P']]; [right; now rewrite P, P' | left; congruence].
    + right. split; [exact P|]. now exists t.
Qed.

Lemma phases_move_forward_witness :
  setup (snd (final_state (Round.play_card 1%nat 0 wizard_led))) = setup (snd wizard_led) /\
  (Round.phase (snd (final_state (Round.play_card 1%nat 0 wizard_led)))
   = Round.phase (snd wizard_led) \/
   phase_rank (Round.phase (snd (final_state (Round.play_card 1%nat 0 wizard_led))))
   = phase_rank (Round.phase (snd wizard_led)) + 1) /\
  (Round.tricks_played (snd (final_state (Round.play_card 1%nat 0 wizard_led)))
   = Round.tricks_played (snd wizard_led) \/
   Round.phase (snd wizard_led) = PLAYING /\
   exists t, Round.tricks_played (snd (final_state (Round.play_card 1%nat 0 wizard_led)))
             = Round.tricks_played (snd wizard_led) ++ [t]).
Proof.
  apply (phases_move_forward wizard_led). apply step_play.
Defined.

(** ** The round: the completed tricks never exceed the cards dealt *)

Lemma step_keeps_bound (w w' : Round.world) :
  step w w' ->
  1 <= Round.cards_per_apprentice (snd w) ->
  tricks_in_step (snd w) ->
  tricks_in_step (snd w').
Proof.
  intros Hs Hc Hb. destruct (step_summary w w' Hs) as [S1 S2].
  assert (Hcpa : Round.cards_per_apprentice (snd w') = Round.cards_per_apprentice (snd w))
    by (unfold setup in S1; congruence).
  unfold tricks_in_step in *.
  destruct S2 as [[P T] | [[P [P' T]] | [[P [P' T]] | [[P [P' T]] | [P [t [T P']]]]]]].
  - now rewrite P, T, Hcpa.
  - rewrite P in Hb. now rewrite P', T.
  - rewrite P in Hb. rewrite P', T, Hb, Hcpa. unfold len. simpl. lia.
  - rewrite P in Hb. now rewrite P', T, Hcpa.
  - rewrite P in Hb. rewrite T, Hcpa.
    assert (Hl : len (Round.tricks_played (snd w) ++ [t])
                 = len (Round.tricks_played (snd w)) + 1)
      by (rewrite len_app; unfold len at 2; simpl List.length; lia).
    destruct P' as [[L P'] | [L P']]; rewrite P'; lia.
Qed.

Lemma reachable_tricks_in_step (w : Round.world) :
  Round.reachable w ->
  1 <= Round.round_number (snd w) ->
  Round.cards_per_apprentice (snd w) = Round.round_number (snd w) /\
  tricks_in_step (snd w).
Proof.
  assert (Hstep : forall w w', step w w' ->
            (1 <= Round.round_number (snd w) ->
             Round.cards_per_apprentice (snd w) = Round.round_number (snd w) /\
             tricks_in_step (snd w)) ->
            1 <= Round.round_number (snd w') ->
            Round.cards_per_apprentice (snd w') = Round.round_number (snd w') /\
            tricks_in_step (snd w')).
  { intros v v' Hs IH Hr.
    destruct (step_summary v v' Hs) as [S1 _]. unfold setup in S1.
    assert (Hrn : Round.round_number (snd v') = Round.round_number (snd v)) by congruence.
    assert (Hcp : Round.cards_per_apprentice (snd v') = Round.cards_per_apprentice (snd v))
      by congruence.
    destruct IH as [I1 I2]; [lia|].
    split; [congruence|].
    apply (step_keeps_bound v v' Hs); [lia | exact I2]. }
  induction 1 as [h n apprentices dealer r _ Hinit | w arr _ IH _ | w c _ IH
                 | w a p _ IH | w a i _ IH | w _ IH].
  - intros _. unfold Round.init in Hinit.
    destruct (py_mod _ _); [|discriminate]. inversion Hinit. subst r.
    split; reflexivity.
  - apply (Hstep w _ (step_deal w arr) IH).
  - apply (Hstep w _ (step_trump w c) IH).
  - apply (Hstep w _ (step_predict w a p) IH).
  - apply (Hstep w _ (step_play w a i) IH).
  - apply (Hstep w _ (step_score w) IH).
Qed.

(** In every state a round of number at least 1 can reach, the number
    of completed tricks is at most [cards_per_apprentice], which is the
    round number; it equals it exactly in the Scoring and Complete
    phases, is smaller throughout Playing, and is zero before. *)
Theorem completed_tricks_bounded (w : Round.world) :
  Round.reachable w ->
  1 <= Round.round_number (snd w) ->
  Round.cards_per_apprentice (snd w) = Round.round_number (snd w) /\
  len (Round.tricks_played (snd w)) <= Round.cards_per_apprentice (snd w) /\
  (len (Round.tricks_played (snd w)) = Round.cards_per_apprentice (snd w) <->
   Round.phase (snd w) = SCORING \/ Round.phase (snd w) = COMPLETE) /\
  (Round.phase (snd w) = DEALING \/ Round.phase (snd w) = PREDICTING ->
   Round.tricks_played (snd w) = []).
Proof.
  intros Hr Hn. destruct (reachable_tricks_in_step w Hr Hn) as [H1 H2].
  split; [exact H1|]. unfold tricks_in_step in H2.
  destruct (Round.phase (snd w)) eqn:E.
  - rewrite H2. unfold len. simpl. split; [lia|]. split; [|auto].
    split; [lia | intros [H|H]; discriminate H].
  - rewrite H2. unfold len. simpl. split; [lia|]. split; [|auto].
    split; [lia | intros [H|H]; discriminate H].
  - split; [lia|]. split; [|intros [H|H]; discriminate H].
    split; [lia | intros [H|H]; discriminate H].
  - split; [lia|]. split; [|intros [H|H]; discriminate H].
    split; [auto | intros _; exact H2].
  - split; [lia|]. split; [|intros [H|H]; discriminate H].
    split; [auto | intros _; exact H2].
Qed.

Lemma round_one_played_reachable : Round.reachable round_one_played.
Proof.
  unfold round_one_played.
  do 3 apply Round.reach_play. do 2 apply Round.reach_predict.
  apply predicted_once_reachable.
Qed.

Lemma round_one_number : 1 <= Round.round_number (snd round_one_played).
Proof. vm_compute. discriminate. Qed.

Lemma completed_tricks_bounded_witness :
  Round.cards_per_apprentice (snd round_one_played)
  = Round.round_number (snd round_one_played) /\
  len (Round.tricks_played (snd round_one_played))
  <= Round.cards_per_apprentice (snd round_one_played) /\
  (len (Round.tricks_played (snd round_one_played))
   = Round.cards_per_apprentice (snd round_one_played) <->
   Round.phase (snd round_one_played) = SCORING \/
   Round.phase (snd round_one_played) = COMPLETE) /\
  (Round.phase (snd round_one_played) = DEALING \/
   Round.phase (snd round_one_played) = PREDICTING ->
   Round.tricks_played (snd round_one_played) = []).
Proof.
  apply (completed_tricks_bounded round_one_played round_one_played_reachable
           round_one_number).
Defined.

(** ** The round: it is always somebody's turn *)

Lemma k_ret {X A} (f : Round.t -> X) (a : A) : keeps f (ret a).
Proof. intros w. reflexivity. Qed.

Lemma k_raise {X A} (f : Round.t -> X) (e : exn) : keeps f (@raise Round.world A e).
Proof. intros w. reflexivity. Qed.

Lemma k_lift {X A} (f : Round.t -> X) (r : result A) : keeps f (lift r).
Proof. intros w. unfold lift. destruct r; reflexivity. Qed.

Lemma k_self {X} (f : Round.t -> X) : keeps f Round.self_.
Proof. intros w. reflexivity. Qed.

Lemma k_heap {X} (f : Round.t -> X) : keeps f Round.the_heap.
Proof. intros w. reflexivity. Qed.

Lemma k_bind {X A B} (f : Round.t -> X) (m : M Round.world A) (k : A -> M Round.world B) :
  keeps f m -> (forall x, keeps f (k x)) -> keeps f (bind m k).
Proof.
  intros Hm Hk w. unfold bind. specialize (Hm w).
  destruct (m w) as [s x|s e]; simpl in Hm |- *; [|exact Hm].
  now rewrite Hk.
Qed.

Lemma k_update {X} (f : Round.t -> X) (g : Round.t -> Round.t) :
  (forall r, f (g r) = f r) -> keeps f (Round.update g).
Proof. intros Hg w. unfold Round.update, modify. simpl. apply Hg. Qed.

Lemma k_on_apprentice {X A} (f : Round.t -> X) (r : ref) (m : M Apprentice.t A) :
  keeps f (Round.on_apprentice r m).
Proof.
  intros w. unfold Round.on_apprentice, zoom, at_ref, zoom.
  destruct (m (fst w r)); reflexivity.
Qed.

Lemma k_on_deck {X A} (f : Round.t -> X) (m : M Deck.t A) :
  (forall d r, f (Round.set_deck d r) = f r) -> keeps f (Round.on_deck m).
Proof.
  intros Hf w. unfold Round.on_deck, zoom.
  destruct (m (Round.deck (snd w))); simpl; apply Hf.
Qed.

Ltac keeps_steps :=
  repeat first
    [ apply k_bind; [| intros ?]
    | apply k_update; intros ?; reflexivity
    | apply k_on_deck; intros ? ?; reflexivity
    | apply k_ret | apply k_raise | apply k_lift | apply k_self | apply k_heap
    | apply k_on_apprentice
    | match goal with
      | |- keeps _ (if ?b then _ else _) => destruct b
      | |- keeps _ (match ?x with _ => _ end) => destruct x
      | H : forall _, keeps _ _ |- _ => apply H
      end ].

Lemma k_receive_all_turn (hands : list (list Card.t)) (apprentices : list ref) :
  forall i, keeps turn (Round.receive_all i apprentices hands).
Proof.
  induction apprentices as [|a rest IH]; intros i; simpl; keeps_steps.
Qed.

Lemma k_deal_cards_turn (arrangement : list Card.t) :
  keeps turn (Round.deal_cards arrangement).
Proof.
  unfold Round.deal_cards. keeps_steps. apply k_receive_all_turn.
Qed.

Lemma k_set_dealer_chosen_trump_turn (color : CardColor) :
  keeps turn (Round.set_dealer_chosen_trump color).
Proof. unfold Round.set_dealer_chosen_trump. keeps_steps. Qed.

Lemma k_score_each_turn (apprentices : list ref) :
  forall round_points, keeps turn (Round.score_each apprentices round_points).
Proof.
  induction apprentices as [|a rest IH]; intros rp; simpl; keeps_steps.
Qed.

Lemma k_score_round_turn : keeps turn Round.score_round.
Proof.
  unfold Round.score_round. keeps_steps. apply k_score_each_turn.
Qed.

Lemma py_mod_in_range (a b x : Z) : 0 <= b -> py_mod a b = Ok x -> 0 <= x < b.
Proof.
  unfold py_mod. intros Hb. destruct (Z.eqb_spec b 0) as [E|E]; [discriminate|].
  intros Hx. inversion Hx. apply Z.mod_pos_bound. lia.
Qed.

Lemma index_from_in_range (l : list ref) (x : ref) :
  forall i j, index_from i l x = Ok j -> i <= j < i + len l.
Proof.
  induction l as [|y l IH]; intros i j; simpl; [discriminate|].
  rewrite len_cons. pose proof (len_nonneg l) as Hl.
  destruct (ref_eqb y x).
  - intros Hj. inversion Hj. lia.
  - intros Hj. apply IH in Hj. lia.
Qed.
Lemma py_mod_err (a b : Z) (e : exn) : py_mod a b = Err e -> b = 0.
Proof.
  unfold py_mod. destruct (Z.eqb_spec b 0); [auto | discriminate].
Qed.

Ltac turn_index :=
  first
    [ assumption
    | eapply py_mod_in_range; [apply len_nonneg | eassumption]
    | match goal with
      | H : py_index ?l _ = Ok ?j |- 0 <= ?j < len ?l =>
          apply index_from_in_range in H; lia
      end ].

Ltac turn_absurd :=
  match goal with
  | H : py_mod _ (len ?l) = Err _, Hi : 0 <= _ < len ?l |- _ =>
      apply py_mod_err in H; lia
  | H : py_mod _ (len ?l) = Ok ?x, H' : py_getitem ?l ?x = Err _ |- _ =>
      apply py_mod_in_range in H; [|apply len_nonneg];
      destruct (py_getitem_in_range l x H) as [? Hok]; congruence
  end.

Ltac turn_finish :=
  first
    [ turn_absurd
    | unfold turn_ok; round_fields; split;
      [ turn_index
      | first [ intros _; discriminate
              | intros Hp; discriminate Hp
              | intros Hp; congruence
              | intros Hp; exfalso; match goal with H : _ -> _ <> _ |- _ => now apply (H Hp) end
              | assumption ] ] ].

Lemma make_prediction_turn_ok (w : Round.world) (a : ref) (p : Z) :
  turn_ok (snd w) ->
  turn_ok (snd (final_state (Round.make_prediction a p w))).
Proof.
  destruct w as [h r]. intros [Hi Ht].
  unfold Round.make_prediction, Round._start_first_trick, bind, Round.self_, lift,
    Round.the_heap, Round.on_apprentice, Round.update, zoom, at_ref, zoom, modify, ret,
    raise.
  cbn [fst snd] in *.
  repeat (exec_step; cbn [fst snd final_state]; round_fields); turn_finish.
Qed.

Lemma play_card_turn_ok (w : Round.world) (a : ref) (i : Z) :
  turn_ok (snd w) ->
  turn_ok (snd (final_state (Round.play_card a i w))).
Proof.
  destruct w as [h r]. intros [Hi Ht].
  unfold Round.play_card, bind, Round.self_, lift, Round.the_heap, Round.on_apprentice,
    Round.on_trick, Round.trick_only, Round._start_next_trick, Round.update, zoom, at_ref,
    zoom, modify, ret, raise, bind, Round.self_, lift.
  cbn [fst snd] in *.
  repeat (exec_step; cbn [fst snd final_state]; round_fields); turn_finish.
Qed.

Lemma quiet_turn_ok (p : RoundPhase) {A} (m : M Round.world A) (w : Round.world) :
  p <> PLAYING ->
  quiet p m -> keeps turn m ->
  turn_ok (snd w) -> turn_ok (snd (final_state (m w))).
Proof.
  intros Hp Hq Hk [Hi Ht]. destruct (Hq w) as [Q1 [_ Q3]]. specialize (Hk w).
  unfold setup in Q1. unfold turn in Hk. inversion Q1. inversion Hk.
  unfold turn_ok.
  replace (Round.apprentices (snd (final_state (m w)))) with (Round.apprentices (snd w)).
  replace (Round.current_apprentice_index (snd (final_state (m w))))
    with (Round.current_apprentice_index (snd w)).
  replace (Round.current_trick (snd (final_state (m w))))
    with (Round.current_trick (snd w)).
  split; [exact Hi|]. intros Hph. apply Ht.
  destruct Q3 as [Q3|Q3]; congruence.
Qed.

Lemma step_turn_ok (w w' : Round.world) :
  step w w' -> turn_ok (snd w) -> turn_ok (snd w').
Proof.
  intros Hs. destruct Hs as [w arr | w c | w a p | w a i | w].
  - apply (quiet_turn_ok PREDICTING); [discriminate | apply q_deal_cards
                                      | apply k_deal_cards_turn].
  - apply (quiet_turn_ok PREDICTING); [discriminate | apply q_set_dealer_chosen_trump
                                      | apply k_set_dealer_chosen_trump_turn].
  - apply make_prediction_turn_ok.
  - apply play_card_turn_ok.
  - apply (quiet_turn_ok COMPLETE); [discriminate | apply q_score_round
                                    | apply k_score_round_turn].
Qed.

Lemma reachable_turn_ok (w : Round.world) : Round.reachable w -> turn_ok (snd w).
Proof.
  induction 1 as [h n apprentices dealer r _ Hinit | w arr _ IH _ | w c _ IH
                 | w a p _ IH | w a i _ IH | w _ IH].
  - unfold Round.init in Hinit.
    destruct (py_mod (dealer + 1) (len apprentices)) as [first|] eqn:E; [|discriminate].
    inversion Hinit. subst r. unfold turn_ok. simpl. split.
    + apply (py_mod_in_range _ _ _ (len_nonneg apprentices) E).
    + discriminate.
  - apply (step_turn_ok w _ (step_deal w arr) IH).
  - apply (step_turn_ok w _ (step_trump w c) IH).
  - apply (step_turn_ok w _ (step_predict w a p) IH).
  - apply (step_turn_ok w _ (step_play w a i) IH).
  - apply (step_turn_ok w _ (step_score w) IH).
Qed.

(** In every state a round can reach, the turn index designates a
    seated apprentice, so looking up whose turn it is never fails; and
    throughout the Playing phase the round has a current trick, so
    [Round.play_card] never finds "no active trick". *)
Theorem always_somebodys_turn (w : Round.world) :
  Round.reachable w ->
  (exists a, py_getitem (Round.apprentices (snd w))
                        (Round.current_apprentice_index (snd w)) = Ok a /\
             In a (Round.apprentices (snd w))) /\
  (Round.phase (snd w) = PLAYING -> exists trick, Round.current_trick (snd w) = Some trick).
Proof.
  intros Hr. destruct (reachable_turn_ok w Hr) as [Hi Ht]. split.
  - destruct (py_getitem_in_range _ _ Hi) as [a Ha].
    exists a. split; [exact Ha|]. exact (proj2 (seated_nonempty _ _ _ Ha)).
  - intros Hp. specialize (Ht Hp).
    destruct (Round.current_trick (snd w)) as [trick|]; [now exists trick | contradiction].
Qed.

Lemma always_somebodys_turn_witness :
  (exists a, py_getitem (Round.apprentices (snd wizard_led))
                        (Round.current_apprentice_index (snd wizard_led)) = Ok a /\
             In a (Round.apprentices (snd wizard_led))) /\
  (Round.phase (snd wizard_led) = PLAYING ->
   exists trick, Round.current_trick (snd wizard_led) = Some trick).
Proof.
  apply (always_somebodys_turn wizard_led wizard_led_reachable).
Defined.

(** ** The round: where the cards are *)

Lemma rotate_perm {A} (k : nat) (l : list A) : Permutation (rotate k l) l.
Proof.
  unfold rotate. rewrite Permutation_app_comm. now rewrite firstn_skipn.
Qed.

Lemma rotate_step {A} (l : list A) :
  forall k a,
    nth_error l k = Some a ->
    skipn k l = a :: skipn (S k) l /\ firstn (S k) l = firstn k l ++ [a].
Proof.
  induction l as [|y l IH]; intros [|k] a H; simpl in H; try discriminate.
  - inversion H. split; reflexivity.
  - destruct (IH k a H) as [H1 H2]. split; [exact H1|].
    change (y :: firstn (S k) l = y :: (firstn k l ++ [a])). now rewrite H2.
Qed.

Lemma py_getitem_inv {A} (l : list A) (i : Z) (x : A) :
  0 <= i -> py_getitem l i = Ok x -> nth_error l (Z.to_nat i) = Some x.
Proof.
  intros Hi H. unfold py_getitem in H. cbv zeta in H.
  replace (i <? 0) with false in H by (symmetry; apply Z.ltb_ge; lia).
  destruct ((i <? 0) || (len l <=? i)); [discriminate|].
  destruct (nth_error l (Z.to_nat i)); [now inversion H | discriminate].
Qed.

Lemma rotate_head {A} (l : list A) (i : Z) (a : A) :
  0 <= i -> py_getitem l i = Ok a ->
  rotate (Z.to_nat i) l = a :: (skipn (S (Z.to_nat i)) l ++ firstn (Z.to_nat i) l).
Proof.
  intros Hi H. apply py_getitem_inv in H; [|exact Hi].
  unfold rotate. now rewrite (proj1 (rotate_step l _ _ H)).
Qed.

Lemma rotate_next {A} (l : list A) (i : Z) (a : A) (rest : list A) :
  0 <= i < len l ->
  rotate (Z.to_nat i) l = a :: rest ->
  rotate (Z.to_nat ((i + 1) mod len l)) l = rest ++ [a].
Proof.
  intros Hi H.
  destruct (py_getitem_in_range l i Hi) as [x Hx].
  pose proof (py_getitem_inv l i x (proj1 Hi) Hx) as Hn.
  rewrite (rotate_head l i x (proj1 Hi) Hx) in H.
  destruct (rotate_step l _ _ Hn) as [_ Hf].
  remember (skipn (S (Z.to_nat i)) l) as after eqn:Hafter.
  injection H as Ha Hrest. subst a rest.
  rewrite <- app_assoc, <- Hf.
  destruct (Z.eq_dec (i + 1) (len l)) as [E|E].
  - rewrite E, Z.mod_same by lia. unfold rotate.
    assert (Hk : S (Z.to_nat i) = List.length l) by (unfold len in E; lia).
    rewrite Hafter, Hk, skipn_all, firstn_all.
    change (Z.to_nat 0) with 0%nat. simpl. now rewrite app_nil_r.
  - rewrite Z.mod_small by lia.
    replace (Z.to_nat (i + 1)) with (S (Z.to_nat i)) by lia.
    unfold rotate. now rewrite Hafter.
Qed.

Lemma len_remove_nth {A} (l : list A) (n : nat) (x : A) :
  nth_error l n = Some x -> len (remove_nth n l) = len l - 1.
Proof.
  intros H. destruct (remove_nth_reinsert l n x H) as [_ Hl]. unfold len. lia.
Qed.

Lemma Forall_remove_nth {A} (P : A -> Prop) (l : list A) :
  forall n, Forall P l -> Forall P (remove_nth n l).
Proof.
  induction l as [|y l IH]; intros [|n] H; simpl; try exact H.
  - now inversion H.
  - inversion H; subst. constructor; [assumption | now apply IH].
Qed.

Lemma len_zero_nil {A} (l : list A) : len l = 0 -> l = [].
Proof. destruct l; [reflexivity | rewrite len_cons; pose proof (len_nonneg l); lia]. Qed.

Lemma dict_mem_true {V} (d : list (ref * V)) (k : ref) :
  dict_mem d k = true <-> In k (map fst d).
Proof.
  destruct (dict_mem d k) eqn:E.
  - split; [intros _|reflexivity].
    destruct (in_dec Nat.eq_dec k (map fst d)) as [H|H]; [exact H|].
    apply dict_mem_false in H. congruence.
  - split; [discriminate|]. intros H. apply dict_mem_false in E. contradiction.
Qed.

Lemma playable_nonempty (a : Apprentice.t) (led : option CardColor) :
  Apprentice.hand a <> [] -> exists i, In i (Apprentice.get_playable_cards a led).
Proof.
  intros Hne.
  assert (Hall : exists i, In i (range (len (Apprentice.hand a)))).
  { exists 0. apply In_range. destruct (Apprentice.hand a); [contradiction|].
    rewrite len_cons. pose proof (len_nonneg l). lia. }
  unfold Apprentice.get_playable_cards. destruct led as [lc|]; [|exact Hall].
  destruct (Apprentice.can_follow_color a lc) eqn:E; [|exact Hall].
  simpl negb. cbv iota.
  apply can_follow_color_iff in E. destruct E as [c [Hc Hcol]].
  apply In_nth_error in Hc. destruct Hc as [n Hn].
  exists (Z.of_nat n). apply playable_from_In. exists c.
  split; [lia|]. split; [|now left].
  now replace (Z.to_nat (Z.of_nat n - 0)) with n by lia.
Qed.

Lemma play_card_out_of_turn (w : Round.world) (a b : ref) (i : Z) :
  Round.phase (snd w) = PLAYING ->
  py_getitem (Round.apprentices (snd w)) (Round.current_apprentice_index (snd w)) = Ok b ->
  a <> b ->
  Round.play_card a i w = Raises w ValueError.
Proof.
  intros Hph Hb Hne. unfold Round.play_card, bind, Round.self_, lift.
  rewrite Hph, RoundPhase_eqb_refl, Hb.
  replace (ref_eqb a b) with false; [reflexivity|].
  symmetry. apply Nat.eqb_neq. exact Hne.
Qed.

Lemma make_prediction_out_of_range (w : Round.world) (a : ref) (p : Z) :
  Round.phase (snd w) = PREDICTING ->
  p < 0 \/ Round.cards_per_apprentice (snd w) < p ->
  Round.make_prediction a p w = Returns w false.
Proof.
  intros Hph Hp. unfold Round.make_prediction, bind, Round.self_.
  rewrite Hph, RoundPhase_eqb_refl.
  replace ((p <? 0) || (Round.cards_per_apprentice (snd w) <? p)) with true;
    [reflexivity|].
  symmetry. apply orb_true_iff. destruct Hp; [left | right]; apply Z.ltb_lt; lia.
Qed.

Lemma hand_after_win (h : heap) (win b : ref) (n : Z) :
  Apprentice.hand (heap_set win (Apprentice.set_tricks_won n (h win)) h b)
  = Apprentice.hand (h b).
Proof.
  destruct (Nat.eq_dec b win) as [->|Hne].
  - now rewrite heap_set_same.
  - now rewrite heap_set_other.
Qed.

Lemma dict_mem_snoc {V} (d : list (ref * V)) (a b : ref) (v : V) :
  dict_mem (d ++ [(a, v)]) b = dict_mem d b || ref_eqb b a.
Proof.
  destruct (dict_mem d b) eqn:E1; destruct (ref_eqb b a) eqn:E2; simpl.
  - apply dict_mem_true. rewrite map_app. apply in_or_app. left. now apply dict_mem_true.
  - apply dict_mem_true. rewrite map_app. apply in_or_app. left. now apply dict_mem_true.
  - apply dict_mem_true. rewrite map_app. apply in_or_app. right.
    apply Nat.eqb_eq in E2. now left.
  - apply dict_mem_false. rewrite map_app. intros H. apply in_app_or in H.
    apply dict_mem_false in E1. apply Nat.eqb_neq in E2.
    destruct H as [H | [H | []]]; [contradiction | simpl in H; congruence].
Qed.

(** What the Playing invariant gives about the apprentice to act. *)
Lemma table_turn (r : Round.t) (trick : Trick.t) (waiting : list ref) (a : ref) :
  NoDup (Round.apprentices r) ->
  0 <= Round.current_apprentice_index r < len (Round.apprentices r) ->
  py_getitem (Round.apprentices r) (Round.current_apprentice_index r) = Ok a ->
  waiting <> [] ->
  waiting ++ map fst (Trick.cards_played trick) = from_turn r ->
  exists rest,
    waiting = a :: rest /\
    ~ In a (map fst (Trick.cards_played trick)) /\
    len rest + len (Trick.cards_played trick) + 1 = len (Round.apprentices r) /\
    (forall b, In b (Round.apprentices r) ->
               b = a \/ In b rest \/ In b (map fst (Trick.cards_played trick))) /\
    (forall b, In b (map fst (Trick.cards_played trick)) -> In b (Round.apprentices r)).
Proof.
  intros Hnd Hidx Ha Hne Hrot.
  pose proof (rotate_perm (Z.to_nat (Round.current_apprentice_index r))
                          (Round.apprentices r)) as Hperm.
  fold (from_turn r) in Hperm. rewrite <- Hrot in Hperm.
  pose proof (rotate_head _ _ _ (proj1 Hidx) Ha) as Hhead.
  fold (from_turn r) in Hhead. rewrite <- Hrot in Hhead.
  destruct waiting as [|a' rest]; [contradiction|].
  simpl in Hhead. injection Hhead as -> _.
  exists rest. split; [reflexivity|].
  assert (Hnd' : NoDup ((a :: rest) ++ map fst (Trick.cards_played trick)))
    by (eapply Permutation_NoDup; [apply Permutation_sym; exact Hperm | exact Hnd]).
  simpl in Hnd'. inversion Hnd' as [|? ? Hnotin _]; subst.
  split; [intros H; apply Hnotin, in_or_app; now right|].
  split.
  { apply Permutation_length in Hperm. simpl in Hperm.
    rewrite length_app, length_map in Hperm. unfold len. lia. }
  split.
  { intros b Hb. apply (Permutation_in _ (Permutation_sym Hperm)) in Hb.
    simpl in Hb. destruct Hb as [Hb|Hb]; [now left|].
    apply in_app_or in Hb. tauto. }
  intros b Hb. apply (Permutation_in _ Hperm). simpl. right. apply in_or_app. now right.
Qed.

Lemma from_turn_nonempty (r : Round.t) : Round.apprentices r <> [] -> from_turn r <> [].
Proof.
  intros Hne Hnil.
  pose proof (rotate_perm (Z.to_nat (Round.current_apprentice_index r))
                          (Round.apprentices r)) as Hp.
  fold (from_turn r) in Hp. rewrite Hnil in Hp. apply Permutation_nil in Hp.
  contradiction.
Qed.

Lemma table_ok_play (w : Round.world) (a : ref) (i : Z) :
  NoDup (Round.apprentices (snd w)) ->
  turn_ok (snd w) ->
  table_ok w ->
  table_ok (final_state (Round.play_card a i w)).
Proof.
  intros Hnd [Hidx _] Hok.
  destruct (RoundPhase_eq_dec (Round.phase (snd w)) PLAYING) as [Hph|Hph];
    [|destruct (wrong_phase_raises w) as [_ [_ [G _]]]; now rewrite (G Hph a i)].
  unfold table_ok in Hok. rewrite Hph in Hok.
  destruct Hok as [trick [waiting [Htrick [Hc [Hwne [Hrot [Hwf Hhands]]]]]]].
  destruct (py_getitem_in_range _ _ Hidx) as [b Hb].
  destruct (Nat.eq_dec a b) as [->|Hab];
    [|rewrite (play_card_out_of_turn w a b i Hph Hb Hab); unfold table_ok; simpl final_state;
      rewrite Hph; now exists trick, waiting].
  destruct (mem i (Apprentice.get_playable_cards (fst w b) (Trick.leading_color trick)))
    eqn:Hmem;
    [|rewrite (play_card_rejected w b i trick Hph Hb Htrick Hmem); unfold table_ok;
      simpl final_state; rewrite Hph; now exists trick, waiting].
  destruct (table_turn _ _ _ _ Hnd Hidx Hb Hwne Hrot) as [rest [-> [Hfresh [Hlen [Hall Hsub]]]]].
  destruct (seated_nonempty _ _ _ Hb) as [_ Hseat].
  destruct (Hhands b Hseat) as [Hbwf Hblen].
  assert (Hbnot : dict_mem (Trick.cards_played trick) b = false)
    by now apply dict_mem_false.
  unfold cards_left, Round.get_tricks_remaining in Hblen. rewrite Hbnot in Hblen.
  destruct (Z.eq_dec (len (Trick.cards_played trick) + 1) (len (Round.apprentices (snd w))))
    as [Hlast|Hmid].
  - destruct (play_card_last_unfolded w b i trick Hph Hb Htrick Hc Hfresh Hmem Hlast Hwf
                                      Hbwf Hsub)
      as [card [l [done [win [j [Hn [D1 [D2 [Hin [Hj1 [Hj2 Hplay]]]]]]]]]]].
    rewrite Hplay. cbv zeta. cbn [final_state].
    assert (Hrest : rest = []) by (apply len_zero_nil; lia). subst rest.
    assert (Hothers : forall c, In c (Round.apprentices (snd w)) -> c <> b ->
              dict_mem (Trick.cards_played trick) c = true).
    { intros c Hc1 Hc2. apply dict_mem_true.
      destruct (Hall c Hc1) as [E | [[] | E]]; [contradiction | exact E]. }
    destruct (Z.eqb_spec (len (Round.tricks_played (snd w) ++ [done]))
                         (Round.cards_per_apprentice (snd w))) as [He|He];
      rewrite len_app in He; unfold len in He at 2; simpl List.length in He.
    + unfold table_ok. round_fields.
      intros c Hc1. round_fields. cbn [fst].
      rewrite hand_after_win. apply len_zero_nil.
      destruct (Nat.eq_dec c b) as [->|Hcb].
      * rewrite heap_set_same. cbn [Apprentice.hand Apprentice.set_hand].
        rewrite (len_remove_nth _ _ _ Hn). lia.
      * rewrite heap_set_other by exact Hcb.
        destruct (Hhands c Hc1) as [_ Hclen]. unfold cards_left, Round.get_tricks_remaining in Hclen.
        rewrite (Hothers c Hc1 Hcb) in Hclen. lia.
    + match goal with
      | |- table_ok (_, ?r) =>
          assert (Hne : from_turn r <> [])
            by (apply from_turn_nonempty; round_fields; intros E; rewrite E in Hseat;
                exact Hseat)
      end.
      unfold table_ok. round_fields. rewrite Hph.
      eexists. eexists. split; [reflexivity|]. split; [reflexivity|].
      split; [exact Hne|].
      split; [simpl; now rewrite app_nil_r|].
      split; [constructor|].
      intros c Hc1. round_fields. cbn [fst]. rewrite hand_after_win.
      unfold cards_left, Round.get_tricks_remaining. round_fields. cbn [Trick.cards_played Trick.init dict_mem].
      rewrite len_app. unfold len at 3. simpl List.length.
      destruct (Nat.eq_dec c b) as [->|Hcb].
      * rewrite heap_set_same. cbn [Apprentice.hand Apprentice.set_hand].
        split; [now apply Forall_remove_nth|].
        rewrite (len_remove_nth _ _ _ Hn). simpl. lia.
      * rewrite heap_set_other by exact Hcb.
        destruct (Hhands c Hc1) as [Hcwf Hclen]. unfold cards_left, Round.get_tricks_remaining in Hclen.
        rewrite (Hothers c Hc1 Hcb) in Hclen. split; [exact Hcwf|]. simpl. lia.
  - destruct (play_card_mid_unfolded w b i trick Hph Hb Htrick Hc Hfresh Hmem Hmid)
      as [card [l [Hn [_ Hplay]]]].
    rewrite Hplay. cbn [final_state]. unfold table_ok. round_fields. rewrite Hph.
    eexists. exists rest. split; [reflexivity|]. split; [reflexivity|].
    cbn [Trick.cards_played].
    split; [intros ->; unfold len in Hlen at 1; simpl in Hlen; lia|].
    split.
    { unfold from_turn. round_fields. rewrite map_app. simpl map.
      rewrite app_assoc. symmetry. apply rotate_next; [exact Hidx|].
      fold (from_turn (snd w)). now rewrite <- Hrot. }
    split.
    { rewrite map_app. apply Forall_app. split; [exact Hwf|].
      simpl. constructor; [|constructor].
      rewrite Forall_forall in Hbwf. apply Hbwf. eapply nth_error_In. exact Hn. }
    intros c Hc1. cbn [fst]. unfold cards_left, Round.get_tricks_remaining. round_fields.
    cbn [Trick.cards_played]. rewrite dict_mem_snoc.
    destruct (Nat.eq_dec c b) as [->|Hcb].
    + rewrite heap_set_same. cbn [Apprentice.hand Apprentice.set_hand].
      split; [now apply Forall_remove_nth|].
      rewrite (len_remove_nth _ _ _ Hn). unfold ref_eqb. rewrite Nat.eqb_refl, Hbnot.
      simpl. lia.
    + rewrite heap_set_other by exact Hcb.
      destruct (Hhands c Hc1) as [Hcwf Hclen]. split; [exact Hcwf|].
      unfold cards_left, Round.get_tricks_remaining in Hclen. rewrite Hclen.
      replace (ref_eqb c b) with false by (symmetry; now apply Nat.eqb_neq).
      now rewrite orb_false_r.
Qed.

Lemma hand_after_predict (h : heap) (a b : ref) (p : option Z) :
  Apprentice.hand (heap_set a (Apprentice.set_prediction p (h a)) h b)
  = Apprentice.hand (h b).
Proof.
  destruct (Nat.eq_dec b a) as [->|Hne].
  - now rewrite heap_set_same.
  - now rewrite heap_set_other.
Qed.

Lemma table_ok_predict (w : Round.world) (a : ref) (p : Z) :
  turn_ok (snd w) ->
  tricks_in_step (snd w) ->
  table_ok w ->
  table_ok (final_state (Round.make_prediction a p w)).
Proof.
  intros [Hidx _] Htr Hok.
  destruct (RoundPhase_eq_dec (Round.phase (snd w)) PREDICTING) as [Hph|Hph];
    [|destruct (wrong_phase_raises w) as [_ [G _]]; now rewrite (proj2 (G Hph) a p)].
  unfold tricks_in_step in Htr. rewrite Hph in Htr.
  unfold table_ok in Hok. rewrite Hph in Hok.
  destruct (Z_lt_le_dec p 0) as [Hlo|Hlo];
    [rewrite make_prediction_out_of_range by (auto; lia); unfold table_ok;
     simpl final_state; now rewrite Hph|].
  destruct (Z_lt_le_dec (Round.cards_per_apprentice (snd w)) p) as [Hhi|Hhi];
    [rewrite make_prediction_out_of_range by (auto; lia); unfold table_ok;
     simpl final_state; now rewrite Hph|].
  rewrite make_prediction_unfolded by (auto; lia). cbv zeta.
  destruct (forallb _ (Round.apprentices (snd w))).
  - assert (Hfirst : 0 <= (Round.dealer_index (snd w) + 1) mod len (Round.apprentices (snd w))
                     < len (Round.apprentices (snd w)))
      by (apply Z.mod_pos_bound; lia).
    destruct (py_getitem_in_range _ _ Hfirst) as [first Hf].
    rewrite (start_first_trick_unfolded _ (Round.set_phase PLAYING (snd w)) first)
      by exact Hf.
    cbn [final_state].
    match goal with
    | |- table_ok (_, ?r) =>
        assert (Hne : from_turn r <> [])
          by (apply from_turn_nonempty; round_fields; intros E; rewrite E in Hidx;
              unfold len in Hidx; simpl in Hidx; lia)
    end.
    unfold table_ok. round_fields.
    eexists. eexists. split; [reflexivity|]. split; [reflexivity|].
    split; [exact Hne|].
    split; [simpl; now rewrite app_nil_r|].
    split; [constructor|].
    intros b Hb. cbn [fst]. rewrite hand_after_predict.
    destruct (Hok b Hb) as [Hwf Hlen]. split; [exact Hwf|].
    unfold cards_left, Round.get_tricks_remaining. round_fields. rewrite Htr, Hlen. unfold len. simpl. lia.
  - cbn [final_state]. unfold table_ok. cbn [snd]. rewrite Hph.
    intros b Hb. cbn [fst]. rewrite hand_after_predict. now apply Hok.
Qed.

Lemma deal_cards_short (h : heap) (r : Round.t) (arrangement : list Card.t) :
  Round.phase r = DEALING ->
  len arrangement < len (Round.apprentices r) * Round.cards_per_apprentice r ->
  Round.deal_cards arrangement (h, r)
  = Raises (h, Round.set_deck (Deck.mk arrangement) r) ValueError.
Proof.
  intros Hph Hshort.
  unfold Round.deal_cards, bind, Round.self_. cbn [snd].
  rewrite Hph. simpl negb. cbv iota.
  unfold Round.on_deck, zoom, Deck.shuffle, put. round_fields.
  unfold Deck.deal_to_players, bind, get. cbn [Deck.cards].
  replace (len arrangement <? len (Round.apprentices r) * Round.cards_per_apprentice r)
    with true by (symmetry; apply Z.ltb_lt; exact Hshort).
  reflexivity.
Qed.

Lemma table_ok_deal (w : Round.world) (arrangement : list Card.t) :
  NoDup (Round.apprentices (snd w)) ->
  0 <= Round.cards_per_apprentice (snd w) ->
  Permutation (Deck.cards (Round.deck (snd w))) arrangement ->
  table_ok w ->
  table_ok (final_state (Round.deal_cards arrangement w)).
Proof.
  intros Hnd Hcpa Hperm Hok.
  destruct (RoundPhase_eq_dec (Round.phase (snd w)) DEALING) as [Hph|Hph];
    [|destruct (wrong_phase_raises w) as [G _]; now rewrite (G Hph arrangement)].
  unfold table_ok in Hok. rewrite Hph in Hok. destruct Hok as [Hdeck Hhands].
  assert (Hwf : Forall Card.wf arrangement)
    by (eapply Permutation_Forall; [exact Hperm | exact Hdeck]).
  destruct w as [h r]. cbn [fst snd] in *.
  destruct (Z_lt_le_dec (len arrangement)
                        (len (Round.apprentices r) * Round.cards_per_apprentice r))
    as [Hshort|Hfit].
  - rewrite (deal_cards_short h r arrangement Hph Hshort). cbn [final_state].
    unfold table_ok. round_fields. rewrite Hph. split; [exact Hwf | exact Hhands].
  - destruct (deal_cards_returns h r arrangement Hph Hnd Hcpa Hfit)
      as [hands [rest [h' [_ [Hlens [Hcat [Hgot [_ Hdeal]]]]]]]].
    rewrite Hdeal.
    assert (Hdealt : forall b, In b (Round.apprentices r) ->
              Forall Card.wf (Apprentice.hand (h' b)) /\
              len (Apprentice.hand (h' b)) = Round.cards_per_apprentice r).
    { intros b Hb. apply In_nth_error in Hb. destruct Hb as [k Hk].
      destruct (Hgot k b Hk) as [hd [Hhd ->]].
      cbn [Apprentice.hand Apprentice.set_hand].
      pose proof (Hhands b (nth_error_In _ _ Hk)) as Hempty. cbn in Hempty.
      rewrite Hempty. simpl app.
      apply nth_error_In in Hhd. split.
      - rewrite Forall_forall in Hwf |- *. intros c Hc. apply Hwf.
        rewrite <- Hcat. apply in_or_app. left. apply in_concat. now exists hd.
      - rewrite Forall_forall in Hlens. now apply Hlens. }
    destruct rest; cbn [final_state]; unfold table_ok; round_fields; exact Hdealt.
Qed.

Lemma table_ok_trump (w : Round.world) (color : CardColor) :
  table_ok w -> table_ok (final_state (Round.set_dealer_chosen_trump color w)).
Proof.
  intros Hok.
  assert (H : final_state (Round.set_dealer_chosen_trump color w) = w \/
              final_state (Round.set_dealer_chosen_trump color w)
              = (fst w, Round.set_trump_color (Some color) (snd w))).
  { unfold Round.set_dealer_chosen_trump, bind, Round.self_, Round.update, modify, raise.
    destruct (negb (RoundPhase_eqb (Round.phase (snd w)) PREDICTING)); [now left|].
    destruct (Round.trump_card (snd w)) as [c|]; [|now left].
    destruct (negb (CardType_eqb (Card.card_type c) WIZARD)); [now left | now right]. }
  destruct H as [-> | ->]; [exact Hok|].
  unfold table_ok, hands_are, from_turn, cards_left, Round.get_tricks_remaining in *. round_fields. exact Hok.
Qed.

Lemma score_each_hands (apprentices : list ref) :
  forall acc (w : Round.world) b,
    Apprentice.hand (fst (final_state (Round.score_each apprentices acc w)) b)
    = Apprentice.hand (fst w b).
Proof.
  induction apprentices as [|a rest IH]; intros acc [h r] b; [reflexivity|].
  destruct (Apprentice.calculate_round_points (h a)) as [p|e] eqn:E.
  - rewrite (score_each_step a rest acc h r p E), IH. cbn [fst].
    destruct (Nat.eq_dec b a) as [->|Hne];
      [now rewrite heap_set_same | now rewrite heap_set_other].
  - simpl Round.score_each. unfold bind, Round.the_heap, lift. cbn [fst snd].
    now rewrite E.
Qed.

Lemma table_ok_score (w : Round.world) :
  table_ok w -> table_ok (final_state (Round.score_round w)).
Proof.
  intros Hok.
  destruct (RoundPhase_eq_dec (Round.phase (snd w)) SCORING) as [Hph|Hph];
    [|destruct (wrong_phase_raises w) as [_ [_ [_ G]]]; now rewrite (G Hph)].
  unfold table_ok in Hok. rewrite Hph in Hok.
  destruct (q_score_round w) as [Hset [_ Hphase]].
  assert (Hhands : forall b,
            Apprentice.hand (fst (final_state (Round.score_round w)) b)
            = Apprentice.hand (fst w b)).
  { intros b. unfold Round.score_round, bind, Round.self_.
    rewrite Hph, RoundPhase_eqb_refl. cbv beta iota zeta delta [negb].
    pose proof (score_each_hands (Round.apprentices (snd w)) [] w b) as Hs.
    unfold Round.update, modify, ret.
    destruct (Round.score_each (Round.apprentices (snd w)) [] w);
      cbn [final_state fst] in *; exact Hs. }
  assert (Hseats : Round.apprentices (snd (final_state (Round.score_round w)))
                   = Round.apprentices (snd w))
    by (unfold setup in Hset; congruence).
  assert (Hgoal : hands_are (final_state (Round.score_round w)) (fun hand => hand = [])).
  { intros b Hb. rewrite Hhands. apply Hok. now rewrite <- Hseats. }
  unfold table_ok. rewrite Hph in Hphase. destruct Hphase as [-> | ->]; exact Hgoal.
Qed.

Lemma reachable_table_ok (w : Round.world) :
  Round.reachable w ->
  NoDup (Round.apprentices (snd w)) ->
  1 <= Round.round_number (snd w) ->
  table_ok w.
Proof.
  assert (Hsetup : forall v v', step v v' ->
            Round.apprentices (snd v') = Round.apprentices (snd v) /\
            Round.round_number (snd v') = Round.round_number (snd v)).
  { intros v v' Hs. destruct (step_summary v v' Hs) as [S _]. unfold setup in S.
    split; congruence. }
  induction 1 as [h n apprentices dealer r Hfresh Hinit | w arr Hr IH Hperm | w c Hr IH
                 | w a p Hr IH | w a i Hr IH | w Hr IH]; intros Hnd Hn.
  - unfold Round.init in Hinit.
    destruct (py_mod _ _); [|discriminate]. inversion Hinit. subst r.
    unfold table_ok. simpl. split; [exact deck_cards_wf|].
    intros b Hb. exact (proj1 (Hfresh b Hb)).
  - destruct (Hsetup w _ (step_deal w arr)) as [E1 E2]. rewrite E1 in Hnd. rewrite E2 in Hn.
    apply table_ok_deal; [exact Hnd | | exact Hperm | now apply IH].
    destruct (reachable_tricks_in_step w Hr Hn) as [Hc _]. lia.
  - destruct (Hsetup w _ (step_trump w c)) as [E1 E2]. rewrite E1 in Hnd. rewrite E2 in Hn.
    apply table_ok_trump. now apply IH.
  - destruct (Hsetup w _ (step_predict w a p)) as [E1 E2]. rewrite E1 in Hnd.
    rewrite E2 in Hn.
    apply table_ok_predict; [now apply reachable_turn_ok | | now apply IH].
    exact (proj2 (reachable_tricks_in_step w Hr Hn)).
  - destruct (Hsetup w _ (step_play w a i)) as [E1 E2]. rewrite E1 in Hnd. rewrite E2 in Hn.
    apply table_ok_play; [exact Hnd | now apply reachable_turn_ok | now apply IH].
  - destruct (Hsetup w _ (step_score w)) as [E1 E2]. rewrite E1 in Hnd. rewrite E2 in Hn.
    apply table_ok_score. now apply IH.
Qed.

Lemma playing_table (w : Round.world) :
  Round.reachable w ->
  NoDup (Round.apprentices (snd w)) ->
  1 <= Round.round_number (snd w) ->
  Round.phase (snd w) = PLAYING ->
  exists trick a waiting,
    Round.current_trick (snd w) = Some trick /\
    Trick.is_complete trick = false /\
    py_getitem (Round.apprentices (snd w)) (Round.current_apprentice_index (snd w)) = Ok a /\
    (a :: waiting) ++ map fst (Trick.cards_played trick) = from_turn (snd w) /\
    ~ In a (map fst (Trick.cards_played trick)) /\
    len waiting + len (Trick.cards_played trick) + 1 = len (Round.apprentices (snd w)) /\
    (forall b, In b (map fst (Trick.cards_played trick)) ->
               In b (Round.apprentices (snd w))) /\
    Forall Card.wf (map snd (Trick.cards_played trick)) /\
    (forall b, In b (Round.apprentices (snd w)) ->
               Forall Card.wf (Apprentice.hand (fst w b)) /\
               len (Apprentice.hand (fst w b)) = cards_left (snd w) trick b).
Proof.
  intros Hr Hnd Hn Hph.
  pose proof (reachable_table_ok w Hr Hnd Hn) as Hok.
  destruct (reachable_turn_ok w Hr) as [Hidx _].
  unfold table_ok in Hok. rewrite Hph in Hok.
  destruct Hok as [trick [waiting [Htrick [Hc [Hwne [Hrot [Hwf Hhands]]]]]]].
  destruct (py_getitem_in_range _ _ Hidx) as [a Ha].
  destruct (table_turn _ _ _ _ Hnd Hidx Ha Hwne Hrot) as [rest [-> [Hfresh [Hlen [_ Hsub]]]]].
  exists trick, a, rest. repeat (split; [assumption|]). assumption.
Qed.

Lemma get_current_apprentice_playing (r : Round.t) (a : ref) :
  Round.phase r = PLAYING ->
  py_getitem (Round.apprentices r) (Round.current_apprentice_index r) = Ok a ->
  Round.get_current_apprentice r = Ok (Some a).
Proof.
  intros Hph Ha. unfold Round.get_current_apprentice.
  now rewrite Hph, RoundPhase_eqb_refl, Ha.
Qed.

(** Within a round the plays go round the table.  In every Playing
    state a round of distinct apprentices can reach, the current trick
    is open, its cards are constructor-built, and the seating read from
    the apprentice whose turn it is consists of those still to play,
    that apprentice first, followed by those who have played, in the
    order they played: nobody plays twice in a trick, nobody is skipped,
    and the trick holds fewer cards than there are seats. *)
Theorem plays_go_round_the_table (w : Round.world) :
  Round.reachable w ->
  NoDup (Round.apprentices (snd w)) ->
  1 <= Round.round_number (snd w) ->
  Round.phase (snd w) = PLAYING ->
  exists trick a waiting,
    Round.current_trick (snd w) = Some trick /\
    Trick.is_complete trick = false /\
    Round.get_current_apprentice (snd w) = Ok (Some a) /\
    (a :: waiting) ++ map fst (Trick.cards_played trick) = from_turn (snd w) /\
    ~ In a (map fst (Trick.cards_played trick)) /\
    len (Trick.cards_played trick) < len (Round.apprentices (snd w)) /\
    Forall Card.wf (map snd (Trick.cards_played trick)).
Proof.
  intros Hr Hnd Hn Hph.
  destruct (playing_table w Hr Hnd Hn Hph)
    as [trick [a [waiting [H1 [H2 [H3 [H4 [H5 [H6 [_ [H8 _]]]]]]]]]]].
  exists trick, a, waiting. split; [exact H1|]. split; [exact H2|].
  split; [now apply get_current_apprentice_playing|].
  split; [exact H4|]. split; [exact H5|].
  split; [|exact H8]. pose proof (len_nonneg waiting). lia.
Qed.

(** The hands shrink with the tricks.  In every state a round of
    distinct apprentices can reach, every seated apprentice holds
    constructor-built cards only: none before the deal,
    [cards_per_apprentice] while predicting, one per trick still to
    come while playing (the current trick counted unless the apprentice
    has played in it), and none once the round is in Scoring or
    Complete. *)
Theorem hands_shrink_with_tricks (w : Round.world) (b : ref) :
  Round.reachable w ->
  NoDup (Round.apprentices (snd w)) ->
  1 <= Round.round_number (snd w) ->
  In b (Round.apprentices (snd w)) ->
  Forall Card.wf (Apprentice.hand (fst w b)) /\
  match Round.phase (snd w) with
  | DEALING | SCORING | COMPLETE => Apprentice.hand (fst w b) = []
  | PREDICTING => len (Apprentice.hand (fst w b)) = Round.cards_per_apprentice (snd w)
  | PLAYING =>
      exists trick,
        Round.current_trick (snd w) = Some trick /\
        len (Apprentice.hand (fst w b)) = cards_left (snd w) trick b
  end.
Proof.
  intros Hr Hnd Hn Hb.
  pose proof (reachable_table_ok w Hr Hnd Hn) as Hok.
  unfold table_ok in Hok. destruct (Round.phase (snd w)).
  - destruct Hok as [_ Hok]. rewrite (Hok b Hb). split; [constructor | reflexivity].
  - exact (Hok b Hb).
  - destruct Hok as [trick [waiting [Htrick [_ [_ [_ [_ Hhands]]]]]]].
    destruct (Hhands b Hb) as [Hwf Hlen]. split; [exact Hwf|]. now exists trick.
  - rewrite (Hok b Hb). split; [constructor | reflexivity].
  - rewrite (Hok b Hb). split; [constructor | reflexivity].
Qed.

Lemma play_card_accepted (w : Round.world) (a : ref) (i : Z) (trick : Trick.t) :
  Round.phase (snd w) = PLAYING ->
  py_getitem (Round.apprentices (snd w)) (Round.current_apprentice_index (snd w)) = Ok a ->
  Round.current_trick (snd w) = Some trick ->
  Trick.is_complete trick = false ->
  ~ In a (map fst (Trick.cards_played trick)) ->
  mem i (Apprentice.get_playable_cards (fst w a) (Trick.leading_color trick)) = true ->
  Forall Card.wf (map snd (Trick.cards_played trick)) ->
  Forall Card.wf (Apprentice.hand (fst w a)) ->
  (forall b, In b (map fst (Trick.cards_played trick)) ->
             In b (Round.apprentices (snd w))) ->
  exists w', Round.play_card a i w = Returns w' true.
Proof.
  intros Hph Ha Htrick Hc Hfresh Hmem Hwf Hhand Hsub.
  destruct (Z.eq_dec (len (Trick.cards_played trick) + 1) (len (Round.apprentices (snd w))))
    as [Hlast|Hmid].
  - destruct (play_card_last_unfolded w a i trick Hph Ha Htrick Hc Hfresh Hmem Hlast Hwf
                                      Hhand Hsub)
      as [card [l [done [win [j [_ [_ [_ [_ [_ [_ Hplay]]]]]]]]]]].
    eexists. exact Hplay.
  - destruct (play_card_mid_unfolded w a i trick Hph Ha Htrick Hc Hfresh Hmem Hmid)
      as [card [l [_ [_ Hplay]]]].
    eexists. exact Hplay.
Qed.

(** In the states a round of distinct apprentices can reach,
    [Round.play_card] never fails midway, whatever it is called with.
    Outside the Playing phase, or for an apprentice other than the one
    whose turn it is, it raises ValueError and changes nothing; for that
    apprentice and a position that is not playable it returns [False]
    and changes nothing; for a playable position it returns [True].  No
    IndexError, TypeError or ZeroDivisionError escapes, and the
    ValueErrors of [Trick.play_card] and [_start_next_trick] cannot
    occur. *)
Theorem play_card_refuses_or_succeeds (w : Round.world) (a : ref) (i : Z) :
  Round.reachable w ->
  NoDup (Round.apprentices (snd w)) ->
  1 <= Round.round_number (snd w) ->
  ((Round.phase (snd w) <> PLAYING \/
    py_getitem (Round.apprentices (snd w)) (Round.current_apprentice_index (snd w)) <> Ok a) /\
   Round.play_card a i w = Raises w ValueError) \/
  (exists trick,
     Round.phase (snd w) = PLAYING /\
     py_getitem (Round.apprentices (snd w)) (Round.current_apprentice_index (snd w)) = Ok a /\
     Round.current_trick (snd w) = Some trick /\
     ((mem i (Apprentice.get_playable_cards (fst w a) (Trick.leading_color trick)) = false /\
       Round.play_card a i w = Returns w false) \/
      (mem i (Apprentice.get_playable_cards (fst w a) (Trick.leading_color trick)) = true /\
       exists w', Round.play_card a i w = Returns w' true))).
Proof.
  intros Hr Hnd Hn.
  destruct (RoundPhase_eq_dec (Round.phase (snd w)) PLAYING) as [Hph|Hph];
    [|left; split; [now left|];
      destruct (wrong_phase_raises w) as [_ [_ [G _]]]; exact (G Hph a i)].
  destruct (playing_table w Hr Hnd Hn Hph)
    as [trick [b [waiting [Htrick [Hc [Hb [_ [Hfresh [_ [Hsub [Hwf Hhands]]]]]]]]]]].
  destruct (Nat.eq_dec a b) as [->|Hab];
    [|left; split; [right; rewrite Hb; congruence
                   | exact (play_card_out_of_turn w a b i Hph Hb Hab)]].
  right. exists trick. repeat (split; [assumption|]).
  destruct (mem i (Apprentice.get_playable_cards (fst w b) (Trick.leading_color trick)))
    eqn:Hmem.
  - right. split; [reflexivity|].
    apply (play_card_accepted w b i trick); try assumption.
    apply Hhands. exact (proj2 (seated_nonempty _ _ _ Hb)).
  - left. split; [reflexivity|]. exact (play_card_rejected w b i trick Hph Hb Htrick Hmem).
Qed.

(** A round in play is never stuck: in every Playing state a round of
    distinct apprentices can reach, the apprentice whose turn it is
    holds at least one card and has at least one playable position,
    whatever color was led. *)
Theorem a_legal_play_exists (w : Round.world) :
  Round.reachable w ->
  NoDup (Round.apprentices (snd w)) ->
  1 <= Round.round_number (snd w) ->
  Round.phase (snd w) = PLAYING ->
  exists a trick i,
    Round.get_current_apprentice (snd w) = Ok (Some a) /\
    Round.current_trick (snd w) = Some trick /\
    0 < len (Apprentice.hand (fst w a)) /\
    In i (Apprentice.get_playable_cards (fst w a) (Trick.leading_color trick)).
Proof.
  intros Hr Hnd Hn Hph.
  destruct (playing_table w Hr Hnd Hn Hph)
    as [trick [a [waiting [Htrick [_ [Ha [_ [Hfresh [_ [_ [_ Hhands]]]]]]]]]]].
  destruct (Hhands a (proj2 (seated_nonempty _ _ _ Ha))) as [_ Hlen].
  unfold cards_left, Round.get_tricks_remaining in Hlen. rewrite (proj2 (dict_mem_false _ _) Hfresh) in Hlen.
  destruct (reachable_tricks_in_step w Hr Hn) as [_ Htr].
  unfold tricks_in_step in Htr. rewrite Hph in Htr.
  assert (Hpos : 0 < len (Apprentice.hand (fst w a))) by lia.
  destruct (playable_nonempty (fst w a) (Trick.leading_color trick)) as [i Hi].
  { intros E. rewrite E in Hpos. unfold len in Hpos. simpl in Hpos. lia. }
  exists a, trick, i. split; [now apply get_current_apprentice_playing|].
  repeat (split; [assumption|]). exact Hi.
Qed.

Lemma wizard_led_seats : NoDup (Round.apprentices (snd wizard_led)).
Proof.
  rewrite (proj1 wizard_led_round). exact three_seats_distinct.
Qed.

Lemma wizard_led_number : 1 <= Round.round_number (snd wizard_led).
Proof. vm_compute. discriminate. Qed.

Lemma plays_go_round_the_table_witness :
  exists trick a waiting,
    Round.current_trick (snd wizard_led) = Some trick /\
    Trick.is_complete trick = false /\
    Round.get_current_apprentice (snd wizard_led) = Ok (Some a) /\
    (a :: waiting) ++ map fst (Trick.cards_played trick) = from_turn (snd wizard_led) /\
    ~ In a (map fst (Trick.cards_played trick)) /\
    len (Trick.cards_played trick) < len (Round.apprentices (snd wizard_led)) /\
    Forall Card.wf (map snd (Trick.cards_played trick)).
Proof.
  apply (plays_go_round_the_table wizard_led wizard_led_reachable wizard_led_seats
                                  wizard_led_number (proj1 wizard_led_facts)).
Defined.

Lemma wizard_led_seat_one : In 1%nat (Round.apprentices (snd wizard_led)).
Proof. rewrite (proj1 wizard_led_round). simpl. tauto. Qed.

Lemma hands_shrink_with_tricks_witness :
  Forall Card.wf (Apprentice.hand (fst wizard_led 1%nat)) /\
  match Round.phase (snd wizard_led) with
  | DEALING | SCORING | COMPLETE => Apprentice.hand (fst wizard_led 1%nat) = []
  | PREDICTING =>
      len (Apprentice.hand (fst wizard_led 1%nat))
      = Round.cards_per_apprentice (snd wizard_led)
  | PLAYING =>
      exists trick,
        Round.current_trick (snd wizard_led) = Some trick /\
        len (Apprentice.hand (fst wizard_led 1%nat)) = cards_left (snd wizard_led) trick 1%nat
  end.
Proof.
  apply (hands_shrink_with_tricks wizard_led 1%nat wizard_led_reachable wizard_led_seats
                                  wizard_led_number wizard_led_seat_one).
Defined.

Lemma play_card_refuses_or_succeeds_witness :
  ((Round.phase (snd wizard_led) <> PLAYING \/
    py_getitem (Round.apprentices (snd wizard_led))
               (Round.current_apprentice_index (snd wizard_led)) <> Ok 1%nat) /\
   Round.play_card 1%nat 6 wizard_led = Raises wizard_led ValueError) \/
  (exists trick,
     Round.phase (snd wizard_led) = PLAYING /\
     py_getitem (Round.apprentices (snd wizard_led))
                (Round.current_apprentice_index (snd wizard_led)) = Ok 1%nat /\
     Round.current_trick (snd wizard_led) = Some trick /\
     ((mem 6 (Apprentice.get_playable_cards (fst wizard_led 1%nat)
                                            (Trick.leading_color trick)) = false /\
       Round.play_card 1%nat 6 wizard_led = Returns wizard_led false) \/
      (mem 6 (Apprentice.get_playable_cards (fst wizard_led 1%nat)
                                            (Trick.leading_color trick)) = true /\
       exists w', Round.play_card 1%nat 6 wizard_led = Returns w' true))).
Proof.
  apply (play_card_refuses_or_succeeds wizard_led 1%nat 6 wizard_led_reachable
                                       wizard_led_seats wizard_led_number).
Defined.

Lemma a_legal_play_exists_witness :
  exists a trick i,
    Round.get_current_apprentice (snd wizard_led) = Ok (Some a) /\
    Round.current_trick (snd wizard_led) = Some trick /\
    0 < len (Apprentice.hand (fst wizard_led a)) /\
    In i (Apprentice.get_playable_cards (fst wizard_led a) (Trick.leading_color trick)).
Proof.
  apply (a_legal_play_exists wizard_led wizard_led_reachable wizard_led_seats
                             wizard_led_number (proj1 wizard_led_facts)).
Defined.

(** ** The round: the shape of every outcome *)

Lemma deal_cards_cases (w : Round.world) (arrangement : list Card.t) :
  NoDup (Round.apprentices (snd w)) ->
  0 <= Round.cards_per_apprentice (snd w) ->
  final_state (Round.deal_cards arrangement w) = w \/
  Round.phase (snd w) = DEALING /\
  (final_state (Round.deal_cards arrangement w)
   = (fst w, Round.set_deck (Deck.mk arrangement) (snd w)) \/
   exists hands rest h',
     List.concat hands ++ rest = arrangement /\
     map h' (Round.apprentices (snd w))
     = map (fun ah => Apprentice.set_hand (Apprentice.hand (fst w (fst ah)) ++ snd ah)
                                          (fst w (fst ah)))
           (combine (Round.apprentices (snd w)) hands) /\
     List.length hands = List.length (Round.apprentices (snd w)) /\
     Forall (fun hd => len hd = Round.cards_per_apprentice (snd w)) hands /\
     (forall b, ~ In b (Round.apprentices (snd w)) -> h' b = fst w b) /\
     Round.deal_cards arrangement w
     = Returns
         (h', Round.set_phase PREDICTING
                (Round.set_trump_color
                   (match rest with
                    | card :: _ => if CardType_eqb (Card.card_type card) REGULAR
                                   then Some (Card.color card) else None
                    | [] => None
                    end)
                   (Round.set_trump_card (hd_error rest)
                      (Round.set_deck (Deck.mk (tl rest)) (snd w)))))
         (hd_error rest)).
Proof.
  intros Hnd Hcpa.
  destruct (RoundPhase_eq_dec (Round.phase (snd w)) DEALING) as [Hph|Hph];
    [|left; destruct (wrong_phase_raises w) as [G _]; now rewrite (G Hph arrangement)].
  right. split; [exact Hph|].
  destruct w as [h r]. cbn [fst snd] in *.
  destruct (Z_lt_le_dec (len arrangement)
                        (len (Round.apprentices r) * Round.cards_per_apprentice r))
    as [Hshort|Hfit].
  - left. now rewrite (deal_cards_short h r arrangement Hph Hshort).
  - right.
    destruct (deal_cards_returns h r arrangement Hph Hnd Hcpa Hfit)
      as [hands [rest [h' [Hlen [Hlens [Hcat [Hgot [Hout Hdeal]]]]]]]].
    assert (Hlen' : List.length hands = List.length (Round.apprentices r))
      by (unfold len in Hlen; lia).
    exists hands, rest, h'.
    split; [exact Hcat|]. split.
    { apply nth_error_ext. intros k.
      rewrite !nth_error_map.
      destruct (nth_error (Round.apprentices r) k) as [a|] eqn:Ea.
      - destruct (Hgot k a Ea) as [hd [Hhd Hh']].
        assert (Hc : nth_error (combine (Round.apprentices r) hands) k = Some (a, hd)).
        { clear - Ea Hhd. revert k hands Ea Hhd.
          induction (Round.apprentices r) as [|x l IH]; intros [|k] [|y hs] Ea Hhd;
            simpl in *; try discriminate.
          - now inversion Ea; inversion Hhd.
          - now apply IH. }
        rewrite Hc. simpl. now rewrite Hh'.
      - assert (Hc : nth_error (combine (Round.apprentices r) hands) k = None).
        { apply nth_error_None. rewrite length_combine.
          apply nth_error_None in Ea. lia. }
        now rewrite Hc. }
    split; [exact Hlen'|]. split; [exact Hlens|]. split; [exact Hout|].
    rewrite Hdeal. now destruct rest.
Qed.

Lemma make_prediction_cases (w : Round.world) (a : ref) (p : Z) :
  turn_ok (snd w) ->
  (Round.phase (snd w) <> PREDICTING \/ p < 0 \/ Round.cards_per_apprentice (snd w) < p) /\
  final_state (Round.make_prediction a p w) = w \/
  Round.phase (snd w) = PREDICTING /\
  0 <= p <= Round.cards_per_apprentice (snd w) /\
  ((forallb (fun b => negb (Trick.is_none
                              (Apprentice.prediction
                                 (heap_set a (Apprentice.set_prediction (Some p) (fst w a))
                                           (fst w) b))))
            (Round.apprentices (snd w)) = false /\
    Round.make_prediction a p w
    = Returns (heap_set a (Apprentice.set_prediction (Some p) (fst w a)) (fst w), snd w)
              true) \/
   (forallb (fun b => negb (Trick.is_none
                              (Apprentice.prediction
                                 (heap_set a (Apprentice.set_prediction (Some p) (fst w a))
                                           (fst w) b))))
            (Round.apprentices (snd w)) = true /\
    exists first,
      Round.make_prediction a p w
      = Returns (heap_set a (Apprentice.set_prediction (Some p) (fst w a)) (fst w),
                 Round.set_current_apprentice_index
                   ((Round.dealer_index (snd w) + 1) mod len (Round.apprentices (snd w)))
                   (Round.set_current_trick
                      (Some (Trick.init (Some first) (Round.trump_color (snd w))))
                      (Round.set_phase PLAYING (snd w))))
                true)).
Proof.
  intros [Hidx _].
  destruct (RoundPhase_eq_dec (Round.phase (snd w)) PREDICTING) as [Hph|Hph];
    [|left; split; [now left|];
      destruct (wrong_phase_raises w) as [_ [G _]]; now rewrite (proj2 (G Hph) a p)].
  destruct (Z_lt_le_dec p 0) as [Hlo|Hlo];
    [left; split; [auto|]; now rewrite make_prediction_out_of_range by (auto; lia)|].
  destruct (Z_lt_le_dec (Round.cards_per_apprentice (snd w)) p) as [Hhi|Hhi];
    [left; split; [auto|]; now rewrite make_prediction_out_of_range by (auto; lia)|].
  right. split; [exact Hph|]. split; [lia|].
  rewrite make_prediction_unfolded by (auto; lia). cbv zeta.
  destruct (forallb _ (Round.apprentices (snd w))); [right | left; now split].
  split; [reflexivity|].
  assert (Hfirst : 0 <= (Round.dealer_index (snd w) + 1) mod len (Round.apprentices (snd w))
                   < len (Round.apprentices (snd w)))
    by (apply Z.mod_pos_bound; lia).
  destruct (py_getitem_in_range _ _ Hfirst) as [first Hf].
  exists first.
  now rewrite (start_first_trick_unfolded _ (Round.set_phase PLAYING (snd w)) first)
    by exact Hf.
Qed.

Lemma set_dealer_chosen_trump_cases (w : Round.world) (color : CardColor) :
  final_state (Round.set_dealer_chosen_trump color w) = w \/
  final_state (Round.set_dealer_chosen_trump color w)
  = (fst w, Round.set_trump_color (Some color) (snd w)).
Proof.
  unfold Round.set_dealer_chosen_trump, bind, Round.self_, Round.update, modify, raise.
  destruct (negb (RoundPhase_eqb (Round.phase (snd w)) PREDICTING)); [now left|].
  destruct (Round.trump_card (snd w)) as [c|]; [|now left].
  destruct (negb (CardType_eqb (Card.card_type c) WIZARD)); [now left | now right].
Qed.

(** Scoring touches nothing of an apprentice but the experience
    points, and nothing of the round. *)
Lemma score_each_frame (apprentices : list ref) :
  forall acc (w : Round.world),
    snd (final_state (Round.score_each apprentices acc w)) = snd w /\
    forall b,
      Apprentice.hand (fst (final_state (Round.score_each apprentices acc w)) b)
      = Apprentice.hand (fst w b) /\
      Apprentice.prediction (fst (final_state (Round.score_each apprentices acc w)) b)
      = Apprentice.prediction (fst w b) /\
      Apprentice.tricks_won (fst (final_state (Round.score_each apprentices acc w)) b)
      = Apprentice.tricks_won (fst w b).
Proof.
  induction apprentices as [|a rest IH]; intros acc [h r]; [now split|].
  destruct (Apprentice.calculate_round_points (h a)) as [p|e] eqn:E.
  - rewrite (score_each_step a rest acc h r p E).
    destruct (IH (dict_set acc a p)
                 (heap_set a (Apprentice.set_experience_points
                                (Apprentice.experience_points (h a) + p) (h a)) h, r))
      as [I1 I2].
    split; [exact I1|]. intros b. destruct (I2 b) as [J1 [J2 J3]].
    rewrite J1, J2, J3. cbn [fst].
    destruct (Nat.eq_dec b a) as [->|Hne];
      [now rewrite heap_set_same | now rewrite heap_set_other].
  - simpl Round.score_each. unfold bind, Round.the_heap, lift. cbn [fst snd].
    rewrite E. now split.
Qed.

Lemma score_round_cases (w : Round.world) :
  (forall b,
     Apprentice.hand (fst (final_state (Round.score_round w)) b)
     = Apprentice.hand (fst w b) /\
     Apprentice.prediction (fst (final_state (Round.score_round w)) b)
     = Apprentice.prediction (fst w b) /\
     Apprentice.tricks_won (fst (final_state (Round.score_round w)) b)
     = Apprentice.tricks_won (fst w b)) /\
  (snd (final_state (Round.score_round w)) = snd w \/
   Round.phase (snd w) = SCORING /\
   snd (final_state (Round.score_round w)) = Round.set_phase COMPLETE (snd w)).
Proof.
  destruct (RoundPhase_eq_dec (Round.phase (snd w)) SCORING) as [Hph|Hph];
    [|destruct (wrong_phase_raises w) as [_ [_ [_ G]]]; rewrite (G Hph);
      split; [now intros b | now left]].
  unfold Round.score_round, bind, Round.self_.
  rewrite Hph, RoundPhase_eqb_refl. cbv beta iota zeta delta [negb].
  destruct (score_each_frame (Round.apprentices (snd w)) [] w) as [Hs Hf].
  unfold Round.update, modify, ret.
  destruct (Round.score_each (Round.apprentices (snd w)) [] w) as [w' pts|w' e];
    cbn [final_state fst snd] in *.
  - split; [exact Hf|]. right. split; [reflexivity | now rewrite Hs].
  - split; [exact Hf|]. now left.
Qed.

Lemma play_card_cases (w : Round.world) (a : ref) (i : Z) :
  NoDup (Round.apprentices (snd w)) ->
  turn_ok (snd w) ->
  table_ok w ->
  (Round.play_card a i w = Raises w ValueError \/
   Round.play_card a i w = Returns w false) \/
  exists trick card l rest,
    Round.phase (snd w) = PLAYING /\
    Round.current_trick (snd w) = Some trick /\
    (a :: rest) ++ map fst (Trick.cards_played trick) = from_turn (snd w) /\
    In a (Round.apprentices (snd w)) /\
    nth_error (Apprentice.hand (fst w a)) (Z.to_nat i) = Some card /\
    len (Trick.cards_played trick) + len rest + 1 = len (Round.apprentices (snd w)) /\
    let h1 := heap_set a (Apprentice.set_hand
                            (remove_nth (Z.to_nat i) (Apprentice.hand (fst w a)))
                            (fst w a)) (fst w) in
    let r1 := Round.set_current_apprentice_index
                ((Round.current_apprentice_index (snd w) + 1)
                 mod len (Round.apprentices (snd w)))
                (Round.set_current_trick
                   (Some (Trick.mk (Trick.leading_apprentice trick)
                                   (Trick.trump_color trick)
                                   (Trick.cards_played trick ++ [(a, card)]) l
                                   (Trick.winner trick) false))
                   (snd w)) in
    (rest <> [] /\ Round.play_card a i w = Returns (h1, r1) true) \/
    (rest = [] /\
     exists done win j,
       Trick.is_complete done = true /\
       Trick.cards_played done = Trick.cards_played trick ++ [(a, card)] /\
       In win (Round.apprentices (snd w)) /\
       py_getitem (Round.apprentices (snd w)) j = Ok win /\
       let h2 := heap_set win (Apprentice.set_tricks_won
                                 (Apprentice.tricks_won (h1 win) + 1) (h1 win)) h1 in
       let played := Round.set_tricks_played (Round.tricks_played (snd w) ++ [done])
                       (Round.set_current_trick (Some done) r1) in
       (len (Round.tricks_played (snd w)) + 1 = Round.cards_per_apprentice (snd w) /\
        Round.play_card a i w = Returns (h2, Round.set_phase SCORING played) true) \/
       (len (Round.tricks_played (snd w)) + 1 <> Round.cards_per_apprentice (snd w) /\
        Round.play_card a i w
        = Returns (h2, Round.set_current_apprentice_index j
                         (Round.set_current_trick
                            (Some (Trick.init (Some win) (Round.trump_color (snd w))))
                            played)) true)).
Proof.
  intros Hnd [Hidx _] Hok.
  destruct (RoundPhase_eq_dec (Round.phase (snd w)) PLAYING) as [Hph|Hph];
    [|left; left; destruct (wrong_phase_raises w) as [_ [_ [G _]]]; exact (G Hph a i)].
  unfold table_ok in Hok. rewrite Hph in Hok.
  destruct Hok as [trick [waiting [Htrick [Hc [Hwne [Hrot [Hwf Hhands]]]]]]].
  destruct (py_getitem_in_range _ _ Hidx) as [b Hb].
  destruct (Nat.eq_dec a b) as [->|Hab];
    [|left; left; exact (play_card_out_of_turn w a b i Hph Hb Hab)].
  destruct (mem i (Apprentice.get_playable_cards (fst w b) (Trick.leading_color trick)))
    eqn:Hmem;
    [|left; right; exact (play_card_rejected w b i trick Hph Hb Htrick Hmem)].
  destruct (table_turn _ _ _ _ Hnd Hidx Hb Hwne Hrot) as [rest [-> [Hfresh [Hlen [Hall Hsub]]]]].
  destruct (seated_nonempty _ _ _ Hb) as [_ Hseat].
  destruct (Hhands b Hseat) as [Hbwf _].
  right.
  destruct (Z.eq_dec (len (Trick.cards_played trick) + 1) (len (Round.apprentices (snd w))))
    as [Hlast|Hmid].
  - destruct (play_card_last_unfolded w b i trick Hph Hb Htrick Hc Hfresh Hmem Hlast Hwf
                                      Hbwf Hsub)
      as [card [l [done [win [j [Hn [D1 [D2 [Hin [Hj1 [Hj2 Hplay]]]]]]]]]]].
    exists trick, card, l, rest.
    repeat (split; [first [assumption | lia]|]).
    cbv zeta. right. split; [apply len_zero_nil; lia|].
    exists done, win, j. split; [exact D1|]. split; [exact D2|].
    split; [exact (proj2 (seated_nonempty _ _ _ Hj2))|]. split; [exact Hj2|].
    rewrite Hplay. cbv zeta.
    destruct (Z.eqb_spec (len (Round.tricks_played (snd w) ++ [done]))
                         (Round.cards_per_apprentice (snd w))) as [He|He];
      rewrite len_app in He; unfold len in He at 2; simpl List.length in He;
      [left | right]; (split; [lia | reflexivity]).
  - destruct (play_card_mid_unfolded w b i trick Hph Hb Htrick Hc Hfresh Hmem Hmid)
      as [card [l [Hn [_ Hplay]]]].
    exists trick, card, l, rest.
    repeat (split; [first [assumption | lia]|]).
    cbv zeta. left. split; [|exact Hplay].
    intros ->. unfold len in Hlen at 1. simpl in Hlen. lia.
Qed.

(** Induction over the states of a round of distinct apprentices and
    number at least 1, the setup carried along. *)
Lemma reachable_invariant (P : Round.world -> Prop) :
  (forall h n apprentices dealer r,
     Round.fresh h apprentices -> Round.init n apprentices dealer = Ok r ->
     NoDup apprentices -> 1 <= n -> P (h, r)) ->
  (forall w w',
     Round.reachable w ->
     NoDup (Round.apprentices (snd w)) -> 1 <= Round.round_number (snd w) ->
     P w ->
     (exists arrangement,
        Permutation (Deck.cards (Round.deck (snd w))) arrangement /\
        w' = final_state (Round.deal_cards arrangement w)) \/
     (exists color, w' = final_state (Round.set_dealer_chosen_trump color w)) \/
     (exists a p, w' = final_state (Round.make_prediction a p w)) \/
     (exists a i, w' = final_state (Round.play_card a i w)) \/
     w' = final_state (Round.score_round w) ->
     P w') ->
  forall w,
    Round.reachable w ->
    NoDup (Round.apprentices (snd w)) -> 1 <= Round.round_number (snd w) -> P w.
Proof.
  intros Hinit Hstep.
  assert (Hsetup : forall v v', step v v' ->
            Round.apprentices (snd v') = Round.apprentices (snd v) /\
            Round.round_number (snd v') = Round.round_number (snd v)).
  { intros v v' Hs. destruct (step_summary v v' Hs) as [S _]. unfold setup in S.
    split; congruence. }
  induction 1 as [h n apprentices dealer r Hfresh Hi | w arr Hr IH Hperm | w c Hr IH
                 | w a p Hr IH | w a i Hr IH | w Hr IH]; intros Hnd Hn.
  - pose proof Hi as Hi'. unfold Round.init in Hi'.
    destruct (py_mod _ _); [|discriminate]. inversion Hi'. subst r. simpl in Hnd, Hn.
    now apply (Hinit h n apprentices dealer _ Hfresh Hi).
  - destruct (Hsetup w _ (step_deal w arr)) as [E1 E2]. rewrite E1 in Hnd. rewrite E2 in Hn.
    apply (Hstep w); [exact Hr | exact Hnd | exact Hn | now apply IH |]. left. now exists arr.
  - destruct (Hsetup w _ (step_trump w c)) as [E1 E2]. rewrite E1 in Hnd. rewrite E2 in Hn.
    apply (Hstep w); [exact Hr | exact Hnd | exact Hn | now apply IH |]. right. left. now exists c.
  - destruct (Hsetup w _ (step_predict w a p)) as [E1 E2]. rewrite E1 in Hnd.
    rewrite E2 in Hn.
    apply (Hstep w); [exact Hr | exact Hnd | exact Hn | now apply IH |]. right. right. left. now exists a, p.
  - destruct (Hsetup w _ (step_play w a i)) as [E1 E2]. rewrite E1 in Hnd. rewrite E2 in Hn.
    apply (Hstep w); [exact Hr | exact Hnd | exact Hn | now apply IH |]. do 3 right. left. now exists a, i.
  - destruct (Hsetup w _ (step_score w)) as [E1 E2]. rewrite E1 in Hnd. rewrite E2 in Hn.
    apply (Hstep w); [exact Hr | exact Hnd | exact Hn | now apply IH |]. do 4 right. reflexivity.
Qed.

Lemma prediction_after_play (h : heap) (a b : ref) (hand : list Card.t) :
  Apprentice.prediction (heap_set a (Apprentice.set_hand hand (h a)) h b)
  = Apprentice.prediction (h b).
Proof.
  destruct (Nat.eq_dec b a) as [->|Hne];
    [now rewrite heap_set_same | now rewrite heap_set_other].
Qed.

Lemma prediction_after_win (h : heap) (win b : ref) (n : Z) :
  Apprentice.prediction (heap_set win (Apprentice.set_tricks_won n (h win)) h b)
  = Apprentice.prediction (h b).
Proof.
  destruct (Nat.eq_dec b win) as [->|Hne];
    [now rewrite heap_set_same | now rewrite heap_set_other].
Qed.

Lemma reachable_predicted (w : Round.world) :
  Round.reachable w ->
  NoDup (Round.apprentices (snd w)) -> 1 <= Round.round_number (snd w) ->
  predicted w.
Proof.
  revert w. apply reachable_invariant.
  - intros h n apprentices dealer r _ Hi _ _. unfold Round.init in Hi.
    destruct (py_mod _ _); [|discriminate]. inversion Hi. exact I.
  - intros w w' Hr Hnd Hn IH
           [[arr [Hperm ->]] | [[c ->] | [[a [p ->]] | [[a [i ->]] | ->]]]].
    + destruct (deal_cards_cases w arr Hnd) as [-> | [Hph [-> | Hd]]];
        [destruct (reachable_tricks_in_step w Hr Hn) as [Hc _]; lia | exact IH | |].
      * unfold predicted. round_fields. now rewrite Hph.
      * destruct Hd as [hands [rest [h' [_ [_ [_ [_ [_ ->]]]]]]]]. exact I.
    + destruct (set_dealer_chosen_trump_cases w c) as [-> | ->]; [exact IH|].
      unfold predicted in *. round_fields. exact IH.
    + destruct (make_prediction_cases w a p (reachable_turn_ok w Hr))
        as [[_ ->] | [Hph [_ [[_ ->] | [Hall [first ->]]]]]]; [exact IH | |].
      * unfold predicted. cbn [final_state snd]. now rewrite Hph.
      * unfold predicted. cbn [final_state]. round_fields. intros b Hb.
        rewrite forallb_forall in Hall. specialize (Hall b Hb). cbn [fst].
        destruct (Apprentice.prediction _); [discriminate | discriminate Hall].
    + destruct (play_card_cases w a i Hnd (reachable_turn_ok w Hr)
                                (reachable_table_ok w Hr Hnd Hn))
        as [[-> | ->] | [trick [card [l [rest [Hph [_ [_ [_ [_ [_ Hcases]]]]]]]]]]];
        [exact IH | exact IH |].
      unfold predicted in IH. rewrite Hph in IH. cbv zeta in Hcases.
      destruct Hcases
        as [[_ ->] | [_ [done [win [j [_ [_ [_ [_ [[_ ->] | [_ ->]]]]]]]]]]];
        unfold predicted; cbn [final_state]; round_fields; try rewrite Hph;
        intros b Hb; cbn [fst];
        rewrite ?prediction_after_win, prediction_after_play; now apply IH.
    + destruct (score_round_cases w) as [Hf [Hs | [Hph Hs]]];
        unfold predicted in *; rewrite Hs.
      * destruct (Round.phase (snd w)); try exact I;
          intros b Hb; rewrite (proj1 (proj2 (Hf b))); now apply IH.
      * rewrite Hph in IH. round_fields.
        intros b Hb; rewrite (proj1 (proj2 (Hf b))); now apply IH.
Qed.

(** ** The round: the books balance *)

Lemma remove_nth_perm {A} (l : list A) :
  forall n x, nth_error l n = Some x -> Permutation l (x :: remove_nth n l).
Proof.
  induction l as [|y l IH]; intros [|n] x H; simpl in H; try discriminate.
  - inversion H. reflexivity.
  - simpl. rewrite perm_swap. constructor. now apply IH.
Qed.

Lemma hands_take (h : heap) (a : ref) (n : nat) (card : Card.t) (l : list ref) :
  NoDup l -> In a l ->
  nth_error (Apprentice.hand (h a)) n = Some card ->
  Permutation
    (List.concat (map (fun b => Apprentice.hand (h b)) l))
    (card :: List.concat
               (map (fun b => Apprentice.hand
                                (heap_set a (Apprentice.set_hand
                                               (remove_nth n (Apprentice.hand (h a)))
                                               (h a)) h b)) l)).
Proof.
  intros Hnd Hin Hn. induction l as [|x l IH]; [contradiction|].
  inversion Hnd as [|? ? Hnotin Hnd']; subst. simpl.
  destruct (Nat.eq_dec x a) as [->|Hne].
  - rewrite heap_set_same. cbn [Apprentice.hand Apprentice.set_hand].
    replace (map (fun b => Apprentice.hand (heap_set a _ h b)) l)
      with (map (fun b => Apprentice.hand (h b)) l).
    + apply (Permutation_app_tail _ (remove_nth_perm _ _ _ Hn)).
    + apply map_ext_in. intros b Hb. rewrite heap_set_other; [reflexivity|].
      intros ->. contradiction.
  - rewrite heap_set_other by exact Hne.
    destruct Hin as [->|Hin]; [contradiction|].
    eapply Permutation_trans; [apply Permutation_app_head, IH; assumption|].
    apply Permutation_sym, Permutation_middle.
Qed.

Lemma total_bump (f g : ref -> Z) (x : ref) (l : list ref) :
  NoDup l -> In x l ->
  (forall b, b <> x -> g b = f b) -> g x = f x + 1 ->
  fold_right Z.add 0 (map g l) = fold_right Z.add 0 (map f l) + 1.
Proof.
  intros Hnd Hin Hother Hx. induction l as [|y l IH]; [contradiction|].
  inversion Hnd as [|? ? Hnotin Hnd']; subst. simpl.
  destruct (Nat.eq_dec y x) as [->|Hne].
  - rewrite Hx. replace (map g l) with (map f l); [lia|].
    apply map_ext_in. intros b Hb. symmetry. apply Hother. intros ->. contradiction.
  - destruct Hin as [->|Hin]; [contradiction|].
    rewrite (Hother y Hne), (IH Hnd' Hin). lia.
Qed.

Lemma combine_fst {A B} (l : list A) :
  forall l' : list B, List.length l' = List.length l -> map fst (combine l l') = l.
Proof.
  induction l as [|x l IH]; intros [|y l'] H; simpl in *; try discriminate; [reflexivity|].
  now rewrite IH by lia.
Qed.

Lemma combine_snd {A B} (l : list A) :
  forall l' : list B, List.length l' = List.length l -> map snd (combine l l') = l'.
Proof.
  induction l as [|x l IH]; intros [|y l'] H; simpl in *; try discriminate; [reflexivity|].
  now rewrite IH by lia.
Qed.

(** An operation that changes no hand and no count of tricks won, and
    of the round neither the seating nor where the cards are filed,
    leaves the books as they were. *)
Lemma ledger_frame (w w' : Round.world) :
  (forall b, Apprentice.hand (fst w' b) = Apprentice.hand (fst w b) /\
             Apprentice.tricks_won (fst w' b) = Apprentice.tricks_won (fst w b)) ->
  Round.apprentices (snd w') = Round.apprentices (snd w) ->
  Round.trump_card (snd w') = Round.trump_card (snd w) ->
  Round.deck (snd w') = Round.deck (snd w) ->
  Round.tricks_played (snd w') = Round.tricks_played (snd w) ->
  match Round.phase (snd w'), Round.current_trick (snd w') with
  | PLAYING, Some trick => cards_of trick
  | _, _ => []
  end
  = match Round.phase (snd w), Round.current_trick (snd w) with
    | PLAYING, Some trick => cards_of trick
    | _, _ => []
    end ->
  (Round.phase (snd w') = DEALING -> Round.phase (snd w) = DEALING) ->
  ledger_ok w -> ledger_ok w'.
Proof.
  intros Hh Ha Ht Hd Hp Hc Hph [L1 [L2 [L3 L4]]].
  unfold ledger_ok, tricks_won_total, Round.get_trick_count, all_cards in *.
  rewrite Ha, Ht, Hd, Hp, Hc.
  replace (map (fun b => Apprentice.tricks_won (fst w' b)) (Round.apprentices (snd w)))
    with (map (fun b => Apprentice.tricks_won (fst w b)) (Round.apprentices (snd w)))
    by (apply map_ext; intros b; symmetry; apply Hh).
  replace (map (fun b => Apprentice.hand (fst w' b)) (Round.apprentices (snd w)))
    with (map (fun b => Apprentice.hand (fst w b)) (Round.apprentices (snd w)))
    by (apply map_ext; intros b; symmetry; apply Hh).
  split; [exact L1|]. split.
  { eapply Forall_impl; [|exact L2]. intros t [T1 T2]. split; [exact T1|].
    unfold trick_done. now rewrite Ha. }
  split; [auto | exact L4].
Qed.

Lemma hands_empty (h : heap) (l : list ref) :
  (forall b, In b l -> Apprentice.hand (h b) = []) ->
  List.concat (map (fun b => Apprentice.hand (h b)) l) = [].
Proof.
  induction l as [|x l IH]; intros H; [reflexivity|]. simpl.
  rewrite (H x) by now left. apply IH. intros b Hb. apply H. now right.
Qed.

Lemma total_zero (f : ref -> Z) (l : list ref) :
  (forall b, In b l -> f b = 0) -> fold_right Z.add 0 (map f l) = 0.
Proof.
  induction l as [|x l IH]; intros H; [reflexivity|]. simpl.
  rewrite (H x) by now left. rewrite IH; [reflexivity|]. intros b Hb. apply H. now right.
Qed.

Lemma tricks_won_after_play (h : heap) (a b : ref) (hand : list Card.t) :
  Apprentice.tricks_won (heap_set a (Apprentice.set_hand hand (h a)) h b)
  = Apprentice.tricks_won (h b).
Proof.
  destruct (Nat.eq_dec b a) as [->|Hne];
    [now rewrite heap_set_same | now rewrite heap_set_other].
Qed.

Lemma tricks_won_after_predict (h : heap) (a b : ref) (p : option Z) :
  Apprentice.tricks_won (heap_set a (Apprentice.set_prediction p (h a)) h b)
  = Apprentice.tricks_won (h b).
Proof.
  destruct (Nat.eq_dec b a) as [->|Hne];
    [now rewrite heap_set_same | now rewrite heap_set_other].
Qed.

Lemma ledger_init (h : heap) (n : Z) (apprentices : list ref) (dealer : Z) (r : Round.t) :
  Round.fresh h apprentices -> Round.init n apprentices dealer = Ok r -> ledger_ok (h, r).
Proof.
  intros Hfresh Hi. unfold Round.init in Hi.
  destruct (py_mod _ _); [|discriminate]. inversion Hi. subst r.
  unfold ledger_ok, tricks_won_total, Round.get_trick_count, all_cards.
  cbn [fst snd]. round_fields.
  split; [apply total_zero; intros b Hb; now apply Hfresh|].
  split; [constructor|]. split; [reflexivity|].
  rewrite hands_empty by (intros b Hb; now apply Hfresh).
  cbn [app map List.concat]. now rewrite app_nil_r.
Qed.

Lemma ledger_deal (w : Round.world) (arrangement : list Card.t) :
  NoDup (Round.apprentices (snd w)) ->
  0 <= Round.cards_per_apprentice (snd w) ->
  tricks_in_step (snd w) ->
  table_ok w ->
  Permutation (Deck.cards (Round.deck (snd w))) arrangement ->
  ledger_ok w ->
  ledger_ok (final_state (Round.deal_cards arrangement w)).
Proof.
  intros Hnd Hcpa Htr Hok Hperm Hl.
  destruct (deal_cards_cases w arrangement Hnd Hcpa) as [-> | [Hph [-> | Hd]]];
    [exact Hl | |].
  - destruct Hl as [L1 [L2 [L3 L4]]].
    unfold ledger_ok, tricks_won_total, Round.get_trick_count, all_cards in *.
    cbn [fst snd]. round_fields.
    split; [exact L1|]. split; [exact L2|]. split; [exact L3|].
    eapply Permutation_trans; [|exact L4].
    apply Permutation_app_head, Permutation_app_head, Permutation_app_tail.
    apply Permutation_sym. exact Hperm.
  - destruct Hd as [hands [rest [h' [Hcat [Hmap [Hlen [_ [_ ->]]]]]]]].
    unfold tricks_in_step in Htr. unfold table_ok in Hok. rewrite Hph in Htr, Hok.
    destruct Hok as [_ Hempty]. destruct Hl as [L1 [L2 [L3 L4]]].
    unfold ledger_ok, tricks_won_total, Round.get_trick_count, all_cards in *.
    rewrite (L3 Hph), Hph, Htr in *.
    rewrite hands_empty in L4 by exact Hempty.
    cbn [final_state fst snd]. round_fields.
    assert (Hwon : map (fun b => Apprentice.tricks_won (h' b)) (Round.apprentices (snd w))
                   = map (fun b => Apprentice.tricks_won (fst w b))
                         (Round.apprentices (snd w))).
    { rewrite <- (map_map h' Apprentice.tricks_won), Hmap, map_map.
      cbn [Apprentice.tricks_won Apprentice.set_hand].
      rewrite <- (map_map fst (fun b => Apprentice.tricks_won (fst w b))).
      now rewrite combine_fst. }
    assert (Hhands : map (fun b => Apprentice.hand (h' b)) (Round.apprentices (snd w))
                     = hands).
    { rewrite <- (map_map h' Apprentice.hand), Hmap, map_map.
      cbn [Apprentice.hand Apprentice.set_hand].
      rewrite <- (combine_snd (Round.apprentices (snd w)) hands Hlen) at 2.
      apply map_ext_in. intros [b hd] Hb. cbn [fst snd].
      apply in_combine_l in Hb. now rewrite (Hempty b Hb). }
    rewrite Hwon, Hhands, Htr.
    split; [exact L1|]. split; [constructor|]. split; [discriminate|].
    cbn [app map List.concat] in L4 |- *. rewrite app_nil_r in *.
    eapply Permutation_trans; [|exact L4].
    eapply Permutation_trans; [|apply Permutation_sym; exact Hperm].
    rewrite <- Hcat. apply Permutation_app_head. now destruct rest.
Qed.

Lemma perm_play (H H' T D C P : list Card.t) (c : Card.t) :
  Permutation H (c :: H') ->
  Permutation (H' ++ T ++ D ++ (C ++ [c]) ++ P) (H ++ T ++ D ++ C ++ P).
Proof.
  intros Hp. rewrite Hp.
  replace (H' ++ T ++ D ++ (C ++ [c]) ++ P) with ((H' ++ T ++ D ++ C) ++ c :: P)
    by (rewrite <- !app_assoc; reflexivity).
  apply Permutation_sym. simpl. apply Permutation_cons_app.
  now rewrite <- !app_assoc.
Qed.

Lemma perm_file (H H' T D C P : list Card.t) (c : Card.t) :
  Permutation H (c :: H') ->
  Permutation (H' ++ T ++ D ++ [] ++ P ++ (C ++ [c])) (H ++ T ++ D ++ C ++ P).
Proof.
  intros Hp. rewrite Hp.
  replace (H' ++ T ++ D ++ [] ++ P ++ C ++ [c]) with ((H' ++ T ++ D ++ P ++ C) ++ [c])
    by (rewrite <- !app_assoc; reflexivity).
  apply Permutation_sym. simpl. apply Permutation_cons_app.
  rewrite app_nil_r. do 3 apply Permutation_app_head. apply Permutation_app_comm.
Qed.

Lemma ledger_play (w : Round.world) (a : ref) (i : Z) :
  NoDup (Round.apprentices (snd w)) ->
  turn_ok (snd w) ->
  table_ok w ->
  ledger_ok w ->
  ledger_ok (final_state (Round.play_card a i w)).
Proof.
  intros Hnd Hturn Hok Hl.
  destruct (play_card_cases w a i Hnd Hturn Hok)
    as [[-> | ->] | [trick [card [l [rest [Hph [Htrick [Hrot [Hseat [Hn [_ Hcases]]]]]]]]]]];
    [exact Hl | exact Hl |].
  destruct Hl as [L1 [L2 [L3 L4]]].
  pose proof (hands_take (fst w) a (Z.to_nat i) card _ Hnd Hseat Hn) as Hhands.
  unfold all_cards in L4. rewrite Hph, Htrick in L4.
  cbv zeta in Hcases.
  destruct Hcases as [[_ ->] | [-> [done [win [j [D1 [D2 [Hwin [_ Hcases]]]]]]]]].
  - unfold ledger_ok, tricks_won_total, Round.get_trick_count, all_cards in *.
    cbn [final_state fst snd]. round_fields. rewrite Hph.
    split.
    { rewrite <- L1. f_equal. apply map_ext. intros b. apply tricks_won_after_play. }
    split; [exact L2|]. split; [intros E; discriminate E|].
    eapply Permutation_trans; [|exact L4].
    unfold cards_of at 1. cbn [Trick.cards_played]. rewrite map_app.
    change (map snd [(a, card)]) with [card].
    apply perm_play. exact Hhands.
  - set (h1 := heap_set a (Apprentice.set_hand
                             (remove_nth (Z.to_nat i) (Apprentice.hand (fst w a)))
                             (fst w a)) (fst w)) in *.
    set (h2 := heap_set win (Apprentice.set_tricks_won
                               (Apprentice.tricks_won (h1 win) + 1) (h1 win)) h1) in *.
    assert (Hdone : trick_done (snd w) done).
    { split; [exact D1|]. rewrite D2, map_app. simpl map.
      eapply Permutation_trans; [apply Permutation_sym, Permutation_cons_append|].
      simpl in Hrot. rewrite Hrot. apply rotate_perm. }
    assert (Hwon : fold_right Z.add 0
                     (map (fun b => Apprentice.tricks_won (h2 b))
                          (Round.apprentices (snd w)))
                   = len (Round.tricks_played (snd w) ++ [done])).
    { rewrite len_app. unfold len at 2. simpl List.length.
      unfold tricks_won_total, Round.get_trick_count in L1. rewrite <- L1.
      apply (total_bump _ _ win); [exact Hnd | exact Hwin | |]; unfold h2.
      - intros b Hb. rewrite heap_set_other by exact Hb. apply tricks_won_after_play.
      - rewrite heap_set_same. cbn [Apprentice.tricks_won Apprentice.set_tricks_won].
        unfold h1. now rewrite tricks_won_after_play. }
    assert (Hfiled : Forall (trick_done (snd w)) (Round.tricks_played (snd w) ++ [done]))
      by (apply Forall_app; split; [exact L2 | now constructor]).
    assert (Hcards : Permutation
              (List.concat (map (fun b => Apprentice.hand (h2 b))
                                (Round.apprentices (snd w)))
               ++ match Round.trump_card (snd w) with
                  | Some c => [c]
                  | None => []
                  end
               ++ Deck.cards (Round.deck (snd w))
               ++ []
               ++ List.concat (map cards_of (Round.tricks_played (snd w) ++ [done])))
              (Deck.cards Deck.init)).
    { eapply Permutation_trans; [|exact L4].
      rewrite map_app, concat_app. cbn [map List.concat]. rewrite app_nil_r.
      unfold cards_of at 2. rewrite D2, map_app.
      change (map snd [(a, card)]) with [card].
      replace (map (fun b => Apprentice.hand (h2 b)) (Round.apprentices (snd w)))
        with (map (fun b => Apprentice.hand (h1 b)) (Round.apprentices (snd w)))
        by (apply map_ext; intros b; symmetry; apply hand_after_win).
      apply perm_file. exact Hhands. }
    destruct Hcases as [[_ ->] | [_ ->]];
      unfold ledger_ok, tricks_won_total, Round.get_trick_count, all_cards;
      cbn [final_state fst snd]; round_fields; rewrite ?Hph;
      (split; [exact Hwon|]); (split; [exact Hfiled|]);
      (split; [intros E; discriminate E|]); exact Hcards.
Qed.

Lemma reachable_ledger (w : Round.world) :
  Round.reachable w ->
  NoDup (Round.apprentices (snd w)) -> 1 <= Round.round_number (snd w) ->
  ledger_ok w.
Proof.
  revert w. apply reachable_invariant.
  - intros h n apprentices dealer r Hfresh Hi _ _. exact (ledger_init h n _ _ r Hfresh Hi).
  - intros w w' Hr Hnd Hn IH
           [[arr [Hperm ->]] | [[c ->] | [[a [p ->]] | [[a [i ->]] | ->]]]].
    + destruct (reachable_tricks_in_step w Hr Hn) as [Hc Htr].
      apply ledger_deal; try assumption; [lia | now apply reachable_table_ok].
    + destruct (set_dealer_chosen_trump_cases w c) as [-> | ->]; [exact IH|].
      apply (ledger_frame w); try reflexivity; [now intros b | auto | exact IH].
    + destruct (make_prediction_cases w a p (reachable_turn_ok w Hr))
        as [[_ ->] | [Hph [_ [[_ ->] | [_ [first ->]]]]]]; [exact IH | |];
        cbn [final_state]; apply (ledger_frame w); round_fields; try reflexivity;
        try exact IH;
        try (intros b; cbn [fst]; split;
             [apply hand_after_predict | apply tricks_won_after_predict]).
      * auto.
      * now rewrite Hph.
      * intros E. discriminate E.
    + apply ledger_play; [exact Hnd | now apply reachable_turn_ok | | exact IH].
      now apply reachable_table_ok.
    + destruct (score_round_cases w) as [Hf [Hs | [Hph Hs]]];
        apply (ledger_frame w); rewrite ?Hs; round_fields; try reflexivity; try exact IH;
        try (intros b; destruct (Hf b) as [F1 [_ F3]]; now split).
      * auto.
      * now rewrite Hph.
      * intros E. discriminate E.
Qed.

(** ** The round: no state is a dead end *)

Lemma len_snoc {A} (l : list A) (x : A) : len (l ++ [x]) = len l + 1.
Proof. rewrite len_app. unfold len at 2. simpl List.length. lia. Qed.

Lemma proceeds_trans (w1 w2 w3 : Round.world) :
  proceeds w1 w2 -> proceeds w2 w3 -> proceeds w1 w3.
Proof.
  induction 1 as [w | w arr t w' w'' Hp Hd _ IH | w a p w' w'' Hm _ IH
                 | w a i w' w'' Hm _ IH | w pts w' w'' Hm _ IH]; intros H3.
  - exact H3.
  - exact (proceeds_deal w arr t w' w3 Hp Hd (IH H3)).
  - exact (proceeds_predict w a p w' w3 Hm (IH H3)).
  - exact (proceeds_play w a i w' w3 Hm (IH H3)).
  - exact (proceeds_score w pts w' w3 Hm (IH H3)).
Qed.

Lemma proceeds_reachable (w w' : Round.world) :
  proceeds w w' ->
  Round.reachable w ->
  Round.reachable w' /\ setup (snd w') = setup (snd w).
Proof.
  induction 1 as [w | w arr t w' w'' Hp Hd _ IH | w a p w' w'' Hm _ IH
                 | w a i w' w'' Hm _ IH | w pts w' w'' Hm _ IH]; intros Hr.
  - now split.
  - pose proof (Round.reach_deal w arr Hr Hp) as R.
    destruct (step_summary w _ (step_deal w arr)) as [S _].
    rewrite Hd in R, S. cbn [final_state] in R, S. destruct (IH R) as [R' S']. split; [exact R' | congruence].
  - pose proof (Round.reach_predict w a p Hr) as R.
    destruct (step_summary w _ (step_predict w a p)) as [S _].
    rewrite Hm in R, S. cbn [final_state] in R, S. destruct (IH R) as [R' S']. split; [exact R' | congruence].
  - pose proof (Round.reach_play w a i Hr) as R.
    destruct (step_summary w _ (step_play w a i)) as [S _].
    rewrite Hm in R, S. cbn [final_state] in R, S. destruct (IH R) as [R' S']. split; [exact R' | congruence].
  - pose proof (Round.reach_score w Hr) as R.
    destruct (step_summary w _ (step_score w)) as [S _].
    rewrite Hm in R, S. cbn [final_state] in R, S. destruct (IH R) as [R' S']. split; [exact R' | congruence].
Qed.

Lemma scoring_completes (w : Round.world) :
  Round.reachable w ->
  NoDup (Round.apprentices (snd w)) -> 1 <= Round.round_number (snd w) ->
  Round.phase (snd w) = SCORING ->
  exists h' points,
    Round.score_round w = Returns (h', Round.set_phase COMPLETE (snd w)) points /\
    map fst points = Round.apprentices (snd w).
Proof.
  intros Hr Hnd Hn Hph.
  pose proof (reachable_predicted w Hr Hnd Hn) as Hpred.
  unfold predicted in Hpred. rewrite Hph in Hpred.
  destruct w as [h r]. cbn [fst snd] in *.
  destruct (score_each_returns r (Round.apprentices r) h [] Hnd)
    as [h' [pts [H1 [H2 _]]]]; [intros a _ [] | exact Hpred |].
  exists h', pts. split; [|exact H2].
  unfold Round.score_round, bind, Round.self_. cbn [fst snd].
  rewrite Hph, RoundPhase_eqb_refl. cbv beta iota delta [negb].
  rewrite H1. reflexivity.
Qed.

Lemma plays_left_positive (w : Round.world) :
  Round.reachable w ->
  NoDup (Round.apprentices (snd w)) -> 1 <= Round.round_number (snd w) ->
  Round.phase (snd w) = PLAYING ->
  1 <= plays_left (snd w).
Proof.
  intros Hr Hnd Hn Hph.
  destruct (playing_table w Hr Hnd Hn Hph)
    as [trick [a [waiting [Htrick [_ [_ [_ [_ [Hlen _]]]]]]]]].
  destruct (reachable_tricks_in_step w Hr Hn) as [_ Htr].
  unfold tricks_in_step in Htr. rewrite Hph in Htr.
  unfold plays_left, Round.get_tricks_remaining. rewrite Htrick.
  pose proof (len_nonneg waiting). pose proof (len_nonneg (Trick.cards_played trick)).
  assert (1 * len (Round.apprentices (snd w))
          <= (Round.cards_per_apprentice (snd w) - len (Round.tricks_played (snd w)))
             * len (Round.apprentices (snd w)))
    by (apply Z.mul_le_mono_nonneg_r; lia).
  lia.
Qed.

(** One accepted play: the round moves to Scoring, or stays in Playing
    with one card fewer to play. *)
Lemma play_one (w : Round.world) :
  Round.reachable w ->
  NoDup (Round.apprentices (snd w)) -> 1 <= Round.round_number (snd w) ->
  Round.phase (snd w) = PLAYING ->
  exists a i w',
    Round.play_card a i w = Returns w' true /\
    (Round.phase (snd w') = SCORING \/
     Round.phase (snd w') = PLAYING /\ plays_left (snd w') = plays_left (snd w) - 1).
Proof.
  intros Hr Hnd Hn Hph.
  destruct (playing_table w Hr Hnd Hn Hph)
    as [trick [a [waiting [Htrick [Hc [Ha [Hrot [Hfresh [Hlen [Hsub [Hwf Hhands]]]]]]]]]]].
  destruct (Hhands a (proj2 (seated_nonempty _ _ _ Ha))) as [Hawf Halen].
  unfold cards_left, Round.get_tricks_remaining in Halen.
  rewrite (proj2 (dict_mem_false _ _) Hfresh) in Halen.
  destruct (reachable_tricks_in_step w Hr Hn) as [_ Htr].
  unfold tricks_in_step in Htr. rewrite Hph in Htr.
  destruct (playable_nonempty (fst w a) (Trick.leading_color trick)) as [i Hi].
  { intros E. rewrite E in Halen. unfold len in Halen at 1. simpl in Halen. lia. }
  apply mem_In in Hi.
  destruct (play_card_accepted w a i trick Hph Ha Htrick Hc Hfresh Hi Hwf Hawf Hsub)
    as [w' Hplay].
  exists a, i, w'. split; [exact Hplay|].
  destruct (play_card_cases w a i Hnd (reachable_turn_ok w Hr)
                            (reachable_table_ok w Hr Hnd Hn))
    as [[E | E] | [trick' [card [l [rest [_ [Htrick' [_ [_ [_ [Hlen' Hcases]]]]]]]]]]];
    [rewrite E in Hplay; discriminate Hplay | rewrite E in Hplay; discriminate Hplay |].
  rewrite Htrick in Htrick'. injection Htrick' as <-.
  cbv zeta in Hcases. unfold plays_left, Round.get_tricks_remaining. rewrite Htrick.
  destruct Hcases as [[_ E] | [-> [done [win [j [_ [_ [_ [_ [[_ E] | [_ E]]]]]]]]]]];
    rewrite E in Hplay; injection Hplay as <-; round_fields.
  - right. split; [exact Hph|]. cbn [Trick.cards_played].
    rewrite len_snoc. lia.
  - now left.
  - right. split; [exact Hph|]. cbn [Trick.cards_played Trick.init].
    rewrite len_snoc. change (len (@nil ref)) with 0 in Hlen'.
    change (len (@nil (ref * Card.t))) with 0. nia.
Qed.

Lemma playing_reaches_scoring (k : nat) :
  forall w,
    Round.reachable w ->
    NoDup (Round.apprentices (snd w)) -> 1 <= Round.round_number (snd w) ->
    Round.phase (snd w) = PLAYING ->
    plays_left (snd w) <= Z.of_nat k ->
    exists w', proceeds w w' /\ Round.phase (snd w') = SCORING.
Proof.
  induction k as [|k IH]; intros w Hr Hnd Hn Hph Hk.
  - pose proof (plays_left_positive w Hr Hnd Hn Hph). lia.
  - destruct (play_one w Hr Hnd Hn Hph) as [a [i [w' [Hplay Hnext]]]].
    assert (Hp : proceeds w w') by (eapply proceeds_play; [exact Hplay | constructor]).
    destruct Hnext as [Hs | [Hph' Hless]]; [now exists w'|].
    destruct (proceeds_reachable w w' Hp Hr) as [Hr' Hset]. unfold setup in Hset.
    destruct (IH w' Hr') as [w'' [Hp' Hs]];
      [congruence | congruence | exact Hph' | lia |].
    exists w''. split; [exact (proceeds_trans _ _ _ Hp Hp') | exact Hs].
Qed.

Lemma prediction_after_predict (h : heap) (a b : ref) (p : option Z) :
  b <> a ->
  Apprentice.prediction (heap_set a (Apprentice.set_prediction p (h a)) h b)
  = Apprentice.prediction (h b).
Proof. intros Hne. now rewrite heap_set_other. Qed.

(** The apprentices of [todo] predict 0 one after the other; the
    prediction that leaves nobody without one starts the play. *)
Lemma predicting_reaches_playing (todo : list ref) :
  forall w,
    Round.reachable w ->
    Round.phase (snd w) = PREDICTING ->
    0 <= Round.cards_per_apprentice (snd w) ->
    (forall b, In b (Round.apprentices (snd w)) ->
               In b todo \/ Apprentice.prediction (fst w b) <> None) ->
    exists w', proceeds w w' /\ Round.phase (snd w') = PLAYING.
Proof.
  induction todo as [|b todo IH]; intros w Hr Hph Hcpa Hall.
  - destruct (reachable_turn_ok w Hr) as [Hidx Ht].
    destruct (py_getitem_in_range _ _ Hidx) as [b Hb].
    destruct (make_prediction_cases w b 0 (conj Hidx Ht))
      as [[[E | E] _] | [_ [_ [[Hf _] | [_ [first E]]]]]]; try contradiction; try lia.
    + apply not_true_iff_false in Hf. exfalso. apply Hf.
      apply all_predicted_after. intros c Hc.
      destruct (Hall c Hc) as [[] | H]; now right.
    + eexists. split; [eapply proceeds_predict; [exact E | constructor] | reflexivity].
  - destruct (make_prediction_cases w b 0 (reachable_turn_ok w Hr))
      as [[[E | E] _] | [_ [_ [[Hf E] | [_ [first E]]]]]]; try contradiction; try lia.
    + pose proof (Round.reach_predict w b 0 Hr) as Hr'. rewrite E in Hr'.
      cbn [final_state] in Hr'.
      destruct (IH _ Hr') as [w' [Hp Hw']]; [exact Hph | exact Hcpa | |].
      * cbn [fst snd]. intros c Hc.
        destruct (Nat.eq_dec c b) as [->|Hne];
          [right; rewrite heap_set_same; discriminate|].
        rewrite prediction_after_predict by exact Hne.
        destruct (Hall c Hc) as [[Hcb | Hin] | H]; [congruence | now left | now right].
      * exists w'. split; [exact (proceeds_predict w b 0 _ w' E Hp) | exact Hw'].
    + eexists. split; [eapply proceeds_predict; [exact E | constructor] | reflexivity].
Qed.

Lemma dealing_reaches_predicting (w : Round.world) (arrangement : list Card.t) :
  Round.reachable w ->
  NoDup (Round.apprentices (snd w)) -> 1 <= Round.round_number (snd w) ->
  Round.phase (snd w) = DEALING ->
  len (Round.apprentices (snd w)) * Round.cards_per_apprentice (snd w) <= 60 ->
  Permutation (Deck.cards (Round.deck (snd w))) arrangement ->
  exists w' trump,
    Round.deal_cards arrangement w = Returns w' trump /\
    Round.phase (snd w') = PREDICTING.
Proof.
  intros Hr Hnd Hn Hph Hfit Hperm.
  destruct (reachable_tricks_in_step w Hr Hn) as [Hc Htr].
  unfold tricks_in_step in Htr. rewrite Hph in Htr.
  pose proof (reachable_table_ok w Hr Hnd Hn) as Hok.
  unfold table_ok in Hok. rewrite Hph in Hok. destruct Hok as [_ Hempty].
  destruct (reachable_ledger w Hr Hnd Hn) as [_ [_ [L3 L4]]].
  unfold all_cards in L4. rewrite (L3 Hph), Hph, Htr, hands_empty in L4 by exact Hempty.
  cbn [app map List.concat] in L4. rewrite app_nil_r in L4.
  assert (Hlen : len arrangement = 60).
  { rewrite <- deck_has_60_cards. unfold len. f_equal.
    rewrite <- (Permutation_length Hperm). exact (Permutation_length L4). }
  destruct w as [h r]. cbn [fst snd] in *.
  destruct (deal_cards_returns h r arrangement Hph Hnd) as [hands [rest [h' H]]];
    [lia | lia |].
  destruct H as [_ [_ [_ [_ [_ Hdeal]]]]]. rewrite Hdeal.
  destruct rest; eexists; eexists; split; reflexivity.
Qed.

Lemma completes_from_scoring (w : Round.world) :
  Round.reachable w ->
  NoDup (Round.apprentices (snd w)) -> 1 <= Round.round_number (snd w) ->
  Round.phase (snd w) = SCORING ->
  exists w', proceeds w w' /\ Round.phase (snd w') = COMPLETE.
Proof.
  intros Hr Hnd Hn Hph.
  destruct (scoring_completes w Hr Hnd Hn Hph) as [h' [pts [Hs _]]].
  eexists. split; [eapply proceeds_score; [exact Hs | constructor] | reflexivity].
Qed.

Lemma completes_from_playing (w : Round.world) :
  Round.reachable w ->
  NoDup (Round.apprentices (snd w)) -> 1 <= Round.round_number (snd w) ->
  Round.phase (snd w) = PLAYING ->
  exists w', proceeds w w' /\ Round.phase (snd w') = COMPLETE.
Proof.
  intros Hr Hnd Hn Hph.
  destruct (playing_reaches_scoring (Z.to_nat (plays_left (snd w))) w Hr Hnd Hn Hph)
    as [w1 [Hp1 Hs]]; [lia|].
  destruct (proceeds_reachable w w1 Hp1 Hr) as [Hr1 Hset]. unfold setup in Hset.
  destruct (completes_from_scoring w1 Hr1) as [w2 [Hp2 Hc]];
    [congruence | congruence | exact Hs |].
  exists w2. split; [exact (proceeds_trans _ _ _ Hp1 Hp2) | exact Hc].
Qed.

Lemma completes_from_predicting (w : Round.world) :
  Round.reachable w ->
  NoDup (Round.apprentices (snd w)) -> 1 <= Round.round_number (snd w) ->
  Round.phase (snd w) = PREDICTING ->
  exists w', proceeds w w' /\ Round.phase (snd w') = COMPLETE.
Proof.
  intros Hr Hnd Hn Hph.
  destruct (reachable_tricks_in_step w Hr Hn) as [Hc _].
  destruct (predicting_reaches_playing (Round.apprentices (snd w)) w Hr Hph)
    as [w1 [Hp1 Hs]]; [lia | now left |].
  destruct (proceeds_reachable w w1 Hp1 Hr) as [Hr1 Hset]. unfold setup in Hset.
  destruct (completes_from_playing w1 Hr1) as [w2 [Hp2 Hc2]];
    [congruence | congruence | exact Hs |].
  exists w2. split; [exact (proceeds_trans _ _ _ Hp1 Hp2) | exact Hc2].
Qed.

(** No card is lost, duplicated or made up.  In every state a round of
    distinct apprentices can reach, the hands of the seated
    apprentices, the trump card, the rest of the deck, the trick in
    progress and the completed tricks hold between them exactly the
    cards of the deck the round started with, all 60 of them. *)
Theorem cards_are_conserved (w : Round.world) :
  Round.reachable w ->
  NoDup (Round.apprentices (snd w)) ->
  1 <= Round.round_number (snd w) ->
  Permutation (all_cards w) (Deck.cards Deck.init) /\ len (all_cards w) = 60.
Proof.
  intros Hr Hnd Hn. destruct (reachable_ledger w Hr Hnd Hn) as [_ [_ [_ L4]]].
  split; [exact L4|]. rewrite <- deck_has_60_cards. unfold len. f_equal.
  exact (Permutation_length L4).
Qed.

(** The tricks won add up to the tricks played.  In every state a
    round of distinct apprentices can reach, the [tricks_won] of the
    seated apprentices sum to [Round.get_trick_count], every trick in
    [tricks_played] is complete and holds exactly one card from each
    seated apprentice, and once the round is in Scoring or Complete the
    sum is [cards_per_apprentice]. *)
Theorem tricks_won_add_up (w : Round.world) :
  Round.reachable w ->
  NoDup (Round.apprentices (snd w)) ->
  1 <= Round.round_number (snd w) ->
  tricks_won_total w = Round.get_trick_count (snd w) /\
  Forall (trick_done (snd w)) (Round.tricks_played (snd w)) /\
  (Round.phase (snd w) = SCORING \/ Round.phase (snd w) = COMPLETE ->
   tricks_won_total w = Round.cards_per_apprentice (snd w)).
Proof.
  intros Hr Hnd Hn. destruct (reachable_ledger w Hr Hnd Hn) as [L1 [L2 _]].
  split; [exact L1|]. split; [exact L2|]. intros Hph. rewrite L1.
  destruct (reachable_tricks_in_step w Hr Hn) as [_ Htr].
  unfold tricks_in_step in Htr. unfold Round.get_trick_count.
  destruct Hph as [Hph | Hph]; rewrite Hph in Htr; exact Htr.
Qed.

(** Nobody plays without a prediction, and the scoring cannot fail.
    In every state a round of distinct apprentices can reach from the
    Playing phase on, each seated apprentice has a prediction; so in
    Scoring [Round.score_round] returns, with one entry per seated
    apprentice in seating order, and moves the round to Complete. *)
Theorem score_round_succeeds (w : Round.world) :
  Round.reachable w ->
  NoDup (Round.apprentices (snd w)) ->
  1 <= Round.round_number (snd w) ->
  (Round.phase (snd w) = PLAYING \/ Round.phase (snd w) = SCORING \/
   Round.phase (snd w) = COMPLETE ->
   forall b, In b (Round.apprentices (snd w)) ->
             Apprentice.prediction (fst w b) <> None) /\
  (Round.phase (snd w) = SCORING ->
   exists h' points,
     Round.score_round w = Returns (h', Round.set_phase COMPLETE (snd w)) points /\
     map fst points = Round.apprentices (snd w)).
Proof.
  intros Hr Hnd Hn. split.
  - pose proof (reachable_predicted w Hr Hnd Hn) as Hp. unfold predicted in Hp.
    intros [Hph | [Hph | Hph]]; rewrite Hph in Hp; exact Hp.
  - now apply scoring_completes.
Qed.

(** A round the deck suffices for can always be dealt.  In every
    Dealing state a round of distinct apprentices can reach, the deck
    still holds all 60 cards, so if cards for everybody make at most 60
    [Round.deal_cards] returns and moves the round to Predicting,
    whatever order the shuffle leaves the deck in. *)
Theorem deal_cards_succeeds (w : Round.world) (arrangement : list Card.t) :
  Round.reachable w ->
  NoDup (Round.apprentices (snd w)) ->
  1 <= Round.round_number (snd w) ->
  Round.phase (snd w) = DEALING ->
  len (Round.apprentices (snd w)) * Round.cards_per_apprentice (snd w) <= 60 ->
  Permutation (Deck.cards (Round.deck (snd w))) arrangement ->
  len (Deck.cards (Round.deck (snd w))) = 60 /\
  exists w' trump,
    Round.deal_cards arrangement w = Returns w' trump /\
    Round.phase (snd w') = PREDICTING.
Proof.
  intros Hr Hnd Hn Hph Hfit Hperm. split.
  - destruct (reachable_tricks_in_step w Hr Hn) as [_ Htr].
    unfold tricks_in_step in Htr. rewrite Hph in Htr.
    pose proof (reachable_table_ok w Hr Hnd Hn) as Hok.
    unfold table_ok in Hok. rewrite Hph in Hok. destruct Hok as [_ Hempty].
    destruct (reachable_ledger w Hr Hnd Hn) as [_ [_ [L3 L4]]].
    unfold all_cards in L4. rewrite (L3 Hph), Hph, Htr, hands_empty in L4 by exact Hempty.
    cbn [app map List.concat] in L4. rewrite app_nil_r in L4.
    rewrite <- deck_has_60_cards. unfold len. f_equal. exact (Permutation_length L4).
  - now apply dealing_reaches_predicting.
Qed.

(** No state is a dead end.  From every state a round of distinct
    apprentices can reach, provided the deck suffices if the deal is
    still to come (seats times round number at most 60), some sequence
    of calls that
    all go through (a deal, accepted predictions, accepted plays,
    the scoring) takes the round to Complete. *)
Theorem round_runs_to_completion (w : Round.world) :
  Round.reachable w ->
  NoDup (Round.apprentices (snd w)) ->
  1 <= Round.round_number (snd w) ->
  (Round.phase (snd w) = DEALING ->
   len (Round.apprentices (snd w)) * Round.round_number (snd w) <= 60) ->
  exists w', proceeds w w' /\ Round.phase (snd w') = COMPLETE.
Proof.
  intros Hr Hnd Hn Hfit.
  destruct (Round.phase (snd w)) eqn:Hph.
  - destruct (reachable_tricks_in_step w Hr Hn) as [Hc _].
    destruct (dealing_reaches_predicting w (Deck.cards (Round.deck (snd w))) Hr Hnd Hn Hph)
      as [w1 [trump [Hd Hs]]]; [rewrite Hc; now apply Hfit | apply Permutation_refl |].
    assert (Hp1 : proceeds w w1)
      by (eapply proceeds_deal; [apply Permutation_refl | exact Hd | constructor]).
    destruct (proceeds_reachable w w1 Hp1 Hr) as [Hr1 Hset]. unfold setup in Hset.
    destruct (completes_from_predicting w1 Hr1) as [w2 [Hp2 Hc2]];
      [congruence | congruence | exact Hs |].
    exists w2. split; [exact (proceeds_trans _ _ _ Hp1 Hp2) | exact Hc2].
  - now apply completes_from_predicting.
  - now apply completes_from_playing.
  - now apply completes_from_scoring.
  - exists w. split; [constructor | exact Hph].
Qed.

Lemma cards_are_conserved_witness :
  Permutation (all_cards wizard_led) (Deck.cards Deck.init) /\
  len (all_cards wizard_led) = 60.
Proof.
  apply (cards_are_conserved wizard_led wizard_led_reachable wizard_led_seats
                             wizard_led_number).
Defined.

Lemma round_one_played_seats : NoDup (Round.apprentices (snd round_one_played)).
Proof.
  rewrite (proj1 (proj2 round_one_played_facts)). exact three_seats_distinct.
Qed.

Lemma tricks_won_add_up_witness :
  tricks_won_total round_one_played = Round.get_trick_count (snd round_one_played) /\
  Forall (trick_done (snd round_one_played)) (Round.tricks_played (snd round_one_played)) /\
  (Round.phase (snd round_one_played) = SCORING \/
   Round.phase (snd round_one_played) = COMPLETE ->
   tricks_won_total round_one_played = Round.cards_per_apprentice (snd round_one_played)).
Proof.
  apply (tricks_won_add_up round_one_played round_one_played_reachable
                           round_one_played_seats round_one_number).
Defined.

Lemma score_round_succeeds_witness :
  (Round.phase (snd round_one_played) = PLAYING \/
   Round.phase (snd round_one_played) = SCORING \/
   Round.phase (snd round_one_played) = COMPLETE ->
   forall b, In b (Round.apprentices (snd round_one_played)) ->
             Apprentice.prediction (fst round_one_played b) <> None) /\
  (Round.phase (snd round_one_played) = SCORING ->
   exists h' points,
     Round.score_round round_one_played
     = Returns (h', Round.set_phase COMPLETE (snd round_one_played)) points /\
     map fst points = Round.apprentices (snd round_one_played)).
Proof.
  apply (score_round_succeeds round_one_played round_one_played_reachable
                              round_one_played_seats round_one_number).
Defined.

Lemma deal_cards_succeeds_witness :
  len (Deck.cards (Round.deck (snd (seated 1 0)))) = 60 /\
  exists w' trump,
    Round.deal_cards (Deck.cards Deck.init) (seated 1 0) = Returns w' trump /\
    Round.phase (snd w') = PREDICTING.
Proof.
  apply (deal_cards_succeeds (seated 1 0) (Deck.cards Deck.init) (seated_reachable 1 0)).
  - exact three_seats_distinct.
  - simpl. lia.
  - reflexivity.
  - simpl. lia.
  - apply Permutation_refl.
Defined.

Lemma round_runs_to_completion_witness :
  exists w', proceeds (seated 1 0) w' /\ Round.phase (snd w') = COMPLETE.
Proof.
  apply (round_runs_to_completion (seated 1 0) (seated_reachable 1 0)).
  - exact three_seats_distinct.
  - simpl. lia.
  - intros _. simpl. lia.
Defined.

(** ** The game: what a round leaves alone *)

Lemma sp_ret {X A} (f : Apprentice.t -> X) (a : A) : spares f (ret a).
Proof. intros w b. reflexivity. Qed.

Lemma sp_raise {X A} (f : Apprentice.t -> X) (e : exn) :
  spares f (@raise Round.world A e).
Proof. intros w b. reflexivity. Qed.

Lemma sp_lift {X A} (f : Apprentice.t -> X) (r : result A) : spares f (lift r).
Proof. intros w b. unfold lift. destruct r; reflexivity. Qed.

Lemma sp_self {X} (f : Apprentice.t -> X) : spares f Round.self_.
Proof. intros w b. reflexivity. Qed.

Lemma sp_heap {X} (f : Apprentice.t -> X) : spares f Round.the_heap.
Proof. intros w b. reflexivity. Qed.

Lemma sp_update {X} (f : Apprentice.t -> X) (g : Round.t -> Round.t) :
  spares f (Round.update g).
Proof. intros w b. reflexivity. Qed.

Lemma sp_bind {X A B} (f : Apprentice.t -> X) (m : M Round.world A)
    (k : A -> M Round.world B) :
  spares f m -> (forall x, spares f (k x)) -> spares f (bind m k).
Proof.
  intros Hm Hk w b. unfold bind. specialize (Hm w b).
  destruct (m w) as [s x|s e]; simpl in Hm |- *; [|exact Hm].
  now rewrite Hk.
Qed.

Lemma sp_on_apprentice {X A} (f : Apprentice.t -> X) (r : ref) (m : M Apprentice.t A) :
  (forall a, f (final_state (m a)) = f a) -> spares f (Round.on_apprentice r m).
Proof.
  intros Hm w b. unfold Round.on_apprentice, zoom, at_ref, zoom.
  specialize (Hm (fst w r)).
  destruct (m (fst w r)) as [a x|a e]; cbn [final_state fst] in *;
    (destruct (Nat.eq_dec b r) as [->|Hne];
     [now rewrite heap_set_same | now rewrite heap_set_other]).
Qed.

Lemma sp_on_deck {X A} (f : Apprentice.t -> X) (m : M Deck.t A) :
  spares f (Round.on_deck m).
Proof.
  intros w b. unfold Round.on_deck, zoom.
  destruct (m (Round.deck (snd w))); reflexivity.
Qed.

Lemma sp_trick_only {X A} (f : Apprentice.t -> X) (trick : Trick.t) (m : M Trick.t A) :
  spares f (Round.on_trick trick (Round.trick_only m)).
Proof.
  intros w b. unfold Round.on_trick, Round.trick_only, zoom.
  cbn [fst snd]. destruct (m trick); reflexivity.
Qed.

Lemma sp_complete_trick {X} (f : Apprentice.t -> X) (trick : Trick.t) :
  (forall n a, f (Apprentice.set_tricks_won n a) = f a) ->
  spares f (Round.on_trick trick Trick.complete_trick).
Proof.
  intros Hf w b.
  unfold Round.on_trick, Trick.complete_trick, zoom, bind, modify, at_ref, zoom,
    Apprentice.win_trick, modify, ret.
  cbn [fst snd].
  destruct (Trick.determine_winner (Trick.set_is_complete true trick)) as [s [win|]|s e];
    cbn [final_state fst snd]; try reflexivity.
  destruct (Nat.eq_dec b win) as [->|Hne];
    [rewrite heap_set_same; apply Hf | now rewrite heap_set_other].
Qed.

Ltac spares_steps :=
  repeat first
    [ apply sp_bind; [| intros ?]
    | apply sp_ret | apply sp_raise | apply sp_lift | apply sp_self | apply sp_heap
    | apply sp_update | apply sp_on_deck | apply sp_trick_only
    | apply sp_complete_trick; intros ? ?; reflexivity
    | apply sp_on_apprentice; intros ?
    | match goal with
      | |- spares _ (if ?b then _ else _) => destruct b
      | |- spares _ (match ?x with _ => _ end) => destruct x
      | H : forall _, spares _ _ |- _ => apply H
      end ].

Lemma sp_receive_all (hands : list (list Card.t)) (apprentices : list ref) :
  forall i, spares badge (Round.receive_all i apprentices hands).
Proof.
  induction apprentices as [|a rest IH]; intros i; simpl; spares_steps. reflexivity.
Qed.

Lemma sp_deal_cards (arrangement : list Card.t) :
  spares badge (Round.deal_cards arrangement).
Proof.
  unfold Round.deal_cards. spares_steps. apply sp_receive_all.
Qed.

Lemma sp_set_dealer_chosen_trump (color : CardColor) :
  spares badge (Round.set_dealer_chosen_trump color).
Proof. unfold Round.set_dealer_chosen_trump. spares_steps. Qed.

Lemma sp_make_prediction (a : ref) (p : Z) : spares badge (Round.make_prediction a p).
Proof.
  unfold Round.make_prediction, Round._start_first_trick. spares_steps.
  unfold Apprentice.make_prediction. destruct (p <? 0); reflexivity.
Qed.

Lemma sp_play_card (a : ref) (i : Z) : spares badge (Round.play_card a i).
Proof.
  unfold Round.play_card, Round._start_next_trick. spares_steps.
  unfold Apprentice.play_card, bind, get, put, ret.
  destruct ((i <? 0) || _); [reflexivity|].
  destruct (nth_error _ _); reflexivity.
Qed.

Lemma sp_score_each (apprentices : list ref) :
  forall round_points, spares badge (Round.score_each apprentices round_points).
Proof.
  induction apprentices as [|a rest IH]; intros rp; simpl; spares_steps. reflexivity.
Qed.

Lemma sp_score_round : spares badge Round.score_round.
Proof.
  unfold Round.score_round. spares_steps. apply sp_score_each.
Qed.

(** ** The game: the dealer *)

Lemma find_dealer_from (h : heap) (l : list ref) :
  forall i d,
    0 <= d < len l ->
    (forall k b, nth_error l k = Some b ->
                 (Apprentice.is_dealer (h b) = true <-> Z.of_nat k = d)) ->
    find_dealer h i l = Some (i + d).
Proof.
  induction l as [|a l IH]; intros i d Hd Hflag.
  - unfold len in Hd. simpl in Hd. lia.
  - simpl. destruct (Apprentice.is_dealer (h a)) eqn:E.
    + apply (Hflag 0%nat a eq_refl) in E. f_equal. lia.
    + assert (Hne : d <> 0).
      { intros ->. rewrite (proj2 (Hflag 0%nat a eq_refl) eq_refl) in E. discriminate. }
      rewrite len_cons in Hd.
      rewrite (IH (i + 1) (d - 1)); [f_equal; lia | lia |].
      intros k b Hk. rewrite (Hflag (S k) b Hk). lia.
Qed.

Lemma find_dealer_one (h : heap) (l : list ref) (d : Z) :
  one_dealer h l d -> find_dealer h 0 l = Some d.
Proof.
  intros [Hd Hflag]. now rewrite (find_dealer_from h l 0 d Hd Hflag).
Qed.

Lemma one_dealer_badge (h h' : heap) (l : list ref) (d : Z) :
  (forall b, badge (h' b) = badge (h b)) ->
  one_dealer h l d -> one_dealer h' l d.
Proof.
  intros Hb [Hd Hflag]. split; [exact Hd|]. intros k b Hk.
  rewrite <- (Hflag k b Hk).
  specialize (Hb b). unfold badge in Hb. injection Hb as _ -> _. reflexivity.
Qed.

Lemma nth_error_NoDup {A} (l : list A) (i j : nat) (x : A) :
  NoDup l -> nth_error l i = Some x -> nth_error l j = Some x -> i = j.
Proof.
  intros Hnd Hi Hj. rewrite NoDup_nth_error in Hnd. apply Hnd; [|congruence].
  apply nth_error_Some. congruence.
Qed.

(** Flagging the apprentice at seat [d'] and nobody else. *)
Lemma one_dealer_set (h : heap) (l : list ref) (d d' : Z) (old new : ref) :
  NoDup l ->
  one_dealer h l d ->
  py_getitem l d = Ok old ->
  0 <= d' < len l ->
  py_getitem l d' = Ok new ->
  one_dealer
    (heap_set new
       (Apprentice.set_is_dealer true
          (heap_set old (Apprentice.set_is_dealer false (h old)) h new))
       (heap_set old (Apprentice.set_is_dealer false (h old)) h))
    l d'.
Proof.
  intros Hnd [Hd Hflag] Hold Hd' Hnew. split; [exact Hd'|].
  apply py_getitem_inv in Hold; [|lia]. apply py_getitem_inv in Hnew; [|lia].
  intros k b Hk.
  destruct (Nat.eq_dec b new) as [->|Hne].
  - rewrite heap_set_same. cbn [Apprentice.is_dealer Apprentice.set_is_dealer].
    split; [intros _|reflexivity].
    pose proof (nth_error_NoDup l _ _ new Hnd Hk Hnew). lia.
  - rewrite heap_set_other by exact Hne.
    assert (Hk' : Z.of_nat k <> d').
    { intros E. apply Hne. rewrite <- E, Nat2Z.id in Hnew. congruence. }
    destruct (Nat.eq_dec b old) as [->|Hne'].
    + rewrite heap_set_same. cbn [Apprentice.is_dealer Apprentice.set_is_dealer].
      split; [discriminate | contradiction].
    + rewrite heap_set_other by exact Hne'.
      rewrite (Hflag k b Hk). split; [|contradiction].
      intros E. exfalso. apply Hne'. rewrite <- E, Nat2Z.id in Hold. congruence.
Qed.

Lemma rotate_dealer_moves (h : heap) (g : Game.t) (d : Z) :
  NoDup (Game.apprentices g) ->
  one_dealer h (Game.apprentices g) d ->
  exists h',
    Game._rotate_dealer (h, g) = Game.Done (h', g) tt /\
    one_dealer h' (Game.apprentices g) ((d + 1) mod len (Game.apprentices g)) /\
    forall b, exists flag, h' b = Apprentice.set_is_dealer flag (h b).
Proof.
  intros Hnd Hone. pose proof Hone as [Hd _].
  assert (Hnext : 0 <= (d + 1) mod len (Game.apprentices g) < len (Game.apprentices g))
    by (apply Z.mod_pos_bound; lia).
  destruct (py_getitem_in_range _ _ Hd) as [old Hold].
  destruct (py_getitem_in_range _ _ Hnext) as [new Hnew].
  eexists. split; [|split].
  - unfold Game._rotate_dealer, Game.bind, Game.self_, Game.the_heap, Game.lift.
    cbn [fst snd]. rewrite (find_dealer_one _ _ _ Hone), Hold.
    unfold Game.on_apprentice at 1, at_ref, zoom, modify. cbn [fst snd].
    unfold py_mod.
    replace (len (Game.apprentices g) =? 0) with false by (symmetry; apply Z.eqb_neq; lia).
    rewrite Hnew. unfold Game.on_apprentice, at_ref, zoom, modify. cbn [fst snd].
    reflexivity.
  - exact (one_dealer_set h _ d _ old new Hnd Hone Hold Hnext Hnew).
  - intros b. destruct (Nat.eq_dec b new) as [->|Hne].
    + rewrite heap_set_same. destruct (Nat.eq_dec new old) as [->|Hne'].
      * rewrite heap_set_same. now exists true.
      * rewrite heap_set_other by exact Hne'. now exists true.
    + rewrite heap_set_other by exact Hne. destruct (Nat.eq_dec b old) as [->|Hne'].
      * rewrite heap_set_same. now exists false.
      * rewrite heap_set_other by exact Hne'.
        exists (Apprentice.is_dealer (h b)). now destruct (h b).
Qed.

(** ** The game: from one round to the next *)

Lemma reset_all_resets (l : list ref) :
  forall (h : heap) (g : Game.t),
    exists h',
      Game.reset_all l (h, g) = Game.Done (h', g) tt /\
      (forall b, In b l ->
                 Apprentice.hand (h' b) = [] /\
                 Apprentice.prediction (h' b) = None /\
                 Apprentice.tricks_won (h' b) = 0) /\
      (forall b, badge (h' b) = badge (h b) /\
                 Apprentice.experience_points (h' b) = Apprentice.experience_points (h b)) /\
      (forall b, ~ In b l -> h' b = h b).
Proof.
  induction l as [|a l IH]; intros h g.
  - exists h. repeat split; intros; contradiction.
  - set (h1 := heap_set a (Apprentice.set_tricks_won 0
                             (Apprentice.set_prediction None
                                (Apprentice.set_hand [] (h a)))) h).
    destruct (IH h1 g) as [h' [Hrun [Hreset [Hkeep Hout]]]].
    assert (Hsame : forall b, badge (h1 b) = badge (h b) /\
                              Apprentice.experience_points (h1 b)
                              = Apprentice.experience_points (h b)).
    { intros b. unfold h1. destruct (Nat.eq_dec b a) as [->|Hne].
      - rewrite heap_set_same. now split.
      - rewrite heap_set_other by exact Hne. now split. }
    exists h'. split; [|split; [|split]].
    + simpl Game.reset_all. unfold Game.bind, Game.on_apprentice, at_ref, zoom,
        Apprentice.reset_for_new_round, modify. cbn [fst snd]. exact Hrun.
    + intros b [->|Hb]; [|now apply Hreset].
      destruct (in_dec Nat.eq_dec b l) as [Hin|Hnotin]; [now apply Hreset|].
      rewrite (Hout b Hnotin). unfold h1. rewrite heap_set_same. now repeat split.
    + intros b. destruct (Hkeep b) as [K1 K2]. destruct (Hsame b) as [S1 S2].
      split; congruence.
    + intros b Hb. rewrite Hout by (intros Hin; apply Hb; now right).
      unfold h1. rewrite heap_set_other; [reflexivity|]. intros ->. apply Hb. now left.
Qed.

Lemma max_rounds_fit (n m : Z) :
  3 <= n <= 6 -> Game._calculate_max_rounds n = Ok m ->
  10 <= m <= 20 /\ n * m <= 60.
Proof.
  intros Hn H. unfold Game._calculate_max_rounds, py_floordiv in H.
  destruct (Z.eqb_spec n 0); [lia|]. inversion H; subst.
  assert (Hc : n = 3 \/ n = 4 \/ n = 5 \/ n = 6) by lia.
  destruct Hc as [-> | [-> | [-> | ->]]]; vm_compute; repeat split; discriminate.
Qed.

(** Starting a round on apprentices reset for it: the round is
    constructed with the flagged dealer and dealt at once. *)
Lemma start_next_round_deals (h : heap) (g : Game.t) (d : Z) (arrangement : list Card.t) :
  NoDup (Game.apprentices g) ->
  0 <= Game.current_round_number g ->
  len (Game.apprentices g) * (Game.current_round_number g + 1) <= 60 ->
  Round.fresh h (Game.apprentices g) ->
  one_dealer h (Game.apprentices g) d ->
  Permutation (Deck.cards Deck.init) arrangement ->
  exists h' r,
    Game._start_next_round arrangement (h, g)
    = Game.Done (h', Game.set_phase ROUND_IN_PROGRESS
                       (Game.set_current_round (Some r)
                          (Game.set_current_round_number
                             (Game.current_round_number g + 1) g))) tt /\
    Round.reachable (h', r) /\
    Round.phase r = PREDICTING /\
    Round.apprentices r = Game.apprentices g /\
    Round.round_number r = Game.current_round_number g + 1 /\
    Round.dealer_index r = d /\
    (forall b, badge (h' b) = badge (h b) /\
               Apprentice.experience_points (h' b) = Apprentice.experience_points (h b)).
Proof.
  intros Hnd Hcrn Hfit Hfresh Hone Hperm. pose proof Hone as [Hd _].
  set (n := Game.current_round_number g + 1) in *.
  set (r0 := Round.mk n (Game.apprentices g) d n Deck.init None None None []
                      ((d + 1) mod len (Game.apprentices g)) DEALING).
  assert (Hinit : Round.init n (Game.apprentices g) d = Ok r0).
  { unfold Round.init, py_mod.
    now replace (len (Game.apprentices g) =? 0) with false
      by (symmetry; apply Z.eqb_neq; lia). }
  assert (Hlen : len arrangement = 60).
  { rewrite <- deck_has_60_cards. unfold len. f_equal.
    symmetry. exact (Permutation_length Hperm). }
  destruct (deal_cards_returns h r0 arrangement eq_refl Hnd) as [hands [rest [h' H]]];
    [simpl; lia | simpl; lia |].
  destruct H as [_ [_ [_ [Hgot [Hout Hdeal]]]]].
  pose proof (Round.reach_deal (h, r0) arrangement
                (Round.reach_init h n _ d r0 Hfresh Hinit) Hperm) as Hreach.
  pose proof (sp_deal_cards arrangement (h, r0)) as Hbadge.
  assert (Hxp : forall b, Apprentice.experience_points (h' b)
                          = Apprentice.experience_points (h b)).
  { intros b. destruct (in_dec Nat.eq_dec b (Game.apprentices g)) as [Hin|Hnotin].
    - apply In_nth_error in Hin. destruct Hin as [k Hk].
      destruct (Hgot k b Hk) as [hd [_ ->]]. reflexivity.
    - now rewrite (Hout b Hnotin). }
  assert (Hrun : forall r' t,
            Round.deal_cards arrangement (h, r0) = Returns (h', r') t ->
            Game._start_next_round arrangement (h, g)
            = Game.Done (h', Game.set_phase ROUND_IN_PROGRESS
                               (Game.set_current_round (Some r')
                                  (Game.set_current_round_number n g))) tt).
  { intros r' t Hd'.
    unfold Game._start_next_round, Game.bind, Game.update, Game.self_, Game.the_heap,
      Game.lift. cbn [fst snd Game.apprentices Game.set_current_round_number
                       Game.current_round_number].
    rewrite (find_dealer_one _ _ _ Hone). fold n. rewrite Hinit.
    unfold Game.on_round. cbn [fst snd]. rewrite Hd'. reflexivity. }
  rewrite Hdeal in Hreach, Hbadge.
  destruct rest as [|card rest']; cbn [final_state fst] in Hreach, Hbadge;
    eexists; eexists; (split; [eapply Hrun; exact Hdeal|]);
    (split; [exact Hreach|]); repeat (split; [reflexivity|]);
    intros b; (split; [apply Hbadge | apply Hxp]).
Qed.

(** ** The game: construction *)

Lemma create_spec (refs : list ref) :
  forall (names : list string) (h : heap),
    NoDup refs ->
    (forall k r n, nth_error refs k = Some r -> nth_error names k = Some n ->
                   Game.create refs names h r = Apprentice.init n) /\
    (forall b, ~ In b refs -> Game.create refs names h b = h b).
Proof.
  induction refs as [|r refs IH]; intros names h Hnd.
  - split; [intros [|k] ? ? H; discriminate H | reflexivity].
  - inversion Hnd as [|? ? Hnotin Hnd']; subst.
    destruct names as [|n names]; [split; [intros [|k] ? ? ? H; discriminate H|reflexivity]|].
    simpl Game.create.
    destruct (IH names (heap_set r (Apprentice.init n) h) Hnd') as [I1 I2].
    split.
    + intros [|k] r' n' Hr Hn; simpl in Hr, Hn.
      * inversion Hr; inversion Hn; subst.
        rewrite I2 by exact Hnotin. apply heap_set_same.
      * exact (I1 k r' n' Hr Hn).
    + intros b Hb. rewrite I2 by (intros Hin; apply Hb; now right).
      apply heap_set_other. intros ->. apply Hb. now left.
Qed.

Lemma game_init_returns (names : list string) (refs : list ref) (d : Z) (h : heap) :
  NoDup refs ->
  List.length refs = List.length names ->
  3 <= len names <= 6 ->
  0 <= d <= len names - 1 ->
  exists h',
    Game.init names refs d h = Ok (h', Game.mk refs (60 / len refs) 0 None [] SETUP []) /\
    (forall k r n,
       nth_error refs k = Some r -> nth_error names k = Some n ->
       h' r = Apprentice.mk n [] None 0 0 (Z.of_nat k =? d)
                            (Z.of_nat k =? (d + 1) mod len refs)) /\
    (forall b, ~ In b refs -> h' b = h b).
Proof.
  intros Hnd Hlen Hn Hd.
  assert (Hlen' : len refs = len names) by (unfold len; now rewrite Hlen).
  assert (Hd' : 0 <= d < len refs) by lia.
  assert (Hc : 0 <= (d + 1) mod len refs < len refs) by (apply Z.mod_pos_bound; lia).
  destruct (py_getitem_in_range refs d Hd') as [dealer Hdealer].
  destruct (py_getitem_in_range refs _ Hc) as [conf Hconf].
  destruct (create_spec refs names h Hnd) as [C1 C2].
  eexists. split; [|split].
  - unfold Game.init.
    replace ((len names <? 3) || (6 <? len names)) with false
      by (symmetry; apply orb_false_iff; split; apply Z.ltb_ge; lia).
    cbv zeta. rewrite (combine_fst refs names) by (symmetry; exact Hlen).
    rewrite Hdealer. unfold py_mod.
    replace (len refs =? 0) with false by (symmetry; apply Z.eqb_neq; lia).
    rewrite Hconf. unfold Game._calculate_max_rounds, py_floordiv.
    replace (len refs =? 0) with false by (symmetry; apply Z.eqb_neq; lia).
    reflexivity.
  - apply py_getitem_inv in Hdealer; [|lia]. apply py_getitem_inv in Hconf; [|lia].
    intros k r n Hr Hnm.
    assert (Hkd : Z.of_nat k = d <-> r = dealer).
    { split; [intros E; rewrite <- E, Nat2Z.id in Hdealer; congruence|].
      intros ->. pose proof (nth_error_NoDup refs _ _ dealer Hnd Hr Hdealer). lia. }
    assert (Hkc : Z.of_nat k = (d + 1) mod len refs <-> r = conf).
    { split; [intros E; rewrite <- E, Nat2Z.id in Hconf; congruence|].
      intros ->. pose proof (nth_error_NoDup refs _ _ conf Hnd Hr Hconf). lia. }
    destruct (Z.eqb_spec (Z.of_nat k) d) as [E1|E1];
      destruct (Z.eqb_spec (Z.of_nat k) ((d + 1) mod len refs)) as [E2|E2];
      try (apply Hkd in E1; subst dealer); try (apply Hkc in E2; subst conf);
      repeat first [ rewrite heap_set_same
                   | rewrite heap_set_other by (intros E; (apply E1, Hkd, E) || (apply E2, Hkc, E)) ];
      rewrite (C1 k r n Hr Hnm); reflexivity.
  - intros b Hb.
    apply py_getitem_inv in Hdealer; [|lia]. apply py_getitem_inv in Hconf; [|lia].
    rewrite heap_set_other by (intros ->; apply Hb; eapply nth_error_In; exact Hconf).
    rewrite heap_set_other by (intros ->; apply Hb; eapply nth_error_In; exact Hdealer).
    now apply C2.
Qed.

(** ** The game: the invariant *)

Lemma game_ok_created (names : list string) (refs : list ref) (d : Z) (h : heap)
    (w : Game.world) :
  NoDup refs ->
  List.length refs = List.length names ->
  0 <= d <= len names - 1 ->
  Game.init names refs d h = Ok w ->
  game_ok w.
Proof.
  intros Hnd Hlen Hd Hinit.
  assert (Hn : 3 <= len names <= 6).
  { unfold Game.init in Hinit.
    destruct (Z.ltb_spec (len names) 3); [discriminate|].
    destruct (Z.ltb_spec 6 (len names)); [discriminate | lia]. }
  destruct (game_init_returns names refs d h Hnd Hlen Hn Hd) as [h' [E [Hobj _]]].
  rewrite E in Hinit. inversion Hinit. subst w. clear Hinit.
  assert (Hlen' : len refs = len names) by (unfold len; now rewrite Hlen).
  assert (Hname : forall k r, nth_error refs k = Some r ->
                              exists n, nth_error names k = Some n).
  { intros k r Hr. destruct (nth_error names k) as [n|] eqn:En; [now exists n|].
    apply nth_error_None in En. assert (k < List.length refs)%nat; [|lia].
    apply nth_error_Some. congruence. }
  unfold game_ok. cbn [fst snd Game.apprentices Game.max_rounds Game.round_history
                       Game.experience_points_history Game.phase Game.current_round
                       Game.current_round_number].
  split; [exact Hnd|]. split; [lia|].
  split.
  { unfold Game._calculate_max_rounds, py_floordiv.
    now replace (len refs =? 0) with false by (symmetry; apply Z.eqb_neq; lia). }
  split; [intros k Hk; simpl in Hk; lia|]. split; [reflexivity|].
  split; [reflexivity|]. split; [reflexivity|]. split; [reflexivity|].
  split.
  - intros b Hb. apply In_nth_error in Hb. destruct Hb as [k Hk].
    destruct (Hname k b Hk) as [n Hnm]. rewrite (Hobj k b n Hk Hnm). now repeat split.
  - exists d. split; [lia|]. intros k b Hk.
    destruct (Hname k b Hk) as [n Hnm]. rewrite (Hobj k b n Hk Hnm).
    cbn [Apprentice.is_dealer]. apply Z.eqb_eq.
Qed.

(** The three methods that hand a call on to the round in progress. *)
Lemma round_call_cases {A} (op : M Round.world A) (w : Game.world) :
  Game.bind Game.self_
    (fun self =>
       if negb (GamePhase_eqb (Game.phase self) ROUND_IN_PROGRESS)
       then Game.fail (Builtin ValueError)
       else match Game.current_round self with
            | None => Game.fail (Builtin ValueError)
            | Some r => Game.on_round r op
            end) w
  = Game.Failed w (Builtin ValueError) \/
  exists r,
    Game.phase (snd w) = ROUND_IN_PROGRESS /\
    Game.current_round (snd w) = Some r /\
    Game.bind Game.self_
      (fun self =>
         if negb (GamePhase_eqb (Game.phase self) ROUND_IN_PROGRESS)
         then Game.fail (Builtin ValueError)
         else match Game.current_round self with
              | None => Game.fail (Builtin ValueError)
              | Some r => Game.on_round r op
              end) w
    = Game.on_round r op w.
Proof.
  unfold Game.bind, Game.self_, GamePhase_eqb.
  destruct (GamePhase_eq_dec (Game.phase (snd w)) ROUND_IN_PROGRESS) as [E|E];
    [|now left].
  destruct (Game.current_round (snd w)) as [r|]; [right; now exists r | now left].
Qed.

Lemma game_ok_round_step (w : Game.world) (r : Round.t) (w' : Round.world) :
  game_ok w ->
  Game.phase (snd w) = ROUND_IN_PROGRESS ->
  Game.current_round (snd w) = Some r ->
  step (fst w, r) w' ->
  Round.reachable w' ->
  (forall b, badge (fst w' b) = badge (fst w b)) ->
  game_ok (fst w', Game.set_current_round (Some (snd w')) (snd w)).
Proof.
  intros [G1 [G2 [G3 [G4 [G5 G6]]]]] Hph Hr Hs Hreach Hbadge.
  rewrite Hph in G6. destruct G6 as [r0 [E [_ [Hdealt [Happ [Hnum [Hcrn [Hhist Hone]]]]]]]].
  rewrite Hr in E. injection E as <-.
  destruct (step_summary _ _ Hs) as [Hset Hsum]. unfold setup in Hset. cbn [snd] in Hset, Hsum.
  unfold game_ok. cbn [fst snd Game.apprentices Game.max_rounds Game.round_history
                       Game.experience_points_history Game.phase Game.current_round
                       Game.current_round_number Game.set_current_round].
  repeat (split; [assumption|]). rewrite Hph.
  exists (snd w'). split; [reflexivity|]. split; [now destruct w'|].
  split.
  { destruct Hsum as [[P _] | [[_ [P _]] | [[_ [P _]] | [[_ [P _]] | [_ [t [_ P]]]]]]];
      rewrite ?P; try discriminate; [exact Hdealt|].
    destruct P as [[_ P] | [_ P]]; rewrite P; discriminate. }
  split; [congruence|]. split; [congruence|]. split; [exact Hcrn|]. split; [exact Hhist|].
  replace (Round.dealer_index (snd w')) with (Round.dealer_index r) by congruence.
  exact (one_dealer_badge _ _ _ _ Hbadge Hone).
Qed.

Lemma game_ok_round_call {A} (op : M Round.world A) (w : Game.world) :
  game_ok w ->
  (forall v, step v (final_state (op v))) ->
  (forall v, Round.reachable v -> Round.reachable (final_state (op v))) ->
  spares badge op ->
  game_ok (Game.state_after
             (Game.bind Game.self_
                (fun self =>
                   if negb (GamePhase_eqb (Game.phase self) ROUND_IN_PROGRESS)
                   then Game.fail (Builtin ValueError)
                   else match Game.current_round self with
                        | None => Game.fail (Builtin ValueError)
                        | Some r => Game.on_round r op
                        end) w)).
Proof.
  intros Hok Hstep Hreach Hsp.
  destruct (round_call_cases op w) as [-> | [r [Hph [Hr ->]]]]; [exact Hok|].
  pose proof Hok as [_ [_ [_ [_ [_ G6]]]]]. rewrite Hph in G6.
  destruct G6 as [r0 [E [Hr0 _]]]. rewrite Hr in E. injection E as <-.
  pose proof (game_ok_round_step w r (final_state (op (fst w, r))) Hok Hph Hr
                (Hstep _) (Hreach _ Hr0) (Hsp (fst w, r))) as H.
  unfold Game.on_round. destruct (op (fst w, r)); exact H.
Qed.

Ltac game_fields :=
  cbn [fst snd Game.apprentices Game.max_rounds Game.round_history
       Game.experience_points_history Game.phase Game.current_round
       Game.current_round_number Game.set_current_round Game.set_current_round_number
       Game.set_round_history Game.set_phase Game.set_experience_points_history].

Lemma filed_snoc (history : list (option Round.t)) (r : Round.t) :
  filed history ->
  Round.round_number r = len history + 1 ->
  Round.phase r = COMPLETE ->
  filed (history ++ [Some r]).
Proof.
  intros Hf Hn Hp k Hk. rewrite length_app in Hk. simpl in Hk.
  destruct (Nat.eq_dec k (List.length history)) as [->|Hne].
  - exists r. rewrite nth_error_app2, Nat.sub_diag by lia. now repeat split.
  - destruct (Hf k) as [r' [H1 H2]]; [lia|].
    exists r'. rewrite nth_error_app1 by lia. now split.
Qed.

Lemma end_round_returns (w : Game.world) (r : Round.t) (arrangement : list Card.t) :
  game_ok w ->
  Game.phase (snd w) = ROUND_IN_PROGRESS ->
  Game.current_round (snd w) = Some r ->
  Round.phase r = SCORING ->
  Permutation (Deck.cards Deck.init) arrangement ->
  exists h1 points w',
    Round.score_round (fst w, r) = Returns (h1, Round.set_phase COMPLETE r) points /\
    Game.end_round arrangement w = Game.Done w' points /\
    game_ok w' /\
    Game.apprentices (snd w') = Game.apprentices (snd w) /\
    Game.round_history (snd w')
    = Game.round_history (snd w) ++ [Some (Round.set_phase COMPLETE r)] /\
    Game.experience_points_history (snd w')
    = Game.experience_points_history (snd w) ++ [points] /\
    (forall b, Apprentice.experience_points (fst w' b) = Apprentice.experience_points (h1 b)) /\
    one_dealer (fst w') (Game.apprentices (snd w))
               ((Round.dealer_index r + 1) mod len (Game.apprentices (snd w))) /\
    (Game.current_round_number (snd w) < Game.max_rounds (snd w) ->
     Game.phase (snd w') = ROUND_IN_PROGRESS /\
     Game.current_round_number (snd w') = Game.current_round_number (snd w) + 1 /\
     exists r',
       Game.current_round (snd w') = Some r' /\
       Round.phase r' = PREDICTING /\
       Round.round_number r' = Game.current_round_number (snd w) + 1 /\
       Round.dealer_index r'
       = (Round.dealer_index r + 1) mod len (Game.apprentices (snd w))) /\
    (Game.max_rounds (snd w) <= Game.current_round_number (snd w) ->
     Game.phase (snd w') = GAME_OVER /\
     Game.current_round_number (snd w') = Game.current_round_number (snd w) /\
     Game.current_round (snd w') = Some (Round.set_phase COMPLETE r) /\
     Round.fresh (fst w') (Game.apprentices (snd w))).
Proof.
  intros Hok Hph Hr Hsc Hperm.
  pose proof Hok as [G1 [G2 [G3 [G4 [G5 G6]]]]]. rewrite Hph in G6.
  destruct G6 as [r0 [E [Hreach [Hdealt [Happ [Hnum [Hcrn [Hhist Hone]]]]]]]].
  rewrite Hr in E. injection E as <-.
  destruct (scoring_completes (fst w, r) Hreach) as [h1 [pts [Hscore _]]];
    [cbn [snd]; now rewrite Happ | cbn [snd]; lia | exact Hsc |].
  cbn [snd] in Hscore.
  pose proof (sp_score_round (fst w, r)) as Hb1. rewrite Hscore in Hb1.
  cbn [final_state fst] in Hb1.
  destruct (max_rounds_fit _ _ G2 G3) as [Hmax Hfit].
  set (done := Round.set_phase COMPLETE r).
  set (g2 := Game.set_round_history (Game.round_history (snd w) ++ [Some done])
               (Game.set_experience_points_history
                  (Game.experience_points_history (snd w) ++ [pts])
                  (Game.set_current_round (Some done) (snd w)))).
  destruct (rotate_dealer_moves h1 g2 (Round.dealer_index r) G1
              (one_dealer_badge _ _ _ _ Hb1 Hone)) as [h2 [Hrot [Hone2 Hflag]]].
  destruct (reset_all_resets (Game.apprentices (snd w)) h2 g2)
    as [h3 [Hreset [Hfresh [Hkeep _]]]].
  assert (Hone3 : one_dealer h3 (Game.apprentices (snd w))
                    ((Round.dealer_index r + 1) mod len (Game.apprentices (snd w))))
    by (apply (one_dealer_badge h2); [intros b; apply Hkeep | exact Hone2]).
  assert (Hxp3 : forall b, Apprentice.experience_points (h3 b)
                           = Apprentice.experience_points (h1 b)).
  { intros b. rewrite (proj2 (Hkeep b)). destruct (Hflag b) as [flag ->]. reflexivity. }
  assert (Hfiled : filed (Game.round_history (snd w) ++ [Some done])).
  { apply filed_snoc; [exact G4 | | reflexivity]. unfold done. round_fields. lia. }
  assert (Hlens : List.length (Game.experience_points_history (snd w) ++ [pts])
                  = List.length (Game.round_history (snd w) ++ [Some done]))
    by (rewrite !length_app; simpl; lia).
  assert (Hlen2 : len (Game.round_history (snd w) ++ [Some done])
                  = Game.current_round_number (snd w))
    by (rewrite len_snoc; lia).
  assert (Hprefix :
            Game.end_round arrangement w
            = Game.bind (if Game.max_rounds (snd w) <=? Game.current_round_number (snd w)
                         then Game.update (Game.set_phase GAME_OVER)
                         else Game._start_next_round arrangement)
                        (fun _ => Game.ret pts) (h3, g2)).
  { unfold Game.end_round. unfold Game.bind at 1. unfold Game.self_ at 1.
    rewrite Hr, Hsc. cbv beta iota zeta delta [negb RoundPhase_eqb RoundPhase_eq_dec
      RoundPhase_rec RoundPhase_rect sumbool_rec sumbool_rect].
    unfold Game.bind at 1. unfold Game.on_round. rewrite Hscore. cbn [fst snd].
    fold done.
    unfold Game.bind at 1. unfold Game.update at 1.
    unfold Game.bind at 1. unfold Game.update at 1. game_fields. fold g2.
    unfold Game.bind at 1. rewrite Hrot.
    unfold Game.bind at 1. rewrite Hreset.
    unfold Game.bind at 1. unfold Game.self_ at 1. reflexivity. }
  rewrite Hprefix. clear Hprefix.
  exists h1, pts.
  destruct (Z.leb_spec (Game.max_rounds (snd w)) (Game.current_round_number (snd w)))
    as [Hover|Hmore].
  - eexists. split; [exact Hscore|]. split; [reflexivity|].
    unfold Game.bind, Game.update, Game.ret. cbn [fst snd].
    split.
    { unfold game_ok, g2. game_fields.
      split; [exact G1|]. split; [exact G2|]. split; [exact G3|].
      split; [exact Hfiled|]. split; [exact Hlens|].
      exists done. split; [reflexivity|]. split; [reflexivity|].
      split; [lia|]. rewrite Hlen2. lia. }
    unfold g2. game_fields.
    split; [reflexivity|]. split; [reflexivity|]. split; [reflexivity|].
    split; [exact Hxp3|]. split; [exact Hone3|].
    split; [intros H; lia|]. intros _.
    split; [reflexivity|]. split; [reflexivity|]. split; [reflexivity|].
    exact Hfresh.
  - destruct (start_next_round_deals h3 g2
                ((Round.dealer_index r + 1) mod len (Game.apprentices (snd w)))
                arrangement G1) as [h4 [r' H]];
      try (unfold g2; game_fields);
      [lia | nia | exact Hfresh | exact Hone3 | exact Hperm |].
    destruct H as [Hstart [Hreach' [Hph' [Happ' [Hnum' [Hd' Hkeep']]]]]].
    unfold g2 in Happ', Hnum', Hstart. game_fields.
    cbn [Game.apprentices Game.set_round_history Game.set_experience_points_history
         Game.set_current_round Game.current_round_number] in Happ', Hnum', Hstart.
    eexists. split; [exact Hscore|].
    unfold Game.bind. fold g2. unfold g2 at 1. rewrite Hstart. unfold Game.ret.
    split; [reflexivity|].
    split.
    { unfold game_ok, g2. game_fields.
      split; [exact G1|]. split; [exact G2|]. split; [exact G3|].
      split; [exact Hfiled|]. split; [exact Hlens|].
      exists r'. split; [reflexivity|]. split; [exact Hreach'|].
      split; [rewrite Hph'; discriminate|]. split; [exact Happ'|].
      split; [exact Hnum'|]. split; [lia|]. split; [rewrite Hlen2; lia|].
      rewrite Hd'. apply (one_dealer_badge h3); [intros b; apply Hkeep' | exact Hone3]. }
    unfold g2. game_fields.
    split; [reflexivity|]. split; [reflexivity|]. split; [reflexivity|].
    split; [intros b; rewrite (proj2 (Hkeep' b)); apply Hxp3|].
    split; [apply (one_dealer_badge h3); [intros b; apply Hkeep' | exact Hone3]|].
    split; [|intros H; lia]. intros _.
    split; [reflexivity|]. split; [reflexivity|].
    exists r'. now repeat split.
Qed.

Lemma start_game_cases (w : Game.world) (arrangement : list Card.t) :
  game_ok w ->
  Permutation (Deck.cards Deck.init) arrangement ->
  (Game.phase (snd w) <> SETUP /\
   Game.start_game arrangement w = Game.Failed w (Builtin ValueError)) \/
  (Game.phase (snd w) = SETUP /\
   exists w',
     Game.start_game arrangement w = Game.Done w' tt /\
     game_ok w' /\
     Game.phase (snd w') = ROUND_IN_PROGRESS /\
     Game.current_round_number (snd w') = 1).
Proof.
  intros Hok Hperm.
  destruct (GamePhase_eq_dec (Game.phase (snd w)) SETUP) as [Hph|Hph].
  - right. split; [exact Hph|].
    destruct Hok as [G1 [G2 [G3 [G4 [G5 G6]]]]]. rewrite Hph in G6.
    destruct G6 as [Hcrn [Hnone [Hhist [Hfresh [d Hone]]]]].
    destruct w as [h g]. cbn [fst snd] in *.
    destruct (start_next_round_deals h g d arrangement G1) as [h' [r H]];
      [lia | rewrite Hcrn; lia | exact Hfresh | exact Hone | exact Hperm |].
    destruct H as [Hstart [Hreach [Hph' [Happ [Hnum [Hd Hkeep]]]]]].
    destruct (max_rounds_fit _ _ G2 G3) as [Hmax _].
    eexists. split; [|split; [|split]].
    + unfold Game.start_game, Game.bind, Game.self_. cbn [fst snd].
      rewrite Hph. exact Hstart.
    + unfold game_ok. game_fields.
      repeat (split; [assumption|]).
      exists r. split; [reflexivity|]. split; [exact Hreach|].
      split; [rewrite Hph'; discriminate|]. split; [exact Happ|].
      split; [exact Hnum|]. split; [lia|].
      split; [rewrite Hhist, Hcrn; reflexivity|].
      rewrite Hd. apply (one_dealer_badge h); [intros b; apply Hkeep | exact Hone].
    + reflexivity.
    + game_fields. lia.
  - left. split; [exact Hph|].
    unfold Game.start_game, Game.bind, Game.self_, GamePhase_eqb.
    destruct (GamePhase_eq_dec (Game.phase (snd w)) SETUP); [contradiction | reflexivity].
Qed.

Lemma end_round_cases (w : Game.world) (arrangement : list Card.t) :
  game_ok w ->
  Permutation (Deck.cards Deck.init) arrangement ->
  Game.end_round arrangement w = Game.Failed w (Builtin ValueError) \/
  exists r,
    Game.phase (snd w) = ROUND_IN_PROGRESS /\
    Game.current_round (snd w) = Some r /\
    Round.phase r = SCORING.
Proof.
  intros Hok Hperm.
  unfold Game.end_round, Game.bind at 1, Game.self_ at 1.
  destruct (Game.current_round (snd w)) as [r|] eqn:Hr; [|now left].
  unfold RoundPhase_eqb.
  destruct (RoundPhase_eq_dec (Round.phase r) SCORING) as [Hsc|Hsc]; [|now left].
  right. exists r. split; [|now split].
  destruct Hok as [_ [_ [_ [_ [_ G6]]]]].
  destruct (Game.phase (snd w)); [|reflexivity|].
  - destruct G6 as [_ [E _]]. rewrite Hr in E. discriminate.
  - destruct G6 as [r' [E [Hc _]]]. rewrite Hr in E. injection E as <-.
    rewrite Hsc in Hc. discriminate.
Qed.

Lemma reachable_game_ok (w : Game.world) : game_reachable w -> game_ok w.
Proof.
  induction 1 as [names refs d h w Hnd Hlen Hd Hinit | w arr _ IH Hperm | w a p _ IH
                 | w c _ IH | w a i _ IH | w arr _ IH Hperm].
  - exact (game_ok_created names refs d h w Hnd Hlen Hd Hinit).
  - destruct (start_game_cases w arr IH Hperm) as [[_ ->] | [_ [w' [-> [Hok _]]]]];
      [exact IH | exact Hok].
  - apply (game_ok_round_call (Round.make_prediction a p) w IH).
    + intros v. apply step_predict.
    + intros v. apply Round.reach_predict.
    + apply sp_make_prediction.
  - apply (game_ok_round_call (Round.set_dealer_chosen_trump c) w IH).
    + intros v. apply step_trump.
    + intros v. apply Round.reach_trump.
    + apply sp_set_dealer_chosen_trump.
  - apply (game_ok_round_call (Round.play_card a i) w IH).
    + intros v. apply step_play.
    + intros v. apply Round.reach_play.
    + apply sp_play_card.
  - destruct (end_round_cases w arr IH Hperm) as [-> | [r [Hph [Hr Hsc]]]]; [exact IH|].
    destruct (end_round_returns w r arr IH Hph Hr Hsc Hperm)
      as [h1 [pts [w' [_ [-> [Hok _]]]]]].
    exact Hok.
Qed.

(** ** The game: what its methods can do *)

Lemma make_prediction_raises_only (v v' : Round.world) (a : ref) (p : Z) (e : exn) :
  turn_ok (snd v) ->
  Round.make_prediction a p v = Raises v' e -> e = ValueError.
Proof.
  intros Ht H.
  destruct (RoundPhase_eq_dec (Round.phase (snd v)) PREDICTING) as [Hph|Hph].
  - destruct (make_prediction_cases v a p Ht)
      as [[[E | E] _] | [_ [_ [[_ E] | [_ [first E]]]]]];
      [contradiction | | rewrite E in H; discriminate H | rewrite E in H; discriminate H].
    rewrite make_prediction_out_of_range in H by assumption. discriminate H.
  - destruct (wrong_phase_raises v) as [_ [G _]]. rewrite (proj2 (G Hph) a p) in H.
    now inversion H.
Qed.

Lemma set_dealer_chosen_trump_raises_only (v v' : Round.world) (c : CardColor) (e : exn) :
  Round.set_dealer_chosen_trump c v = Raises v' e -> e = ValueError.
Proof.
  unfold Round.set_dealer_chosen_trump, bind, Round.self_, Round.update, modify, raise.
  destruct (negb (RoundPhase_eqb (Round.phase (snd v)) PREDICTING));
    [intros H; now inversion H|].
  destruct (Round.trump_card (snd v)) as [card|]; [|intros H; now inversion H].
  destruct (negb (CardType_eqb (Card.card_type card) WIZARD)); intros H; now inversion H.
Qed.

Lemma play_card_raises_only (v v' : Round.world) (a : ref) (i : Z) (e : exn) :
  Round.reachable v ->
  NoDup (Round.apprentices (snd v)) -> 1 <= Round.round_number (snd v) ->
  Round.play_card a i v = Raises v' e -> e = ValueError.
Proof.
  intros Hr Hnd Hn H.
  destruct (play_card_cases v a i Hnd (reachable_turn_ok v Hr)
                            (reachable_table_ok v Hr Hnd Hn))
    as [[E | E] | [trick [card [l [rest [_ [_ [_ [_ [_ [_ Hc]]]]]]]]]]].
  - rewrite E in H. now inversion H.
  - rewrite E in H. discriminate H.
  - cbv zeta in Hc.
    destruct Hc as [[_ E] | [_ [done [win [j [_ [_ [_ [_ [[_ E] | [_ E]]]]]]]]]]];
      rewrite E in H; discriminate H.
Qed.

Lemma round_call_refuses {A} (op : M Round.world A) (w : Game.world) :
  game_ok w ->
  (forall r v' e,
     Round.reachable (fst w, r) ->
     NoDup (Round.apprentices r) -> 1 <= Round.round_number r ->
     op (fst w, r) = Raises v' e -> e = ValueError) ->
  returns_or_refuses
    (Game.bind Game.self_
       (fun self =>
          if negb (GamePhase_eqb (Game.phase self) ROUND_IN_PROGRESS)
          then Game.fail (Builtin ValueError)
          else match Game.current_round self with
               | None => Game.fail (Builtin ValueError)
               | Some r => Game.on_round r op
               end) w).
Proof.
  intros Hok Hop.
  destruct (round_call_cases op w) as [-> | [r [Hph [Hr ->]]]]; [reflexivity|].
  destruct Hok as [G1 [_ [_ [_ [_ G6]]]]]. rewrite Hph in G6.
  destruct G6 as [r0 [E [Hreach [_ [Happ [Hnum [Hcrn _]]]]]]].
  rewrite Hr in E. injection E as <-.
  unfold Game.on_round. destruct (op (fst w, r)) as [v' x|v' e] eqn:Eop; [exact I|].
  simpl. f_equal. apply (Hop r v' e Hreach); [now rewrite Happ | lia | exact Eop].
Qed.

Lemma max_by_spec (key : ref -> Z) (l : list ref) :
  forall best,
    In (max_by key best l) (best :: l) /\
    forall x, In x (best :: l) -> key x <= key (max_by key best l).
Proof.
  induction l as [|y l IH]; intros best.
  - simpl. split; [now left|]. intros x [->|[]]. lia.
  - simpl max_by. destruct (Z.ltb_spec (key best) (key y)) as [Hlt|Hge].
    + destruct (IH y) as [I1 I2]. split.
      * destruct I1 as [<- | I1]; [right; now left | right; now right].
      * intros x [-> | [-> | Hx]];
          [pose proof (I2 y (or_introl eq_refl)); lia
          | apply I2; now left | apply I2; now right].
    + destruct (IH best) as [I1 I2]. split.
      * destruct I1 as [<- | I1]; [now left | right; now right].
      * intros x [-> | [-> | Hx]];
          [apply I2; now left
          | pose proof (I2 best (or_introl eq_refl)); lia | apply I2; now right].
Qed.

(** [Game.__init__] refuses fewer than 3 or more than 6 names with
    ValueError, before it creates any apprentice or draws the dealer:
    whatever identities and index would have followed.  Otherwise, the
    new objects being distinct and the index drawn within its bounds, it
    creates one apprentice per name, each with an empty hand, no
    prediction, no trick and no point; flags as dealer exactly the one
    at the index drawn and as confidant exactly the one at the next
    seat; starts in Setup with no round; and fixes [max_rounds] to
    60 // n, the largest number of cards per apprentice the deck of 60
    can supply. *)
Theorem game_init_sets_up (names : list string) :
  (len names < 3 \/ 6 < len names ->
   forall refs d h, Game.init names refs d h = Err ValueError) /\
  (3 <= len names <= 6 ->
   forall refs d h,
     NoDup refs ->
     List.length refs = List.length names ->
     0 <= d <= len names - 1 ->
     exists h' m,
       Game.init names refs d h = Ok (h', Game.mk refs m 0 None [] SETUP []) /\
       Game._calculate_max_rounds (len names) = Ok m /\
       len names * m <= 60 < len names * (m + 1) /\
       (forall k r n,
          nth_error refs k = Some r -> nth_error names k = Some n ->
          h' r = Apprentice.mk n [] None 0 0 (Z.of_nat k =? d)
                               (Z.of_nat k =? (d + 1) mod len names)) /\
       (forall b, ~ In b refs -> h' b = h b)).
Proof.
  split.
  - intros Hn refs d h. unfold Game.init.
    replace ((len names <? 3) || (6 <? len names)) with true; [reflexivity|].
    symmetry. apply orb_true_iff. destruct Hn; [left | right]; apply Z.ltb_lt; lia.
  - intros Hn refs d h Hnd Hlen Hd.
    destruct (game_init_returns names refs d h Hnd Hlen Hn Hd) as [h' [E [Hobj Hout]]].
    assert (Hlen' : len refs = len names) by (unfold len; now rewrite Hlen).
    rewrite Hlen' in *.
    exists h', (60 / len names). split; [exact E|].
    split.
    { unfold Game._calculate_max_rounds, py_floordiv.
      now replace (len names =? 0) with false by (symmetry; apply Z.eqb_neq; lia). }
    split; [|split; [exact Hobj | exact Hout]].
    pose proof (Z.mul_div_le 60 (len names) ltac:(lia)).
    pose proof (Z.mul_succ_div_gt 60 (len names) ltac:(lia)). lia.
Qed.

Lemma scoring_round_in_progress (w : Game.world) (r : Round.t) :
  game_ok w ->
  Game.current_round (snd w) = Some r ->
  Round.phase r = SCORING ->
  Game.phase (snd w) = ROUND_IN_PROGRESS.
Proof.
  intros [_ [_ [_ [_ [_ G6]]]]] Hr Hsc.
  destruct (Game.phase (snd w)); [|reflexivity|].
  - destruct G6 as [_ [E _]]. rewrite Hr in E. discriminate.
  - destruct G6 as [r' [E [Hc _]]]. rewrite Hr in E. injection E as <-.
    rewrite Hsc in Hc. discriminate.
Qed.

(** [Game.end_round] turns the page.  Without a round in Scoring it
    raises ValueError and changes nothing.  On a game driven through its
    own methods whose round is in Scoring it returns what
    [Round.score_round] returns, files these points and the round, now
    Complete, at the end of the two histories, keeps the experience
    points just credited, and passes the dealer flag to the next seat,
    the one [Round.get_next_dealer_index] names.
    Then, if [current_round_number] is below [max_rounds], a round with
    the next number and the new dealer is in progress, already dealt;
    otherwise the game is over, the number stays, and every apprentice
    is left reset. *)
Theorem end_round_turns_the_page (w : Game.world) (r : Round.t)
    (arrangement : list Card.t) :
  game_reachable w ->
  Game.current_round (snd w) = Some r ->
  Round.phase r = SCORING ->
  Permutation (Deck.cards Deck.init) arrangement ->
  (forall v,
     Game.current_round (snd v) = None \/
     (exists r0, Game.current_round (snd v) = Some r0 /\ Round.phase r0 <> SCORING) ->
     Game.end_round arrangement v = Game.Failed v (Builtin ValueError)) /\
  exists h1 points w',
    Round.score_round (fst w, r) = Returns (h1, Round.set_phase COMPLETE r) points /\
    Game.end_round arrangement w = Game.Done w' points /\
    Game.apprentices (snd w') = Game.apprentices (snd w) /\
    Game.round_history (snd w')
    = Game.round_history (snd w) ++ [Some (Round.set_phase COMPLETE r)] /\
    Game.experience_points_history (snd w')
    = Game.experience_points_history (snd w) ++ [points] /\
    (forall b, Apprentice.experience_points (fst w' b)
               = Apprentice.experience_points (h1 b)) /\
    Round.get_next_dealer_index r
    = Ok ((Round.dealer_index r + 1) mod len (Game.apprentices (snd w))) /\
    one_dealer (fst w') (Game.apprentices (snd w))
               ((Round.dealer_index r + 1) mod len (Game.apprentices (snd w))) /\
    (Game.current_round_number (snd w) < Game.max_rounds (snd w) ->
     Game.phase (snd w') = ROUND_IN_PROGRESS /\
     Game.current_round_number (snd w') = Game.current_round_number (snd w) + 1 /\
     exists r',
       Game.current_round (snd w') = Some r' /\
       Round.phase r' = PREDICTING /\
       Round.round_number r' = Game.current_round_number (snd w) + 1 /\
       Round.dealer_index r'
       = (Round.dealer_index r + 1) mod len (Game.apprentices (snd w))) /\
    (Game.max_rounds (snd w) <= Game.current_round_number (snd w) ->
     Game.phase (snd w') = GAME_OVER /\
     Game.current_round_number (snd w') = Game.current_round_number (snd w) /\
     Game.current_round (snd w') = Some (Round.set_phase COMPLETE r) /\
     Round.fresh (fst w') (Game.apprentices (snd w))).
Proof.
  intros Hreach Hr Hsc Hperm. split.
  - intros v H. unfold Game.end_round, Game.bind at 1, Game.self_ at 1.
    destruct H as [-> | [r0 [-> Hsc0]]]; [reflexivity|].
    unfold RoundPhase_eqb.
    destruct (RoundPhase_eq_dec (Round.phase r0) SCORING); [contradiction | reflexivity].
  - pose proof (reachable_game_ok w Hreach) as Hok.
    pose proof (scoring_round_in_progress w r Hok Hr Hsc) as Hph.
    destruct (end_round_returns w r arrangement Hok Hph Hr Hsc Hperm)
      as [h1 [pts [w' [H1 [H2 [_ [H3 [H4 [H5 [H6 H7]]]]]]]]]].
    exists h1, pts, w'. split; [exact H1|]. split; [exact H2|].
    split; [exact H3|]. split; [exact H4|]. split; [exact H5|]. split; [exact H6|].
    split; [|exact H7].
    destruct Hok as [_ [G2 [_ [_ [_ G6]]]]]. rewrite Hph in G6.
    destruct G6 as [r0 [E [_ [_ [Happ _]]]]]. rewrite Hr in E. injection E as <-.
    unfold Round.get_next_dealer_index, py_mod. rewrite Happ.
    now replace (len (Game.apprentices (snd w)) =? 0) with false
      by (symmetry; apply Z.eqb_neq; lia).
Qed.

(** A game driven through its own methods stays sound.  Whatever was
    called, and whether the calls returned or raised: the game has 3 to
    6 distinct apprentices and [max_rounds] is 60 // n; the history
    holds complete rounds numbered 1, 2, ...; in Setup there is no
    round and the apprentices are untouched; while a round is in
    progress it is a state the round's own operations reach from its
    constructor, dealt, over the game's apprentices, numbered
    [current_round_number] between 1 and [max_rounds], and exactly the
    apprentice at its [dealer_index] is flagged dealer; when the game
    is over [max_rounds] rounds are on file.  No call ends in an
    exception other than ValueError: the [next] that looks for the
    dealer always finds one, no round is created that the deck cannot
    deal.  [get_current_apprentice] never raises, and [get_winner]
    returns [None] until the game is over and then an apprentice whose
    experience points no other exceeds. *)
Theorem game_is_sound (w : Game.world) :
  game_reachable w ->
  game_ok w /\
  (forall arrangement,
     Permutation (Deck.cards Deck.init) arrangement ->
     returns_or_refuses (Game.start_game arrangement w) /\
     returns_or_refuses (Game.end_round arrangement w)) /\
  (forall a p, returns_or_refuses (Game.make_prediction a p w)) /\
  (forall a i, returns_or_refuses (Game.play_card a i w)) /\
  (forall color, returns_or_refuses (Game.set_dealer_chosen_trump color w)) /\
  (exists o, Game.get_current_apprentice (snd w) = Ok o) /\
  (Game.phase (snd w) <> GAME_OVER -> Game.get_winner (fst w) (snd w) = Ok None) /\
  (Game.phase (snd w) = GAME_OVER ->
   exists a,
     Game.get_winner (fst w) (snd w) = Ok (Some a) /\
     In a (Game.apprentices (snd w)) /\
     forall b, In b (Game.apprentices (snd w)) ->
               Apprentice.experience_points (fst w b)
               <= Apprentice.experience_points (fst w a)).
Proof.
  intros Hreach. pose proof (reachable_game_ok w Hreach) as Hok.
  split; [exact Hok|]. split; [|split; [|split; [|split; [|split; [|split]]]]].
  - intros arr Hperm. split.
    + destruct (start_game_cases w arr Hok Hperm) as [[_ ->] | [_ [w' [-> _]]]];
        [reflexivity | exact I].
    + destruct (end_round_cases w arr Hok Hperm) as [-> | [r [Hph [Hr Hsc]]]];
        [reflexivity|].
      destruct (end_round_returns w r arr Hok Hph Hr Hsc Hperm)
        as [h1 [pts [w' [_ [-> _]]]]].
      exact I.
  - intros a p. apply (round_call_refuses (Round.make_prediction a p) w Hok).
    intros r v' e Hr _ _. apply make_prediction_raises_only.
    exact (reachable_turn_ok _ Hr).
  - intros a i. apply (round_call_refuses (Round.play_card a i) w Hok).
    intros r v' e Hr Hnd Hn. now apply play_card_raises_only.
  - intros c. apply (round_call_refuses (Round.set_dealer_chosen_trump c) w Hok).
    intros r v' e _ _ _. apply set_dealer_chosen_trump_raises_only.
  - unfold Game.get_current_apprentice.
    destruct (Game.current_round (snd w)) as [r|] eqn:Hr; [|now exists None].
    unfold GamePhase_eqb.
    destruct (GamePhase_eq_dec (Game.phase (snd w)) ROUND_IN_PROGRESS) as [Hph|Hph];
      [|now exists None].
    destruct Hok as [_ [_ [_ [_ [_ G6]]]]]. rewrite Hph in G6.
    destruct G6 as [r0 [E [Hr0 _]]]. rewrite Hr in E. injection E as <-.
    destruct (reachable_turn_ok _ Hr0) as [Hidx _]. cbn [snd] in Hidx.
    destruct (py_getitem_in_range _ _ Hidx) as [a Ha].
    unfold Round.get_current_apprentice. rewrite Ha.
    destruct (RoundPhase_eqb (Round.phase r) PLAYING); eexists; reflexivity.
  - intros Hph. unfold Game.get_winner, GamePhase_eqb.
    destruct (GamePhase_eq_dec (Game.phase (snd w)) GAME_OVER); [contradiction|reflexivity].
  - intros Hph. unfold Game.get_winner, GamePhase_eqb.
    destruct (GamePhase_eq_dec (Game.phase (snd w)) GAME_OVER); [|contradiction].
    destruct Hok as [_ [G2 _]].
    destruct (Game.apprentices (snd w)) as [|a rest];
      [unfold len in G2; simpl in G2; lia|].
    destruct (max_by_spec (fun b => Apprentice.experience_points (fst w b)) rest a)
      as [M1 M2].
    eexists. split; [reflexivity|]. split; [exact M1 | exact M2].
Qed.

Lemma game_of_three_created :
  Game.init ["Ada"; "Bob"; "Cleo"]%string [0%nat; 1%nat; 2%nat] 0 players
  = Ok game_of_three.
Proof. reflexivity. Qed.

Lemma game_round_one_reachable : game_reachable game_round_one.
Proof.
  unfold game_round_one.
  do 3 apply game_played. do 3 apply game_predicted.
  apply game_started; [|apply Permutation_refl].
  apply (game_created ["Ada"; "Bob"; "Cleo"]%string [0%nat; 1%nat; 2%nat] 0 players).
  - exact three_seats_distinct.
  - reflexivity.
  - unfold len. simpl. lia.
  - exact game_of_three_created.
Qed.

Lemma game_round_one_facts :
  Game.current_round (snd game_round_one) = Some (snd round_one_played).
Proof. vm_compute. reflexivity. Qed.

Lemma game_init_sets_up_witness :
  (forall refs d h, Game.init [] refs d h = Err ValueError) /\
  (forall refs d h,
     Game.init ["Ada"; "Bob"]%string refs d h = Err ValueError) /\
  (forall refs d h,
     Game.init ["Ada"; "Bob"; "Cleo"; "Dan"; "Eve"; "Finn"; "Gus"]%string refs d h
     = Err ValueError) /\
  exists h' m,
    Game.init ["Ada"; "Bob"; "Cleo"]%string [0%nat; 1%nat; 2%nat] 0 players
    = Ok (h', Game.mk [0%nat; 1%nat; 2%nat] m 0 None [] SETUP []) /\
    Game._calculate_max_rounds (len ["Ada"; "Bob"; "Cleo"]%string) = Ok m /\
    len ["Ada"; "Bob"; "Cleo"]%string * m <= 60
    < len ["Ada"; "Bob"; "Cleo"]%string * (m + 1) /\
    (forall k r n,
       nth_error [0%nat; 1%nat; 2%nat] k = Some r ->
       nth_error ["Ada"; "Bob"; "Cleo"]%string k = Some n ->
       h' r = Apprentice.mk n [] None 0 0 (Z.of_nat k =? 0)
                            (Z.of_nat k =? (0 + 1) mod len ["Ada"; "Bob"; "Cleo"]%string)) /\
    (forall b, ~ In b [0%nat; 1%nat; 2%nat] -> h' b = players b).
Proof.
  split; [|split; [|split]].
  - apply (proj1 (game_init_sets_up [])). left. unfold len. simpl. lia.
  - apply (proj1 (game_init_sets_up ["Ada"; "Bob"]%string)).
    left. unfold len. simpl. lia.
  - apply (proj1 (game_init_sets_up
                    ["Ada"; "Bob"; "Cleo"; "Dan"; "Eve"; "Finn"; "Gus"]%string)).
    right. unfold len. simpl. lia.
  - apply (proj2 (game_init_sets_up ["Ada"; "Bob"; "Cleo"]%string)).
    + unfold len. simpl. lia.
    + exact three_seats_distinct.
    + reflexivity.
    + unfold len. simpl. lia.
Defined.

Lemma end_round_turns_the_page_witness :
  (forall v,
     Game.current_round (snd v) = None \/
     (exists r0, Game.current_round (snd v) = Some r0 /\ Round.phase r0 <> SCORING) ->
     Game.end_round (Deck.cards Deck.init) v = Game.Failed v (Builtin ValueError)) /\
  exists h1 points w',
    Round.score_round (fst game_round_one, snd round_one_played)
    = Returns (h1, Round.set_phase COMPLETE (snd round_one_played)) points /\
    Game.end_round (Deck.cards Deck.init) game_round_one = Game.Done w' points /\
    Game.apprentices (snd w') = Game.apprentices (snd game_round_one) /\
    Game.round_history (snd w')
    = Game.round_history (snd game_round_one)
      ++ [Some (Round.set_phase COMPLETE (snd round_one_played))] /\
    Game.experience_points_history (snd w')
    = Game.experience_points_history (snd game_round_one) ++ [points] /\
    (forall b, Apprentice.experience_points (fst w' b)
               = Apprentice.experience_points (h1 b)) /\
    Round.get_next_dealer_index (snd round_one_played)
    = Ok ((Round.dealer_index (snd round_one_played) + 1)
          mod len (Game.apprentices (snd game_round_one))) /\
    one_dealer (fst w') (Game.apprentices (snd game_round_one))
               ((Round.dealer_index (snd round_one_played) + 1)
                mod len (Game.apprentices (snd game_round_one))) /\
    (Game.current_round_number (snd game_round_one) < Game.max_rounds (snd game_round_one) ->
     Game.phase (snd w') = ROUND_IN_PROGRESS /\
     Game.current_round_number (snd w')
     = Game.current_round_number (snd game_round_one) + 1 /\
     exists r',
       Game.current_round (snd w') = Some r' /\
       Round.phase r' = PREDICTING /\
       Round.round_number r' = Game.current_round_number (snd game_round_one) + 1 /\
       Round.dealer_index r'
       = (Round.dealer_index (snd round_one_played) + 1)
         mod len (Game.apprentices (snd game_round_one))) /\
    (Game.max_rounds (snd game_round_one) <= Game.current_round_number (snd game_round_one) ->
     Game.phase (snd w') = GAME_OVER /\
     Game.current_round_number (snd w') = Game.current_round_number (snd game_round_one) /\
     Game.current_round (snd w') = Some (Round.set_phase COMPLETE (snd round_one_played)) /\
     Round.fresh (fst w') (Game.apprentices (snd game_round_one))).
Proof.
  apply (end_round_turns_the_page game_round_one (snd round_one_played)
                                  (Deck.cards Deck.init)).
  - exact game_round_one_reachable.
  - exact game_round_one_facts.
  - exact (proj1 round_one_played_facts).
  - apply Permutation_refl.
Defined.

Lemma game_is_sound_witness :
  game_ok game_round_one /\
  (forall arrangement,
     Permutation (Deck.cards Deck.init) arrangement ->
     returns_or_refuses (Game.start_game arrangement game_round_one) /\
     returns_or_refuses (Game.end_round arrangement game_round_one)) /\
  (forall a p, returns_or_refuses (Game.make_prediction a p game_round_one)) /\
  (forall a i, returns_or_refuses (Game.play_card a i game_round_one)) /\
  (forall color, returns_or_refuses (Game.set_dealer_chosen_trump color game_round_one)) /\
  (exists o, Game.get_current_apprentice (snd game_round_one) = Ok o) /\
  (Game.phase (snd game_round_one) <> GAME_OVER ->
   Game.get_winner (fst game_round_one) (snd game_round_one) = Ok None) /\
  (Game.phase (snd game_round_one) = GAME_OVER ->
   exists a,
     Game.get_winner (fst game_round_one) (snd game_round_one) = Ok (Some a) /\
     In a (Game.apprentices (snd game_round_one)) /\
     forall b, In b (Game.apprentices (snd game_round_one)) ->
               Apprentice.experience_points (fst game_round_one b)
               <= Apprentice.experience_points (fst game_round_one a)).
Proof.
  apply (game_is_sound game_round_one game_round_one_reachable).
Defined.
